(** * The ideal-bundle planner of the default bundler

    A shallow embedding of [createIdealGraph] and its helpers from
    [packages/bundlers/default/src/DefaultBundler.js], and of
    [decorateLegacyGraph] and the [bundle] method that applies it to the
    plan, together with the properties of the planner that the specification
    states and further properties of the code.  The calls that
    [decorateLegacyGraph] makes on the host's bundle graph are recorded as a
    list of [HostCall]s.

    JavaScript objects are identified with their values: two [Asset] records
    are the same object exactly when they are equal.  [Map] and [Set] keep
    insertion order, so they are lists here.  Exceptions ([invariant],
    [nullthrows], a [TypeError] on a property of [undefined]) abort planning:
    they are the [Abort] results of the [Result] monad. *)

From stdpp Require Import gmap strings list fin_maps pretty.
From Stdlib Require Import ZArith.

Set Default Proof Using "Type".
#[local] Set Warnings "-clear-no-such-hyp".

(** ** Results of fallible code *)

Inductive Diagnostic :=
  | InvariantViolation (what : string)
  | NullThrows (what : string)
  | TypeError (what : string)
  | ReferenceError (what : string).

Inductive Result (A : Type) :=
  | Ok (a : A)
  | Abort (e : Diagnostic).
Arguments Ok {A} a.
Arguments Abort {A} e.

Global Instance Result_ret : MRet Result := λ A, Ok.
Global Instance Result_bind : MBind Result := λ A B f m,
  match m with
  | Ok a => f a
  | Abort e => Abort e
  end.

Definition nullthrows {A} (o : option A) (what : string) : Result A :=
  match o with
  | Some a => Ok a
  | None => Abort (NullThrows what)
  end.

Definition invariant (b : bool) (what : string) : Result unit :=
  if b then Ok () else Abort (InvariantViolation what).

Definition aborted {A} (r : Result A) : Prop := ∃ e, r = Abort e.

(** A [for] loop whose body may throw. *)
Fixpoint foldM {A S : Type} (f : S → A → Result S) (l : list A) (s : S) : Result S :=
  match l with
  | [] => Ok s
  | x :: l' => s' ← f s x; foldM f l' s'
  end.

(** [Array.prototype.filter] with a callback that may throw. *)
Fixpoint filterM {A : Type} (p : A → Result bool) (l : list A) : Result (list A) :=
  match l with
  | [] => Ok []
  | x :: l' =>
      keep ← p x;
      rest ← filterM p l';
      Ok (if keep : bool then x :: rest else rest)
  end.

(** [Array.prototype.map] with a callback that may throw. *)
Fixpoint mapM' {A B : Type} (f : A → Result B) (l : list A) : Result (list B) :=
  match l with
  | [] => Ok []
  | x :: l' => y ← f x; ys ← mapM' f l'; Ok (y :: ys)
  end.

(** ** JavaScript [Map], [Set] and [DefaultMap] *)

Section js_containers.
Context {K V : Type} `{EqDecision K}.

(** [Map.prototype.get] *)
Fixpoint jsmap_get (m : list (K * V)) (k : K) : option V :=
  match m with
  | [] => None
  | (k', v) :: m' => if decide (k = k') then Some v else jsmap_get m' k
  end.

(** [Map.prototype.set]: an existing key keeps its place in the iteration
    order, a new key goes last. *)
Fixpoint jsmap_set (m : list (K * V)) (k : K) (v : V) : list (K * V) :=
  match m with
  | [] => [(k, v)]
  | (k', v') :: m' =>
      if decide (k = k') then (k, v) :: m' else (k', v') :: jsmap_set m' k v
  end.

Definition jsmap_has (m : list (K * V)) (k : K) : bool :=
  bool_decide (is_Some (jsmap_get m k)).

(** Modelled from the spec: [get] of the [DefaultMap] of [@parcel/utils],
    which is not part of the bundler's source file.  The map initializes a
    missing key on a read (section 9): the key is first set to the default,
    so the read returns the map as well. *)
Definition defaultmap_get (dflt : V) (m : list (K * V)) (k : K) : V * list (K * V) :=
  match jsmap_get m k with
  | Some v => (v, m)
  | None => (dflt, jsmap_set m k dflt)
  end.

(** A read of a [DefaultMap] whose keys nobody observes afterwards. *)
Definition defaultmap_peek (dflt : V) (m : list (K * V)) (k : K) : V :=
  default dflt (jsmap_get m k).

(** [Set.prototype.add], [has], [delete]; [new Set(iterable)]. *)
Definition jsset_add (s : list K) (x : K) : list K :=
  if decide (x ∈ s) then s else s ++ [x].
Definition jsset_has (s : list K) (x : K) : bool := bool_decide (x ∈ s).
Definition jsset_delete (s : list K) (x : K) : list K :=
  filter (λ y, y ≠ x) s.
Definition jsset_of (l : list K) : list K := foldl jsset_add [] l.

(** Modelled from the spec: [setUnion] of [@parcel/utils], which is not part
    of the bundler's source file: a new set with the elements of both
    (section 4.4). *)
Definition setUnion (a b : list K) : list K := jsset_of (a ++ b).

(** Modelled from the spec: [setIntersect] of [@parcel/utils], the
    intersection in place of section 4.4: it removes from its first argument
    what the second does not have (the caller stores the result back into the
    object). *)
Definition setIntersect (a b : list K) : list K := filter (λ x, x ∈ b) a.
End js_containers.

(** ** Graph primitives *)

(** Modelled from the spec: the directed graph of [@parcel/core/src/Graph],
    which is not part of the bundler's source file.  Section 4.1 gives
    [addNode], [addEdge], [removeEdge], [removeNode] (which also removes the
    incident edges), [getNode] and the two neighbour queries; section 9 asks
    for an arena with integer ids.  A node id is the index of its slot; a
    removed node leaves an empty slot.  Iterating [nodes] goes by id, which is
    insertion order. *)
Record Graph (A : Type) := {
  nodes : list (option A);
  edges : list (nat * nat);
}.
Arguments nodes {A} _.
Arguments edges {A} _.

Section graph.
Context {A : Type}.

Definition emptyGraph : Graph A := {| nodes := []; edges := [] |}.

Definition addNode (g : Graph A) (x : A) : nat * Graph A :=
  (length (nodes g), {| nodes := nodes g ++ [Some x]; edges := edges g |}).

Definition getNode (g : Graph A) (i : nat) : option A := mjoin (nodes g !! i).

(** A mutation of the object stored in node [i]. *)
Definition updateNode (g : Graph A) (i : nat) (f : A → A) : Graph A :=
  match getNode g i with
  | Some x => {| nodes := <[i := Some (f x)]> (nodes g); edges := edges g |}
  | None => g
  end.

Definition addEdge (g : Graph A) (from to : nat) : Graph A :=
  if decide ((from, to) ∈ edges g) then g
  else {| nodes := nodes g; edges := edges g ++ [(from, to)] |}.

Definition removeEdge (g : Graph A) (from to : nat) : Graph A :=
  {| nodes := nodes g; edges := filter (λ e, e ≠ (from, to)) (edges g) |}.

Definition removeNode (g : Graph A) (i : nat) : Graph A :=
  {| nodes := <[i := None]> (nodes g);
     edges := filter (λ e, e.1 ≠ i ∧ e.2 ≠ i) (edges g) |}.

Definition getNodeIdsConnectedFrom (g : Graph A) (i : nat) : list nat :=
  snd <$> filter (λ e, e.1 = i) (edges g).

Definition getNodeIdsConnectedTo (g : Graph A) (i : nat) : list nat :=
  fst <$> filter (λ e, e.2 = i) (edges g).

(** The ids of the nodes present, in iteration order. *)
Definition nodeIds (g : Graph A) : list nat :=
  filter (λ i, is_Some (getNode g i)) (seq 0 (length (nodes g))).
End graph.

(** Modelled from the spec: the content-addressed graph of
    [@parcel/core/src/ContentGraph] (section 4.1): a graph whose nodes can be
    found by a string key, with labelled edges and [topoSort].  Nodes of a
    content graph are never removed by the planner. *)
Record ContentGraph (A L : Type) := {
  cg_nodes : list (option string * A);
  cg_edges : list (nat * nat * L);
  cg_rootNodeId : option nat;
}.
Arguments cg_nodes {A L} _.
Arguments cg_edges {A L} _.
Arguments cg_rootNodeId {A L} _.

Section content_graph.
Context {A L : Type} `{EqDecision L}.

Definition emptyContentGraph : ContentGraph A L :=
  {| cg_nodes := []; cg_edges := []; cg_rootNodeId := None |}.

Definition cg_addNode (g : ContentGraph A L) (x : A) : nat * ContentGraph A L :=
  (length (cg_nodes g),
   {| cg_nodes := cg_nodes g ++ [(None, x)]; cg_edges := cg_edges g;
      cg_rootNodeId := cg_rootNodeId g |}).

Definition setRootNodeId (g : ContentGraph A L) (i : nat) : ContentGraph A L :=
  {| cg_nodes := cg_nodes g; cg_edges := cg_edges g; cg_rootNodeId := Some i |}.

Definition lookupContentKey (g : ContentGraph A L) (key : string) : option nat :=
  fst <$> list_find (λ n, n.1 = Some key) (cg_nodes g).

Definition hasContentKey (g : ContentGraph A L) (key : string) : bool :=
  bool_decide (is_Some (lookupContentKey g key)).

Definition getNodeIdByContentKey (g : ContentGraph A L) (key : string) : Result nat :=
  nullthrows (lookupContentKey g key) "content key".

(** [addNodeByContentKey] is idempotent (section 4.1), which makes it the
    same operation as [addNodeByContentKeyIfNeeded]. *)
Definition addNodeByContentKeyIfNeeded (g : ContentGraph A L) (key : string) (x : A)
    : nat * ContentGraph A L :=
  match lookupContentKey g key with
  | Some i => (i, g)
  | None =>
      (length (cg_nodes g),
       {| cg_nodes := cg_nodes g ++ [(Some key, x)]; cg_edges := cg_edges g;
          cg_rootNodeId := cg_rootNodeId g |})
  end.

Definition addNodeByContentKey := addNodeByContentKeyIfNeeded.

Definition cg_getNode (g : ContentGraph A L) (i : nat) : option A :=
  snd <$> cg_nodes g !! i.

Definition cg_addEdge (g : ContentGraph A L) (from to : nat) (label : L)
    : ContentGraph A L :=
  if decide ((from, to, label) ∈ cg_edges g) then g
  else {| cg_nodes := cg_nodes g; cg_edges := cg_edges g ++ [(from, to, label)];
          cg_rootNodeId := cg_rootNodeId g |}.

Definition cg_connectedFrom (g : ContentGraph A L) (i : nat) : list nat :=
  (λ e, e.1.2) <$> filter (λ e, e.1.1 = i) (cg_edges g).

Definition cg_connectedTo (g : ContentGraph A L) (i : nat) : list nat :=
  (λ e, e.1.1) <$> filter (λ e, e.1.2 = i) (cg_edges g).

(** Depth-first post-order below [n]; the accumulator holds the visited
    nodes and the finished ones.  An edge to a visited node (a back edge
    among them) is ignored. *)
Fixpoint postorder (g : ContentGraph A L) (fuel : nat) (n : nat)
    (acc : list nat * list nat) : list nat * list nat :=
  match fuel with
  | 0 => acc
  | S fuel' =>
      let acc' :=
        foldl (λ acc c, if decide (c ∈ acc.1) then acc else postorder g fuel' c acc)
              (n :: acc.1, acc.2) (cg_connectedFrom g n) in
      (acc'.1, acc'.2 ++ [n])
  end.

(** [topoSort]: every edge [u → v] outside a cycle places [u] before [v].
    The search starts at the root node when there is one and goes on with
    the remaining nodes in insertion order. *)
Definition topoSort (g : ContentGraph A L) : list nat :=
  let n := length (cg_nodes g) in
  let starts := option_list (cg_rootNodeId g) ++ seq 0 n in
  reverse
    (foldl (λ acc s, if decide (s ∈ acc.1) then acc else postorder g (S n) s acc)
           ([], []) starts).2.
End content_graph.

(** ** Data model *)

Inductive BundleBehavior := inline | isolated.
Inductive DependencyPriority := sync | parallel | lazy.

Global Instance BundleBehavior_eq_dec : EqDecision BundleBehavior.
Proof. solve_decision. Defined.
Global Instance DependencyPriority_eq_dec : EqDecision DependencyPriority.
Proof. solve_decision. Defined.

Definition Target := string.

Record Environment := {
  env_context : string;
  env_isIsolated : bool;
}.
Global Instance Environment_eq_dec : EqDecision Environment.
Proof. solve_decision. Defined.

Record Asset := {
  asset_id : string;
  asset_type : string;
  asset_env : Environment;
  asset_bundleBehavior : option BundleBehavior;
  asset_size : Z;            (* [asset.stats.size] *)
  asset_filePath : string;
}.
Global Instance Asset_eq_dec : EqDecision Asset.
Proof. solve_decision. Defined.

Record Dependency := {
  dep_id : string;
  dep_priority : DependencyPriority;
  dep_isEntry : bool;
  dep_target : option Target;
  dep_bundleBehavior : option BundleBehavior;
  dep_needsStableName : bool;
}.
Global Instance Dependency_eq_dec : EqDecision Dependency.
Proof. solve_decision. Defined.

Record Bundle := {
  bundle_assets : list Asset;                 (* [Set<Asset>] *)
  bundle_internalizedAssetIds : list string;
  bundle_bundleBehavior : option BundleBehavior;
  bundle_needsStableName : bool;
  bundle_size : Z;
  bundle_sourceBundles : list nat;
  bundle_target : Target;
  bundle_env : Environment;
  bundle_type : string;
}.
Global Instance Bundle_eq_dec : EqDecision Bundle.
Proof. solve_decision. Defined.

Record ResolvedBundlerConfig := {
  minBundles : Z;
  minBundleSize : Z;
  maxParallelRequests : Z;
}.

(** A node of [dependencyBundleGraph].  A bundle node holds a reference to a
    bundle object, which is the id of that bundle in [bundleGraph]. *)
Inductive DependencyBundleNode :=
  | DBBundle (bundleId : nat)
  | DBDependency (d : Dependency).

(** A node of [asyncBundleRootGraph]. *)
Inductive AsyncRootNode :=
  | RootNode
  | BundleRootNode (a : Asset).

(** ** The asset graph of the host *)

Inductive AGNode :=
  | AssetNode (a : Asset)
  | DependencyNode (d : Dependency).
Global Instance AGNode_eq_dec : EqDecision AGNode.
Proof. solve_decision. Defined.

(** The graph handed to the bundler: the dependencies below the graph's root,
    every asset with the ids of its dependencies, and every dependency with
    the ids of the assets it resolves to. *)
Record AssetGraph := {
  ag_rootDependencies : list string;
  ag_assets : list (Asset * list string);
  ag_dependencies : list (Dependency * list string);
}.

Definition assetEntry (g : AssetGraph) (id : string) : option (Asset * list string) :=
  snd <$> list_find (λ e, asset_id e.1 = id) (ag_assets g).

Definition dependencyEntry (g : AssetGraph) (id : string)
    : option (Dependency * list string) :=
  snd <$> list_find (λ e, dep_id e.1 = id) (ag_dependencies g).

Definition getAssetById (g : AssetGraph) (id : string) : option Asset :=
  fst <$> assetEntry g id.

Definition getDependencyById (g : AssetGraph) (id : string) : option Dependency :=
  fst <$> dependencyEntry g id.

Definition getDependencyAssets (g : AssetGraph) (d : Dependency) : list Asset :=
  omap (getAssetById g) (default [] (snd <$> dependencyEntry g (dep_id d))).

Definition getDependencies (g : AssetGraph) (a : Asset) : list Dependency :=
  omap (getDependencyById g) (default [] (snd <$> assetEntry g (asset_id a))).

Definition children (g : AssetGraph) (n : AGNode) : list AGNode :=
  match n with
  | AssetNode a => DependencyNode <$> getDependencies g a
  | DependencyNode d => AssetNode <$> getDependencyAssets g d
  end.

(** What a visitor sees: [Enter n ctx] on the way down, with the node of the
    parent as context, and [Exit n] on the way up. *)
Inductive Event :=
  | Enter (n : AGNode) (ctx : option AGNode)
  | Exit (n : AGNode).
Global Instance Event_eq_dec : EqDecision Event.
Proof. solve_decision. Defined.

(** Modelled from the spec: [traverse] of the host graph, a depth-first walk
    that enters every node once (sections 4.2 and 6).  [skip n] tells whether
    the visitor calls [actions.skipChildren()] at [n]; a skipped node has no
    exit.  The accumulator holds the visited nodes and the events so far. *)
Fixpoint walk (g : AssetGraph) (skip : AGNode → bool) (fuel : nat)
    (ctx : option AGNode) (n : AGNode)
    (acc : list AGNode * list Event) : list AGNode * list Event :=
  match fuel with
  | 0 => acc
  | S fuel' =>
      let entered := (n :: acc.1, acc.2 ++ [Enter n ctx]) in
      if skip n then entered
      else
        let acc' :=
          foldl (λ acc c, if decide (c ∈ acc.1) then acc
                          else walk g skip fuel' (Some n) c acc)
                entered (children g n) in
        (acc'.1, acc'.2 ++ [Exit n])
  end.

Definition graphSize (g : AssetGraph) : nat :=
  length (ag_assets g) + length (ag_dependencies g).

(** [traverse(visit)] from the root of the graph, and [traverse(visit, start)]
    from an asset. *)
Definition traverse (g : AssetGraph) (skip : AGNode → bool) (start : option Asset)
    : list Event :=
  match start with
  | Some a => (walk g skip (S (graphSize g)) None (AssetNode a) ([], [])).2
  | None =>
      (foldl (λ acc c, if decide (c ∈ acc.1) then acc
                       else walk g skip (S (graphSize g)) None c acc)
             ([], [])
             (DependencyNode <$> omap (getDependencyById g) (ag_rootDependencies g))).2
  end.

(** ** Bundles *)

(** The options object of [createBundle]; a missing property is [None]. *)
Record BundleOpts := {
  opts_asset : option Asset;
  opts_target : Target;
  opts_env : option Environment;
  opts_type : option string;
  opts_needsStableName : option bool;
  opts_bundleBehavior : option BundleBehavior;
}.

Definition createBundle (opts : BundleOpts) : Result Bundle :=
  match opts_asset opts with
  | None =>
      ty ← nullthrows (opts_type opts) "opts.type";
      env ← nullthrows (opts_env opts) "opts.env";
      Ok {| bundle_assets := [];
            bundle_internalizedAssetIds := [];
            bundle_size := 0;
            bundle_sourceBundles := [];
            bundle_target := opts_target opts;
            bundle_type := ty;
            bundle_env := env;
            bundle_needsStableName := default false (opts_needsStableName opts);
            bundle_bundleBehavior := None |}
  | Some asset =>
      Ok {| bundle_assets := [asset];
            bundle_internalizedAssetIds := [];
            bundle_size := asset_size asset;
            bundle_sourceBundles := [];
            bundle_target := opts_target opts;
            bundle_type := default (asset_type asset) (opts_type opts);
            bundle_env := default (asset_env asset) (opts_env opts);
            bundle_needsStableName := default false (opts_needsStableName opts);
            bundle_bundleBehavior := asset_bundleBehavior asset |}
  end.

(** [bundle.assets.add(asset); bundle.size += asset.stats.size] *)
Definition addAssetToBundle (asset : Asset) (b : Bundle) : Bundle :=
  {| bundle_assets := jsset_add (bundle_assets b) asset;
     bundle_internalizedAssetIds := bundle_internalizedAssetIds b;
     bundle_size := (bundle_size b + asset_size asset)%Z;
     bundle_sourceBundles := bundle_sourceBundles b;
     bundle_target := bundle_target b;
     bundle_type := bundle_type b;
     bundle_env := bundle_env b;
     bundle_needsStableName := bundle_needsStableName b;
     bundle_bundleBehavior := bundle_bundleBehavior b |}.

Definition setSourceBundles (srcs : list nat) (b : Bundle) : Bundle :=
  {| bundle_assets := bundle_assets b;
     bundle_internalizedAssetIds := bundle_internalizedAssetIds b;
     bundle_size := bundle_size b;
     bundle_sourceBundles := srcs;
     bundle_target := bundle_target b;
     bundle_type := bundle_type b;
     bundle_env := bundle_env b;
     bundle_needsStableName := bundle_needsStableName b;
     bundle_bundleBehavior := bundle_bundleBehavior b |}.

(** [bundle.internalizedAssetIds.push(id)] *)
Definition pushInternalized (id : string) (b : Bundle) : Bundle :=
  {| bundle_assets := bundle_assets b;
     bundle_internalizedAssetIds := bundle_internalizedAssetIds b ++ [id];
     bundle_size := bundle_size b;
     bundle_sourceBundles := bundle_sourceBundles b;
     bundle_target := bundle_target b;
     bundle_type := bundle_type b;
     bundle_env := bundle_env b;
     bundle_needsStableName := bundle_needsStableName b;
     bundle_bundleBehavior := bundle_bundleBehavior b |}.

(** [removeBundle]: every asset of the bundle goes into every source bundle,
    then the node goes. *)
Definition removeBundle (bundleGraph : Graph Bundle) (bundleId : nat)
    : Result (Graph Bundle) :=
  bundle ← nullthrows (getNode bundleGraph bundleId) "bundle";
  bg ← foldM (λ bg asset,
         foldM (λ bg sourceBundleId,
           _ ← nullthrows (getNode bg sourceBundleId) "sourceBundle";
           Ok (updateNode bg sourceBundleId (addAssetToBundle asset)))
         (bundle_sourceBundles bundle) bg)
       (bundle_assets bundle) bundleGraph;
  Ok (removeNode bg bundleId).

(** ** Step 1: bundles for the entries, the type changes and the async
    dependencies *)

(** The three structures that hold bundles; placement extends them. *)
Record BundleStore := {
  bundles : gmap string nat;
  bundleGraph : Graph Bundle;
  dependencyBundleGraph : ContentGraph DependencyBundleNode DependencyPriority;
}.

(** The local variables of [createIdealGraph] that the first step fills. *)
Record Discovery := {
  store : BundleStore;
  bundleRoots : list (Asset * (nat * nat));
  assetReference : list (Asset * list (Dependency * nat));
  reachableBundles : list (Asset * list Asset);
  stack : list (Asset * nat);
  asyncBundleRootGraph : ContentGraph AsyncRootNode unit;
  bundleGroupBundleIds : list nat;
  assets : list Asset;
}.

Definition isAssetNode (n : AGNode) : bool :=
  match n with AssetNode _ => true | DependencyNode _ => false end.

(** The visitor of the first traversal: every asset below an entry
    dependency is an entry, and the walk does not go below it. *)
Definition entryVisitor (entries : list (Asset * Dependency)) (ev : Event)
    : Result (list (Asset * Dependency)) :=
  match ev with
  | Enter (AssetNode a) ctx =>
      match ctx with
      | Some (DependencyNode d) =>
          _ ← invariant (dep_isEntry d) "context.value.isEntry";
          Ok (jsmap_set entries a d)
      | _ => Abort (InvariantViolation "context.type === 'dependency'")
      end
  | _ => Ok entries
  end.

Definition collectEntries (g : AssetGraph) : Result (list (Asset * Dependency)) :=
  foldM entryVisitor (traverse g isAssetNode None) [].

(** [dependencyBundleGraph.addEdge(addNodeByContentKeyIfNeeded(dependency.id, …),
    addNodeByContentKeyIfNeeded(String(bundleId), …), priority)] *)
Definition addDependencyBundleEdge
    (dbg : ContentGraph DependencyBundleNode DependencyPriority)
    (dependency : Dependency) (bundleId : nat) (priority : DependencyPriority)
    : ContentGraph DependencyBundleNode DependencyPriority :=
  let '(from, dbg) :=
    addNodeByContentKeyIfNeeded dbg (dep_id dependency) (DBDependency dependency) in
  let '(to, dbg) :=
    addNodeByContentKeyIfNeeded dbg (pretty bundleId) (DBBundle bundleId) in
  cg_addEdge dbg from to priority.

Definition initialDiscovery : Discovery :=
  let '(rootNodeId, abg) := cg_addNode emptyContentGraph RootNode in
  {| store := {| bundles := ∅; bundleGraph := emptyGraph;
                 dependencyBundleGraph := emptyContentGraph |};
     bundleRoots := [];
     assetReference := [];
     reachableBundles := [];
     stack := [];
     asyncBundleRootGraph := setRootNodeId abg rootNodeId;
     bundleGroupBundleIds := [];
     assets := [] |}.

(** The body of [for (let [asset, dependency] of entries)]. *)
Definition createEntryBundle (st : Discovery) (entry : Asset * Dependency)
    : Result Discovery :=
  let '(asset, dependency) := entry in
  target ← nullthrows (dep_target dependency) "dependency.target";
  bundle ← createBundle
             {| opts_asset := Some asset; opts_target := target;
                opts_env := None; opts_type := None;
                opts_needsStableName := Some (dep_isEntry dependency);
                opts_bundleBehavior := None |};
  let '(nodeId, bg) := addNode (bundleGraph (store st)) bundle in
  rootNodeId ← nullthrows (cg_rootNodeId (asyncBundleRootGraph st)) "rootNodeId";
  let '(entryNodeId, abg) :=
    addNodeByContentKey (asyncBundleRootGraph st) (asset_id asset)
                        (BundleRootNode asset) in
  Ok {| store :=
          {| bundles := <[asset_id asset := nodeId]> (bundles (store st));
             bundleGraph := bg;
             dependencyBundleGraph :=
               addDependencyBundleEdge (dependencyBundleGraph (store st))
                 dependency nodeId (dep_priority dependency) |};
        bundleRoots := jsmap_set (bundleRoots st) asset (nodeId, nodeId);
        assetReference := assetReference st;
        reachableBundles := reachableBundles st;
        stack := stack st;
        asyncBundleRootGraph := cg_addEdge abg rootNodeId entryNodeId ();
        bundleGroupBundleIds := bundleGroupBundleIds st ++ [nodeId];
        assets := assets st |}.

(** The loop that walks up the stack of an async dependency, top frame
    first: every ancestor of the same type and context reaches the child, and
    the top frame becomes its parent in [asyncBundleRootGraph]. *)
Fixpoint markReachable (childAsset : Asset) (frames : list (Asset * nat)) (isTop : bool)
    (acc : list (Asset * list Asset) * ContentGraph AsyncRootNode unit)
    : list (Asset * list Asset) * ContentGraph AsyncRootNode unit :=
  match frames with
  | [] => acc
  | (stackAsset, _) :: frames' =>
      if bool_decide (asset_type stackAsset ≠ asset_type childAsset)
         || bool_decide (env_context (asset_env stackAsset)
                         ≠ env_context (asset_env childAsset))
         || env_isIsolated (asset_env stackAsset)
      then acc
      else
        let rb := jsmap_set acc.1 stackAsset
                    (jsset_add (defaultmap_peek [] acc.1 stackAsset) childAsset) in
        let abg :=
          if isTop then
            let '(childNodeId, abg) :=
              addNodeByContentKeyIfNeeded acc.2 (asset_id childAsset)
                                          (BundleRootNode childAsset) in
            let '(parentNodeId, abg) :=
              addNodeByContentKeyIfNeeded abg (asset_id stackAsset)
                                          (BundleRootNode stackAsset) in
            cg_addEdge abg parentNodeId childNodeId ()
          else acc.2 in
        markReachable childAsset frames' false (rb, abg)
  end.

Definition isInline (b : option BundleBehavior) : bool := bool_decide (b = Some inline).

(** [needsStableName] of the bundle of an async dependency. *)
Definition asyncNeedsStableName (dependency : Dependency) (childAsset : Asset) : bool :=
  if isInline (dep_bundleBehavior dependency)
     || isInline (asset_bundleBehavior childAsset)
  then false
  else dep_isEntry dependency || dep_needsStableName dependency.

(** [dependency.bundleBehavior ?? childAsset.bundleBehavior] *)
Definition asyncBundleBehavior (dependency : Dependency) (childAsset : Asset)
    : option BundleBehavior :=
  match dep_bundleBehavior dependency with
  | Some b => Some b
  | None => asset_bundleBehavior childAsset
  end.

(** The options the async branch passes to [createBundle]. *)
Definition asyncBundleOpts (target : Target) (dependency : Dependency)
    (childAsset : Asset) : BundleOpts :=
  {| opts_asset := Some childAsset;
     opts_target := target;
     opts_env := None; opts_type := None;
     opts_needsStableName := Some (asyncNeedsStableName dependency childAsset);
     opts_bundleBehavior := asyncBundleBehavior dependency childAsset |}.

(** The async branch of [enter]: a lazy dependency or an isolated child. *)
Definition splitAsync (st : Discovery) (dependency : Dependency) (childAsset : Asset)
    : Result Discovery :=
  '(bundleId, bg, bundlesMap, roots, groupIds) ←
    match bundles (store st) !! asset_id childAsset with
    | None =>
        frame ← match head (stack st) with
                | Some f => Ok f
                | None => Abort (TypeError "stack[0]")
                end;
        group ← nullthrows (getNode (bundleGraph (store st)) frame.2) "bundle group";
        bundle ← createBundle (asyncBundleOpts (bundle_target group) dependency childAsset);
        let '(bundleId, bg) := addNode (bundleGraph (store st)) bundle in
        Ok (bundleId, bg,
            <[asset_id childAsset := bundleId]> (bundles (store st)),
            jsmap_set (bundleRoots st) childAsset (bundleId, bundleId),
            bundleGroupBundleIds st ++ [bundleId])
    | Some bundleId =>
        _ ← nullthrows (getNode (bundleGraph (store st)) bundleId) "bundle";
        Ok (bundleId, bundleGraph (store st), bundles (store st), bundleRoots st,
            bundleGroupBundleIds st)
    end;
  let '(rb, abg) :=
    markReachable childAsset (reverse (stack st)) true
                  (reachableBundles st, asyncBundleRootGraph st) in
  Ok {| store :=
          {| bundles := bundlesMap;
             bundleGraph := bg;
             dependencyBundleGraph :=
               addDependencyBundleEdge (dependencyBundleGraph (store st))
                 dependency bundleId (dep_priority dependency) |};
        bundleRoots := roots;
        assetReference := assetReference st;
        reachableBundles := rb;
        stack := stack st;
        asyncBundleRootGraph := abg;
        bundleGroupBundleIds := groupIds;
        assets := assets st |}.

(** The second branch of [enter]: the type changes or the child is inline. *)
Definition splitTypeChange (st : Discovery) (dependency : Dependency) (childAsset : Asset)
    : Result Discovery :=
  frame ← nullthrows (last (stack st)) "stack[stack.length - 1]";
  let bundleGroupNodeId := frame.2 in
  bundleGroup ← nullthrows (getNode (bundleGraph (store st)) bundleGroupNodeId)
                           "bundleGroup";
  bundle ← createBundle
             {| opts_asset := Some childAsset;
                opts_target := bundle_target bundleGroup;
                opts_env := None; opts_type := None;
                opts_needsStableName := Some (isInline (dep_bundleBehavior dependency));
                opts_bundleBehavior := None |};
  let '(bundleId, bg) := addNode (bundleGraph (store st)) bundle in
  Ok {| store :=
          {| bundles := <[asset_id childAsset := bundleId]> (bundles (store st));
             bundleGraph := addEdge bg bundleGroupNodeId bundleId;
             dependencyBundleGraph :=
               addDependencyBundleEdge (dependencyBundleGraph (store st))
                 dependency bundleId parallel |};
        bundleRoots := jsmap_set (bundleRoots st) childAsset (bundleId, bundleGroupNodeId);
        assetReference :=
          jsmap_set (assetReference st) childAsset
            (defaultmap_peek [] (assetReference st) childAsset ++ [(dependency, bundleId)]);
        reachableBundles := reachableBundles st;
        stack := stack st;
        asyncBundleRootGraph := asyncBundleRootGraph st;
        bundleGroupBundleIds := bundleGroupBundleIds st;
        assets := assets st |}.

Definition withStack (st : Discovery) (stk : list (Asset * nat)) (seen : list Asset)
    : Discovery :=
  {| store := store st;
     bundleRoots := bundleRoots st;
     assetReference := assetReference st;
     reachableBundles := reachableBundles st;
     stack := stk;
     asyncBundleRootGraph := asyncBundleRootGraph st;
     bundleGroupBundleIds := bundleGroupBundleIds st;
     assets := seen |}.

(** [enter] and [exit] of the second traversal. *)
Definition splitVisitor (g : AssetGraph) (st : Discovery) (ev : Event) : Result Discovery :=
  match ev with
  | Enter (AssetNode a) _ =>
      Ok (withStack st
            match jsmap_get (bundleRoots st) a with
            | Some bundleIdTuple => stack st ++ [(a, bundleIdTuple.2)]
            | None => stack st
            end
            (assets st ++ [a]))
  | Enter (DependencyNode dependency) None => Ok st
  | Enter (DependencyNode dependency) (Some (DependencyNode _)) =>
      Abort (InvariantViolation "context?.type === 'asset'")
  | Enter (DependencyNode dependency) (Some (AssetNode parentAsset)) =>
      match getDependencyAssets g dependency with
      | [] => Ok st
      | [childAsset] =>
          if bool_decide (dep_priority dependency = lazy)
             || bool_decide (asset_bundleBehavior childAsset = Some isolated)
          then splitAsync st dependency childAsset
          else if bool_decide (asset_type parentAsset ≠ asset_type childAsset)
                  || isInline (asset_bundleBehavior childAsset)
          then splitTypeChange st dependency childAsset
          else Ok st
      | _ => Abort (InvariantViolation "assets.length === 1")
      end
  | Exit n =>
      match last (stack st) with
      | Some (top, _) =>
          if decide (AssetNode top = n)
          then Ok (withStack st (removelast (stack st)) (assets st))
          else Ok st
      | None => Ok st
      end
  end.

(** Step 1 as a whole, from the entries found by the first traversal. *)
Definition discover (g : AssetGraph) (entries : list (Asset * Dependency))
    : Result Discovery :=
  st ← foldM createEntryBundle entries initialDiscovery;
  foldM (splitVisitor g) (traverse g (λ _, false) None) st.

(** ** Step 2: reachability of every asset from every bundle root *)

Record Reachability := {
  reachableRoots : ContentGraph Asset unit;
  reachableAsyncRoots : list (nat * list Asset);
}.

(** The walk from a bundle root stops below every dependency that has a
    bundle of its own. *)
Definition isSplitPoint (d : Discovery) (n : AGNode) : bool :=
  match n with
  | AssetNode _ => false
  | DependencyNode dep => hasContentKey (dependencyBundleGraph (store d)) (dep_id dep)
  end.

(** The visitor of the traversal that starts at [root]. *)
Definition reachVisitor (g : AssetGraph) (d : Discovery) (root : Asset) (rootNodeId : nat)
    (r : Reachability) (ev : Event) : Result Reachability :=
  match ev with
  | Exit _ => Ok r
  | Enter n _ =>
      if decide (n = AssetNode root) then Ok r
      else
        match n with
        | DependencyNode dep =>
            if hasContentKey (dependencyBundleGraph (store d)) (dep_id dep)
               && bool_decide (dep_priority dep = lazy)
            then
              match getDependencyAssets g dep with
              | [] => Ok r
              | [bundleRoot] =>
                  _ ← invariant (jsmap_has (bundleRoots d) bundleRoot)
                                "bundleRoots.has(bundleRoot)";
                  bundleId ← nullthrows (bundles (store d) !! asset_id bundleRoot)
                                        "bundles.get(bundleRoot.id)";
                  let '(roots, rar) := defaultmap_get [] (reachableAsyncRoots r) bundleId in
                  Ok {| reachableRoots := reachableRoots r;
                        reachableAsyncRoots :=
                          jsmap_set rar bundleId (jsset_add roots root) |}
              | _ => Abort (InvariantViolation "assets.length === 1")
              end
            else Ok r
        | AssetNode a =>
            let '(nodeId, rr) :=
              addNodeByContentKeyIfNeeded (reachableRoots r) (asset_id a) a in
            Ok {| reachableRoots := cg_addEdge rr rootNodeId nodeId ();
                  reachableAsyncRoots := reachableAsyncRoots r |}
        end
  end.

(** The body of [for (let [root] of bundleRoots)]. *)
Definition reachFrom (g : AssetGraph) (d : Discovery) (r : Reachability)
    (entry : Asset * (nat * nat)) : Result Reachability :=
  let root := entry.1 in
  let '(rootNodeId, rr) :=
    addNodeByContentKeyIfNeeded (reachableRoots r) (asset_id root) root in
  foldM (reachVisitor g d root rootNodeId)
        (traverse g (isSplitPoint d) (Some root))
        {| reachableRoots := rr; reachableAsyncRoots := reachableAsyncRoots r |}.

Definition reach (g : AssetGraph) (d : Discovery) : Result Reachability :=
  foldM (reachFrom g d) (bundleRoots d)
        {| reachableRoots := emptyContentGraph; reachableAsyncRoots := [] |}.

(** [graph.getNodeIdsConnectedFrom(graph.getNodeIdByContentKey(id)).map(getNode)] *)
Definition assetsConnectedFrom (rr : ContentGraph Asset unit) (id : string)
    : Result (list Asset) :=
  nodeId ← getNodeIdByContentKey rr id;
  mapM' (λ i, nullthrows (cg_getNode rr i) "reachableRoots.getNode")
        (cg_connectedFrom rr nodeId).

Definition getReachableBundleRoots (asset : Asset) (graph : ContentGraph Asset unit)
    : Result (list Asset) :=
  nodeId ← getNodeIdByContentKey graph (asset_id asset);
  mapM' (λ i, nullthrows (cg_getNode graph i) "graph.getNode")
        (cg_connectedTo graph nodeId).

(** ** Step 2.5: the assets available at every bundle root *)

(** [ancestorAssets] maps a bundle root to a [Set] object.  One object can be
    the value of several roots and is then intersected in place, so the map
    holds references into [assetSets], the store of these objects. *)
Record Availability := {
  ancestorAssets : list (Asset * nat);
  assetSets : list (list Asset);
  assetRefsInBundleGroup : list ((Asset * Asset * Asset) * nat);
}.

Definition allocSet (av : Availability) (s : list Asset) : nat * Availability :=
  (length (assetSets av),
   {| ancestorAssets := ancestorAssets av;
      assetSets := assetSets av ++ [s];
      assetRefsInBundleGroup := assetRefsInBundleGroup av |}).

Definition derefSet (av : Availability) (ref : nat) : list Asset :=
  default [] (assetSets av !! ref).

Definition setAncestorAssets (av : Availability) (root : Asset) (ref : nat) : Availability :=
  {| ancestorAssets := jsmap_set (ancestorAssets av) root ref;
     assetSets := assetSets av;
     assetRefsInBundleGroup := assetRefsInBundleGroup av |}.

(** The set of assets available at [root], if one was recorded. *)
Definition ancestorAssetsOf (av : Availability) (root : Asset) : option (list Asset) :=
  derefSet av <$> jsmap_get (ancestorAssets av) root.

(** The loop that looks for a bundle root among the assets of a bundle; the
    variable keeps its value when there is none. *)
Definition findBundleRootInGroup (d : Discovery) (b : Bundle) (cur : option Asset)
    : option Asset :=
  foldl (λ cur asset, if jsmap_has (bundleRoots d) asset then Some asset else cur)
        cur (bundle_assets b).

Definition isolatedOrInline (b : Bundle) : bool :=
  bool_decide (bundle_bundleBehavior b = Some isolated)
  || bool_decide (bundle_bundleBehavior b = Some inline).

(** The state of the first loop over the bundle group of [bundleRoot]. *)
Record GroupScan := {
  availableAssetsfromBundleGroup : list Asset;
  auxilaryRefCount : list (Asset * nat);
  scanRefs : list ((Asset * Asset * Asset) * nat);
  bundleRootInGroup : option Asset;
}.

Definition countAsset (bundleRoot rootInGroup : Asset) (sc : GroupScan) (asset : Asset)
    : GroupScan :=
  let '(available, aux) :=
    if jsset_has (availableAssetsfromBundleGroup sc) asset
    then (availableAssetsfromBundleGroup sc,
          jsmap_set (auxilaryRefCount sc) asset
                    (defaultmap_peek 0 (auxilaryRefCount sc) asset + 1))
    else (jsset_add (availableAssetsfromBundleGroup sc) asset,
          jsmap_set (auxilaryRefCount sc) asset 1) in
  {| availableAssetsfromBundleGroup := available;
     auxilaryRefCount := aux;
     scanRefs := jsmap_set (scanRefs sc) (bundleRoot, rootInGroup, asset)
                           (defaultmap_peek 0 aux asset);
     bundleRootInGroup := bundleRootInGroup sc |}.

Definition scanBundleInGroup (d : Discovery) (r : Reachability) (bundleRoot : Asset)
    (sc : GroupScan) (bundleIdInGroup : nat) : Result GroupScan :=
  bundleInGroup ← match getNode (bundleGraph (store d)) bundleIdInGroup with
                  | Some b => Ok b
                  | None => Abort (TypeError "bundleInGroup.assets")
                  end;
  let found := findBundleRootInGroup d bundleInGroup (bundleRootInGroup sc) in
  rootInGroup ← match found with
                | Some a => Ok a
                | None => Abort (InvariantViolation "bundleRootInGroup")
                end;
  fromRoot ← assetsConnectedFrom (reachableRoots r) (asset_id rootInGroup);
  let assetsFromBundleRoot := fromRoot ++ bundle_assets bundleInGroup in
  let sc := {| availableAssetsfromBundleGroup := availableAssetsfromBundleGroup sc;
               auxilaryRefCount := auxilaryRefCount sc;
               scanRefs := scanRefs sc;
               bundleRootInGroup := found |} in
  Ok (if isolatedOrInline bundleInGroup then sc
      else foldl (countAsset bundleRoot rootInGroup) sc assetsFromBundleRoot).

(** The second loop over the bundle group: the roots of the group get the
    assets available in the group. *)
Definition shareWithGroup (d : Discovery) (availableRef : nat)
    (acc : Availability * option Asset) (bundleIdInGroup : nat)
    : Result (Availability * option Asset) :=
  let '(av, cur) := acc in
  bundleInGroup ← match getNode (bundleGraph (store d)) bundleIdInGroup with
                  | Some b => Ok b
                  | None => Abort (InvariantViolation "bundleInGroup != null")
                  end;
  let found := findBundleRootInGroup d bundleInGroup cur in
  rootInGroup ← match found with
                | Some a => Ok a
                | None => Abort (InvariantViolation "bundleRootInGroup")
                end;
  match jsmap_get (ancestorAssets av) rootInGroup with
  | None => Ok (setAncestorAssets av rootInGroup availableRef, found)
  | Some availableAssets =>
      if bool_decide
           (1 < length (getNodeIdsConnectedTo (bundleGraph (store d)) bundleIdInGroup))
      then Abort (ReferenceError "setIntersection is not defined")
      else
        let '(ref, av) :=
          allocSet av (setUnion (derefSet av availableRef) (derefSet av availableAssets)) in
        Ok (setAncestorAssets av rootInGroup ref, found)
  end.

(** [setIntersect(availableAssets, combined)] on the stored object. *)
Definition intersectInPlace (av : Availability) (ref combinedRef : nat) : Availability :=
  {| ancestorAssets := ancestorAssets av;
     assetSets :=
       <[ref := setIntersect (derefSet av ref) (derefSet av combinedRef)]> (assetSets av);
     assetRefsInBundleGroup := assetRefsInBundleGroup av |}.

(** The body of [for (let childId of children)]: a child without available
    assets takes [combined] itself, any other child is intersected with it. *)
Definition propagateToChild (d : Discovery) (combinedRef : nat) (av : Availability)
    (childId : nat) : Result Availability :=
  match cg_getNode (asyncBundleRootGraph d) childId with
  | Some (BundleRootNode child) =>
      match jsmap_get (ancestorAssets av) child with
      | None => Ok (setAncestorAssets av child combinedRef)
      | Some availableAssets => Ok (intersectInPlace av availableAssets combinedRef)
      end
  | _ => Abort (InvariantViolation "child !== 'root' && child != null")
  end.

(** The first part of the body of
    [for (let nodeId of asyncBundleRootGraph.topoSort())]: the two loops over
    the bundle group of [bundleRoot], then [combined], which is returned as a
    reference to a new [Set]. *)
Definition combinedAt (d : Discovery) (r : Reachability) (av : Availability)
    (bundleRoot : Asset) : Result (nat * Availability) :=
  syncAssetsLoaded ← assetsConnectedFrom (reachableRoots r) (asset_id bundleRoot);
  let ancestors := jsmap_get (ancestorAssets av) bundleRoot in
  tuple ← nullthrows (jsmap_get (bundleRoots d) bundleRoot) "bundleRoots.get(bundleRoot)";
  let bundleGroupId := tuple.2 in
  let group := getNodeIdsConnectedFrom (bundleGraph (store d)) bundleGroupId in
  sc ← foldM (scanBundleInGroup d r bundleRoot) group
         {| availableAssetsfromBundleGroup := jsset_of syncAssetsLoaded;
            auxilaryRefCount := [];
            scanRefs := assetRefsInBundleGroup av;
            bundleRootInGroup := None |};
  let '(availableRef, av) :=
    allocSet {| ancestorAssets := ancestorAssets av;
                assetSets := assetSets av;
                assetRefsInBundleGroup := scanRefs sc |}
             (availableAssetsfromBundleGroup sc) in
  '(av, _) ← foldM (shareWithGroup d availableRef) group (av, bundleRootInGroup sc);
  Ok (allocSet av
        match ancestors with
        | Some ref => setUnion (derefSet av ref) syncAssetsLoaded
        | None => jsset_of syncAssetsLoaded
        end).

(** The body of [for (let nodeId of asyncBundleRootGraph.topoSort())]. *)
Definition availableAt (d : Discovery) (r : Reachability) (av : Availability)
    (nodeId : nat) : Result Availability :=
  match cg_getNode (asyncBundleRootGraph d) nodeId with
  | None => Abort (InvariantViolation "bundleRoot != null")
  | Some RootNode => Ok av
  | Some (BundleRootNode bundleRoot) =>
      '(combinedRef, av) ← combinedAt d r av bundleRoot;
      foldM (propagateToChild d combinedRef)
            (cg_connectedFrom (asyncBundleRootGraph d) nodeId) av
  end.

Definition noAvailability : Availability :=
  {| ancestorAssets := []; assetSets := []; assetRefsInBundleGroup := [] |}.

Definition availability (d : Discovery) (r : Reachability) : Result Availability :=
  foldM (availableAt d r) (topoSort (asyncBundleRootGraph d)) noAvailability.

(** ** Step 3: placement of the assets *)

Section placement.
Variables (d : Discovery) (r : Reachability) (av : Availability).

(** [[...bundleGraph.getNode(bundleRoots.get(b)[1]).assets][0]]: the first
    asset of the bundle that leads the bundle group of [b]. *)
Definition groupRootAsset (s : BundleStore) (b : Asset) : Result (option Asset) :=
  match jsmap_get (bundleRoots d) b with
  | None => Ok None
  | Some tuple =>
      match getNode (bundleGraph s) tuple.2 with
      | None => Abort (TypeError "assetsBundleGroupRoot.assets")
      | Some group =>
          a ← nullthrows (head (bundle_assets group)) "[...assets][0]";
          Ok (Some a)
      end
  end.

(** The callback of [reachable.filter]. *)
Definition keepReachable (s : BundleStore) (asset b : Asset) : Result bool :=
  let one := negb match ancestorAssetsOf av b with
                  | Some available => jsset_has available asset
                  | None => false
                  end in
  assetsBundleGroupRoot ← groupRootAsset s b;
  if negb one then Ok one
  else
    match assetsBundleGroupRoot with
    | Some groupRoot =>
        Ok (negb (bool_decide
                    (1 < defaultmap_peek 0 (assetRefsInBundleGroup av)
                                         (groupRoot, b, asset))))
    | None => Ok one
    end.

(** The bundle roots that still need [asset] after the filter. *)
Definition filteredReachable (s : BundleStore) (asset : Asset) : Result (list Asset) :=
  reachable ← getReachableBundleRoots asset (reachableRoots r);
  filterM (keepReachable s asset) reachable.

(** The key of the shared bundle of a list of bundle roots. *)
Definition sharedBundleKey (reachable : list Asset) : string :=
  String.concat "," (asset_id <$> reachable).

(** [asset] is a bundle root: its bundle joins the bundle groups that
    reach it, and the roots that reach it both ways internalize it. *)
Definition placeRoot (s : BundleStore) (asset : Asset) (rootBundle : nat * nat)
    (reachable : list Asset) : Result BundleStore :=
  let bundlesMap :=
    match bundles s !! asset_id asset with
    | Some _ => bundles s
    | None => <[asset_id asset := rootBundle.1]> (bundles s)
    end in
  bg ← foldM (λ bg reachableAsset,
         if decide (reachableAsset ≠ asset) then
           tuple ← nullthrows (jsmap_get (bundleRoots d) reachableAsset)
                              "bundleRoots.get(reachableAsset)";
           Ok (addEdge bg tuple.2 rootBundle.1)
         else Ok bg)
       reachable (bundleGraph s);
  let reachableAsync :=
    if jsmap_has (reachableAsyncRoots r) rootBundle.1
    then defaultmap_peek [] (reachableAsyncRoots r) rootBundle.1
    else [] in
  allReachable ← getReachableBundleRoots asset (reachableRoots r);
  let willInternalizeRoots :=
    filter (λ b, ¬ Forall (λ a, ¬ (a = b ∨ b ∈ defaultmap_peek [] (reachableBundles d) a))
                          allReachable)
           reachableAsync in
  bg ← foldM (λ bg bundleRoot,
         if decide (bundleRoot ≠ asset) then
           bundleId ← nullthrows (bundlesMap !! asset_id bundleRoot)
                                 "bundles.get(bundleRoot.id)";
           _ ← nullthrows (getNode bg bundleId) "bundle";
           Ok (updateNode bg bundleId (pushInternalized (asset_id asset)))
         else Ok bg)
       willInternalizeRoots bg;
  Ok {| bundles := bundlesMap; bundleGraph := bg;
        dependencyBundleGraph := dependencyBundleGraph s |}.

(** [asset] is no bundle root and some roots need it: it goes into the
    bundle that [bundles] has for these roots, created when missing. *)
Definition placeShared (s : BundleStore) (asset : Asset) (reachable : list Asset)
    : Result BundleStore :=
  sourceBundles ← mapM' (λ a, nullthrows (bundles s !! asset_id a) "bundles.get(a.id)")
                        reachable;
  let key := sharedBundleKey reachable in
  '(bundleId, bg, bundlesMap) ←
    match bundles s !! key with
    | None =>
        first ← nullthrows (head sourceBundles ≫= getNode (bundleGraph s))
                           "firstSourceBundle";
        bundle ← createBundle
                   {| opts_asset := None;
                      opts_target := bundle_target first;
                      opts_env := Some (bundle_env first);
                      opts_type := Some (bundle_type first);
                      opts_needsStableName := None;
                      opts_bundleBehavior := None |};
        let '(bundleId, bg) :=
          addNode (bundleGraph s) (setSourceBundles sourceBundles bundle) in
        Ok (bundleId, bg, <[key := bundleId]> (bundles s))
    | Some bundleId =>
        _ ← nullthrows (getNode (bundleGraph s) bundleId) "bundle";
        Ok (bundleId, bundleGraph s, bundles s)
    end;
  let bg := updateNode bg bundleId (addAssetToBundle asset) in
  let bg := foldl (λ bg sourceBundleId,
              if decide (bundleId ≠ sourceBundleId)
              then addEdge bg sourceBundleId bundleId else bg)
            bg sourceBundles in
  Ok {| bundles := bundlesMap; bundleGraph := bg;
        dependencyBundleGraph :=
          (addNodeByContentKeyIfNeeded (dependencyBundleGraph s)
             (pretty bundleId) (DBBundle bundleId)).2 |}.

(** The body of [for (let asset of assets)]. *)
Definition placeAsset (s : BundleStore) (asset : Asset) : Result BundleStore :=
  reachable ← filteredReachable s asset;
  match jsmap_get (bundleRoots d) asset with
  | Some rootBundle => placeRoot s asset rootBundle reachable
  | None =>
      match reachable with
      | [] => Ok s
      | _ => placeShared s asset reachable
      end
  end.

Definition placeAssets (l : list Asset) (s : BundleStore) : Result BundleStore :=
  foldM placeAsset l s.
End placement.

(** Everything the planner holds when all assets are placed. *)
Record Placement := {
  placed_entries : list (Asset * Dependency);
  placed_discovery : Discovery;
  placed_reachability : Reachability;
  placed_availability : Availability;
  placed_store : BundleStore;
}.

Definition placement (g : AssetGraph) : Result Placement :=
  entries ← collectEntries g;
  d ← discover g entries;
  r ← reach g d;
  av ← availability d r;
  s ← placeAssets d r av (assets d) (store d);
  Ok {| placed_entries := entries; placed_discovery := d;
        placed_reachability := r; placed_availability := av;
        placed_store := s |}.

(** ** Step 4: merging and cleaning up *)

Definition isShared (b : Bundle) : bool := bool_decide (0 < length (bundle_sourceBundles b)).

(** The loop over [bundleGraph.nodes] that removes the small shared bundles. *)
Definition mergeSmallShared (config : ResolvedBundlerConfig) (bg : Graph Bundle)
    : Result (Graph Bundle) :=
  foldM (λ bg bundleNodeId,
    match getNode bg bundleNodeId with
    | None => Ok bg
    | Some bundle =>
        if isShared bundle && bool_decide (bundle_size bundle < minBundleSize config)%Z
        then removeBundle bg bundleNodeId
        else Ok bg
    end)
  (seq 0 (length (nodes bg))) bg.

Definition absorbAssets (bg : Graph Bundle) (into : nat) (l : list Asset) : Graph Bundle :=
  foldl (λ bg asset, updateNode bg into (addAssetToBundle asset)) bg l.

(** The body of [for (let siblingId of …getNodeIdsConnectedFrom(entryBundleId))]. *)
Definition foldSibling (entryAsset : Asset) (entryBundleId : nat) (entryType : string)
    (st : Graph Bundle * list (nat * list Asset)) (siblingId : nat)
    : Result (Graph Bundle * list (nat * list Asset)) :=
  let '(bg, rar) := st in
  sibling ← nullthrows (getNode bg siblingId) "sibling";
  if decide (bundle_type sibling ≠ entryType) then Ok st
  else
    let bg := absorbAssets bg entryBundleId (bundle_assets sibling) in
    let bg := removeEdge bg entryBundleId siblingId in
    let '(dependentRoots, rar) := defaultmap_get [] rar siblingId in
    let rar := jsmap_set rar siblingId (jsset_delete dependentRoots entryAsset) in
    let sourceBundles := default [] (bundle_sourceBundles <$> getNode bg siblingId) in
    if bool_decide (1 < length sourceBundles) then
      match list_find (λ id, id = entryBundleId) sourceBundles with
      | None => Abort (InvariantViolation "entryBundleIndex >= 0")
      | Some (entryBundleIndex, _) =>
          match delete entryBundleIndex sourceBundles with
          | [id] =>
              let bg := updateNode bg siblingId (setSourceBundles []) in
              _ ← nullthrows (getNode bg id) "bundle";
              let bg := absorbAssets bg id
                          (default [] (bundle_assets <$> getNode bg siblingId)) in
              Ok (removeEdge bg id siblingId, rar)
          | rest => Ok (updateNode bg siblingId (setSourceBundles rest), rar)
          end
      end
    else Ok (bg, rar).

(** The body of [for (let entryAsset of entries.keys())]. *)
Definition foldEntry (d : Discovery) (st : Graph Bundle * list (nat * list Asset))
    (entryAsset : Asset) : Result (Graph Bundle * list (nat * list Asset)) :=
  entryBundleId ← nullthrows (fst <$> jsmap_get (bundleRoots d) entryAsset)
                             "bundleRoots.get(entryAsset)?.[0]";
  entryBundle ← nullthrows (getNode st.1 entryBundleId) "entryBundle";
  foldM (foldSibling entryAsset entryBundleId (bundle_type entryBundle))
        (getNodeIdsConnectedFrom st.1 entryBundleId) st.

(** The last loop: a bundle nobody reaches asynchronously any more goes. *)
Definition dropOrphans (bg : Graph Bundle) (rar : list (nat * list Asset)) : Graph Bundle :=
  foldl (λ bg entry, if decide (length entry.2 = 0) then removeNode bg entry.1 else bg)
        bg rar.

(** ** The plan *)

Record IdealGraph := {
  ideal_dependencyBundleGraph : ContentGraph DependencyBundleNode DependencyPriority;
  ideal_bundleGraph : Graph Bundle;
  ideal_bundleGroupBundleIds : list nat;
  ideal_entryBundles : list nat;
  ideal_assetReference : list (Asset * list (Dependency * nat));
}.

(** Step 4 on the result of placement. *)
Definition mergeAndCleanup (config : ResolvedBundlerConfig) (p : Placement)
    : Result (Graph Bundle * list (nat * list Asset)) :=
  bg ← mergeSmallShared config (bundleGraph (placed_store p));
  '(bg, rar) ← foldM (foldEntry (placed_discovery p)) (fst <$> placed_entries p)
                 (bg, reachableAsyncRoots (placed_reachability p));
  Ok (dropOrphans bg rar, rar).

Definition createIdealGraph (assetGraph : AssetGraph) (config : ResolvedBundlerConfig)
    : Result IdealGraph :=
  p ← placement assetGraph;
  '(bg, _) ← mergeAndCleanup config p;
  Ok {| ideal_dependencyBundleGraph := dependencyBundleGraph (placed_store p);
        ideal_bundleGraph := bg;
        ideal_bundleGroupBundleIds := bundleGroupBundleIds (placed_discovery p);
        ideal_entryBundles := (λ e, e.2.1) <$> bundleRoots (placed_discovery p);
        ideal_assetReference := assetReference (placed_discovery p) |}.

(** ** Decoration of the host's bundle graph *)

(** Modelled from the spec: the bundle graph of the host (the
    [MutableBundleGraph] of [@parcel/types], section 6), which is not part of
    the bundler's source file.  [decorateLegacyGraph] only calls its methods:
    a call of a method that changes the host graph is recorded, in order;
    [createBundle] and [createBundleGroup] answer with a new object, which is
    identified with the position of the call in the record. *)
Record LegacyBundleOpts := {
  legacy_entryAsset : option Asset;
  legacy_uniqueKey : option string;
  legacy_needsStableName : bool;
  legacy_bundleBehavior : option BundleBehavior;
  legacy_type : option string;
  legacy_target : Target;
  legacy_env : option Environment;
}.

Inductive HostCall :=
  | CreateBundleGroup (dependency : Dependency) (target : Target)
  | CreateBundle (opts : LegacyBundleOpts)
  | AddBundleToBundleGroup (bundle bundleGroup : nat)
  | AddAssetToBundle (asset : Asset) (bundle : nat)
  | InternalizeAsyncDependency (bundle : nat) (dependency : Dependency)
  | CreateAssetReference (dependency : Dependency) (asset : Asset) (bundle : nat).

Global Instance LegacyBundleOpts_eq_dec : EqDecision LegacyBundleOpts.
Proof. solve_decision. Defined.
Global Instance HostCall_eq_dec : EqDecision HostCall.
Proof. solve_decision. Defined.

(** The local variables of [decorateLegacyGraph].  A bundle object of the
    plan is the key of [idealBundleToLegacyBundle]; it is identified with its
    node id in the bundle graph of the plan. *)
Record Decoration := {
  hostCalls : list HostCall;
  idealBundleToLegacyBundle : list (nat * nat);
  entryBundleToBundleGroup : list (nat * nat);
}.

(** A call that changes the host graph; the answer is the new object. *)
Definition callHost (st : Decoration) (c : HostCall) : nat * Decoration :=
  (length (hostCalls st),
   {| hostCalls := hostCalls st ++ [c];
      idealBundleToLegacyBundle := idealBundleToLegacyBundle st;
      entryBundleToBundleGroup := entryBundleToBundleGroup st |}).

(** The entries of [graph.nodes], in iteration order. *)
Definition nodeEntries {A} (g : Graph A) : list (nat * A) :=
  omap (λ i, (λ x, (i, x)) <$> getNode g i) (seq 0 (length (nodes g))).

(** The dependencies whose bundle group the bundle [bundleNodeId] leads. *)
Definition groupDependencies
    (dbg : ContentGraph DependencyBundleNode DependencyPriority) (bundleNodeId : nat)
    : Result (list Dependency) :=
  nodeId ← getNodeIdByContentKey dbg (pretty bundleNodeId);
  mapM' (λ i,
          node ← nullthrows (cg_getNode dbg i) "dependencyBundleGraph.getNode(nodeId)";
          match node with
          | DBDependency dependency => Ok dependency
          | DBBundle _ => Abort (InvariantViolation "dependency.type === 'dependency'")
          end)
        (cg_connectedTo dbg nodeId).

(** The options of [createBundle] for a bundle with an entry asset. *)
Definition entryBundleOpts (idealBundle : Bundle) : LegacyBundleOpts :=
  {| legacy_entryAsset := head (bundle_assets idealBundle);
     legacy_uniqueKey := None;
     legacy_needsStableName := bundle_needsStableName idealBundle;
     legacy_bundleBehavior := bundle_bundleBehavior idealBundle;
     legacy_type := None;
     legacy_target := bundle_target idealBundle;
     legacy_env := None |}.

(** The options of [createBundle] for a shared bundle. *)
Definition sharedBundleOpts (idealBundle : Bundle) : LegacyBundleOpts :=
  {| legacy_entryAsset := None;
     legacy_uniqueKey :=
       Some (String.concat "," (asset_id <$> bundle_assets idealBundle)
             +:+ String.concat "," (pretty <$> bundle_sourceBundles idealBundle));
     legacy_needsStableName := bundle_needsStableName idealBundle;
     legacy_bundleBehavior := bundle_bundleBehavior idealBundle;
     legacy_type := Some (bundle_type idealBundle);
     legacy_target := bundle_target idealBundle;
     legacy_env := Some (bundle_env idealBundle) |}.

(** The options of the call of [createBundle] for a bundle of the plan. *)
Definition legacyBundleOpts (idealGraph : IdealGraph) (bundleNodeId : nat)
    (idealBundle : Bundle) : LegacyBundleOpts :=
  if decide (bundleNodeId ∈ ideal_bundleGroupBundleIds idealGraph)
  then entryBundleOpts idealBundle
  else if bool_decide (0 < length (bundle_sourceBundles idealBundle))
  then sharedBundleOpts idealBundle
  else entryBundleOpts idealBundle.

(** [for (let asset of idealBundle.assets) bundleGraph.addAssetToBundle(asset, bundle)] *)
Definition addAssetsToBundle (st : Decoration) (l : list Asset) (bundle : nat) : Decoration :=
  foldl (λ st asset, (callHost st (AddAssetToBundle asset bundle)).2) st l.

(** The body of the first loop over [idealBundleGraph.nodes]. *)
Definition decorateBundle (idealGraph : IdealGraph) (st : Decoration)
    (entry : nat * Bundle) : Result Decoration :=
  let '(bundleNodeId, idealBundle) := entry in
  '(bundle, st) ←
    (if decide (bundleNodeId ∈ ideal_bundleGroupBundleIds idealGraph) then
       dependencies ← groupDependencies (ideal_dependencyBundleGraph idealGraph)
                                        bundleNodeId;
       let '(bundleGroup, st) :=
         foldl (λ acc dependency,
                  let '(bundleGroup, st) :=
                    callHost acc.2 (CreateBundleGroup dependency (bundle_target idealBundle)) in
                  (Some bundleGroup, st))
               (None, st) dependencies in
       bundleGroup ← match bundleGroup with
                     | Some bundleGroup => Ok bundleGroup
                     | None => Abort (InvariantViolation "bundleGroup")
                     end;
       let st := {| hostCalls := hostCalls st;
                    idealBundleToLegacyBundle := idealBundleToLegacyBundle st;
                    entryBundleToBundleGroup :=
                      jsmap_set (entryBundleToBundleGroup st) bundleNodeId bundleGroup |} in
       let '(bundle, st) := callHost st (CreateBundle (entryBundleOpts idealBundle)) in
       Ok (bundle, (callHost st (AddBundleToBundleGroup bundle bundleGroup)).2)
     else if bool_decide (0 < length (bundle_sourceBundles idealBundle)) then
       Ok (callHost st (CreateBundle (sharedBundleOpts idealBundle)))
     else
       Ok (callHost st (CreateBundle (entryBundleOpts idealBundle))));
  let st := {| hostCalls := hostCalls st;
               idealBundleToLegacyBundle :=
                 jsmap_set (idealBundleToLegacyBundle st) bundleNodeId bundle;
               entryBundleToBundleGroup := entryBundleToBundleGroup st |} in
  Ok (addAssetsToBundle st (bundle_assets idealBundle) bundle).

Section host_queries.
(** The two queries of the host graph that [decorateLegacyGraph] makes:
    [bundleGraph.getIncomingDependencies(bundleGraph.getAssetById(id))] and
    [bundle.hasDependency(dependency)]. *)
Variable getIncomingDependencies : string → list Dependency.
Variable hasDependency : nat → Dependency → bool.

(** The body of the second loop over [idealBundleGraph.nodes]. *)
Definition internalizeDependencies (st : Decoration) (entry : nat * Bundle)
    : Result Decoration :=
  bundle ← nullthrows (jsmap_get (idealBundleToLegacyBundle st) entry.1)
                      "idealBundleToLegacyBundle.get(idealBundle)";
  Ok (foldl (λ st internalized,
         foldl (λ st incomingDep,
                  if bool_decide (dep_priority incomingDep = lazy)
                     && hasDependency bundle incomingDep
                  then (callHost st (InternalizeAsyncDependency bundle incomingDep)).2
                  else st)
               st (getIncomingDependencies internalized))
       st (bundle_internalizedAssetIds entry.2)).

(** The body of [for (let [bundleId, bundleGroup] of entryBundleToBundleGroup)]. *)
Definition addSiblingsToGroup (idealGraph : IdealGraph) (st : Decoration)
    (entry : nat * nat) : Result Decoration :=
  let '(bundleId, bundleGroup) := entry in
  let outboundNodeIds := getNodeIdsConnectedFrom (ideal_bundleGraph idealGraph) bundleId in
  _ ← nullthrows (getNode (ideal_bundleGraph idealGraph) bundleId)
                 "idealBundleGraph.getNode(bundleId)";
  _ ← nullthrows (jsmap_get (idealBundleToLegacyBundle st) bundleId)
                 "idealBundleToLegacyBundle.get(mainBundleOfBundleGroup)";
  foldM (λ st id,
           _ ← nullthrows (getNode (ideal_bundleGraph idealGraph) id)
                          "idealBundleGraph.getNode(id)";
           legacySiblingBundle ←
             nullthrows (jsmap_get (idealBundleToLegacyBundle st) id)
                        "idealBundleToLegacyBundle.get(siblingBundle)";
           Ok (callHost st (AddBundleToBundleGroup legacySiblingBundle bundleGroup)).2)
        outboundNodeIds st.

(** The body of [for (let [asset, references] of idealGraph.assetReference)]. *)
Definition createAssetReferences (st : Decoration)
    (entry : Asset * list (Dependency * nat)) : Result Decoration :=
  foldM (λ st reference,
           legacyBundle ← nullthrows (jsmap_get (idealBundleToLegacyBundle st) reference.2)
                                     "idealBundleToLegacyBundle.get(bundle)";
           Ok (callHost st (CreateAssetReference reference.1 entry.1 legacyBundle)).2)
        entry.2 st.

(** [decorateLegacyGraph]; the result is the record of the calls. *)
Definition decorateLegacyGraph (idealGraph : IdealGraph) : Result (list HostCall) :=
  let idealBundleGraph := ideal_bundleGraph idealGraph in
  st ← foldM (decorateBundle idealGraph) (nodeEntries idealBundleGraph)
         {| hostCalls := []; idealBundleToLegacyBundle := [];
            entryBundleToBundleGroup := [] |};
  st ← foldM internalizeDependencies (nodeEntries idealBundleGraph) st;
  st ← foldM (addSiblingsToGroup idealGraph) (entryBundleToBundleGroup st) st;
  st ← foldM createAssetReferences (ideal_assetReference idealGraph) st;
  Ok (hostCalls st).

(** The [bundle] method of the plugin. *)
Definition bundle (assetGraph : AssetGraph) (config : ResolvedBundlerConfig)
    : Result (list HostCall) :=
  idealGraph ← createIdealGraph assetGraph config;
  decorateLegacyGraph idealGraph.
End host_queries.

(** ** Asset graphs of the scenarios *)

Definition browser : Environment :=
  {| env_context := "browser"; env_isIsolated := false |}.

Definition mkAsset (id ty : string) (behavior : option BundleBehavior) (sz : Z) : Asset :=
  {| asset_id := id; asset_type := ty; asset_env := browser;
     asset_bundleBehavior := behavior; asset_size := sz; asset_filePath := id |}.

(** An entry dependency has a target; the others have none. *)
Definition mkDependency (id : string) (priority : DependencyPriority) (isEntry : bool)
    (behavior : option BundleBehavior) : Dependency :=
  {| dep_id := id; dep_priority := priority; dep_isEntry := isEntry;
     dep_target := if isEntry then Some "main" else None;
     dep_bundleBehavior := behavior; dep_needsStableName := false |}.

(** The defaults of [HTTP_OPTIONS] for HTTP/2. *)
Definition http2 : ResolvedBundlerConfig :=
  {| minBundles := 1; minBundleSize := 20000; maxParallelRequests := 25 |}.

(** Scenarios S3 and S4: the entries [E1] and [E2] both import [S]. *)
Definition twoEntriesSharing (sz : Z) : AssetGraph :=
  {| ag_rootDependencies := ["dE1"; "dE2"];
     ag_assets := [(mkAsset "E1" "js" None 10, ["d1"]);
                   (mkAsset "E2" "js" None 20, ["d2"]);
                   (mkAsset "S" "js" None sz, [])];
     ag_dependencies := [(mkDependency "dE1" sync true None, ["E1"]);
                         (mkDependency "dE2" sync true None, ["E2"]);
                         (mkDependency "d1" sync false None, ["S"]);
                         (mkDependency "d2" sync false None, ["S"])] |}.

Definition scenarioS4 : AssetGraph := twoEntriesSharing 5000.

(** [E1] imports [A] and [L]; [L] imports [A] too and is loaded lazily by the
    second entry [E2]. *)
Definition sharedWithSibling : AssetGraph :=
  {| ag_rootDependencies := ["dE1"; "dE2"];
     ag_assets := [(mkAsset "E1" "js" None 10, ["d1"; "d2"]);
                   (mkAsset "E2" "js" None 20, ["d3"]);
                   (mkAsset "L" "js" None 30, ["d4"]);
                   (mkAsset "A" "js" None 5000, [])];
     ag_dependencies := [(mkDependency "dE1" sync true None, ["E1"]);
                         (mkDependency "dE2" sync true None, ["E2"]);
                         (mkDependency "d1" sync false None, ["A"]);
                         (mkDependency "d2" sync false None, ["L"]);
                         (mkDependency "d3" lazy false None, ["L"]);
                         (mkDependency "d4" sync false None, ["A"])] |}.

(** [E] imports [U] and loads [P] lazily; [P] imports [V] and reaches the
    inline asset [C] both lazily and synchronously. *)
Definition inlineChildOfAsyncRoot : AssetGraph :=
  {| ag_rootDependencies := ["dE"];
     ag_assets := [(mkAsset "E" "js" None 10, ["dU"; "dP"]);
                   (mkAsset "U" "js" None 1, []);
                   (mkAsset "P" "js" None 30, ["dV"; "d1"; "d2"]);
                   (mkAsset "V" "js" None 2, []);
                   (mkAsset "C" "js" (Some inline) 7, [])];
     ag_dependencies := [(mkDependency "dE" sync true None, ["E"]);
                         (mkDependency "dU" sync false None, ["U"]);
                         (mkDependency "dP" lazy false None, ["P"]);
                         (mkDependency "dV" sync false None, ["V"]);
                         (mkDependency "d1" lazy false None, ["C"]);
                         (mkDependency "d2" sync false None, ["C"])] |}.


(** [E] loads [L] lazily through a dependency that asks for an isolated
    bundle. *)
Definition isolatedLazyDependency : Dependency :=
  mkDependency "dL" lazy false (Some isolated).

Definition lazyIsolatedImport : AssetGraph :=
  {| ag_rootDependencies := ["dE"];
     ag_assets := [(mkAsset "E" "js" None 10, ["dL"]);
                   (mkAsset "L" "js" None 20, [])];
     ag_dependencies := [(mkDependency "dE" sync true None, ["E"]);
                         (isolatedLazyDependency, ["L"])] |}.

(** [E] has a dependency [dX] that resolves to the assets [resolved]. *)
Definition entryWithDependency (resolved : list string) : AssetGraph :=
  {| ag_rootDependencies := ["dE"];
     ag_assets := [(mkAsset "E" "js" None 10, ["dX"]);
                   (mkAsset "A" "js" None 20, []);
                   (mkAsset "B" "js" None 30, [])];
     ag_dependencies := [(mkDependency "dE" sync true None, ["E"]);
                         (mkDependency "dX" sync false None, resolved)] |}.


(** The entry [E] loads [L1] and [L2] lazily, and both import [S]. *)
Definition twoLazySharing (sz : Z) : AssetGraph :=
  {| ag_rootDependencies := ["dE"];
     ag_assets := [(mkAsset "E" "js" None 10, ["dL1"; "dL2"]);
                   (mkAsset "L1" "js" None 20, ["d1"]);
                   (mkAsset "L2" "js" None 30, ["d2"]);
                   (mkAsset "S" "js" None sz, [])];
     ag_dependencies := [(mkDependency "dE" sync true None, ["E"]);
                         (mkDependency "dL1" lazy false None, ["L1"]);
                         (mkDependency "dL2" lazy false None, ["L2"]);
                         (mkDependency "d1" sync false None, ["S"]);
                         (mkDependency "d2" sync false None, ["S"])] |}.

(** The sum of [asset.stats.size] over a set of assets. *)
Definition totalSize (l : list Asset) : Z := foldr (λ a acc, (asset_size a + acc)%Z) 0%Z l.

(** ** Invariants of the planner *)

(** What the first step keeps: no node of [bundleGraph] is removed, every
    bundle has no source bundles and only bundle roots as assets, and every
    bundle root has a bundle in [bundleGraph] and one under its id in
    [bundles]. *)
Definition rootsRegistered (bg : Graph Bundle) (bm : gmap string nat)
    (roots : list (Asset * (nat * nat))) : Prop :=
  (∀ i, i < length (nodes bg) → is_Some (getNode bg i)) ∧
  (∀ i b, getNode bg i = Some b →
     bundle_sourceBundles b = [] ∧ ∀ a, a ∈ bundle_assets b → a ∈ roots.*1) ∧
  (∀ root tuple, (root, tuple) ∈ roots →
     tuple.1 < length (nodes bg) ∧
     ∃ i, bm !! asset_id root = Some i ∧ i < length (nodes bg)).

Definition discovered (st : Discovery) : Prop :=
  rootsRegistered (bundleGraph (store st)) (bundles (store st)) (bundleRoots st).

(** [s'] is a later state of placement than [s]: a key of [bundles] keeps its
    bundle, a bundle stays in the graph with its source bundles, and its
    assets are only added to. *)
Definition storeExtends (s s' : BundleStore) : Prop :=
  bundles s ⊆ bundles s' ∧
  length (nodes (bundleGraph s)) ≤ length (nodes (bundleGraph s')) ∧
  ∀ i b, getNode (bundleGraph s) i = Some b →
    ∃ b', getNode (bundleGraph s') i = Some b' ∧
          bundle_assets b `prefix_of` bundle_assets b' ∧
          bundle_sourceBundles b' = bundle_sourceBundles b.

(** The fields of a bundle that placement and merging work on. *)
Definition bundleCore (b : Bundle) : list Asset * Z * list nat * string :=
  (bundle_assets b, bundle_size b, bundle_sourceBundles b, bundle_type b).

(** The ids of the bundle roots. *)
Definition rootIds (d : Discovery) : list string := asset_id <$> (bundleRoots d).*1.

(** Every asset that reaches another one in [reachableRoots] has the id of
    a bundle root. *)
Definition reachersAreRoots (d : Discovery) (r : Reachability) : Prop :=
  ∀ a l b, getReachableBundleRoots a (reachableRoots r) = Ok l →
    b ∈ l → asset_id b ∈ rootIds d.

(** The bundles below [n] are the bundles of the first step: they have no
    source bundles, the source bundles of the others are among them, and no
    bundle has a single source bundle. *)
Definition wellSourced (n : nat) (bg : Graph Bundle) : Prop :=
  ∀ i b, getNode bg i = Some b →
    (i < n → bundle_sourceBundles b = []) ∧
    (∀ s, s ∈ bundle_sourceBundles b → s < n) ∧
    length (bundle_sourceBundles b) ≠ 1.

(** What placement keeps, [n] being the number of bundles of the first step. *)
Definition placementInv (d : Discovery) (n : nat) (s : BundleStore) : Prop :=
  wellSourced n (bundleGraph s) ∧
  n ≤ length (nodes (bundleGraph s)) ∧
  (∀ i, i < length (nodes (bundleGraph s)) → is_Some (getNode (bundleGraph s) i)) ∧
  (∀ id, id ∈ rootIds d → ∃ i, bundles s !! id = Some i ∧ i < n).

(** [asset] sits in no other bundle than the one that [bundles] has for the
    roots that need it. *)
Definition ownedBySharedKey (d : Discovery) (r : Reachability) (av : Availability)
    (s : BundleStore) (asset : Asset) : Prop :=
  ∀ i b, getNode (bundleGraph s) i = Some b → asset ∈ bundle_assets b →
    ∃ l, filteredReachable d r av s asset = Ok l ∧ l ≠ [] ∧
         bundles s !! sharedBundleKey l = Some i.


(** What the second step keeps in [reachableRoots]: a node is found under
    the id of its asset, and an edge starts at a node with the id of a
    bundle root. *)
Definition reachInv (d : Discovery) (rr : ContentGraph Asset unit) : Prop :=
  (∀ i key a, cg_nodes rr !! i = Some (key, a) → key = Some (asset_id a)) ∧
  (∀ e, e ∈ cg_edges rr →
     ∃ a, cg_getNode rr e.1.1 = Some a ∧ asset_id a ∈ rootIds d).

(** The shared bundles that the first loop of step 4 removes. *)
Definition isSmallShared (config : ResolvedBundlerConfig) (b : Bundle) : bool :=
  isShared b && bool_decide (bundle_size b < minBundleSize config)%Z.

(** What [removeBundle] hands over: every asset of the bundle to every source
    bundle, as pairs in the order of its two loops. *)
Definition handedOver (b : Bundle) : list (nat * Asset) :=
  bundle_assets b ≫= λ a, (λ s, (s, a)) <$> bundle_sourceBundles b.

(** The pairs handed over by the small shared bundles among [ids]. *)
Definition mergedPairs (config : ResolvedBundlerConfig) (bg : Graph Bundle)
    (ids : list nat) : list (nat * Asset) :=
  ids ≫= λ i, match getNode bg i with
              | Some b => if isSmallShared config b then handedOver b else []
              | None => []
              end.

(** The assets that the bundle [s] receives from the small shared bundles of
    [bg], one copy for every small shared bundle that has [s] as a source. *)
Definition incomingAssets (config : ResolvedBundlerConfig) (bg : Graph Bundle)
    (s : nat) : list Asset :=
  snd <$> filter (λ p, p.1 = s) (mergedPairs config bg (seq 0 (length (nodes bg)))).

(** A bundle after [assets.add(asset); size += asset.stats.size] for every
    asset of a list. *)
Definition absorb (b : Bundle) (l : list Asset) : Bundle :=
  foldl (λ b a, addAssetToBundle a b) b l.

(** One iteration of the inner loop of [removeBundle], on a pair of a source
    bundle and an asset. *)
Definition handOver (bg : Graph Bundle) (p : nat * Asset) : Result (Graph Bundle) :=
  _ ← nullthrows (getNode bg p.1) "sourceBundle";
  Ok (updateNode bg p.1 (addAssetToBundle p.2)).

(** The state [bg'] of the first loop of step 4 on [bg] when the bundles
    below [k] are done. *)
Definition mergedUpTo (config : ResolvedBundlerConfig) (bg : Graph Bundle) (k : nat)
    (bg' : Graph Bundle) : Prop :=
  length (nodes bg') = length (nodes bg) ∧
  (∀ e, e ∈ edges bg' → e ∈ edges bg) ∧
  ∀ j, getNode bg' j
       = match getNode bg j with
         | Some b =>
             if isSmallShared config b && bool_decide (j < k) then None
             else Some (absorb b (snd <$> filter (λ p, p.1 = j)
                                           (mergedPairs config bg (seq 0 k))))
         | None => None
         end.

(** What step 4 keeps once the small shared bundles are gone: the bundles are
    well sourced and every shared bundle has the minimal size. *)
Definition plannable (config : ResolvedBundlerConfig) (n : nat) (bg : Graph Bundle) : Prop :=
  wellSourced n bg ∧
  ∀ i b, getNode bg i = Some b → bundle_sourceBundles b ≠ [] →
    (minBundleSize config ≤ bundle_size b)%Z.


(** The bundle [b] as [createBundle] makes it for the asset [root]. *)
Definition holdsOnly (root : Asset) (b : Bundle) : Prop :=
  bundle_assets b = [root] ∧
  bundle_size b = asset_size root ∧
  bundle_type b = asset_type root ∧
  bundle_env b = asset_env root ∧
  bundle_bundleBehavior b = asset_bundleBehavior root ∧
  bundle_sourceBundles b = [] ∧
  bundle_internalizedAssetIds b = [].

(** The shape of the bundles and bundle groups during the first step: a
    bundle holds a bundle root and nothing else; a bundle root has its bundle
    and the bundle that leads its group in [bundleGraph], and the bundle
    either leads a group of its own or is connected from the bundle that
    leads its group. *)
Definition groupStructure (st : Discovery) : Prop :=
  let bg := bundleGraph (store st) in
  (∀ i b, getNode bg i = Some b →
     ∃ root, root ∈ (bundleRoots st).*1 ∧ holdsOnly root b) ∧
  (∀ root tuple, (root, tuple) ∈ bundleRoots st →
     (∃ b, getNode bg tuple.1 = Some b ∧ holdsOnly root b) ∧
     is_Some (getNode bg tuple.2) ∧
     ((tuple.1 = tuple.2 ∧ tuple.1 ∈ bundleGroupBundleIds st) ∨
      (tuple.2, tuple.1) ∈ edges bg)) ∧
  (∀ i, i ∈ bundleGroupBundleIds st → is_Some (getNode bg i)).

(** The nodes that a list of events enters, in order. *)
Definition enteredNodes (evs : list Event) : list AGNode :=
  omap (λ ev, match ev with Enter n _ => Some n | Exit _ => None end) evs.

Definition assetOfNode (n : AGNode) : option Asset :=
  match n with AssetNode a => Some a | DependencyNode _ => None end.

(** The assets that a list of events enters, in order. *)
Definition enteredAssets (evs : list Event) : list Asset :=
  omap assetOfNode (enteredNodes evs).

(** What [walk] keeps in its accumulator: the visited nodes are the nodes
    entered so far, last first, and none is there twice. *)
Definition walked (acc : list AGNode * list Event) : Prop :=
  acc.1 = reverse (enteredNodes acc.2) ∧ NoDup acc.1.

(** The dependency [dE] below the root is no entry dependency. *)
Definition rootWithoutEntry : AssetGraph :=
  {| ag_rootDependencies := ["dE"];
     ag_assets := [(mkAsset "E" "js" None 10, [])];
     ag_dependencies := [(mkDependency "dE" sync false None, ["E"])] |}.

Definition entryDependencyWithoutTarget : Dependency :=
  {| dep_id := "dE"; dep_priority := sync; dep_isEntry := true; dep_target := None;
     dep_bundleBehavior := None; dep_needsStableName := false |}.

(** The entry dependency [dE] has no target. *)
Definition entryWithoutTarget : AssetGraph :=
  {| ag_rootDependencies := ["dE"];
     ag_assets := [(mkAsset "E" "js" None 10, [])];
     ag_dependencies := [(entryDependencyWithoutTarget, ["E"])] |}.

(** Every edge of the graph goes to a node that has a slot, and no node has
    two incoming edges. *)
Definition singleParent {A} (g : Graph A) : Prop :=
  (∀ e, e ∈ edges g → e.2 < length (nodes g)) ∧
  ∀ j, length (getNodeIdsConnectedTo g j) ≤ 1.

(** The result is no [ReferenceError]: the code did not come to an
    identifier that is not defined. *)
Definition noReferenceError {A} (m : Result A) : Prop :=
  match m with
  | Abort (ReferenceError _) => False
  | _ => True
  end.

(** What placement keeps in the bundles when it has gone through the assets
    [seen]: the size of a bundle is the sum of the sizes of its assets, no
    asset is there twice, and an asset of a bundle is a bundle root or one of
    [seen]. *)
Definition sizedUpTo (d : Discovery) (seen : list Asset) (bg : Graph Bundle) : Prop :=
  ∀ i b, getNode bg i = Some b →
    bundle_size b = totalSize (bundle_assets b) ∧
    NoDup (bundle_assets b) ∧
    ∀ a, a ∈ bundle_assets b → a ∈ (bundleRoots d).*1 ∨ a ∈ seen.

(** A state of the planner that has the bundle roots [roots] in
    [asyncBundleRootGraph] and nothing else. *)
Definition asyncRootsOnly (roots : list Asset) : Discovery :=
  {| store := {| bundles := ∅; bundleGraph := emptyGraph;
                 dependencyBundleGraph := emptyContentGraph |};
     bundleRoots := []; assetReference := []; reachableBundles := [];
     stack := [];
     asyncBundleRootGraph :=
       foldl (λ abg a, (addNodeByContentKeyIfNeeded abg (asset_id a) (BundleRootNode a)).2)
             emptyContentGraph roots;
     bundleGroupBundleIds := []; assets := [] |}.

(** What the first step keeps of the stack and of [reachableBundles]: a
    frame of the stack holds a bundle root, a bundle root that reaches
    another one asynchronously has its type and context and is not isolated,
    and the one it reaches has a bundle under its id. *)
Definition sameKind (a c : Asset) : Prop :=
  asset_type a = asset_type c ∧
  env_context (asset_env a) = env_context (asset_env c) ∧
  env_isIsolated (asset_env a) = false.

Definition asyncReachable (st : Discovery) : Prop :=
  (∀ frame, frame ∈ stack st → frame.1 ∈ (bundleRoots st).*1) ∧
  (∀ a l c, (a, l) ∈ reachableBundles st → c ∈ l →
     sameKind a c ∧ a ∈ (bundleRoots st).*1 ∧ is_Some (bundles (store st) !! asset_id c)).

(** [bg'] has the bundles of [bg] with their types, their assets are only
    added to, and no edge is new. *)
Definition assetsGrow (bg bg' : Graph Bundle) : Prop :=
  (∀ j b, getNode bg j = Some b →
     ∃ b', getNode bg' j = Some b' ∧ bundle_type b' = bundle_type b ∧
           ∀ a, a ∈ bundle_assets b → a ∈ bundle_assets b') ∧
  (∀ e, e ∈ edges bg' → e ∈ edges bg).

(** What the second step keeps in the edges of [reachableRoots]: an edge
    goes from a node that is found under the id of a bundle root to a node
    that is found under the id of another asset, which the traversal from
    that root entered. *)
Definition reachSound (g : AssetGraph) (d : Discovery) (rr : ContentGraph Asset unit)
    : Prop :=
  ∀ e, e ∈ cg_edges rr →
    ∃ root a, root ∈ (bundleRoots d).*1 ∧ a ≠ root ∧
      a ∈ enteredAssets (traverse g (isSplitPoint d) (Some root)) ∧
      (∃ x, cg_nodes rr !! e.1.1 = Some (Some (asset_id root), x)) ∧
      (∃ y, cg_nodes rr !! e.1.2 = Some (Some (asset_id a), y)).

(** [reachableRoots] has an edge for the root [root] and every asset of
    [seen] but the root itself, between the nodes found under their ids. *)
Definition reachedFrom (rr : ContentGraph Asset unit) (root : Asset) (seen : list Asset)
    : Prop :=
  ∀ a, a ∈ seen → a ≠ root →
    ∃ i j, lookupContentKey rr (asset_id root) = Some i ∧
           lookupContentKey rr (asset_id a) = Some j ∧
           (i, j, ()) ∈ cg_edges rr.

(** [rr'] is a later state of a content graph than [rr]: a key keeps its
    node and the edges stay. *)
Definition cgExtends {A L} (rr rr' : ContentGraph A L) : Prop :=
  (∀ key i, lookupContentKey rr key = Some i → lookupContentKey rr' key = Some i) ∧
  (∀ e, e ∈ cg_edges rr → e ∈ cg_edges rr').

(** What the first loop of [decorateLegacyGraph] keeps when it has gone
    through the bundles [done]: every one of them has a legacy bundle, made
    by a call of [createBundle] with its options, the legacy bundles differ,
    and the calls of [addAssetToBundle] are those for the assets of these
    bundles. *)
Definition decorated (idealGraph : IdealGraph) (done : list (nat * Bundle))
    (st : Decoration) : Prop :=
  (∀ k h, (k, h) ∈ idealBundleToLegacyBundle st →
     h < length (hostCalls st) ∧ k ∈ done.*1) ∧
  NoDup (idealBundleToLegacyBundle st).*2 ∧
  (∀ i b, (i, b) ∈ done →
     ∃ h, jsmap_get (idealBundleToLegacyBundle st) i = Some h ∧
          hostCalls st !! h = Some (CreateBundle (legacyBundleOpts idealGraph i b))) ∧
  (∀ a h, AddAssetToBundle a h ∈ hostCalls st ↔
     ∃ i b, (i, b) ∈ done ∧ jsmap_get (idealBundleToLegacyBundle st) i = Some h ∧
            a ∈ bundle_assets b).

(** [st'] is a later state of [decorateLegacyGraph] than [st], after the
    first loop: the calls recorded stay, the new ones are no calls of
    [createBundle] or [addAssetToBundle], and the legacy bundles are the
    same. *)
Definition isBundleCall (c : HostCall) : bool :=
  match c with
  | CreateBundle _ | AddAssetToBundle _ _ => true
  | _ => false
  end.

Definition decoratedLater (st st' : Decoration) : Prop :=
  idealBundleToLegacyBundle st' = idealBundleToLegacyBundle st ∧
  ∃ more, hostCalls st' = hostCalls st ++ more ∧
          Forall (λ c, isBundleCall c = false) more.

(** The entry [E] imports the inline asset [C], which has its type. *)
Definition inlineChildOfEntry : AssetGraph :=
  {| ag_rootDependencies := ["dE"];
     ag_assets := [(mkAsset "E" "js" None 10, ["dC"]);
                   (mkAsset "C" "js" (Some inline) 7, [])];
     ag_dependencies := [(mkDependency "dE" sync true None, ["E"]);
                         (mkDependency "dC" sync false None, ["C"])] |}.

(** Scenario S6: the entry [E] imports [X] and also loads it lazily. *)
Definition syncAndLazyImport : AssetGraph :=
  {| ag_rootDependencies := ["dE"];
     ag_assets := [(mkAsset "E" "js" None 10, ["d1"; "d2"]);
                   (mkAsset "X" "js" None 30, [])];
     ag_dependencies := [(mkDependency "dE" sync true None, ["E"]);
                         (mkDependency "d1" sync false None, ["X"]);
                         (mkDependency "d2" lazy false None, ["X"])] |}.

(** Every id that [bundles] holds is the id of a slot of [bundleGraph]. *)
Definition bundlesPresent (s : BundleStore) : Prop :=
  ∀ key i, bundles s !! key = Some i → i < length (nodes (bundleGraph s)).

(** Every reference that [ancestorAssets] holds is a reference to a set
    that is there. *)
Definition refsValid (av : Availability) : Prop :=
  ∀ root ref, (root, ref) ∈ ancestorAssets av → ref < length (assetSets av).

(** Scenario S2: the entry [E] imports [U] and loads [L] lazily, and [L]
    imports [U] too. *)
Definition lazyChildSharingImport : AssetGraph :=
  {| ag_rootDependencies := ["dE"];
     ag_assets := [(mkAsset "E" "js" None 10, ["d1"; "d2"]);
                   (mkAsset "U" "js" None 1, []);
                   (mkAsset "L" "js" None 30, ["d3"])];
     ag_dependencies := [(mkDependency "dE" sync true None, ["E"]);
                         (mkDependency "d1" sync false None, ["U"]);
                         (mkDependency "d2" lazy false None, ["L"]);
                         (mkDependency "d3" sync false None, ["U"])] |}.

(** Every edge of the bundle graph joins two bundles that are there. *)
Definition edgesPresent (bg : Graph Bundle) : Prop :=
  ∀ e, e ∈ edges bg → is_Some (getNode bg e.1) ∧ is_Some (getNode bg e.2).

(** Every edge of the bundle graph joins two slots of the graph. *)
Definition edgesBelow (bg : Graph Bundle) : Prop :=
  ∀ e, e ∈ edges bg → e.1 < length (nodes bg) ∧ e.2 < length (nodes bg).

(** The fields of a bundle that are set when it is made. *)
Definition bundleKind (b : Bundle)
    : Target * Environment * string * bool * option BundleBehavior :=
  (bundle_target b, bundle_env b, bundle_type b, bundle_needsStableName b,
   bundle_bundleBehavior b).

(** The bundle [b'] is a later state of the bundle [b]: what was set when
    the bundle was made is the same, the assets are only added to, at the
    end, and a bundle without source bundles gets none. *)
Definition bundleKept (b b' : Bundle) : Prop :=
  bundleKind b' = bundleKind b ∧
  bundle_assets b `prefix_of` bundle_assets b' ∧
  (bundle_sourceBundles b = [] → bundle_sourceBundles b' = []).

(** [bg'] is a later state of the bundle graph [bg]: a bundle of [bg'] in a
    slot of [bg] is a later state of the bundle that [bg] has there. *)
Definition bundlesFrom (bg bg' : Graph Bundle) : Prop :=
  length (nodes bg) ≤ length (nodes bg') ∧
  ∀ j b', j < length (nodes bg) → getNode bg' j = Some b' →
    ∃ b, getNode bg j = Some b ∧ bundleKept b b'.

(** Every bundle that [assetReference] names for an asset is in
    [bundleGraph] and holds this asset and nothing else. *)
Definition referencesRooted (st : Discovery) : Prop :=
  ∀ asset references reference,
    (asset, references) ∈ assetReference st → reference ∈ references →
    ∃ b, getNode (bundleGraph (store st)) reference.2 = Some b ∧ holdsOnly asset b.

(** The entry [E] and the asset [A] that it imports both import the
    stylesheet [S]. *)
Definition stylesheetImportedTwice : AssetGraph :=
  {| ag_rootDependencies := ["dE"];
     ag_assets := [(mkAsset "E" "js" None 10, ["dA"; "d1"]);
                   (mkAsset "A" "js" None 5, ["d2"]);
                   (mkAsset "S" "css" None 7, [])];
     ag_dependencies := [(mkDependency "dE" sync true None, ["E"]);
                         (mkDependency "dA" sync false None, ["A"]);
                         (mkDependency "d1" sync false None, ["S"]);
                         (mkDependency "d2" sync false None, ["S"])] |}.

(** The calls of [createAssetReference]. *)
Definition isReferenceCall (c : HostCall) : bool :=
  match c with
  | CreateAssetReference _ _ _ => true
  | _ => false
  end.

(** The pairs of [assetReference] with their asset, in the order of the two
    nested loops over it. *)
Definition referencePairs (assetReference : list (Asset * list (Dependency * nat)))
    : list (Asset * (Dependency * nat)) :=
  entry ← assetReference; (λ reference, (entry.1, reference)) <$> entry.2.

(** The call [c] is the call of [createAssetReference] for the pair [r],
    with the legacy bundle that [legacy] has for its bundle. *)
Definition referenceCallOf (legacy : list (nat * nat)) (c : HostCall)
    (r : Asset * (Dependency * nat)) : Prop :=
  ∃ h, jsmap_get legacy r.2.2 = Some h ∧ c = CreateAssetReference r.2.1 r.1 h.

(** No call of [createAssetReference] has been made. *)
Definition unreferenced (st : Decoration) : Prop :=
  Forall (λ c, isReferenceCall c = false) (hostCalls st).

(** * Properties *)

(** ** The [Result] monad *)

Lemma bind_Ok {A B} (m : Result A) (f : A → Result B) (b : B) :
  m ≫= f = Ok b → ∃ a, m = Ok a ∧ f a = Ok b.
Proof. destruct m as [a|e]; simpl; [eauto | discriminate]. Qed.

Lemma aborted_bind_l {A B} (m : Result A) (f : A → Result B) :
  aborted m → aborted (m ≫= f).
Proof. intros [e ->]. by exists e. Qed.

Lemma aborted_bind_r {A B} (m : Result A) (f : A → Result B) :
  (∀ a, aborted (f a)) → aborted (m ≫= f).
Proof. intros Hf. destruct m as [a|e]; simpl; [apply Hf | by exists e]. Qed.

Lemma not_aborted_Ok {A} (a : A) : ¬ aborted (Ok a).
Proof. intros [e He]. discriminate. Qed.

Lemma foldM_app {A S} (f : S → A → Result S) (l1 l2 : list A) (s : S) :
  foldM f (l1 ++ l2) s = foldM f l1 s ≫= foldM f l2.
Proof.
  revert s. induction l1 as [|x l1 IH]; intros s; simpl; [done|].
  destruct (f s x); simpl; [apply IH | done].
Qed.

(** A property that every iteration keeps holds after the loop. *)
Lemma foldM_invariant {A S} (P : S → Prop) (f : S → A → Result S) (l : list A) :
  (∀ s x s', x ∈ l → P s → f s x = Ok s' → P s') →
  ∀ s s', P s → foldM f l s = Ok s' → P s'.
Proof.
  induction l as [|x l IH]; intros Hf s s' Hs Hfold; simpl in Hfold.
  - by injection Hfold as <-.
  - apply bind_Ok in Hfold as (s1 & H1 & H2).
    eapply IH; [| |exact H2].
    + intros s2 y s3 Hy. apply Hf. by right.
    + eapply Hf; [by left| |]; eauto.
Qed.

(** An iteration that throws whatever the state is aborts the loop. *)
Lemma foldM_aborted {A S} (f : S → A → Result S) (l : list A) (x : A) :
  x ∈ l → (∀ s, aborted (f s x)) → ∀ s, aborted (foldM f l s).
Proof.
  intros Hx Hf. induction l as [|y l IH]; intros s; [by inversion Hx|].
  simpl. inversion Hx; subst.
  - by apply aborted_bind_l.
  - apply aborted_bind_r. auto.
Qed.

Ltac compute_in := apply (bool_decide_unpack _); vm_compute; exact I.

(** Splits [H : (x ← m; k) = Ok _] into the result of [m] and the rest. *)
Ltac bind_inv H :=
  let a := fresh "x" in
  let E := fresh "E" in
  apply bind_Ok in H as (a & E & H); cbv beta in H.

(** ** [Map] and [Set] *)

Section js_container_facts.
Context {K V : Type} `{EqDecision K}.
Implicit Types (m : list (K * V)) (k : K) (v : V) (s : list K).

Lemma jsmap_get_set_eq m k v : jsmap_get (jsmap_set m k v) k = Some v.
Proof.
  induction m as [|[k' v'] m IH]; simpl.
  - by rewrite decide_True.
  - destruct (decide (k = k')) as [->|Hne]; simpl.
    + by rewrite decide_True.
    + by rewrite decide_False.
Qed.

Lemma jsmap_get_set_ne m k k' v :
  k ≠ k' → jsmap_get (jsmap_set m k v) k' = jsmap_get m k'.
Proof.
  intros Hne. induction m as [|[k1 v1] m IH]; simpl.
  - by rewrite decide_False.
  - destruct (decide (k = k1)) as [->|Hne1]; simpl.
    + by rewrite !decide_False.
    + destruct (decide (k' = k1)); [done | apply IH].
Qed.

Lemma jsmap_get_Some m k v : jsmap_get m k = Some v → (k, v) ∈ m.
Proof.
  induction m as [|[k' v'] m IH]; simpl; [done|].
  destruct (decide (k = k')) as [->|Hne].
  - intros [= ->]. by left.
  - intros Hget. right. by apply IH.
Qed.

Lemma jsmap_get_is_Some m k : is_Some (jsmap_get m k) ↔ k ∈ m.*1.
Proof.
  induction m as [|[k' v'] m IH]; simpl.
  - split; [by intros [? ?] | by inversion 1].
  - destruct (decide (k = k')) as [->|Hne].
    + split; [intros _; by left | by eauto].
    + rewrite IH. split; [by right | by inversion 1].
Qed.

Lemma jsmap_get_None m k : jsmap_get m k = None ↔ k ∉ m.*1.
Proof. rewrite <- jsmap_get_is_Some, eq_None_not_Some. done. Qed.

Lemma elem_of_jsmap_set m k v k' v' :
  (k', v') ∈ jsmap_set m k v → (k', v') = (k, v) ∨ (k', v') ∈ m.
Proof.
  induction m as [|[k1 v1] m IH]; simpl.
  - rewrite list_elem_of_singleton. by left.
  - destruct (decide (k = k1)) as [->|Hne].
    + rewrite !elem_of_cons. naive_solver.
    + rewrite !elem_of_cons. naive_solver.
Qed.

Lemma jsmap_set_keys m k v k' : k' ∈ (jsmap_set m k v).*1 ↔ k' = k ∨ k' ∈ m.*1.
Proof.
  rewrite <- !jsmap_get_is_Some. destruct (decide (k = k')) as [->|Hne].
  - rewrite jsmap_get_set_eq. naive_solver.
  - rewrite jsmap_get_set_ne by done. naive_solver.
Qed.

Lemma elem_of_jsset_add s x y : y ∈ jsset_add s x ↔ y = x ∨ y ∈ s.
Proof.
  unfold jsset_add. destruct (decide (x ∈ s)).
  - naive_solver.
  - rewrite elem_of_app, list_elem_of_singleton. naive_solver.
Qed.

Lemma jsset_add_prefix s x : s `prefix_of` jsset_add s x.
Proof.
  unfold jsset_add. destruct (decide (x ∈ s)); [done|]. by apply prefix_app_r.
Qed.

Lemma elem_of_setIntersect s1 s2 x : x ∈ setIntersect s1 s2 ↔ x ∈ s1 ∧ x ∈ s2.
Proof. unfold setIntersect. by rewrite list_elem_of_filter, (comm and). Qed.

Lemma elem_of_jsset_of (l : list K) x : x ∈ jsset_of l ↔ x ∈ l.
Proof.
  unfold jsset_of.
  assert (∀ acc, x ∈ foldl jsset_add acc l ↔ x ∈ acc ∨ x ∈ l) as Hgen.
  { induction l as [|y l IH]; intros acc; simpl.
    - rewrite elem_of_nil. naive_solver.
    - rewrite IH, elem_of_jsset_add, elem_of_cons. naive_solver. }
  rewrite Hgen, elem_of_nil. naive_solver.
Qed.

Lemma elem_of_setUnion s1 s2 x : x ∈ setUnion s1 s2 ↔ x ∈ s1 ∨ x ∈ s2.
Proof. unfold setUnion. by rewrite elem_of_jsset_of, elem_of_app. Qed.
End js_container_facts.

(** ** The directed graph *)

Section graph_facts.
Context {A : Type}.
Implicit Types (g : Graph A) (i j : nat) (x : A).

Lemma getNode_lt g i x : getNode g i = Some x → i < length (nodes g).
Proof.
  unfold getNode. destruct (nodes g !! i) eqn:E; [|done].
  intros _. by eapply lookup_lt_Some.
Qed.

Lemma getNode_addNode g x j :
  getNode (addNode g x).2 j =
  if decide (j = length (nodes g)) then Some x else getNode g j.
Proof.
  unfold getNode, addNode. simpl. destruct (decide (j = length (nodes g))) as [->|Hne].
  - by rewrite lookup_app_r, Nat.sub_diag.
  - destruct (decide (j < length (nodes g))).
    + by rewrite lookup_app_l.
    + rewrite !lookup_ge_None_2; [done|lia|]. rewrite length_app. simpl. lia.
Qed.

Lemma addNode_fst g x : (addNode g x).1 = length (nodes g).
Proof. done. Qed.

Lemma length_nodes_addNode g x : length (nodes (addNode g x).2) = S (length (nodes g)).
Proof. unfold addNode. simpl. rewrite length_app. simpl. lia. Qed.

Lemma getNode_updateNode g i f j :
  getNode (updateNode g i f) j =
  if decide (j = i) then f <$> getNode g i else getNode g j.
Proof.
  unfold updateNode. destruct (getNode g i) as [x|] eqn:E.
  - unfold getNode at 1. simpl. destruct (decide (j = i)) as [->|Hne].
    + rewrite list_lookup_insert_eq; [done|]. by eapply getNode_lt.
    + by rewrite list_lookup_insert_ne.
  - destruct (decide (j = i)) as [->|Hne]; by rewrite ?E.
Qed.

Lemma length_nodes_updateNode g i f : length (nodes (updateNode g i f)) = length (nodes g).
Proof. unfold updateNode. destruct (getNode g i); simpl; by rewrite ?length_insert. Qed.

Lemma edges_updateNode g i f : edges (updateNode g i f) = edges g.
Proof. unfold updateNode. by destruct (getNode g i). Qed.

Lemma getNode_addEdge g i j k : getNode (addEdge g i j) k = getNode g k.
Proof. unfold addEdge. by destruct (decide _). Qed.

Lemma nodes_addEdge g i j : nodes (addEdge g i j) = nodes g.
Proof. unfold addEdge. by destruct (decide _). Qed.

Lemma elem_of_edges_addEdge g i j e : e ∈ edges (addEdge g i j) ↔ e = (i, j) ∨ e ∈ edges g.
Proof.
  unfold addEdge. destruct (decide _); simpl.
  - naive_solver.
  - rewrite elem_of_app, list_elem_of_singleton. naive_solver.
Qed.

Lemma getNode_removeEdge g i j k : getNode (removeEdge g i j) k = getNode g k.
Proof. done. Qed.

Lemma getNode_removeNode g i j :
  getNode (removeNode g i) j = if decide (j = i) then None else getNode g j.
Proof.
  unfold getNode, removeNode. simpl. destruct (decide (j = i)) as [->|Hne].
  - destruct (decide (i < length (nodes g))).
    + by rewrite list_lookup_insert_eq.
    + rewrite lookup_ge_None_2; [done|]. rewrite length_insert. lia.
  - by rewrite list_lookup_insert_ne.
Qed.

Lemma length_nodes_removeNode g i : length (nodes (removeNode g i)) = length (nodes g).
Proof. unfold removeNode. simpl. by rewrite length_insert. Qed.

Lemma elem_of_connectedFrom g i j : j ∈ getNodeIdsConnectedFrom g i ↔ (i, j) ∈ edges g.
Proof.
  unfold getNodeIdsConnectedFrom. rewrite list_elem_of_fmap. split.
  - intros ([a b] & -> & Hin). apply list_elem_of_filter in Hin as [Hab Hin].
    simpl in *. by subst.
  - intros Hin. exists (i, j). split; [done|]. by apply list_elem_of_filter.
Qed.
End graph_facts.

(** ** Dependencies that do not resolve to one asset *)

Lemma splitVisitor_ambiguous (g : AssetGraph) (st : Discovery)
    (dependency : Dependency) (parentAsset : Asset) :
  2 ≤ length (getDependencyAssets g dependency) →
  aborted (splitVisitor g st
             (Enter (DependencyNode dependency) (Some (AssetNode parentAsset)))).
Proof.
  intros Hlen. simpl. destruct (getDependencyAssets g dependency) as [|a [|b l]].
  - simpl in Hlen. lia.
  - simpl in Hlen. lia.
  - by eexists.
Qed.

Lemma createIdealGraph_aborted_discover (g : AssetGraph) (config : ResolvedBundlerConfig) :
  (∀ entries, aborted (discover g entries)) → aborted (createIdealGraph g config).
Proof.
  intros Hd. unfold createIdealGraph, placement.
  apply aborted_bind_l, aborted_bind_r. intros entries.
  apply aborted_bind_l, Hd.
Qed.

(** C9, as the code has it: a dependency below an asset that resolves to two
    or more assets makes the second traversal throw, so that planning aborts
    and returns no plan; a dependency that resolves to no asset is passed
    over, and the visitor leaves the state of the planner as it is. *)
Theorem dependency_resolution (g : AssetGraph) (dependency : Dependency)
    (parentAsset : Asset) :
  let ev := Enter (DependencyNode dependency) (Some (AssetNode parentAsset)) in
  (getDependencyAssets g dependency = [] → ∀ st, splitVisitor g st ev = Ok st) ∧
  (2 ≤ length (getDependencyAssets g dependency) →
   ev ∈ traverse g (λ _, false) None →
   ∀ config, aborted (createIdealGraph g config)).
Proof.
  split.
  - intros Hnone st. simpl. by rewrite Hnone.
  - intros Hlen Hev config. apply createIdealGraph_aborted_discover.
    intros entries. unfold discover. apply aborted_bind_r. intros st.
    eapply foldM_aborted; [exact Hev|]. intros s.
    by apply splitVisitor_ambiguous.
Qed.

Lemma dependency_resolution_witness :
  let dX := mkDependency "dX" sync false None in
  let E := mkAsset "E" "js" None 10 in
  (∀ st, splitVisitor (entryWithDependency []) st
           (Enter (DependencyNode dX) (Some (AssetNode E))) = Ok st) ∧
  aborted (createIdealGraph (entryWithDependency ["A"; "B"]) http2).
Proof.
  split.
  - apply (proj1 (dependency_resolution (entryWithDependency [])
                    (mkDependency "dX" sync false None) (mkAsset "E" "js" None 10))).
    vm_compute. reflexivity.
  - apply (proj2 (dependency_resolution (entryWithDependency ["A"; "B"])
                    (mkDependency "dX" sync false None) (mkAsset "E" "js" None 10))).
    + vm_compute. lia.
    + apply (bool_decide_unpack _). vm_compute. exact I.
Defined.

(** C9 as stated fails: the dependency [dX] of [E] resolves to no asset, a
    number different from one, and yet planning returns a plan. *)
Lemma unresolved_dependency_completes :
  let g := entryWithDependency [] in
  let dX := mkDependency "dX" sync false None in
  Enter (DependencyNode dX) (Some (AssetNode (mkAsset "E" "js" None 10)))
    ∈ traverse g (λ _, false) None ∧
  length (getDependencyAssets g dX) ≠ 1 ∧
  ¬ aborted (createIdealGraph g http2).
Proof.
  split; [(apply (bool_decide_unpack _); vm_compute; exact I)|]. split; [by vm_compute|].
  intros [e He]. vm_compute in He. discriminate.
Qed.

(** ** Availability at the children of a bundle root *)

Lemma derefSet_intersectInPlace (av : Availability) (ref combinedRef : nat) :
  derefSet (intersectInPlace av ref combinedRef) ref
  = setIntersect (derefSet av ref) (derefSet av combinedRef).
Proof.
  unfold derefSet, intersectInPlace. simpl.
  destruct (decide (ref < length (assetSets av))) as [Hlt|Hge].
  - by rewrite list_lookup_insert_eq.
  - rewrite !(lookup_ge_None_2 _ ref); [done|lia|rewrite length_insert; lia].
Qed.

(** C4, as the code has it: a child that already has available assets is
    intersected in place with [combined], however many parents it has: an
    asset stays available at the child exactly when [combined] has it too. *)
Theorem propagateToChild_intersects (d : Discovery) (combinedRef : nat)
    (av : Availability) (childId : nat) (child : Asset) (ref : nat) :
  cg_getNode (asyncBundleRootGraph d) childId = Some (BundleRootNode child) →
  jsmap_get (ancestorAssets av) child = Some ref →
  ∃ av',
    propagateToChild d combinedRef av childId = Ok av' ∧
    ancestorAssetsOf av' child
      = Some (setIntersect (derefSet av ref) (derefSet av combinedRef)) ∧
    ∀ a available, ancestorAssetsOf av' child = Some available →
      a ∈ available ↔ a ∈ derefSet av ref ∧ a ∈ derefSet av combinedRef.
Proof.
  intros Hchild Href. unfold propagateToChild. rewrite Hchild, Href.
  eexists. split; [done|].
  assert (ancestorAssetsOf (intersectInPlace av ref combinedRef) child
          = Some (setIntersect (derefSet av ref) (derefSet av combinedRef))) as Heq.
  { unfold ancestorAssetsOf. simpl. rewrite Href. simpl.
    by rewrite derefSet_intersectInPlace. }
  split; [done|]. intros a available. rewrite Heq. intros [= <-].
  apply elem_of_setIntersect.
Qed.

(** C4 as stated fails.  In [inlineChildOfAsyncRoot] the root [C] has the one
    parent [P] in [asyncBundleRootGraph].  When [P] is processed, the bundle
    group of [P] has given [C] the available assets [V]; [combined] is [U]
    and [V]; the loop over the children then leaves [C] with the
    intersection [V], and not with the union. *)
Lemma single_parent_child_is_intersected :
  let U := mkAsset "U" "js" None 1 in
  let V := mkAsset "V" "js" None 2 in
  let P := mkAsset "P" "js" None 30 in
  let C := mkAsset "C" "js" (Some inline) 7 in
  ∃ p av0 combinedRef av1 ref av2,
    placement inlineChildOfAsyncRoot = Ok p ∧
    cg_getNode (asyncBundleRootGraph (placed_discovery p)) 2 = Some (BundleRootNode P) ∧
    cg_getNode (asyncBundleRootGraph (placed_discovery p)) 3 = Some (BundleRootNode C) ∧
    cg_connectedTo (asyncBundleRootGraph (placed_discovery p)) 3 = [2] ∧
    foldM (availableAt (placed_discovery p) (placed_reachability p)) [0; 1] noAvailability
      = Ok av0 ∧
    combinedAt (placed_discovery p) (placed_reachability p) av0 P = Ok (combinedRef, av1) ∧
    jsmap_get (ancestorAssets av1) C = Some ref ∧
    derefSet av1 ref = [V] ∧
    derefSet av1 combinedRef = [U; V] ∧
    propagateToChild (placed_discovery p) combinedRef av1 3 = Ok av2 ∧
    ancestorAssetsOf av2 C = Some [V] ∧
    setUnion (derefSet av1 ref) (derefSet av1 combinedRef) = [V; U] ∧
    ancestorAssetsOf (placed_availability p) C = Some [V].
Proof.
  intros U V P C. do 6 eexists.
  split; [vm_compute; reflexivity|].
  split; [vm_compute; reflexivity|].
  split; [vm_compute; reflexivity|].
  split; [vm_compute; reflexivity|].
  split; [vm_compute; reflexivity|].
  split; [vm_compute; reflexivity|].
  split; [vm_compute; reflexivity|].
  split; [vm_compute; reflexivity|].
  split; [vm_compute; reflexivity|].
  split; [vm_compute; reflexivity|].
  split; [vm_compute; reflexivity|].
  split; vm_compute; reflexivity.
Qed.

(** ** What the planner does on the scenarios *)

(** C7 on the code: [lazyIsolatedImport] has a lazy dependency that asks for
    an isolated bundle, to the asset [L] that has no bundle behavior.  The
    async branch passes [isolated] to [createBundle], which does not read it:
    the bundle of [L] in the plan has the bundle behavior of [L], none. *)
Theorem async_bundle_drops_dependency_behavior :
  let L := mkAsset "L" "js" None 20 in
  ∃ plan bundle,
    createIdealGraph lazyIsolatedImport http2 = Ok plan ∧
    getNode (ideal_bundleGraph plan) 1 = Some bundle ∧
    bundle_assets bundle = [L] ∧
    asyncBundleBehavior isolatedLazyDependency L = Some isolated ∧
    bundle_bundleBehavior bundle = None ∧
    bundle_needsStableName bundle = asyncNeedsStableName isolatedLazyDependency L.
Proof.
  intros L. do 2 eexists.
  split; [vm_compute; reflexivity|].
  split; [vm_compute; reflexivity|].
  split; [vm_compute; reflexivity|].
  split; [vm_compute; reflexivity|].
  split; vm_compute; reflexivity.
Qed.

(** C3 on the code: in [sharedWithSibling] the small shared bundle of [A] is
    merged into the bundles of [E1] and [L], and then the bundle of [L], a
    sibling of the entry [E1], is folded into [E1].  [A] comes to [E1] twice
    and its size is added twice: the bundle of [E1] holds [E1], [A] and [L],
    5040 in all, and has the size 10040. *)
Theorem folded_sibling_counted_twice :
  ∃ plan bundle,
    createIdealGraph sharedWithSibling http2 = Ok plan ∧
    getNode (ideal_bundleGraph plan) 0 = Some bundle ∧
    bundle_assets bundle
      = [mkAsset "E1" "js" None 10; mkAsset "A" "js" None 5000; mkAsset "L" "js" None 30] ∧
    totalSize (bundle_assets bundle) = 5040%Z ∧
    bundle_size bundle = 10040%Z.
Proof.
  do 2 eexists.
  split; [vm_compute; reflexivity|].
  split; [vm_compute; reflexivity|].
  split; [vm_compute; reflexivity|].
  split; vm_compute; reflexivity.
Qed.

(** C1 as stated fails: in scenario S4 the plan has the asset [S] in the
    bundles of both entries. *)
Lemma small_shared_asset_in_both_entries :
  let S := mkAsset "S" "js" None 5000 in
  ∃ plan b0 b1,
    createIdealGraph scenarioS4 http2 = Ok plan ∧
    getNode (ideal_bundleGraph plan) 0 = Some b0 ∧
    getNode (ideal_bundleGraph plan) 1 = Some b1 ∧
    S ∈ bundle_assets b0 ∧ S ∈ bundle_assets b1.
Proof.
  intros S. do 3 eexists.
  split; [vm_compute; reflexivity|].
  split; [vm_compute; reflexivity|].
  split; [vm_compute; reflexivity|].
  split; apply (bool_decide_unpack _); vm_compute; exact I.
Qed.


(** ** The first step registers every bundle root *)

Lemma createBundle_asset (opts : BundleOpts) (asset : Asset) (b : Bundle) :
  opts_asset opts = Some asset → createBundle opts = Ok b →
  bundle_assets b = [asset] ∧ bundle_sourceBundles b = [] ∧
  bundle_size b = asset_size asset ∧
  bundle_bundleBehavior b = asset_bundleBehavior asset ∧
  bundle_needsStableName b = default false (opts_needsStableName opts).
Proof.
  unfold createBundle. intros ->. intros [= <-]. done.
Qed.

Lemma rootsRegistered_new bg bm roots (b : Bundle) (a : Asset) (group : nat) :
  rootsRegistered bg bm roots →
  bundle_assets b = [a] → bundle_sourceBundles b = [] →
  rootsRegistered (addNode bg b).2 (<[asset_id a := length (nodes bg)]> bm)
                  (jsmap_set roots a (length (nodes bg), group)).
Proof.
  intros (Hpresent & Hbundles & Hroots) Hassets Hsrc. split; [|split].
  - intros i Hi. rewrite getNode_addNode. rewrite length_nodes_addNode in Hi.
    destruct (decide (i = length (nodes bg))); [done|]. apply Hpresent. lia.
  - intros i b'. rewrite getNode_addNode.
    destruct (decide (i = length (nodes bg))) as [->|Hne].
    + intros [= <-]. split; [done|]. intros a'. rewrite Hassets.
      rewrite list_elem_of_singleton. intros ->. apply jsmap_set_keys. by left.
    + intros Hb. destruct (Hbundles _ _ Hb) as [Hs Ha]. split; [done|].
      intros a' Ha'. apply jsmap_set_keys. right. by apply Ha.
  - intros root tuple Hin. rewrite length_nodes_addNode.
    apply elem_of_jsmap_set in Hin as [[= -> ->]|Hin].
    + simpl. split; [lia|]. exists (length (nodes bg)).
      rewrite lookup_insert_eq. split; [done|lia].
    + destruct (Hroots _ _ Hin) as (Hlt & i & Hi & Hilt). split; [lia|].
      destruct (decide (asset_id a = asset_id root)) as [Heq|Hne].
      * exists (length (nodes bg)). rewrite Heq, lookup_insert_eq. split; [done|lia].
      * exists i. rewrite lookup_insert_ne by done. split; [done|lia].
Qed.

Lemma rootsRegistered_addEdge bg bm roots (i j : nat) :
  rootsRegistered bg bm roots → rootsRegistered (addEdge bg i j) bm roots.
Proof.
  intros (Hpresent & Hbundles & Hroots). split; [|split].
  - intros k. rewrite nodes_addEdge, getNode_addEdge. apply Hpresent.
  - intros k b. rewrite getNode_addEdge. apply Hbundles.
  - intros root tuple. rewrite nodes_addEdge. apply Hroots.
Qed.

Lemma createEntryBundle_discovered (st st' : Discovery) (entry : Asset * Dependency) :
  discovered st → createEntryBundle st entry = Ok st' → discovered st'.
Proof.
  intros Hst. unfold createEntryBundle. destruct entry as [asset dependency].
  intros H. bind_inv H. bind_inv H.
  destruct (addNode _ _) as [nodeId bg] eqn:Hadd.
  bind_inv H. destruct (addNodeByContentKey _ _ _) as [entryNodeId abg].
  injection H as <-. unfold discovered. cbn [store bundleGraph bundles bundleRoots].
  apply createBundle_asset with (asset := asset) in E0 as (Ha & Hs & _); [|done].
  pose proof (rootsRegistered_new _ _ _ _ _ (length (nodes (bundleGraph (store st))))
                Hst Ha Hs) as Hnew.
  rewrite Hadd in Hnew. simpl in Hnew.
  replace nodeId with (length (nodes (bundleGraph (store st))))
    by (by injection Hadd as <- _).
  exact Hnew.
Qed.

Lemma splitAsync_discovered (st st' : Discovery) (dependency : Dependency)
    (childAsset : Asset) :
  discovered st → splitAsync st dependency childAsset = Ok st' → discovered st'.
Proof.
  intros Hst. unfold splitAsync. intros H. bind_inv H.
  destruct x as [[[[bundleId bg] bundlesMap] roots] groupIds].
  destruct (markReachable _ _ _ _) as [rb abg]. injection H as <-.
  unfold discovered. cbn [store bundleGraph bundles bundleRoots].
  destruct (bundles (store st) !! asset_id childAsset) as [existing|] eqn:Hlook.
  - bind_inv E. by injection E as <- <- <- <- <-.
  - bind_inv E. bind_inv E. bind_inv E.
    destruct (addNode _ _) as [newId bg'] eqn:Hadd.
    injection E as <- <- <- <- <-.
    apply createBundle_asset with (asset := childAsset) in E2 as (Ha & Hs & _); [|done].
    pose proof (rootsRegistered_new _ _ _ _ _ (length (nodes (bundleGraph (store st))))
                  Hst Ha Hs) as Hnew.
    rewrite Hadd in Hnew. simpl in Hnew.
    replace newId with (length (nodes (bundleGraph (store st))))
      by (by injection Hadd as <- _).
    exact Hnew.
Qed.

Lemma splitTypeChange_discovered (st st' : Discovery) (dependency : Dependency)
    (childAsset : Asset) :
  discovered st → splitTypeChange st dependency childAsset = Ok st' → discovered st'.
Proof.
  intros Hst. unfold splitTypeChange. intros H. bind_inv H. bind_inv H. bind_inv H.
  destruct (addNode _ _) as [newId bg'] eqn:Hadd. injection H as <-.
  unfold discovered. cbn [store bundleGraph bundles bundleRoots].
  apply rootsRegistered_addEdge.
  apply createBundle_asset with (asset := childAsset) in E1 as (Ha & Hs & _); [|done].
  pose proof (rootsRegistered_new _ _ _ _ _ x.2 Hst Ha Hs) as Hnew.
  rewrite Hadd in Hnew. simpl in Hnew.
  replace newId with (length (nodes (bundleGraph (store st))))
    by (by injection Hadd as <- _).
  exact Hnew.
Qed.

Lemma splitVisitor_discovered (g : AssetGraph) (st st' : Discovery) (ev : Event) :
  discovered st → splitVisitor g st ev = Ok st' → discovered st'.
Proof.
  intros Hst. destruct ev as [[a|dependency] ctx|n]; simpl.
  - by intros [= <-].
  - destruct ctx as [[parentAsset|?]|]; [|done|by intros [= <-]].
    destruct (getDependencyAssets g dependency) as [|childAsset [|? ?]];
      [by intros [= <-]| |done].
    destruct (_ || _); [by apply splitAsync_discovered|].
    destruct (_ || _); [by apply splitTypeChange_discovered|].
    by intros [= <-].
  - destruct (last (stack st)) as [[top ?]|]; [|by intros [= <-]].
    destruct (decide _); by intros [= <-].
Qed.

Lemma discover_discovered (g : AssetGraph) (entries : list (Asset * Dependency))
    (d : Discovery) :
  discover g entries = Ok d → discovered d.
Proof.
  unfold discover. intros H. bind_inv H.
  eapply (foldM_invariant discovered); [| |exact H].
  - intros s ev s' _. apply splitVisitor_discovered.
  - eapply (foldM_invariant discovered); [| |exact E].
    + intros s e s' _. apply createEntryBundle_discovered.
    + split; [|split].
      * intros i Hi. simpl in Hi. lia.
      * intros i b Hb. by destruct i.
      * intros root tuple Hin. by apply elem_of_nil in Hin.
Qed.

(** ** Loops that may throw *)

Lemma filterM_Ok_elem_of {A} (p : A → Result bool) (l l' : list A) (x : A) :
  filterM p l = Ok l' → x ∈ l' → x ∈ l ∧ p x = Ok true.
Proof.
  revert l'. induction l as [|y l IH]; intros l' H; simpl in H.
  - injection H as <-. by intros ?%elem_of_nil.
  - bind_inv H. bind_inv H. injection H as <-. destruct x0.
    + rewrite elem_of_cons. intros [->|Hin].
      * split; [by left|done].
      * destruct (IH _ E0 Hin). split; [by right|done].
    + intros Hin. destruct (IH _ E0 Hin). split; [by right|done].
Qed.

Lemma filterM_ext {A} (p q : A → Result bool) (l l' : list A) :
  (∀ x b, x ∈ l → p x = Ok b → q x = Ok b) →
  filterM p l = Ok l' → filterM q l = Ok l'.
Proof.
  revert l'. induction l as [|y l IH]; intros l' Hpq H; simpl in *; [done|].
  bind_inv H. bind_inv H. injection H as <-.
  rewrite (Hpq y x) by (by left || done). simpl.
  rewrite (IH x0); [done| |done]. intros z b Hz. apply Hpq. by right.
Qed.

Lemma mapM'_Ok {A B} (f : A → Result B) (l : list A) (l' : list B) :
  mapM' f l = Ok l' → Forall2 (λ x y, f x = Ok y) l l'.
Proof.
  revert l'. induction l as [|x l IH]; intros l' H; simpl in H.
  - injection H as <-. constructor.
  - bind_inv H. bind_inv H. injection H as <-. constructor; [done|by apply IH].
Qed.

(** ** One step of placement *)

Lemma bundleCore_pushInternalized id (b : Bundle) :
  bundleCore (pushInternalized id b) = bundleCore b.
Proof. done. Qed.

Lemma getNode_ext {A} (g g' : Graph A) (i : nat) :
  nodes g = nodes g' → getNode g i = getNode g' i.
Proof. unfold getNode. by intros ->. Qed.

Lemma nodes_addEdges {A} (g : Graph A) (to : nat) (l : list nat) :
  nodes (foldl (λ bg from, if decide (to ≠ from) then addEdge bg from to else bg) g l)
  = nodes g.
Proof.
  revert g. induction l as [|x l IH]; intros g; simpl; [done|].
  rewrite IH. destruct (decide _); [apply nodes_addEdge|done].
Qed.

Section placement_steps.
Variables (d : Discovery) (r : Reachability) (av : Availability).

Lemma placeRoot_spec (s s' : BundleStore) (asset : Asset) (rootBundle : nat * nat)
    (reachable : list Asset) :
  placeRoot d r s asset rootBundle reachable = Ok s' →
  bundles s ⊆ bundles s' ∧
  (∀ id i, bundles s' !! id = Some i → bundles s !! id = None → id = asset_id asset) ∧
  length (nodes (bundleGraph s')) = length (nodes (bundleGraph s)) ∧
  ∀ j, bundleCore <$> getNode (bundleGraph s') j = bundleCore <$> getNode (bundleGraph s) j.
Proof.
  unfold placeRoot. intros H. bind_inv H. bind_inv H. bind_inv H.
  injection H as <-. cbn [bundles bundleGraph].
  split; [|split].
  - destruct (bundles s !! asset_id asset) eqn:Hlook; [done|].
    by apply insert_subseteq.
  - intros id i. destruct (bundles s !! asset_id asset) eqn:Hlook.
    + congruence.
    + destruct (decide (id = asset_id asset)) as [->|Hne]; [done|].
      rewrite lookup_insert_ne by done. congruence.
  - assert (length (nodes x) = length (nodes (bundleGraph s)) ∧
            ∀ j, getNode x j = getNode (bundleGraph s) j) as [Hlen1 Hx].
    { eapply (foldM_invariant
                (λ bg, length (nodes bg) = length (nodes (bundleGraph s)) ∧
                       ∀ j, getNode bg j = getNode (bundleGraph s) j));
        [| |exact E]; [|done].
      intros bg y bg' _ [Hl Hbg]. destruct (decide _).
      - intros Hy. bind_inv Hy. injection Hy as <-.
        rewrite nodes_addEdge. split; [done|]. intros j. by rewrite getNode_addEdge.
      - by intros [= <-]. }
    eapply (foldM_invariant
              (λ bg, length (nodes bg) = length (nodes (bundleGraph s)) ∧
                     ∀ j, bundleCore <$> getNode bg j
                          = bundleCore <$> getNode (bundleGraph s) j));
      [| |exact E1].
    + intros bg y bg' _ [Hl Hbg]. destruct (decide _); [|by intros [= <-]].
      intros Hy. bind_inv Hy. bind_inv Hy. injection Hy as <-.
      rewrite length_nodes_updateNode. split; [done|].
      intros j. rewrite getNode_updateNode.
      destruct (decide (j = x2)) as [->|Hne]; [|apply Hbg].
      rewrite <- Hbg. destruct (getNode bg x2); done.
    + split; [done|]. intros j. by rewrite Hx.
Qed.

Lemma placeShared_spec (s s' : BundleStore) (asset : Asset) (reachable : list Asset) :
  placeShared s asset reachable = Ok s' →
  ∃ i b0 srcs,
    mapM' (λ a, nullthrows (bundles s !! asset_id a) "bundles.get(a.id)") reachable
      = Ok srcs ∧
    bundles s' !! sharedBundleKey reachable = Some i ∧
    (∀ j, j ≠ i → getNode (bundleGraph s') j = getNode (bundleGraph s) j) ∧
    getNode (bundleGraph s') i = Some (addAssetToBundle asset b0) ∧
    ((getNode (bundleGraph s) i = Some b0 ∧ bundles s' = bundles s ∧
      length (nodes (bundleGraph s')) = length (nodes (bundleGraph s))) ∨
     (i = length (nodes (bundleGraph s)) ∧
      bundles s !! sharedBundleKey reachable = None ∧
      bundles s' = <[sharedBundleKey reachable := i]> (bundles s) ∧
      length (nodes (bundleGraph s')) = S (length (nodes (bundleGraph s))) ∧
      bundle_assets b0 = [] ∧ bundle_size b0 = 0%Z ∧ bundle_sourceBundles b0 = srcs)).
Proof.
  unfold placeShared. intros H. bind_inv H. rename x into srcs.
  bind_inv H. destruct x as [[bundleId bg] bundlesMap]. injection H as <-.
  cbn [bundles bundleGraph].
  destruct (bundles s !! sharedBundleKey reachable) as [existing|] eqn:Hkey.
  - bind_inv E0. injection E0 as <- <- <-.
    destruct (getNode (bundleGraph s) existing) as [b0|] eqn:Hb0; [|done].
    exists existing, b0, srcs. split; [done|]. split; [done|]. split; [|split].
    + intros j Hj. rewrite (getNode_ext _ _ j (nodes_addEdges _ _ _)).
      rewrite getNode_updateNode. by rewrite decide_False.
    + rewrite (getNode_ext _ _ existing (nodes_addEdges _ _ _)).
      rewrite getNode_updateNode, decide_True by done. by rewrite Hb0.
    + left. split; [done|]. split; [done|].
      by rewrite nodes_addEdges, length_nodes_updateNode.
  - bind_inv E0. bind_inv E0. unfold createBundle in E2. simpl in E2.
    injection E2 as <-.
    destruct (addNode _ _) as [newId bg'] eqn:Hadd. injection E0 as <- <- <-.
    assert (newId = length (nodes (bundleGraph s))) as -> by (by injection Hadd as <- _).
    assert (bg' = (addNode (bundleGraph s)
              (setSourceBundles srcs
                 {| bundle_assets := []; bundle_internalizedAssetIds := [];
                    bundle_bundleBehavior := None; bundle_needsStableName := false;
                    bundle_size := 0; bundle_sourceBundles := [];
                    bundle_target := bundle_target x; bundle_env := bundle_env x;
                    bundle_type := bundle_type x |})).2) as -> by (by rewrite Hadd).
    eexists _, _, srcs. split; [done|]. split; [by rewrite lookup_insert_eq|].
    split; [|split].
    + intros j Hj. rewrite (getNode_ext _ _ j (nodes_addEdges _ _ _)).
      rewrite getNode_updateNode, decide_False by done.
      rewrite getNode_addNode. by rewrite decide_False.
    + rewrite (getNode_ext _ _ _ (nodes_addEdges _ _ _)).
      rewrite getNode_updateNode, decide_True by done.
      rewrite getNode_addNode, decide_True by done. done.
    + right. split; [done|]. split; [done|]. split; [done|].
      split; [|done].
      by rewrite nodes_addEdges, length_nodes_updateNode, length_nodes_addNode.
Qed.
End placement_steps.

(** ** Placement only adds *)

Lemma storeExtends_refl (s : BundleStore) : storeExtends s s.
Proof. split; [done|]. split; [done|]. intros i b Hb. by exists b. Qed.

Lemma storeExtends_trans (s1 s2 s3 : BundleStore) :
  storeExtends s1 s2 → storeExtends s2 s3 → storeExtends s1 s3.
Proof.
  intros (Hm1 & Hl1 & Hn1) (Hm2 & Hl2 & Hn2). split; [by etrans|]. split; [lia|].
  intros i b Hb. destruct (Hn1 _ _ Hb) as (b2 & Hb2 & Hp2 & Hs2).
  destruct (Hn2 _ _ Hb2) as (b3 & Hb3 & Hp3 & Hs3).
  exists b3. split; [done|]. split; [by etrans|congruence].
Qed.

Section placement_facts.
Variables (d : Discovery) (r : Reachability) (av : Availability).

Lemma placeAsset_cases (s s' : BundleStore) (asset : Asset) :
  placeAsset d r av s asset = Ok s' →
  ∃ l, filteredReachable d r av s asset = Ok l ∧
    match jsmap_get (bundleRoots d) asset with
    | Some rootBundle => placeRoot d r s asset rootBundle l = Ok s'
    | None => (l = [] ∧ s' = s) ∨ (l ≠ [] ∧ placeShared s asset l = Ok s')
    end.
Proof.
  unfold placeAsset. intros H. bind_inv H. exists x. split; [done|].
  destruct (jsmap_get (bundleRoots d) asset); [done|].
  destruct x; [left; by injection H as <-|right; done].
Qed.

Lemma placeAsset_extends (s s' : BundleStore) (asset : Asset) :
  placeAsset d r av s asset = Ok s' → storeExtends s s'.
Proof.
  intros (l & Hl & H)%placeAsset_cases.
  destruct (jsmap_get (bundleRoots d) asset) as [rootBundle|].
  - apply placeRoot_spec in H as (Hsub & _ & Hlen & Hcore).
    split; [done|]. split; [lia|]. intros i b Hb. specialize (Hcore i).
    rewrite Hb in Hcore. destruct (getNode (bundleGraph s') i) as [b'|]; [|done].
    exists b'. split; [done|]. injection Hcore as Ha _ Hs _.
    rewrite Ha. done.
  - destruct H as [[_ ->]|[_ H]]; [apply storeExtends_refl|].
    apply placeShared_spec in H as (i & b0 & srcs & _ & _ & Hother & Hi & Hcase).
    unfold storeExtends.
    destruct Hcase as [(Hb0 & -> & Hlen)|(-> & Hnone & -> & Hlen & _)].
    + split; [done|]. split; [lia|]. intros j b Hb.
      destruct (decide (j = i)) as [->|Hne].
      * exists (addAssetToBundle asset b0). split; [done|].
        assert (b = b0) as -> by congruence. split; [apply jsset_add_prefix|done].
      * exists b. rewrite Hother by done. done.
    + split; [by apply insert_subseteq|]. split; [lia|]. intros j b Hb.
      assert (j ≠ length (nodes (bundleGraph s))) as Hne.
      { apply getNode_lt in Hb. lia. }
      exists b. rewrite Hother by done. done.
Qed.

Lemma placeAssets_extends (l : list Asset) (s s' : BundleStore) :
  placeAssets d r av l s = Ok s' → storeExtends s s'.
Proof.
  unfold placeAssets. revert s. induction l as [|x l IH]; intros s H; simpl in H.
  - injection H as <-. apply storeExtends_refl.
  - bind_inv H. eapply storeExtends_trans; [by eapply placeAsset_extends|by apply IH].
Qed.

(** The filter gives the same roots in every later state. *)
Lemma groupRootAsset_stable (s s' : BundleStore) (b : Asset) (x : option Asset) :
  storeExtends s s' → groupRootAsset d s b = Ok x → groupRootAsset d s' b = Ok x.
Proof.
  intros (_ & _ & Hn). unfold groupRootAsset.
  destruct (jsmap_get (bundleRoots d) b) as [tuple|]; [|done].
  destruct (getNode (bundleGraph s) tuple.2) as [group|] eqn:Hg; [|done].
  destruct (Hn _ _ Hg) as (group' & -> & [k Hk] & _). rewrite Hk.
  destruct (bundle_assets group); [done|]. done.
Qed.

Lemma keepReachable_stable (s s' : BundleStore) (asset b : Asset) (x : bool) :
  storeExtends s s' →
  keepReachable d av s asset b = Ok x → keepReachable d av s' asset b = Ok x.
Proof.
  intros Hext. unfold keepReachable. intros H. bind_inv H.
  by rewrite (groupRootAsset_stable _ _ _ _ Hext E).
Qed.

Lemma filteredReachable_stable (s s' : BundleStore) (asset : Asset) (l : list Asset) :
  storeExtends s s' →
  filteredReachable d r av s asset = Ok l → filteredReachable d r av s' asset = Ok l.
Proof.
  intros Hext. unfold filteredReachable. intros H. bind_inv H. rewrite E. simpl.
  eapply filterM_ext; [|exact H]. intros b x' _. by apply keepReachable_stable.
Qed.

(** An asset that is no bundle root stays with the bundle of its key. *)
Lemma placeAsset_owned (s s' : BundleStore) (x : Asset) :
  (∀ a, jsmap_get (bundleRoots d) a = None → ownedBySharedKey d r av s a) →
  placeAsset d r av s x = Ok s' →
  ∀ a, jsmap_get (bundleRoots d) a = None → ownedBySharedKey d r av s' a.
Proof.
  intros Hinv Hstep a Ha i b' Hb' Hin.
  pose proof (placeAsset_extends _ _ _ Hstep) as Hext.
  assert (∀ bold, getNode (bundleGraph s) i = Some bold → a ∈ bundle_assets bold →
          ∃ l, filteredReachable d r av s' a = Ok l ∧ l ≠ [] ∧
               bundles s' !! sharedBundleKey l = Some i) as Hold.
  { intros bold Hbold Hinold. destruct (Hinv a Ha i bold Hbold Hinold) as (l & Hl & Hne & Hk).
    exists l. split; [by eapply filteredReachable_stable|]. split; [done|].
    destruct Hext as (Hsub & _). by eapply lookup_weaken. }
  destruct (placeAsset_cases _ _ _ Hstep) as (l & Hl & H).
  destruct (jsmap_get (bundleRoots d) x) as [rootBundle|] eqn:Hx.
  - apply placeRoot_spec in H as (_ & _ & _ & Hcore). specialize (Hcore i).
    rewrite Hb' in Hcore. destruct (getNode (bundleGraph s) i) as [bold|] eqn:Hbold; [|done].
    injection Hcore as Hassets _ _ _. apply (Hold bold); [done|]. by rewrite <- Hassets.
  - destruct H as [[_ ->]|[Hne H]]; [by eapply Hold|].
    apply placeShared_spec in H as (k & b0 & srcs & _ & Hkey & Hother & Hk & Hcase).
    destruct (decide (i = k)) as [->|Hik].
    + rewrite Hk in Hb'. injection Hb' as <-. simpl in Hin.
      apply elem_of_jsset_add in Hin as [->|Hin].
      * exists l. split; [by eapply filteredReachable_stable|]. done.
      * destruct Hcase as [(Hb0 & _)|(_ & _ & _ & _ & Hempty & _)].
        -- by eapply Hold.
        -- rewrite Hempty in Hin. by apply elem_of_nil in Hin.
    + rewrite Hother in Hb' by done. by eapply Hold.
Qed.

Lemma placeAssets_owned (l : list Asset) (s s' : BundleStore) :
  (∀ a, jsmap_get (bundleRoots d) a = None → ownedBySharedKey d r av s a) →
  placeAssets d r av l s = Ok s' →
  ∀ a, jsmap_get (bundleRoots d) a = None → ownedBySharedKey d r av s' a.
Proof.
  intros Hs H. eapply (foldM_invariant
    (λ s, ∀ a, jsmap_get (bundleRoots d) a = None → ownedBySharedKey d r av s a));
    [| |exact H]; [|done].
  intros s1 x s2 _. apply placeAsset_owned.
Qed.


End placement_facts.

Lemma placement_inv (g : AssetGraph) (p : Placement) :
  placement g = Ok p →
  discovered (placed_discovery p) ∧
  placeAssets (placed_discovery p) (placed_reachability p) (placed_availability p)
              (assets (placed_discovery p)) (store (placed_discovery p))
    = Ok (placed_store p).
Proof.
  unfold placement. intros H. bind_inv H. bind_inv H. bind_inv H. bind_inv H.
  bind_inv H. injection H as <-. simpl. split; [by eapply discover_discovered|done].
Qed.

(** C1, as the code has it: when all assets are placed, an asset that is no
    bundle root is in at most one bundle of [bundleGraph], the one that
    [bundles] has under the key of the roots that need it; so an asset that
    survives placement is then in exactly one bundle.  The merges of step 4
    come after that and can copy the asset into several bundles. *)
Theorem placed_asset_has_one_bundle (g : AssetGraph) (p : Placement) (a : Asset)
    (i j : nat) (bi bj : Bundle) :
  placement g = Ok p →
  jsmap_get (bundleRoots (placed_discovery p)) a = None →
  getNode (bundleGraph (placed_store p)) i = Some bi → a ∈ bundle_assets bi →
  getNode (bundleGraph (placed_store p)) j = Some bj → a ∈ bundle_assets bj →
  i = j ∧
  ∃ l, filteredReachable (placed_discovery p) (placed_reachability p)
         (placed_availability p) (placed_store p) a = Ok l ∧
       bundles (placed_store p) !! sharedBundleKey l = Some i.
Proof.
  intros Hp Ha Hbi Hini Hbj Hinj. apply placement_inv in Hp as [Hd Hplace].
  assert (∀ a, jsmap_get (bundleRoots (placed_discovery p)) a = None →
            ownedBySharedKey (placed_discovery p) (placed_reachability p)
              (placed_availability p) (placed_store p) a) as Howned.
  { eapply placeAssets_owned; [|exact Hplace].
    intros a' Ha' k b Hb Hin. destruct Hd as (_ & Hbundles & _).
    destruct (Hbundles _ _ Hb) as [_ Hroots]. apply Hroots in Hin.
    apply jsmap_get_None in Ha'. done. }
  destruct (Howned a Ha i bi Hbi Hini) as (l & Hl & _ & Hki).
  destruct (Howned a Ha j bj Hbj Hinj) as (l' & Hl' & _ & Hkj).
  assert (l' = l) as -> by congruence. split; [congruence|]. by exists l.
Qed.

Lemma placed_asset_has_one_bundle_witness :
  let S := mkAsset "S" "js" None 40000 in
  ∃ p b,
    placement (twoEntriesSharing 40000) = Ok p ∧
    getNode (bundleGraph (placed_store p)) 2 = Some b ∧
    S ∈ bundle_assets b ∧
    (2 = 2 ∧
     ∃ l, filteredReachable (placed_discovery p) (placed_reachability p)
            (placed_availability p) (placed_store p) S = Ok l ∧
          bundles (placed_store p) !! sharedBundleKey l = Some 2).
Proof.
  intros S. do 2 eexists.
  (split; [vm_compute; reflexivity|]).
  (split; [vm_compute; reflexivity|]).
  (split; [apply (bool_decide_unpack _); vm_compute; exact I|]).
  eapply (placed_asset_has_one_bundle (twoEntriesSharing 40000) _ S 2 2).
  - (vm_compute; reflexivity).
  - (vm_compute; reflexivity).
  - (vm_compute; reflexivity).
  - (apply (bool_decide_unpack _); vm_compute; exact I).
  - (vm_compute; reflexivity).
  - (apply (bool_decide_unpack _); vm_compute; exact I).
Defined.


Lemma propagateToChild_intersects_witness :
  let V := mkAsset "V" "js" None 2 in
  let U := mkAsset "U" "js" None 1 in
  let C := mkAsset "C" "js" (Some inline) 7 in
  let d := {| store := {| bundles := ∅; bundleGraph := emptyGraph;
                          dependencyBundleGraph := emptyContentGraph |};
              bundleRoots := []; assetReference := []; reachableBundles := [];
              stack := [];
              asyncBundleRootGraph :=
                (addNodeByContentKeyIfNeeded emptyContentGraph "C" (BundleRootNode C)).2;
              bundleGroupBundleIds := []; assets := [] |} in
  let av := {| ancestorAssets := [(C, 0)]; assetSets := [[V]; [U; V]];
               assetRefsInBundleGroup := [] |} in
  ∃ av', propagateToChild d 1 av 0 = Ok av' ∧
         ancestorAssetsOf av' C = Some (setIntersect [V] [U; V]) ∧
         ∀ a available, ancestorAssetsOf av' C = Some available →
           a ∈ available ↔ a ∈ derefSet av 0 ∧ a ∈ derefSet av 1.
Proof.
  intros V U C d av.
  apply (propagateToChild_intersects d 1 av 0 C 0).
  - vm_compute; reflexivity.
  - vm_compute; reflexivity.
Defined.

(** ** The content graph *)

Section content_graph_facts.
Context {A L : Type} `{EqDecision L}.
Implicit Types (g : ContentGraph A L) (key : string).

Lemma lookupContentKey_Some g key i :
  lookupContentKey g key = Some i → ∃ x, cg_nodes g !! i = Some (Some key, x).
Proof.
  unfold lookupContentKey. destruct (list_find _ _) as [[j [k x]]|] eqn:Hfind; [|done].
  simpl. intros [= <-]. apply list_find_Some in Hfind as (Hj & Hk & _).
  simpl in Hk. subst k. by exists x.
Qed.

Lemma lookupContentKey_None g key :
  lookupContentKey g key = None → ∀ i x, cg_nodes g !! i = Some (Some key, x) → False.
Proof.
  unfold lookupContentKey. destruct (list_find _ _) as [[j [k x]]|] eqn:Hfind; [done|].
  intros _ i x Hi. apply list_find_None in Hfind.
  rewrite Forall_forall in Hfind. apply (Hfind (Some key, x)); [|done].
  by eapply list_elem_of_lookup_2.
Qed.

(** Adding a node under a key keeps the nodes and the edges there are, and
    the node returned is one under that key. *)
Lemma addNodeByContentKeyIfNeeded_spec g key (x : A) :
  let r := addNodeByContentKeyIfNeeded g key x in
  cg_edges r.2 = cg_edges g ∧
  cg_rootNodeId r.2 = cg_rootNodeId g ∧
  (∀ j y, cg_nodes g !! j = Some y → cg_nodes r.2 !! j = Some y) ∧
  (∃ x', cg_nodes r.2 !! r.1 = Some (Some key, x')) ∧
  (∀ j y, cg_nodes r.2 !! j = Some y → cg_nodes g !! j = Some y ∨ y = (Some key, x)).
Proof.
  unfold addNodeByContentKeyIfNeeded.
  destruct (lookupContentKey g key) as [i|] eqn:Hlook; simpl.
  - split; [done|]. split; [done|]. split; [done|].
    split; [by apply lookupContentKey_Some|]. intros j y Hy. by left.
  - split; [done|]. split; [done|]. split; [|split].
    + intros j y Hy. by apply lookup_app_l_Some.
    + exists x. by rewrite lookup_app_r, Nat.sub_diag.
    + intros j y Hy. apply lookup_app_Some in Hy as [Hy|[_ Hy]]; [by left|].
      right. destruct (j - length (cg_nodes g)); [by injection Hy as <-|done].
Qed.

Lemma elem_of_cg_addEdge g (from to : nat) (label : L) e :
  e ∈ cg_edges (cg_addEdge g from to label) ↔ e = (from, to, label) ∨ e ∈ cg_edges g.
Proof.
  unfold cg_addEdge. destruct (decide _); simpl.
  - naive_solver.
  - rewrite elem_of_app, list_elem_of_singleton. naive_solver.
Qed.

Lemma cg_nodes_addEdge g (from to : nat) (label : L) :
  cg_nodes (cg_addEdge g from to label) = cg_nodes g.
Proof. unfold cg_addEdge. by destruct (decide _). Qed.

Lemma elem_of_cg_connectedTo g (i j : nat) :
  j ∈ cg_connectedTo g i ↔ ∃ label, (j, i, label) ∈ cg_edges g.
Proof.
  unfold cg_connectedTo. rewrite list_elem_of_fmap. split.
  - intros ([[a b] l] & -> & Hin). apply list_elem_of_filter in Hin as [Hab Hin].
    simpl in *. subst. by exists l.
  - intros [l Hin]. exists (j, i, l). split; [done|]. by apply list_elem_of_filter.
Qed.

Lemma elem_of_cg_connectedFrom g (i j : nat) :
  j ∈ cg_connectedFrom g i ↔ ∃ label, (i, j, label) ∈ cg_edges g.
Proof.
  unfold cg_connectedFrom. rewrite list_elem_of_fmap. split.
  - intros ([[a b] l] & -> & Hin). apply list_elem_of_filter in Hin as [Hab Hin].
    simpl in *. subst. by exists l.
  - intros [l Hin]. exists (i, j, l). split; [done|]. by apply list_elem_of_filter.
Qed.
End content_graph_facts.

(** ** The second step: who reaches an asset is a bundle root *)

Lemma reachVisitor_inv (g : AssetGraph) (d : Discovery) (root : Asset) (rootNodeId : nat)
    (r r' : Reachability) (ev : Event) :
  let P := λ r : Reachability,
    reachInv d (reachableRoots r) ∧
    ∃ a, cg_getNode (reachableRoots r) rootNodeId = Some a ∧ asset_id a ∈ rootIds d in
  P r → reachVisitor g d root rootNodeId r ev = Ok r' → P r'.
Proof.
  intros P HP. destruct ev as [n ctx|n]; simpl; [|by intros [= <-]].
  destruct (decide _); [by intros [= <-]|]. destruct n as [a|dep].
  - pose proof (addNodeByContentKeyIfNeeded_spec (reachableRoots r) (asset_id a) a)
      as (Hedges & _ & Hkeep & _ & Hnew).
    destruct (addNodeByContentKeyIfNeeded _ _ _) as [nodeId rr]. simpl in *.
    intros [= <-]. destruct HP as [[Hkeys Hfrom] (a0 & Ha0 & Hid)].
    unfold P, reachInv, cg_getNode. cbn [reachableRoots]. rewrite !cg_nodes_addEdge.
    assert (∀ i b, cg_getNode (reachableRoots r) i = Some b → snd <$> cg_nodes rr !! i = Some b)
      as Hget.
    { unfold cg_getNode. intros i b Hb.
      destruct (cg_nodes (reachableRoots r) !! i) as [y|] eqn:Hy; [|done].
      by rewrite (Hkeep _ _ Hy). }
    split; [split|].
    + intros i key b Hb. destruct (Hnew _ _ Hb) as [Hold|[= -> ->]]; [exact (Hkeys _ _ _ Hold)|done].
    + intros e [->|He]%elem_of_cg_addEdge.
      * exists a0. split; [by apply Hget|done].
      * destruct (Hfrom e) as (b & Hb & Hbid); [by rewrite <- Hedges|].
        exists b. split; [by apply Hget|done].
    + exists a0. split; [by apply Hget|done].
  - destruct (_ && _); [|by intros [= <-]].
    destruct (getDependencyAssets g dep) as [|bundleRoot [|? ?]]; [by intros [= <-]| |done].
    intros H. bind_inv H. bind_inv H. destruct (defaultmap_get _ _ _). by injection H as <-.
Qed.

Lemma reachFrom_inv (g : AssetGraph) (d : Discovery) (r r' : Reachability)
    (entry : Asset * (nat * nat)) :
  entry ∈ bundleRoots d → reachInv d (reachableRoots r) →
  reachFrom g d r entry = Ok r' → reachInv d (reachableRoots r').
Proof.
  intros Hentry [Hkeys Hfrom]. unfold reachFrom.
  pose proof (addNodeByContentKeyIfNeeded_spec (reachableRoots r) (asset_id entry.1) entry.1)
    as (Hedges & _ & Hkeep & (x' & Hx') & Hnew).
  destruct (addNodeByContentKeyIfNeeded _ _ _) as [rootNodeId rr]. simpl in *.
  intros H.
  eapply (foldM_invariant (λ r : Reachability,
            reachInv d (reachableRoots r) ∧
            ∃ a, cg_getNode (reachableRoots r) rootNodeId = Some a ∧ asset_id a ∈ rootIds d))
    in H as [Hinv _]; [done| |].
  - intros s ev s' _. apply reachVisitor_inv.
  - simpl. assert (∀ i key a, cg_nodes rr !! i = Some (key, a) → key = Some (asset_id a))
      as Hkeys'.
    { intros i key a Ha. destruct (Hnew _ _ Ha) as [Hold|[= -> ->]]; [exact (Hkeys _ _ _ Hold)|done]. }
    split; [split; [done|]|].
    + intros e He. rewrite Hedges in He. destruct (Hfrom e He) as (b & Hb & Hbid).
      exists b. split; [|done]. unfold cg_getNode in *.
      destruct (cg_nodes (reachableRoots r) !! e.1.1) as [y|] eqn:Hy; [|done].
      by rewrite (Hkeep _ _ Hy).
    + exists x'. unfold cg_getNode. rewrite Hx'. split; [done|].
      apply Hkeys' in Hx'. injection Hx' as <-. unfold rootIds.
      apply list_elem_of_fmap. exists entry.1. split; [done|].
      apply list_elem_of_fmap. by exists entry.
Qed.

Lemma reach_reachersAreRoots (g : AssetGraph) (d : Discovery) (r : Reachability) :
  reach g d = Ok r → reachersAreRoots d r.
Proof.
  unfold reach. intros H.
  assert (reachInv d (reachableRoots r)) as [_ Hfrom].
  { eapply (foldM_invariant (λ r, reachInv d (reachableRoots r))); [| |exact H].
    - intros s e s' He. by apply reachFrom_inv.
    - split; [intros i key a Hi; by destruct i|]. intros e He. by apply elem_of_nil in He. }
  intros a l b Hl Hb. unfold getReachableBundleRoots in Hl. bind_inv Hl.
  apply mapM'_Ok in Hl. apply list_elem_of_lookup in Hb as [k Hk].
  destruct (Forall2_lookup_r _ _ _ _ _ Hl Hk) as (i & Hi & Hnode).
  apply list_elem_of_lookup_2 in Hi. apply elem_of_cg_connectedTo in Hi as [label Hedge].
  destruct (Hfrom _ Hedge) as (b' & Hb' & Hid). simpl in Hb'.
  rewrite Hb' in Hnode. simpl in Hnode. injection Hnode as <-. done.
Qed.

(** ** Placement keeps the bundles of the first step apart *)

Lemma sharedBundleKey_singleton (b : Asset) : sharedBundleKey [b] = asset_id b.
Proof. done. Qed.

Lemma discovered_placementInv (d : Discovery) :
  discovered d → placementInv d (length (nodes (bundleGraph (store d)))) (store d).
Proof.
  intros (Hpresent & Hbundles & Hroots). split; [|split; [done|split; [done|]]].
  - intros i b Hb. destruct (Hbundles _ _ Hb) as [Hsrc _]. rewrite Hsrc.
    split; [done|]. split; [by intros s ?%elem_of_nil|done].
  - intros id Hid. unfold rootIds in Hid.
    apply list_elem_of_fmap in Hid as (root & -> & Hroot).
    apply list_elem_of_fmap in Hroot as ([root' tuple] & -> & Hin).
    by destruct (Hroots _ _ Hin) as [_ ?].
Qed.

Section placement_invariant.
Variables (d : Discovery) (r : Reachability) (av : Availability) (n : nat).
Hypothesis Hreach : reachersAreRoots d r.

Lemma filteredReachable_roots (s : BundleStore) (asset : Asset) (l : list Asset) (b : Asset) :
  filteredReachable d r av s asset = Ok l → b ∈ l → asset_id b ∈ rootIds d.
Proof using Hreach.
  unfold filteredReachable. intros H Hb. bind_inv H.
  apply (filterM_Ok_elem_of _ _ _ b) in H as [Hin _]; [|done].
  by eapply Hreach.
Qed.

Lemma placeRoot_inv (s s' : BundleStore) (asset : Asset) (rootBundle : nat * nat)
    (l : list Asset) :
  placementInv d n s → placeRoot d r s asset rootBundle l = Ok s' → placementInv d n s'.
Proof.
  intros (Hws & Hn & Hpresent & Hroots) (Hsub & _ & Hlen & Hcore)%placeRoot_spec.
  split; [|split; [lia|split]].
  - intros i b' Hb'. specialize (Hcore i). rewrite Hb' in Hcore.
    destruct (getNode (bundleGraph s) i) as [b|] eqn:Hb; [|done].
    injection Hcore as _ _ Hsrc _. rewrite Hsrc. by apply Hws.
  - intros i Hi. rewrite Hlen in Hi. specialize (Hcore i).
    destruct (Hpresent i Hi) as [b Hb]. rewrite Hb in Hcore.
    destruct (getNode (bundleGraph s') i); [done|done].
  - intros id Hid. destruct (Hroots id Hid) as (i & Hi & Hlt).
    exists i. split; [by eapply lookup_weaken|done].
Qed.

Lemma placeShared_inv (s s' : BundleStore) (asset : Asset) (l : list Asset) :
  placementInv d n s → l ≠ [] → (∀ b, b ∈ l → asset_id b ∈ rootIds d) →
  placeShared s asset l = Ok s' → placementInv d n s'.
Proof.
  intros (Hws & Hn & Hpresent & Hroots) Hne Hl
    (i & b0 & srcs & Hsrcs & Hkey & Hother & Hi & Hcase)%placeShared_spec.
  apply mapM'_Ok in Hsrcs.
  assert (∀ y, y ∈ srcs → y < n) as Hbelow.
  { intros y Hy. apply list_elem_of_lookup in Hy as [k Hk].
    destruct (Forall2_lookup_r _ _ _ _ _ Hsrcs Hk) as (b & Hb & Hy).
    apply list_elem_of_lookup_2 in Hb. destruct (Hroots _ (Hl _ Hb)) as (j & Hj & Hlt).
    rewrite Hj in Hy. simpl in Hy. by injection Hy as <-. }
  destruct Hcase as [(Hb0 & Hbm & Hlen)|(-> & Hnone & Hbm & Hlen & _ & _ & Hsrc0)].
  - split; [|split; [lia|split]].
    + intros j b' Hb'. destruct (decide (j = i)) as [->|Hji].
      * rewrite Hi in Hb'. injection Hb' as <-. simpl. by apply Hws.
      * rewrite Hother in Hb' by done. by apply Hws.
    + intros j Hj. rewrite Hlen in Hj. destruct (decide (j = i)) as [->|Hji].
      * by rewrite Hi.
      * rewrite Hother by done. by apply Hpresent.
    + intros id Hid. rewrite Hbm. by apply Hroots.
  - assert (2 ≤ length srcs) as Hlen2.
    { rewrite <- (Forall2_length _ _ _ Hsrcs). destruct l as [|b1 [|b2 l]]; [done| |simpl; lia].
      destruct (Hroots _ (Hl b1 ltac:(by left))) as (j & Hj & _).
      rewrite sharedBundleKey_singleton in Hnone. congruence. }
    split; [|split; [lia|split]].
    + intros j b' Hb'. destruct (decide (j = length (nodes (bundleGraph s)))) as [->|Hji].
      * rewrite Hi in Hb'. injection Hb' as <-. simpl. rewrite Hsrc0.
        split; [lia|]. split; [done|lia].
      * rewrite Hother in Hb' by done. by apply Hws.
    + intros j Hj. rewrite Hlen in Hj.
      destruct (decide (j = length (nodes (bundleGraph s)))) as [->|Hji].
      * by rewrite Hi.
      * rewrite Hother by done. apply Hpresent. lia.
    + intros id Hid. destruct (Hroots id Hid) as (j & Hj & Hlt). exists j.
      split; [|done]. rewrite Hbm. rewrite lookup_insert_ne; [done|]. congruence.
Qed.

Lemma placeAsset_inv (s s' : BundleStore) (asset : Asset) :
  placementInv d n s → placeAsset d r av s asset = Ok s' → placementInv d n s'.
Proof using Hreach.
  intros Hinv (l & Hl & H)%placeAsset_cases.
  destruct (jsmap_get (bundleRoots d) asset) as [rootBundle|].
  - by eapply placeRoot_inv.
  - destruct H as [[_ ->]|[Hne H]]; [done|].
    eapply placeShared_inv; [done|done| |done].
    intros b Hb. by eapply filteredReachable_roots.
Qed.

Lemma placeAssets_inv (l : list Asset) (s s' : BundleStore) :
  placementInv d n s → placeAssets d r av l s = Ok s' → placementInv d n s'.
Proof using Hreach.
  intros Hinv H. eapply (foldM_invariant (placementInv d n)); [| |exact H]; [|done].
  intros s1 x s2 _. apply placeAsset_inv.
Qed.
End placement_invariant.

(** The state in which placement ends. *)
Lemma placement_placementInv (g : AssetGraph) (p : Placement) :
  placement g = Ok p →
  placementInv (placed_discovery p)
    (length (nodes (bundleGraph (store (placed_discovery p))))) (placed_store p) ∧
  (∀ root tuple, (root, tuple) ∈ bundleRoots (placed_discovery p) →
     tuple.1 < length (nodes (bundleGraph (store (placed_discovery p))))).
Proof.
  unfold placement. intros H. bind_inv H. bind_inv H. bind_inv H. bind_inv H.
  bind_inv H. injection H as <-. simpl.
  pose proof (discover_discovered _ _ _ E0) as Hd. split.
  - eapply placeAssets_inv; [by eapply reach_reachersAreRoots| |exact E3].
    by apply discovered_placementInv.
  - intros root tuple Hin. destruct Hd as (_ & _ & Hroots).
    by destruct (Hroots _ _ Hin).
Qed.

(** ** The merge of the small shared bundles *)

Lemma absorb_app (b : Bundle) (l1 l2 : list Asset) :
  absorb b (l1 ++ l2) = absorb (absorb b l1) l2.
Proof. unfold absorb. by rewrite foldl_app. Qed.

Lemma absorb_sourceBundles (b : Bundle) (l : list Asset) :
  bundle_sourceBundles (absorb b l) = bundle_sourceBundles b.
Proof. revert b. induction l as [|a l IH]; intros b; simpl; [done|]. by rewrite IH. Qed.

Lemma absorb_type (b : Bundle) (l : list Asset) :
  bundle_type (absorb b l) = bundle_type b.
Proof. revert b. induction l as [|a l IH]; intros b; simpl; [done|]. by rewrite IH. Qed.

Lemma absorb_size (b : Bundle) (l : list Asset) :
  bundle_size (absorb b l) = (bundle_size b + totalSize l)%Z.
Proof.
  revert b. induction l as [|a l IH]; intros b; simpl; [lia|].
  rewrite IH. simpl. lia.
Qed.

Lemma elem_of_absorb (b : Bundle) (l : list Asset) (a : Asset) :
  a ∈ bundle_assets (absorb b l) ↔ a ∈ bundle_assets b ∨ a ∈ l.
Proof.
  revert b. induction l as [|x l IH]; intros b; simpl.
  - rewrite elem_of_nil. naive_solver.
  - rewrite IH. simpl. rewrite elem_of_jsset_add, elem_of_cons. naive_solver.
Qed.

(** The loop of [updateNode]s is [absorb] on the node. *)
Lemma getNode_absorbAssets (bg : Graph Bundle) (into : nat) (l : list Asset) (j : nat) :
  getNode (absorbAssets bg into l) j
  = if decide (j = into) then (λ b, absorb b l) <$> getNode bg into else getNode bg j.
Proof.
  unfold absorbAssets. revert bg. induction l as [|a l IH]; intros bg; simpl.
  - destruct (decide (j = into)) as [->|]; [|done]. by destruct (getNode bg into).
  - rewrite IH. destruct (decide (j = into)) as [->|Hne].
    + rewrite getNode_updateNode, decide_True by done. by destruct (getNode bg into).
    + by rewrite getNode_updateNode, decide_False.
Qed.

Lemma length_nodes_absorbAssets (bg : Graph Bundle) (into : nat) (l : list Asset) :
  length (nodes (absorbAssets bg into l)) = length (nodes bg).
Proof.
  unfold absorbAssets. revert bg. induction l as [|a l IH]; intros bg; simpl; [done|].
  by rewrite IH, length_nodes_updateNode.
Qed.

Lemma edges_absorbAssets (bg : Graph Bundle) (into : nat) (l : list Asset) :
  edges (absorbAssets bg into l) = edges bg.
Proof.
  unfold absorbAssets. revert bg. induction l as [|a l IH]; intros bg; simpl; [done|].
  by rewrite IH, edges_updateNode.
Qed.

Lemma foldM_cons {A S} (f : S → A → Result S) (x : A) (l : list A) (s : S) :
  foldM f (x :: l) s = f s x ≫= foldM f l.
Proof. done. Qed.

Lemma Ok_bind {A B} (a : A) (f : A → Result B) : Ok a ≫= f = f a.
Proof. done. Qed.

Lemma foldM_fmap {A B S} (f : S → B → Result S) (h : A → B) (l : list A) (s : S) :
  foldM f (h <$> l) s = foldM (λ s x, f s (h x)) l s.
Proof.
  revert s. induction l as [|x l IH]; intros s; simpl; [done|].
  destruct (f s (h x)); simpl; [apply IH|done].
Qed.

Lemma foldM_bind {A B S} (f : S → B → Result S) (h : A → list B) (l : list A) (s : S) :
  foldM f (l ≫= h) s = foldM (λ s x, foldM f (h x) s) l s.
Proof.
  revert s. induction l as [|x l IH]; intros s; simpl; [done|].
  rewrite foldM_app. destruct (foldM f (h x) s); simpl; [apply IH|done].
Qed.

Lemma removeBundle_handOver (bg : Graph Bundle) (bundleId : nat) (b : Bundle) :
  getNode bg bundleId = Some b →
  removeBundle bg bundleId
  = (bg' ← foldM handOver (handedOver b) bg; Ok (removeNode bg' bundleId)).
Proof.
  intros Hb. unfold removeBundle, handedOver. rewrite Hb. simpl.
  rewrite foldM_bind. f_equal.
  assert (∀ l g, foldM (λ bg asset,
             foldM (λ bg sourceBundleId,
               _ ← nullthrows (getNode bg sourceBundleId) "sourceBundle";
               Ok (updateNode bg sourceBundleId (addAssetToBundle asset)))
             (bundle_sourceBundles b) bg) l g
          = foldM (λ s x, foldM handOver ((λ s0, (s0, x)) <$> bundle_sourceBundles b) s) l g)
    as Heq; [|by rewrite Heq].
  induction l as [|a l IH]; intros g; simpl; [done|].
  rewrite foldM_fmap. simpl. unfold handOver at 1. simpl.
  destruct (foldM _ (bundle_sourceBundles b) g); simpl; [apply IH|done].
Qed.

Lemma handOver_Some (bg : Graph Bundle) (s : nat) (a : Asset) (b : Bundle) :
  getNode bg s = Some b → handOver bg (s, a) = Ok (updateNode bg s (addAssetToBundle a)).
Proof. unfold handOver. simpl. by intros ->. Qed.

(** When the targets are there, the pairs are absorbed target by target. *)
Lemma foldM_handOver (pairs : list (nat * Asset)) (bg : Graph Bundle) :
  (∀ p, p ∈ pairs → is_Some (getNode bg p.1)) →
  ∃ bg', foldM handOver pairs bg = Ok bg' ∧
    length (nodes bg') = length (nodes bg) ∧
    edges bg' = edges bg ∧
    ∀ j, getNode bg' j
         = (λ b, absorb b (snd <$> filter (λ p, p.1 = j) pairs)) <$> getNode bg j.
Proof.
  revert bg. induction pairs as [|[s a] pairs IH]; intros bg Hpresent.
  - exists bg. split; [done|]. split; [done|]. split; [done|].
    intros j. by destruct (getNode bg j).
  - rewrite foldM_cons.
    destruct (Hpresent (s, a)) as [bs Hbs]; [by left|]. cbn [fst] in Hbs.
    rewrite (handOver_Some _ _ _ _ Hbs), Ok_bind.
    destruct (IH (updateNode bg s (addAssetToBundle a))) as (bg' & Hfold & Hlen & Hedges & Hnodes).
    { intros p Hp. rewrite getNode_updateNode. destruct (decide (p.1 = s)); [by rewrite Hbs|].
      apply Hpresent. by right. }
    exists bg'. split; [done|]. split; [by rewrite Hlen, length_nodes_updateNode|].
    split; [by rewrite Hedges, edges_updateNode|].
    intros j. rewrite Hnodes, getNode_updateNode. rewrite filter_cons. simpl.
    destruct (decide (j = s)) as [->|Hne].
    + rewrite Hbs, decide_True by done. done.
    + rewrite decide_False by done. done.
Qed.

Lemma elem_of_handedOver (b : Bundle) (p : nat * Asset) :
  p ∈ handedOver b ↔ p.1 ∈ bundle_sourceBundles b ∧ p.2 ∈ bundle_assets b.
Proof.
  unfold handedOver. rewrite list_elem_of_bind. split.
  - intros (a & Hp & Ha). apply list_elem_of_fmap in Hp as (s & -> & Hs). done.
  - intros [Hs Ha]. exists p.2. split; [|done]. apply list_elem_of_fmap.
    exists p.1. split; [by destruct p|done].
Qed.

Lemma elem_of_mergedPairs (config : ResolvedBundlerConfig) (bg : Graph Bundle)
    (ids : list nat) (p : nat * Asset) :
  p ∈ mergedPairs config bg ids ↔
  ∃ i b, i ∈ ids ∧ getNode bg i = Some b ∧ isSmallShared config b ∧
         p.1 ∈ bundle_sourceBundles b ∧ p.2 ∈ bundle_assets b.
Proof.
  unfold mergedPairs. rewrite list_elem_of_bind. split.
  - intros (i & Hp & Hi). destruct (getNode bg i) as [b|] eqn:Hb; [|by apply elem_of_nil in Hp].
    destruct (isSmallShared config b) eqn:Hsmall; [|by apply elem_of_nil in Hp].
    apply elem_of_handedOver in Hp. exists i, b. by rewrite Hsmall.
  - intros (i & b & Hi & Hb & Hsmall & Hp). exists i. split; [|done].
    rewrite Hb. destruct (isSmallShared config b); [|done]. by apply elem_of_handedOver.
Qed.

Lemma isSmallShared_isShared (config : ResolvedBundlerConfig) (b : Bundle) :
  isSmallShared config b → bundle_sourceBundles b ≠ [].
Proof.
  unfold isSmallShared, isShared. intros [H _]%andb_prop_elim.
  apply bool_decide_unpack in H. destruct (bundle_sourceBundles b); [simpl in H; lia|done].
Qed.

Lemma foldM_singleton {A S} (f : S → A → Result S) (x : A) (s : S) :
  foldM f [x] s = f s x.
Proof. simpl. by destruct (f s x). Qed.

Section merge_small_shared.
Variables (config : ResolvedBundlerConfig) (n : nat) (bg : Graph Bundle).
Hypothesis Hws : wellSourced n bg.
Hypothesis Hpresent : ∀ i, i < n → is_Some (getNode bg i).

Lemma mergedPairs_below (ids : list nat) (p : nat * Asset) :
  p ∈ mergedPairs config bg ids → p.1 < n.
Proof using Hws.
  intros (i & b & _ & Hb & _ & Hs & _)%elem_of_mergedPairs.
  destruct (Hws _ _ Hb) as (_ & Hbelow & _). by apply Hbelow.
Qed.

Lemma smallShared_above (i : nat) (b : Bundle) :
  getNode bg i = Some b → isSmallShared config b → n ≤ i.
Proof using Hws.
  intros Hb Hsmall%isSmallShared_isShared. destruct (Hws _ _ Hb) as (Hroot & _).
  destruct (decide (i < n)); [|lia]. by destruct Hsmall; apply Hroot.
Qed.

Lemma shared_above (i : nat) (b : Bundle) :
  getNode bg i = Some b → isShared b → n ≤ i.
Proof using Hws.
  intros Hb Hshared. destruct (Hws _ _ Hb) as (Hroot & _).
  destruct (decide (i < n)) as [Hlt|]; [|lia]. unfold isShared in Hshared.
  rewrite (Hroot Hlt) in Hshared. apply bool_decide_unpack in Hshared. simpl in Hshared. lia.
Qed.

Lemma no_pairs_above (ids : list nat) (j : nat) :
  n ≤ j → filter (λ p : nat * Asset, p.1 = j) (mergedPairs config bg ids) = [].
Proof using Hws.
  intros Hj. apply elem_of_nil_inv. intros p [Hpj Hp]%list_elem_of_filter.
  apply mergedPairs_below in Hp. lia.
Qed.

Lemma mergeSmallShared_upTo (k : nat) :
  ∃ bg',
    foldM (λ bg bundleNodeId,
      match getNode bg bundleNodeId with
      | None => Ok bg
      | Some bundle =>
          if isShared bundle && bool_decide (bundle_size bundle < minBundleSize config)%Z
          then removeBundle bg bundleNodeId
          else Ok bg
      end) (seq 0 k) bg = Ok bg' ∧
    mergedUpTo config bg k bg'.
Proof using Hws Hpresent.
  induction k as [|k (bgk & Hfold & Hlen & Hedges & Hnodes)].
  - exists bg. split; [done|]. split; [done|]. split; [done|].
    intros j. destruct (getNode bg j) as [b|]; [|done].
    rewrite andb_false_r. done.
  - unfold mergedUpTo. rewrite !seq_S. cbn [Nat.add].
    rewrite foldM_app, Hfold, Ok_bind, foldM_singleton.
    assert (mergedPairs config bg (seq 0 k ++ [k])
            = mergedPairs config bg (seq 0 k) ++
              match getNode bg k with
              | Some b => if isSmallShared config b then handedOver b else []
              | None => []
              end) as Hpairs.
    { unfold mergedPairs. rewrite bind_app. simpl. by rewrite app_nil_r. }
    pose proof (Hnodes k) as Hk.
    destruct (getNode bg k) as [b|] eqn:Hb.
    + destruct (isSmallShared config b) eqn:Hsmall.
      * (* the bundle at [k] is small and shared: it is still as it was *)
        rewrite bool_decide_false in Hk by lia. rewrite andb_false_r in Hk.
        rewrite no_pairs_above in Hk by (by eapply smallShared_above; rewrite ?Hsmall).
        simpl in Hk. rewrite Hk.
        change (isShared b && bool_decide (bundle_size b < minBundleSize config)%Z)
          with (isSmallShared config b). rewrite Hsmall.
        rewrite (removeBundle_handOver _ _ _ Hk).
        destruct (foldM_handOver (handedOver b) bgk) as (bg2 & Hfold2 & Hlen2 & Hedges2 & Hnodes2).
        { intros p [Hs _]%elem_of_handedOver. rewrite Hnodes.
          destruct (Hws _ _ Hb) as (_ & Hbelow & _). specialize (Hbelow _ Hs).
          destruct (Hpresent _ Hbelow) as [bs Hbs]. rewrite Hbs.
          destruct (isSmallShared config bs) eqn:Hsmall'; [|done].
          assert (n ≤ p.1) by (by eapply smallShared_above; rewrite ?Hsmall'). lia. }
        rewrite Hfold2, Ok_bind. eexists. split; [done|]. split; [|split].
        -- by rewrite length_nodes_removeNode, Hlen2.
        -- intros e He. simpl in He. apply list_elem_of_filter in He as [_ He].
           apply Hedges. by rewrite <- Hedges2.
        -- intros j. rewrite getNode_removeNode. destruct (decide (j = k)) as [->|Hjk].
           ++ rewrite Hb, Hsmall, bool_decide_true by lia. done.
           ++ rewrite Hnodes2, Hnodes. destruct (getNode bg j) as [bj|]; [|done].
              rewrite (bool_decide_ext (j < S k) (j < k)) by lia.
              destruct (isSmallShared config bj && bool_decide (j < k)); [done|].
              simpl. rewrite Hpairs, filter_app, fmap_app, absorb_app. done.
      * (* the bundle at [k] stays *)
        rewrite andb_false_l in Hk. rewrite Hk.
        assert (isShared (absorb b (snd <$> filter (λ p, p.1 = k)
                                      (mergedPairs config bg (seq 0 k))))
                && bool_decide (bundle_size (absorb b (snd <$> filter (λ p, p.1 = k)
                                      (mergedPairs config bg (seq 0 k))))
                                < minBundleSize config)%Z = false) as ->.
        { unfold isShared. rewrite absorb_sourceBundles.
          destruct (bool_decide (0 < length (bundle_sourceBundles b))) eqn:Hshared; [|done].
          rewrite no_pairs_above.
          - simpl. unfold isSmallShared, isShared in Hsmall. by rewrite Hshared in Hsmall.
          - eapply shared_above; [done|]. unfold isShared. by rewrite Hshared. }
        exists bgk. split; [done|]. split; [done|]. split; [done|].
        intros j. rewrite Hnodes. destruct (getNode bg j) as [bj|] eqn:Hbj; [|done].
        rewrite Hpairs, app_nil_r. destruct (decide (j = k)) as [->|Hjk].
        -- assert (bj = b) as -> by congruence. by rewrite Hsmall.
        -- by rewrite (bool_decide_ext (j < S k) (j < k)) by lia.
    + rewrite Hk. exists bgk. split; [done|]. split; [done|]. split; [done|].
      intros j. rewrite Hnodes. destruct (getNode bg j) as [bj|] eqn:Hbj; [|done].
      rewrite Hpairs, app_nil_r. destruct (decide (j = k)) as [->|Hjk]; [congruence|].
      by rewrite (bool_decide_ext (j < S k) (j < k)) by lia.
Qed.

(** The loop removes the small shared bundles, and every other bundle
    absorbs the assets that come to it. *)
Lemma mergeSmallShared_spec :
  ∃ bg', mergeSmallShared config bg = Ok bg' ∧
    length (nodes bg') = length (nodes bg) ∧
    (∀ e, e ∈ edges bg' → e ∈ edges bg) ∧
    ∀ j, getNode bg' j
         = match getNode bg j with
           | Some b => if isSmallShared config b then None
                       else Some (absorb b (incomingAssets config bg j))
           | None => None
           end.
Proof using Hws Hpresent.
  destruct (mergeSmallShared_upTo (length (nodes bg))) as (bg' & Hfold & Hlen & Hedges & Hnodes).
  exists bg'. split; [done|]. split; [done|]. split; [done|].
  intros j. rewrite Hnodes. destruct (getNode bg j) as [b|] eqn:Hb; [|done].
  rewrite bool_decide_true by (by eapply getNode_lt). by rewrite andb_true_r.
Qed.
End merge_small_shared.

(** ** The entry fold and the orphan drop keep the shared bundles sound *)

Section fold_keeps_plannable.
Variables (config : ResolvedBundlerConfig) (n : nat).

Lemma plannable_absorbAssets (bg : Graph Bundle) (into : nat) (l : list Asset) :
  into < n → plannable config n bg → plannable config n (absorbAssets bg into l).
Proof.
  intros Hinto [Hws Hsized].
  assert (∀ j b', getNode (absorbAssets bg into l) j = Some b' →
            ∃ b, getNode bg j = Some b ∧
                 bundle_sourceBundles b' = bundle_sourceBundles b ∧
                 (j ≠ into → b' = b)) as Hold.
  { intros j b'. rewrite getNode_absorbAssets. destruct (decide (j = into)) as [->|Hne].
    - destruct (getNode bg into) as [b|]; [|done]. intros [= <-]. exists b.
      by rewrite absorb_sourceBundles.
    - intros Hb. by exists b'. }
  split.
  - intros j b' (b & Hb & Hsrc & _)%Hold. rewrite Hsrc. by apply Hws.
  - intros j b' Hb' Hshared. destruct (Hold _ _ Hb') as (b & Hb & Hsrc & Hsame).
    destruct (decide (j = into)) as [->|Hne].
    + destruct (Hws _ _ Hb) as (Hroot & _). rewrite Hsrc, (Hroot Hinto) in Hshared. done.
    + rewrite (Hsame Hne). apply (Hsized j); [done|]. by rewrite <- (Hsame Hne).
Qed.

Lemma plannable_same_nodes (bg bg' : Graph Bundle) :
  nodes bg' = nodes bg → plannable config n bg → plannable config n bg'.
Proof.
  intros Hnodes [Hws Hsized]. split.
  - intros j b. rewrite (getNode_ext _ _ j Hnodes). apply Hws.
  - intros j b. rewrite (getNode_ext _ _ j Hnodes). apply Hsized.
Qed.

Lemma plannable_removeNode (bg : Graph Bundle) (i : nat) :
  plannable config n bg → plannable config n (removeNode bg i).
Proof.
  intros [Hws Hsized]. split.
  - intros j b. rewrite getNode_removeNode. destruct (decide (j = i)); [done|]. apply Hws.
  - intros j b. rewrite getNode_removeNode. destruct (decide (j = i)); [done|]. apply Hsized.
Qed.

Lemma plannable_setSourceBundles (bg : Graph Bundle) (i : nat) (b : Bundle)
    (srcs : list nat) :
  getNode bg i = Some b → bundle_sourceBundles b ≠ [] →
  srcs ⊆ bundle_sourceBundles b → length srcs ≠ 1 →
  plannable config n bg → plannable config n (updateNode bg i (setSourceBundles srcs)).
Proof.
  intros Hb Hne Hsub Hlen [Hws Hsized]. destruct (Hws _ _ Hb) as (Hroot & Hbelow & _).
  split.
  - intros j b'. rewrite getNode_updateNode. destruct (decide (j = i)) as [->|Hji]; [|apply Hws].
    rewrite Hb. intros [= <-]. simpl. split; [|split; [|done]].
    + intros Hlt. by destruct Hne; apply Hroot.
    + intros s Hs. apply Hbelow. by apply Hsub.
  - intros j b'. rewrite getNode_updateNode. destruct (decide (j = i)) as [->|Hji]; [|apply Hsized].
    rewrite Hb. intros [= <-]. simpl. intros _. by apply (Hsized i).
Qed.

Lemma foldSibling_plannable (entryAsset : Asset) (entryBundleId : nat) (entryType : string)
    (st st' : Graph Bundle * list (nat * list Asset)) (siblingId : nat) :
  entryBundleId < n → plannable config n st.1 →
  foldSibling entryAsset entryBundleId entryType st siblingId = Ok st' →
  plannable config n st'.1.
Proof.
  intros Hentry Hplan. unfold foldSibling. destruct st as [bg rar]. simpl in Hplan.
  intros H. bind_inv H. destruct (decide _); [by injection H as <-|].
  destruct (defaultmap_get _ _ _) as [dependentRoots rar'].
  set (bg2 := removeEdge (absorbAssets bg entryBundleId (bundle_assets x)) entryBundleId siblingId)
    in *.
  assert (plannable config n bg2) as Hplan2.
  { apply (plannable_same_nodes (absorbAssets bg entryBundleId (bundle_assets x)));
      [done|]. by apply plannable_absorbAssets. }
  destruct (bool_decide _) eqn:Hmany; [|by injection H as <-].
  apply bool_decide_eq_true in Hmany.
  destruct (getNode bg2 siblingId) as [sib|] eqn:Hsib; [|simpl in Hmany; lia].
  simpl in Hmany, H.
  destruct (list_find _ _) as [[entryBundleIndex ?]|] eqn:Hfind; [|done].
  assert (bundle_sourceBundles sib ≠ []) as Hne.
  { intros Heq. rewrite Heq in Hmany. simpl in Hmany. lia. }
  pose proof (list_subseteq_delete entryBundleIndex (bundle_sourceBundles sib)) as Hsub.
  destruct (delete entryBundleIndex (bundle_sourceBundles sib)) as [|id [|id' rest]] eqn:Hdel.
  - injection H as <-. simpl. by apply (plannable_setSourceBundles _ _ sib).
  - bind_inv H. injection H as <-. simpl.
    apply (plannable_same_nodes (absorbAssets (updateNode bg2 siblingId (setSourceBundles [])) id
             (default [] (bundle_assets <$>
                getNode (updateNode bg2 siblingId (setSourceBundles [])) siblingId))));
      [done|].
    apply plannable_absorbAssets.
    + destruct Hplan2 as [Hws _]. destruct (Hws _ _ Hsib) as (_ & Hbelow & _).
      apply Hbelow, Hsub. by left.
    + apply (plannable_setSourceBundles _ _ sib); [done|done|apply list_subseteq_nil|done|done].
  - injection H as <-. simpl. by apply (plannable_setSourceBundles _ _ sib).
Qed.

Lemma foldEntry_plannable (d : Discovery) (st st' : Graph Bundle * list (nat * list Asset))
    (entryAsset : Asset) :
  (∀ root tuple, (root, tuple) ∈ bundleRoots d → tuple.1 < n) →
  plannable config n st.1 → foldEntry d st entryAsset = Ok st' → plannable config n st'.1.
Proof.
  intros Hroots Hplan. unfold foldEntry. intros H. bind_inv H. bind_inv H.
  assert (x < n) as Hlt.
  { destruct (jsmap_get (bundleRoots d) entryAsset) as [tuple|] eqn:Hget; [|done].
    injection E as <-. apply jsmap_get_Some in Hget. by eapply Hroots. }
  eapply (foldM_invariant (λ st, plannable config n st.1)); [| |exact H]; [|done].
  intros s sib s' _. by apply foldSibling_plannable.
Qed.

Lemma dropOrphans_plannable (bg : Graph Bundle) (rar : list (nat * list Asset)) :
  plannable config n bg → plannable config n (dropOrphans bg rar).
Proof.
  unfold dropOrphans. revert bg. induction rar as [|e rar IH]; intros bg Hplan; simpl; [done|].
  apply IH. destruct (decide _); [by apply plannable_removeNode|done].
Qed.
End fold_keeps_plannable.

Lemma mergeSmallShared_plannable (config : ResolvedBundlerConfig) (n : nat)
    (bg bg' : Graph Bundle) :
  wellSourced n bg → (∀ i, i < n → is_Some (getNode bg i)) →
  mergeSmallShared config bg = Ok bg' → plannable config n bg'.
Proof.
  intros Hws Hpresent Hmerge.
  destruct (mergeSmallShared_spec config n bg Hws Hpresent) as (bg2 & Hmerge2 & _ & _ & Hnodes).
  assert (bg2 = bg') as -> by congruence.
  assert (∀ j b', getNode bg' j = Some b' →
            ∃ b, getNode bg j = Some b ∧ isSmallShared config b = false ∧
                 b' = absorb b (incomingAssets config bg j)) as Hold.
  { intros j b'. rewrite Hnodes. destruct (getNode bg j) as [b|]; [|done].
    destruct (isSmallShared config b) eqn:Hsmall; [done|]. intros [= <-]. by exists b. }
  split.
  - intros j b' (b & Hb & _ & ->)%Hold. rewrite absorb_sourceBundles. by apply Hws.
  - intros j b' (b & Hb & Hsmall & ->)%Hold. rewrite absorb_sourceBundles. intros Hshared.
    assert (n ≤ j) as Hj.
    { destruct (Hws _ _ Hb) as (Hroot & _). destruct (decide (j < n)); [|lia].
      by destruct Hshared; apply Hroot. }
    unfold incomingAssets. rewrite (no_pairs_above config n bg Hws) by done. simpl.
    unfold isSmallShared, isShared in Hsmall.
    rewrite bool_decide_true in Hsmall
      by (destruct (bundle_sourceBundles b); [done|simpl; lia]).
    simpl in Hsmall. apply bool_decide_eq_false in Hsmall. lia.
Qed.

(** C2: in the plan that [createIdealGraph] returns, a bundle with source
    bundles has at least two of them and at least the minimal size. *)
Theorem shared_bundles_large_and_multi_sourced (g : AssetGraph)
    (config : ResolvedBundlerConfig) (plan : IdealGraph) (i : nat) (b : Bundle) :
  createIdealGraph g config = Ok plan →
  getNode (ideal_bundleGraph plan) i = Some b →
  bundle_sourceBundles b ≠ [] →
  2 ≤ length (bundle_sourceBundles b) ∧ (minBundleSize config ≤ bundle_size b)%Z.
Proof.
  unfold createIdealGraph. intros H Hb Hshared. bind_inv H. rename x into p.
  bind_inv H. destruct x as [bg rar]. injection H as <-. simpl in Hb.
  destruct (placement_placementInv _ _ E) as [(Hws & Hn & Hpresent & _) Hroots].
  set (n := length (nodes (bundleGraph (store (placed_discovery p))))) in *.
  unfold mergeAndCleanup in E0. bind_inv E0. bind_inv E0. destruct x0 as [bg2 rar2].
  injection E0 as <- <-.
  assert (plannable config n (dropOrphans bg2 rar2)) as [Hws' Hsized].
  { apply dropOrphans_plannable.
    eapply (foldM_invariant (λ st, plannable config n st.1)) in E2; [exact E2| |].
    - intros s e s' _. by apply foldEntry_plannable.
    - simpl. eapply mergeSmallShared_plannable; [exact Hws| |exact E1].
      intros j Hj. apply Hpresent. lia. }
  split; [|by eapply Hsized].
  destruct (Hws' _ _ Hb) as (_ & _ & Hlen).
  destruct (bundle_sourceBundles b) as [|? [|? ?]]; [done|done|simpl; lia].
Qed.

Lemma shared_bundles_large_and_multi_sourced_witness :
  ∃ plan b,
    createIdealGraph (twoLazySharing 40000) http2 = Ok plan ∧
    getNode (ideal_bundleGraph plan) 3 = Some b ∧
    bundle_sourceBundles b = [1; 2] ∧
    (2 ≤ length (bundle_sourceBundles b) ∧ (minBundleSize http2 ≤ bundle_size b)%Z).
Proof.
  do 2 eexists.
  split; [vm_compute; reflexivity|].
  split; [vm_compute; reflexivity|].
  split; [vm_compute; reflexivity|].
  eapply (shared_bundles_large_and_multi_sourced (twoLazySharing 40000) http2 _ 3).
  - vm_compute; reflexivity.
  - vm_compute; reflexivity.
  - discriminate.
Defined.

Lemma elem_of_incomingAssets (config : ResolvedBundlerConfig) (bg : Graph Bundle)
    (s : nat) (a : Asset) :
  a ∈ incomingAssets config bg s ↔
  ∃ i b, getNode bg i = Some b ∧ isSmallShared config b ∧
         s ∈ bundle_sourceBundles b ∧ a ∈ bundle_assets b.
Proof.
  unfold incomingAssets. rewrite list_elem_of_fmap. split.
  - intros ([s' a'] & -> & [Hs Hp]%list_elem_of_filter). simpl in Hs. subst s'.
    apply elem_of_mergedPairs in Hp as (i & b & _ & Hb & Hsmall & Hsrc & Ha).
    by exists i, b.
  - intros (i & b & Hb & Hsmall & Hsrc & Ha). exists (s, a). split; [done|].
    apply list_elem_of_filter. split; [done|]. apply elem_of_mergedPairs.
    exists i, b. split; [|done]. apply elem_of_seq. apply getNode_lt in Hb. lia.
Qed.

(** C6: after placement, the first loop of step 4 removes every shared
    bundle that is smaller than [config.minBundleSize] from [bundleGraph], and
    every source bundle of such a bundle then has all its assets; the size of
    the source bundle has grown by the sizes of the assets that came to it,
    one copy from every small shared bundle it is a source of.  In scenario
    S4 the plan has no shared bundle and [S] is in the bundles of both
    entries. *)
Theorem small_shared_bundles_merged :
  (∀ (g : AssetGraph) (config : ResolvedBundlerConfig) (p : Placement),
     placement g = Ok p →
     ∃ bg', mergeSmallShared config (bundleGraph (placed_store p)) = Ok bg' ∧
       ∀ i b, getNode (bundleGraph (placed_store p)) i = Some b →
         bundle_sourceBundles b ≠ [] →
         (bundle_size b < minBundleSize config)%Z →
         getNode bg' i = None ∧
         ∀ s, s ∈ bundle_sourceBundles b →
           ∃ sb sb', getNode (bundleGraph (placed_store p)) s = Some sb ∧
             getNode bg' s = Some sb' ∧
             (∀ a, a ∈ bundle_assets b → a ∈ bundle_assets sb') ∧
             (∀ a, a ∈ bundle_assets sb' ↔
                   a ∈ bundle_assets sb ∨
                   a ∈ incomingAssets config (bundleGraph (placed_store p)) s) ∧
             bundle_size sb'
             = (bundle_size sb
                + totalSize (incomingAssets config (bundleGraph (placed_store p)) s))%Z) ∧
  (let S := mkAsset "S" "js" None 5000 in
   ∃ plan b0 b1,
     createIdealGraph scenarioS4 http2 = Ok plan ∧
     nodes (ideal_bundleGraph plan) = [Some b0; Some b1; None] ∧
     bundle_sourceBundles b0 = [] ∧ bundle_sourceBundles b1 = [] ∧
     S ∈ bundle_assets b0 ∧ S ∈ bundle_assets b1).
Proof.
  split.
  - intros g config p Hp.
    destruct (placement_placementInv _ _ Hp) as [(Hws & Hn & Hpresent & _) _].
    set (n := length (nodes (bundleGraph (store (placed_discovery p))))) in *.
    set (bg := bundleGraph (placed_store p)) in *.
    destruct (mergeSmallShared_spec config n bg Hws) as (bg' & Hmerge & _ & _ & Hnodes).
    { intros j Hj. apply Hpresent. lia. }
    exists bg'. split; [done|]. intros i b Hb Hshared Hsize.
    assert (isSmallShared config b = true) as Hsmall.
    { unfold isSmallShared, isShared. rewrite !bool_decide_true; [done|done|].
      destruct (bundle_sourceBundles b); [done|simpl; lia]. }
    split; [by rewrite Hnodes, Hb, Hsmall|].
    intros s Hs. destruct (Hws _ _ Hb) as (_ & Hbelow & _). specialize (Hbelow _ Hs).
    destruct (Hpresent s) as [sb Hsb]; [lia|].
    assert (isSmallShared config sb = false) as Hsbig.
    { destruct (isSmallShared config sb) eqn:Hsm; [|done].
      assert (n ≤ s) by (by eapply (smallShared_above config n bg Hws); rewrite ?Hsm). lia. }
    exists sb, (absorb sb (incomingAssets config bg s)).
    split; [done|]. split; [by rewrite Hnodes, Hsb, Hsbig|]. split; [|split].
    + intros a Ha. apply elem_of_absorb. right. apply elem_of_incomingAssets.
      exists i, b. by rewrite Hsmall.
    + intros a. apply elem_of_absorb.
    + apply absorb_size.
  - intros S. do 3 eexists.
    split; [vm_compute; reflexivity|].
    split; [vm_compute; reflexivity|].
    split; [vm_compute; reflexivity|].
    split; [vm_compute; reflexivity|].
    split; apply (bool_decide_unpack _); vm_compute; exact I.
Qed.

Lemma small_shared_bundles_merged_witness :
  ∃ p, placement scenarioS4 = Ok p ∧
    ∃ bg', mergeSmallShared http2 (bundleGraph (placed_store p)) = Ok bg' ∧
           getNode bg' 2 = None.
Proof.
  eexists. split; [vm_compute; reflexivity|].
  lazymatch goal with
  | |- ∃ bg', mergeSmallShared _ (bundleGraph (placed_store ?p)) = _ ∧ _ =>
      destruct (proj1 small_shared_bundles_merged scenarioS4 http2 p)
        as (bg' & Hmerge & Hall)
  end.
  { vm_compute; reflexivity. }
  exists bg'. split; [exact Hmerge|].
  edestruct (Hall 2) as [Hnone _];
    [vm_compute; reflexivity | discriminate | vm_compute; reflexivity | exact Hnone].
Defined.

(** ** The entry fold gives every folded sibling an entry in
    [reachableAsyncRoots] *)





Lemma elem_of_edges_removeEdge {A} (g : Graph A) (i j : nat) (e : nat * nat) :
  e ∈ edges (removeEdge g i j) ↔ e ≠ (i, j) ∧ e ∈ edges g.
Proof. unfold removeEdge. simpl. by rewrite list_elem_of_filter. Qed.










(** ** The bundles and bundle groups of the first step *)

Lemma createBundle_holdsOnly (asset : Asset) (target : Target) (stable : option bool)
    (behavior : option BundleBehavior) (b : Bundle) :
  createBundle {| opts_asset := Some asset; opts_target := target; opts_env := None;
                  opts_type := None; opts_needsStableName := stable;
                  opts_bundleBehavior := behavior |} = Ok b →
  holdsOnly asset b ∧ bundle_target b = target ∧
  bundle_needsStableName b = default false stable.
Proof. intros [= <-]. done. Qed.

(** A new bundle for [a] that leads a group of its own ([own]), or that
    joins the group of a bundle that is there. *)
Lemma groupStructure_new (st st' : Discovery) (a : Asset) (b : Bundle) (group : nat)
    (own : bool) :
  groupStructure st → holdsOnly a b →
  (if own
   then group = length (nodes (bundleGraph (store st))) ∧
        bundleGraph (store st') = (addNode (bundleGraph (store st)) b).2 ∧
        bundleGroupBundleIds st' = bundleGroupBundleIds st ++ [group]
   else is_Some (getNode (bundleGraph (store st)) group) ∧
        bundleGraph (store st')
        = addEdge (addNode (bundleGraph (store st)) b).2 group
                  (length (nodes (bundleGraph (store st)))) ∧
        bundleGroupBundleIds st' = bundleGroupBundleIds st) →
  bundleRoots st' = jsmap_set (bundleRoots st) a (length (nodes (bundleGraph (store st))), group) →
  groupStructure st'.
Proof.
  intros (Hnodes & Hroots & Hgroups) Hb Hcase Hr.
  set (bg := bundleGraph (store st)) in *. set (new := length (nodes bg)) in *.
  assert (∀ j, getNode (bundleGraph (store st')) j
               = if decide (j = new) then Some b else getNode bg j) as Hget.
  { intros j. destruct own; destruct Hcase as (_ & -> & _);
      rewrite ?getNode_addEdge; apply getNode_addNode. }
  assert (∀ e, e ∈ edges bg → e ∈ edges (bundleGraph (store st'))) as Hedges.
  { intros e He. destruct own; destruct Hcase as (_ & -> & _); [done|].
    apply elem_of_edges_addEdge. by right. }
  assert (∀ j, is_Some (getNode bg j) → is_Some (getNode (bundleGraph (store st')) j)) as Hkeep.
  { intros j Hj. rewrite Hget. by destruct (decide _). }
  assert (∀ j bj, getNode bg j = Some bj → getNode (bundleGraph (store st')) j = Some bj)
    as Hkeep'.
  { intros j bj Hj. rewrite Hget. rewrite decide_False; [done|].
    apply getNode_lt in Hj. unfold new. lia. }
  assert (∀ i, i ∈ bundleGroupBundleIds st → i ∈ bundleGroupBundleIds st') as Hids.
  { intros i Hi. destruct own; destruct Hcase as (_ & _ & ->); [|done].
    apply elem_of_app. by left. }
  unfold groupStructure. split; [|split].
  - intros i bi. rewrite Hget, Hr. destruct (decide (i = new)) as [->|Hne].
    + intros [= <-]. exists a. split; [|done]. apply jsmap_set_keys. by left.
    + intros Hbi. destruct (Hnodes _ _ Hbi) as (root & Hroot & Hholds).
      exists root. split; [|done]. apply jsmap_set_keys. by right.
  - intros root tuple. rewrite Hr. intros [[= -> ->]|Hin]%elem_of_jsmap_set.
    + cbn [fst snd]. split; [|split].
      * exists b. by rewrite Hget, decide_True.
      * destruct own.
        -- destruct Hcase as (-> & _). by rewrite Hget, decide_True.
        -- destruct Hcase as (Hg & _). by apply Hkeep.
      * destruct own.
        -- left. destruct Hcase as (-> & _ & ->). split; [done|].
           apply elem_of_app. right. by left.
        -- right. destruct Hcase as (_ & -> & _). apply elem_of_edges_addEdge. by left.
    + destruct (Hroots _ _ Hin) as ((bi & Hbi & Hholds) & Hgroup & Hcase').
      split; [|split].
      * exists bi. split; [by apply Hkeep'|done].
      * by apply Hkeep.
      * destruct Hcase' as [[Heq Hin']|Hedge]; [left|right; by apply Hedges].
        split; [done|]. by apply Hids.
  - intros i Hi. destruct own.
    + destruct Hcase as (-> & _ & Heq). rewrite Heq in Hi.
      apply elem_of_app in Hi as [Hi|Hi%list_elem_of_singleton].
      * by apply Hkeep, Hgroups.
      * subst i. by rewrite Hget, decide_True.
    + destruct Hcase as (_ & _ & Heq). rewrite Heq in Hi. by apply Hkeep, Hgroups.
Qed.

Lemma createEntryBundle_groupStructure (st st' : Discovery) (entry : Asset * Dependency) :
  groupStructure st → createEntryBundle st entry = Ok st' → groupStructure st'.
Proof.
  intros Hst. unfold createEntryBundle. destruct entry as [asset dependency].
  intros H. bind_inv H. bind_inv H.
  destruct (addNode _ _) as [nodeId bg] eqn:Hadd.
  bind_inv H. destruct (addNodeByContentKey _ _ _) as [entryNodeId abg].
  injection H as <-.
  apply createBundle_holdsOnly in E0 as (Hholds & _).
  assert (nodeId = length (nodes (bundleGraph (store st)))) as -> by (by injection Hadd as <- _).
  eapply (groupStructure_new st _ asset x0 _ true); [done|done| |done].
  cbn [store bundleGraph bundleGroupBundleIds]. by rewrite Hadd.
Qed.

Lemma splitAsync_groupStructure (st st' : Discovery) (dependency : Dependency)
    (childAsset : Asset) :
  groupStructure st → splitAsync st dependency childAsset = Ok st' → groupStructure st'.
Proof.
  intros Hst. unfold splitAsync. intros H. bind_inv H.
  destruct x as [[[[bundleId bg] bundlesMap] roots] groupIds].
  destruct (markReachable _ _ _ _) as [rb abg]. injection H as <-.
  destruct (bundles (store st) !! asset_id childAsset) as [existing|] eqn:Hlook.
  - bind_inv E. injection E as <- <- <- <- <-. exact Hst.
  - bind_inv E. bind_inv E. bind_inv E.
    destruct (addNode _ _) as [newId bg'] eqn:Hadd.
    injection E as <- <- <- <- <-.
    apply createBundle_holdsOnly in E2 as (Hholds & _).
    assert (newId = length (nodes (bundleGraph (store st)))) as -> by (by injection Hadd as <- _).
    eapply (groupStructure_new st _ childAsset x1 _ true); [done|done| |done].
    cbn [store bundleGraph bundleGroupBundleIds]. by rewrite Hadd.
Qed.

Lemma splitTypeChange_groupStructure (st st' : Discovery) (dependency : Dependency)
    (childAsset : Asset) :
  groupStructure st → splitTypeChange st dependency childAsset = Ok st' → groupStructure st'.
Proof.
  intros Hst. unfold splitTypeChange. intros H. bind_inv H. bind_inv H. bind_inv H.
  destruct (addNode _ _) as [newId bg'] eqn:Hadd. injection H as <-.
  apply createBundle_holdsOnly in E1 as (Hholds & _).
  assert (newId = length (nodes (bundleGraph (store st)))) as -> by (by injection Hadd as <- _).
  eapply (groupStructure_new st _ childAsset x1 x.2 false); [done|done| |done].
  cbn [store bundleGraph bundleGroupBundleIds]. rewrite Hadd. split; [|done].
  destruct (getNode (bundleGraph (store st)) x.2); [done|done].
Qed.

Lemma splitVisitor_groupStructure (g : AssetGraph) (st st' : Discovery) (ev : Event) :
  groupStructure st → splitVisitor g st ev = Ok st' → groupStructure st'.
Proof.
  intros Hst. destruct ev as [[a|dependency] ctx|n]; simpl.
  - by intros [= <-].
  - destruct ctx as [[parentAsset|?]|]; [|done|by intros [= <-]].
    destruct (getDependencyAssets g dependency) as [|childAsset [|? ?]];
      [by intros [= <-]| |done].
    destruct (_ || _); [by apply splitAsync_groupStructure|].
    destruct (_ || _); [by apply splitTypeChange_groupStructure|].
    by intros [= <-].
  - destruct (last (stack st)) as [[top ?]|]; [|by intros [= <-]].
    destruct (decide _); by intros [= <-].
Qed.

Lemma discover_groupStructure (g : AssetGraph) (entries : list (Asset * Dependency))
    (d : Discovery) :
  discover g entries = Ok d → groupStructure d.
Proof.
  unfold discover. intros H. bind_inv H.
  eapply (foldM_invariant groupStructure); [| |exact H].
  - intros s ev s' _. apply splitVisitor_groupStructure.
  - eapply (foldM_invariant groupStructure); [| |exact E].
    + intros s e s' _. apply createEntryBundle_groupStructure.
    + split; [|split].
      * intros i b Hb. by destruct i.
      * intros root tuple Hin. by apply elem_of_nil in Hin.
      * intros i Hi. by apply elem_of_nil in Hi.
Qed.

(** When the first step is done, every bundle of [bundleGraph] holds one
    asset, a bundle root: its size, type, environment and bundle behavior are
    those of the asset, and it has no source bundles and no internalized
    assets. *)
Theorem discover_single_asset_bundles (g : AssetGraph)
    (entries : list (Asset * Dependency)) (d : Discovery) (i : nat) (b : Bundle) :
  discover g entries = Ok d →
  getNode (bundleGraph (store d)) i = Some b →
  ∃ root,
    is_Some (jsmap_get (bundleRoots d) root) ∧
    bundle_assets b = [root] ∧
    bundle_size b = asset_size root ∧
    bundle_type b = asset_type root ∧
    bundle_env b = asset_env root ∧
    bundle_bundleBehavior b = asset_bundleBehavior root ∧
    bundle_sourceBundles b = [] ∧
    bundle_internalizedAssetIds b = [].
Proof.
  intros (Hnodes & _)%discover_groupStructure Hb.
  destruct (Hnodes _ _ Hb) as (root & Hroot & Hholds). exists root.
  split; [by apply jsmap_get_is_Some|exact Hholds].
Qed.

Lemma discover_single_asset_bundles_witness :
  ∃ d b,
    discover inlineChildOfAsyncRoot
             [(mkAsset "E" "js" None 10, mkDependency "dE" sync true None)] = Ok d ∧
    getNode (bundleGraph (store d)) 2 = Some b ∧
    ∃ root,
      is_Some (jsmap_get (bundleRoots d) root) ∧
      bundle_assets b = [root] ∧
      bundle_size b = asset_size root ∧
      bundle_type b = asset_type root ∧
      bundle_env b = asset_env root ∧
      bundle_bundleBehavior b = asset_bundleBehavior root ∧
      bundle_sourceBundles b = [] ∧
      bundle_internalizedAssetIds b = [].
Proof.
  do 2 eexists.
  split; [vm_compute; reflexivity|].
  split; [vm_compute; reflexivity|].
  eapply (discover_single_asset_bundles inlineChildOfAsyncRoot
            [(mkAsset "E" "js" None 10, mkDependency "dE" sync true None)] _ 2).
  - vm_compute; reflexivity.
  - vm_compute; reflexivity.
Defined.

(** When the first step is done, the pair that [bundleRoots] has for a
    bundle root names its bundle, which holds the root and nothing else, and
    the bundle that leads its bundle group: either the two are the same and
    the bundle is in [bundleGroupBundleIds], or [bundleGraph] has an edge from
    the leader to the bundle. *)
Theorem discover_bundle_groups (g : AssetGraph) (entries : list (Asset * Dependency))
    (d : Discovery) (root : Asset) (bundleId groupId : nat) :
  discover g entries = Ok d →
  jsmap_get (bundleRoots d) root = Some (bundleId, groupId) →
  (∃ b, getNode (bundleGraph (store d)) bundleId = Some b ∧ bundle_assets b = [root]) ∧
  is_Some (getNode (bundleGraph (store d)) groupId) ∧
  ((bundleId = groupId ∧ bundleId ∈ bundleGroupBundleIds d) ∨
   (groupId, bundleId) ∈ edges (bundleGraph (store d))).
Proof.
  intros (_ & Hroots & _)%discover_groupStructure Hget%jsmap_get_Some.
  destruct (Hroots _ _ Hget) as ((b & Hb & Hholds & _) & Hgroup & Hcase).
  split; [by exists b|]. done.
Qed.

Lemma discover_bundle_groups_witness :
  ∃ d,
    discover inlineChildOfAsyncRoot
             [(mkAsset "E" "js" None 10, mkDependency "dE" sync true None)] = Ok d ∧
    jsmap_get (bundleRoots d) (mkAsset "C" "js" (Some inline) 7) = Some (3, 1) ∧
    (∃ b, getNode (bundleGraph (store d)) 3 = Some b ∧
          bundle_assets b = [mkAsset "C" "js" (Some inline) 7]) ∧
    is_Some (getNode (bundleGraph (store d)) 1) ∧
    ((3 = 1 ∧ 3 ∈ bundleGroupBundleIds d) ∨ (1, 3) ∈ edges (bundleGraph (store d))).
Proof.
  eexists.
  split; [vm_compute; reflexivity|].
  split; [vm_compute; reflexivity|].
  eapply (discover_bundle_groups inlineChildOfAsyncRoot
            [(mkAsset "E" "js" None 10, mkDependency "dE" sync true None)] _
            (mkAsset "C" "js" (Some inline) 7) 3 1).
  - vm_compute; reflexivity.
  - vm_compute; reflexivity.
Defined.

(** ** Loops, with what they have gone through *)

(** A property of the elements gone through and of the state, kept by every
    iteration, holds of the whole list after the loop. *)
Lemma foldM_invariant_prefix {A S} (P : list A → S → Prop) (f : S → A → Result S)
    (l : list A) :
  (∀ pre x post s s', l = pre ++ x :: post → P pre s → f s x = Ok s' → P (pre ++ [x]) s') →
  ∀ s s', P [] s → foldM f l s = Ok s' → P l s'.
Proof.
  intros Hf.
  assert (∀ post pre s s', l = pre ++ post → P pre s → foldM f post s = Ok s' → P l s')
    as Hgen.
  { induction post as [|x post IH]; intros pre s s' Hl Hs Hfold; simpl in Hfold.
    - injection Hfold as <-. by rewrite Hl, app_nil_r.
    - apply bind_Ok in Hfold as (s1 & H1 & H2).
      apply (IH (pre ++ [x]) s1 s'); [by rewrite <- app_assoc| |done].
      by eapply Hf. }
  intros s s'. by apply (Hgen l []).
Qed.

(** ** The traversal enters every node once *)

Lemma enteredNodes_app (l1 l2 : list Event) :
  enteredNodes (l1 ++ l2) = enteredNodes l1 ++ enteredNodes l2.
Proof. unfold enteredNodes. apply omap_app. Qed.

Lemma enteredAssets_app (l1 l2 : list Event) :
  enteredAssets (l1 ++ l2) = enteredAssets l1 ++ enteredAssets l2.
Proof. unfold enteredAssets. by rewrite enteredNodes_app, omap_app. Qed.

Lemma walked_children (g : AssetGraph) (skip : AGNode → bool) (fuel : nat)
    (ctx : option AGNode) (cs : list AGNode) (acc : list AGNode * list Event) :
  (∀ c acc, walked acc → c ∉ acc.1 → walked (walk g skip fuel ctx c acc)) →
  walked acc →
  walked (foldl (λ acc c, if decide (c ∈ acc.1) then acc else walk g skip fuel ctx c acc)
                acc cs).
Proof.
  intros Hwalk. revert acc. induction cs as [|c cs IH]; intros acc Hacc; simpl; [done|].
  apply IH. destruct (decide (c ∈ acc.1)); [done|]. by apply Hwalk.
Qed.

Lemma walked_walk (g : AssetGraph) (skip : AGNode → bool) (fuel : nat)
    (ctx : option AGNode) (n : AGNode) (acc : list AGNode * list Event) :
  walked acc → n ∉ acc.1 → walked (walk g skip fuel ctx n acc).
Proof.
  revert ctx n acc. induction fuel as [|fuel IH]; intros ctx n acc Hacc Hn; simpl; [done|].
  assert (walked (n :: acc.1, acc.2 ++ [Enter n ctx])) as Hentered.
  { destruct Hacc as [Heq Hnodup]. split; simpl.
    - rewrite enteredNodes_app, reverse_app. simpl. by rewrite <- Heq.
    - by apply NoDup_cons. }
  destruct (skip n); [done|].
  pose proof (walked_children g skip fuel (Some n) (children g n) _
                (λ c acc, IH (Some n) c acc) Hentered) as [Heq Hnodup].
  split; simpl; [|done].
  rewrite enteredNodes_app. simpl. by rewrite app_nil_r.
Qed.

Lemma NoDup_enteredNodes_traverse (g : AssetGraph) (skip : AGNode → bool)
    (start : option Asset) :
  NoDup (enteredNodes (traverse g skip start)).
Proof.
  assert (walked ([], [])) as Hnil by (split; [done|constructor]).
  assert (∀ acc, walked acc → NoDup (enteredNodes acc.2)) as Hdone.
  { intros acc [Heq Hnodup]. rewrite Heq in Hnodup. by rewrite reverse_Permutation in Hnodup. }
  unfold traverse. destruct start as [a|]; apply Hdone.
  - apply walked_walk; [done|]. simpl. by intros ?%elem_of_nil.
  - apply walked_children; [|done]. intros c acc. apply walked_walk.
Qed.

Lemma NoDup_omap_inj {A B} (f : A → option B) (l : list A) :
  (∀ x y z, f x = Some z → f y = Some z → x = y) → NoDup l → NoDup (omap f l).
Proof.
  intros Hinj. induction 1 as [|x l Hx Hl IH]; simpl; [constructor|].
  destruct (f x) as [z|] eqn:Hfx; [|done].
  apply NoDup_cons. split; [|done].
  intros (y & Hy & Hfy)%list_elem_of_omap.
  by rewrite (Hinj _ _ _ Hfx Hfy) in Hx.
Qed.

Lemma NoDup_enteredAssets_traverse (g : AssetGraph) (skip : AGNode → bool)
    (start : option Asset) :
  NoDup (enteredAssets (traverse g skip start)).
Proof.
  apply NoDup_omap_inj; [|apply NoDup_enteredNodes_traverse].
  intros [a|?] [a'|?] z; simpl; congruence.
Qed.

(** ** The first traversal *)

Lemma collectEntries_inv (g : AssetGraph) (entries : list (Asset * Dependency)) :
  collectEntries g = Ok entries →
  (∀ a dep, (a, dep) ∈ entries →
     dep_isEntry dep = true ∧
     Enter (AssetNode a) (Some (DependencyNode dep)) ∈ traverse g isAssetNode None) ∧
  (∀ a, a ∈ entries.*1 ↔ a ∈ enteredAssets (traverse g isAssetNode None)).
Proof.
  unfold collectEntries. intros H.
  pose (P := λ (pre : list Event) (entries : list (Asset * Dependency)),
          (∀ a dep, (a, dep) ∈ entries →
             dep_isEntry dep = true ∧
             Enter (AssetNode a) (Some (DependencyNode dep)) ∈ pre) ∧
          (∀ a, a ∈ entries.*1 ↔ a ∈ enteredAssets pre)).
  apply (foldM_invariant_prefix P) in H; [exact H| |].
  - intros pre ev post s s' _ [Hs Hkeys] Hev. split.
    + assert (∀ a dep, (a, dep) ∈ s →
                dep_isEntry dep = true ∧
                Enter (AssetNode a) (Some (DependencyNode dep)) ∈ pre ++ [ev]) as Hs'.
      { intros a dep Hin. destruct (Hs _ _ Hin). split; [done|].
        apply elem_of_app. by left. }
      destruct ev as [[a0|?] ctx|?]; simpl in Hev; try (injection Hev as <-; done).
      destruct ctx as [[?|d0]|]; try done.
      bind_inv Hev. injection Hev as <-.
      intros a dep [[= -> ->]|Hin]%elem_of_jsmap_set; [|by apply Hs'].
      split; [by destruct (dep_isEntry d0)|]. apply elem_of_app. right. by left.
    + intros a. rewrite enteredAssets_app.
      destruct ev as [[a0|?] ctx|?]; simpl in Hev;
        try (injection Hev as <-; rewrite Hkeys; unfold enteredAssets; simpl;
             by rewrite app_nil_r).
      destruct ctx as [[?|d0]|]; try done.
      bind_inv Hev. injection Hev as <-.
      rewrite jsmap_set_keys, Hkeys, elem_of_app.
      change (enteredAssets [Enter (AssetNode a0) (Some (DependencyNode d0))]) with [a0].
      rewrite list_elem_of_singleton. naive_solver.
  - split; [by intros a dep ?%elem_of_nil|]. intros a. done.
Qed.

(** The first traversal of [createIdealGraph]: the entries it collects are
    the assets it enters, and the dependency it records for an entry is an
    entry dependency through which the traversal came to the asset. *)
Theorem collectEntries_entry_dependencies (g : AssetGraph)
    (entries : list (Asset * Dependency)) (a : Asset) :
  collectEntries g = Ok entries →
  (is_Some (jsmap_get entries a) ↔ a ∈ enteredAssets (traverse g isAssetNode None)) ∧
  ∀ dep, jsmap_get entries a = Some dep →
    dep_isEntry dep = true ∧
    Enter (AssetNode a) (Some (DependencyNode dep)) ∈ traverse g isAssetNode None.
Proof.
  intros [Hdeps Hkeys]%collectEntries_inv. split.
  - by rewrite jsmap_get_is_Some.
  - intros dep Hget%jsmap_get_Some. by apply Hdeps.
Qed.

Lemma collectEntries_entry_dependencies_witness :
  ∃ entries,
    collectEntries sharedWithSibling = Ok entries ∧
    (is_Some (jsmap_get entries (mkAsset "E2" "js" None 20)) ↔
     mkAsset "E2" "js" None 20 ∈ enteredAssets (traverse sharedWithSibling isAssetNode None)) ∧
    ∀ dep, jsmap_get entries (mkAsset "E2" "js" None 20) = Some dep →
      dep_isEntry dep = true ∧
      Enter (AssetNode (mkAsset "E2" "js" None 20)) (Some (DependencyNode dep))
        ∈ traverse sharedWithSibling isAssetNode None.
Proof.
  eexists. split; [vm_compute; reflexivity|].
  apply (collectEntries_entry_dependencies sharedWithSibling).
  vm_compute; reflexivity.
Defined.

(** An asset that the first traversal reaches otherwise than through an
    entry dependency stops planning: the [invariant] of its visitor throws. *)
Theorem asset_below_non_entry_aborts (g : AssetGraph) (config : ResolvedBundlerConfig)
    (a : Asset) (ctx : option AGNode) :
  Enter (AssetNode a) ctx ∈ traverse g isAssetNode None →
  (∀ dep, ctx = Some (DependencyNode dep) → dep_isEntry dep = false) →
  aborted (createIdealGraph g config).
Proof.
  intros Hin Hctx. unfold createIdealGraph, placement.
  do 2 apply aborted_bind_l. unfold collectEntries.
  eapply foldM_aborted; [exact Hin|]. intros entries. simpl.
  destruct ctx as [[?|dep]|]; [by eexists| |by eexists].
  rewrite (Hctx dep eq_refl). simpl. by eexists.
Qed.

Lemma asset_below_non_entry_aborts_witness :
  aborted (createIdealGraph rootWithoutEntry http2).
Proof.
  apply (asset_below_non_entry_aborts rootWithoutEntry http2 (mkAsset "E" "js" None 10)
           (Some (DependencyNode (mkDependency "dE" sync false None)))).
  - apply (bool_decide_unpack _); vm_compute; exact I.
  - intros dep [= <-]. reflexivity.
Defined.

(** The bundle of an entry takes the target of its dependency: an entry
    dependency without a target stops planning. *)
Theorem entry_without_target_aborts (g : AssetGraph) (config : ResolvedBundlerConfig)
    (entries : list (Asset * Dependency)) (a : Asset) (dep : Dependency) :
  collectEntries g = Ok entries →
  jsmap_get entries a = Some dep →
  dep_target dep = None →
  aborted (createIdealGraph g config).
Proof.
  intros Hentries Hget%jsmap_get_Some Htarget. unfold createIdealGraph, placement.
  rewrite Hentries. simpl. apply aborted_bind_l.
  change (aborted (discover g entries ≫= λ d, r ← reach g d; av ← availability d r;
                   s ← placeAssets d r av (assets d) (store d);
                   Ok {| placed_entries := entries; placed_discovery := d;
                         placed_reachability := r; placed_availability := av;
                         placed_store := s |})).
  apply aborted_bind_l. unfold discover. apply aborted_bind_l.
  eapply foldM_aborted; [exact Hget|]. intros st. unfold createEntryBundle.
  rewrite Htarget. by eexists.
Qed.

Lemma entry_without_target_aborts_witness :
  aborted (createIdealGraph entryWithoutTarget http2).
Proof.
  apply (entry_without_target_aborts entryWithoutTarget http2
           [(mkAsset "E" "js" None 10, entryDependencyWithoutTarget)]
           (mkAsset "E" "js" None 10) entryDependencyWithoutTarget).
  - vm_compute; reflexivity.
  - vm_compute; reflexivity.
  - reflexivity.
Defined.

(** ** The assets that the second traversal collects *)

Lemma splitVisitor_assets (g : AssetGraph) (st st' : Discovery) (ev : Event) :
  splitVisitor g st ev = Ok st' → assets st' = assets st ++ enteredAssets [ev].
Proof.
  assert (∀ dependency childAsset st', splitAsync st dependency childAsset = Ok st' →
            assets st' = assets st) as Hasync.
  { intros dependency childAsset st1. unfold splitAsync. intros H. bind_inv H.
    destruct x as [[[[bundleId bg] bundlesMap] roots] groupIds].
    destruct (markReachable _ _ _ _) as [rb abg]. by injection H as <-. }
  assert (∀ dependency childAsset st', splitTypeChange st dependency childAsset = Ok st' →
            assets st' = assets st) as Htype.
  { intros dependency childAsset st1. unfold splitTypeChange. intros H.
    bind_inv H. bind_inv H. bind_inv H.
    destruct (addNode _ _) as [newId bg']. by injection H as <-. }
  unfold enteredAssets. destruct ev as [[a|dependency] ctx|n]; simpl.
  - by intros [= <-].
  - rewrite app_nil_r.
    destruct ctx as [[parentAsset|?]|]; [|done|by intros [= <-]].
    destruct (getDependencyAssets g dependency) as [|childAsset [|? ?]];
      [by intros [= <-]| |done].
    destruct (_ || _); [by apply Hasync|].
    destruct (_ || _); [by apply Htype|].
    by intros [= <-].
  - rewrite app_nil_r. destruct (last (stack st)) as [[top ?]|]; [|by intros [= <-]].
    destruct (decide _); by intros [= <-].
Qed.

Lemma createEntryBundle_assets (st st' : Discovery) (entry : Asset * Dependency) :
  createEntryBundle st entry = Ok st' → assets st' = assets st.
Proof.
  unfold createEntryBundle. destruct entry as [asset dependency].
  intros H. bind_inv H. bind_inv H.
  destruct (addNode _ _) as [nodeId bg].
  bind_inv H. destruct (addNodeByContentKey _ _ _) as [entryNodeId abg].
  by injection H as <-.
Qed.

Lemma discover_assets (g : AssetGraph) (entries : list (Asset * Dependency))
    (d : Discovery) :
  discover g entries = Ok d → assets d = enteredAssets (traverse g (λ _, false) None).
Proof.
  unfold discover. intros H. bind_inv H.
  assert (assets x = []) as Hx.
  { eapply (foldM_invariant (λ st, assets st = [])); [| |exact E]; [|done].
    intros s e s' _ Hs Hs'. by rewrite (createEntryBundle_assets _ _ _ Hs'). }
  apply (foldM_invariant_prefix (λ pre st, assets st = enteredAssets pre)) in H; [done| |done].
  intros pre ev post s s' _ Hs Hev.
  by rewrite (splitVisitor_assets _ _ _ _ Hev), Hs, enteredAssets_app.
Qed.

(** The list [assets] that the third step goes through holds the assets
    that the second traversal enters, in the order of the traversal, each
    asset once. *)
Theorem discover_assets_once (g : AssetGraph) (entries : list (Asset * Dependency))
    (d : Discovery) :
  discover g entries = Ok d →
  assets d = enteredAssets (traverse g (λ _, false) None) ∧ NoDup (assets d).
Proof.
  intros Hd%discover_assets. split; [done|].
  rewrite Hd. apply NoDup_enteredAssets_traverse.
Qed.

Lemma discover_assets_once_witness :
  ∃ d,
    discover sharedWithSibling
             [(mkAsset "E1" "js" None 10, mkDependency "dE1" sync true None);
              (mkAsset "E2" "js" None 20, mkDependency "dE2" sync true None)] = Ok d ∧
    assets d = [mkAsset "E1" "js" None 10; mkAsset "A" "js" None 5000;
                mkAsset "L" "js" None 30; mkAsset "E2" "js" None 20] ∧
    assets d = enteredAssets (traverse sharedWithSibling (λ _, false) None) ∧
    NoDup (assets d).
Proof.
  eexists. split; [vm_compute; reflexivity|]. split; [vm_compute; reflexivity|].
  apply (discover_assets_once sharedWithSibling
           [(mkAsset "E1" "js" None 10, mkDependency "dE1" sync true None);
            (mkAsset "E2" "js" None 20, mkDependency "dE2" sync true None)]).
  vm_compute; reflexivity.
Defined.

(** ** No bundle of the first step has two incoming edges *)

Lemma singleParent_addNode {A} (g : Graph A) (x : A) :
  singleParent g → singleParent (addNode g x).2.
Proof.
  intros [Hlt Hone]. split; [|done].
  intros e He. rewrite length_nodes_addNode. specialize (Hlt e He). lia.
Qed.

Lemma singleParent_addEdge_new {A} (g : Graph A) (from : nat) :
  singleParent g → from < length (nodes g) → 
  ∀ x, singleParent (addEdge (addNode g x).2 from (length (nodes g))).
Proof.
  intros [Hlt Hone] Hfrom x.
  assert ((from, length (nodes g)) ∉ edges g) as Hnew.
  { intros He. specialize (Hlt _ He). simpl in Hlt. lia. }
  unfold addEdge. rewrite decide_False by done. split.
  - intros e. cbn [nodes edges addNode snd]. rewrite length_app, elem_of_app.
    intros [He|He%list_elem_of_singleton]; [specialize (Hlt e He)|subst e]; simpl; lia.
  - intros j. unfold getNodeIdsConnectedTo. cbn [nodes edges addNode snd].
    rewrite filter_app, fmap_app, length_app.
    destruct (decide (j = length (nodes g))) as [->|Hne].
    + assert (filter (λ e : nat * nat, e.2 = length (nodes g)) (edges g) = []) as ->.
      { apply elem_of_nil_inv. intros e [Heq He]%list_elem_of_filter.
        specialize (Hlt e He). lia. }
      rewrite filter_cons_True by done. simpl. lia.
    + rewrite filter_cons_False by (simpl; congruence). rewrite filter_nil. simpl.
      specialize (Hone j). unfold getNodeIdsConnectedTo in Hone. lia.
Qed.

Lemma createEntryBundle_singleParent (st st' : Discovery) (entry : Asset * Dependency) :
  singleParent (bundleGraph (store st)) → createEntryBundle st entry = Ok st' →
  singleParent (bundleGraph (store st')).
Proof.
  intros Hst. unfold createEntryBundle. destruct entry as [asset dependency].
  intros H. bind_inv H. bind_inv H.
  destruct (addNode _ _) as [nodeId bg] eqn:Hadd.
  bind_inv H. destruct (addNodeByContentKey _ _ _) as [entryNodeId abg].
  injection H as <-. cbn [store bundleGraph].
  replace bg with (addNode (bundleGraph (store st)) x0).2 by (by rewrite Hadd).
  by apply singleParent_addNode.
Qed.

Lemma splitAsync_singleParent (st st' : Discovery) (dependency : Dependency)
    (childAsset : Asset) :
  singleParent (bundleGraph (store st)) → splitAsync st dependency childAsset = Ok st' →
  singleParent (bundleGraph (store st')).
Proof.
  intros Hst. unfold splitAsync. intros H. bind_inv H.
  destruct x as [[[[bundleId bg] bundlesMap] roots] groupIds].
  destruct (markReachable _ _ _ _) as [rb abg]. injection H as <-.
  cbn [store bundleGraph].
  destruct (bundles (store st) !! asset_id childAsset) as [existing|] eqn:Hlook.
  - bind_inv E. by injection E as <- <- <- <- <-.
  - bind_inv E. bind_inv E. bind_inv E.
    destruct (addNode _ _) as [newId bg'] eqn:Hadd.
    injection E as <- <- <- <- <-.
    replace bg' with (addNode (bundleGraph (store st)) x1).2 by (by rewrite Hadd).
    by apply singleParent_addNode.
Qed.

Lemma splitTypeChange_singleParent (st st' : Discovery) (dependency : Dependency)
    (childAsset : Asset) :
  singleParent (bundleGraph (store st)) → splitTypeChange st dependency childAsset = Ok st' →
  singleParent (bundleGraph (store st')).
Proof.
  intros Hst. unfold splitTypeChange. intros H. bind_inv H. bind_inv H. bind_inv H.
  destruct (addNode _ _) as [newId bg'] eqn:Hadd. injection H as <-.
  cbn [store bundleGraph].
  assert (newId = length (nodes (bundleGraph (store st)))) as -> by (by injection Hadd as <- _).
  replace bg' with (addNode (bundleGraph (store st)) x1).2 by (by rewrite Hadd).
  apply singleParent_addEdge_new; [done|].
  destruct (getNode (bundleGraph (store st)) x.2) as [b|] eqn:Hb; [|done].
  by apply getNode_lt in Hb.
Qed.

Lemma splitVisitor_singleParent (g : AssetGraph) (st st' : Discovery) (ev : Event) :
  singleParent (bundleGraph (store st)) → splitVisitor g st ev = Ok st' →
  singleParent (bundleGraph (store st')).
Proof.
  intros Hst. destruct ev as [[a|dependency] ctx|n]; simpl.
  - by intros [= <-].
  - destruct ctx as [[parentAsset|?]|]; [|done|by intros [= <-]].
    destruct (getDependencyAssets g dependency) as [|childAsset [|? ?]];
      [by intros [= <-]| |done].
    destruct (_ || _); [by apply splitAsync_singleParent|].
    destruct (_ || _); [by apply splitTypeChange_singleParent|].
    by intros [= <-].
  - destruct (last (stack st)) as [[top ?]|]; [|by intros [= <-]].
    destruct (decide _); by intros [= <-].
Qed.

Lemma discover_singleParent (g : AssetGraph) (entries : list (Asset * Dependency))
    (d : Discovery) :
  discover g entries = Ok d → singleParent (bundleGraph (store d)).
Proof.
  unfold discover. intros H. bind_inv H.
  eapply (foldM_invariant (λ st, singleParent (bundleGraph (store st)))); [| |exact H].
  - intros s ev s' _. apply splitVisitor_singleParent.
  - eapply (foldM_invariant (λ st, singleParent (bundleGraph (store st)))); [| |exact E].
    + intros s e s' _. apply createEntryBundle_singleParent.
    + split; [by intros e ?%elem_of_nil|]. intros j. simpl. lia.
Qed.

(** When the first step is done, no bundle has two incoming edges in
    [bundleGraph]: the only edges go from the bundle that leads a bundle
    group to a bundle that was made for the group, when the bundle was
    made. *)
Theorem discover_single_parent (g : AssetGraph) (entries : list (Asset * Dependency))
    (d : Discovery) (bundleId : nat) :
  discover g entries = Ok d →
  length (getNodeIdsConnectedTo (bundleGraph (store d)) bundleId) ≤ 1.
Proof. intros [_ Hone]%discover_singleParent. apply Hone. Qed.

Lemma discover_single_parent_witness :
  ∃ d,
    discover inlineChildOfAsyncRoot
             [(mkAsset "E" "js" None 10, mkDependency "dE" sync true None)] = Ok d ∧
    getNodeIdsConnectedTo (bundleGraph (store d)) 3 = [1] ∧
    length (getNodeIdsConnectedTo (bundleGraph (store d)) 3) ≤ 1.
Proof.
  eexists. split; [vm_compute; reflexivity|]. split; [vm_compute; reflexivity|].
  apply (discover_single_parent inlineChildOfAsyncRoot
           [(mkAsset "E" "js" None 10, mkDependency "dE" sync true None)]).
  vm_compute; reflexivity.
Defined.

(** ** The call of [setIntersection] *)

Lemma noReferenceError_bind {A B} (m : Result A) (f : A → Result B) :
  noReferenceError m → (∀ a, m = Ok a → noReferenceError (f a)) →
  noReferenceError (m ≫= f).
Proof. destruct m as [a|e]; simpl; [auto|done]. Qed.

Lemma noReferenceError_foldM {A S} (f : S → A → Result S) (l : list A) (s : S) :
  (∀ s x, x ∈ l → noReferenceError (f s x)) → noReferenceError (foldM f l s).
Proof.
  revert s. induction l as [|x l IH]; intros s Hf; simpl; [done|].
  apply noReferenceError_bind; [apply Hf; by left|].
  intros s' _. apply IH. intros s'' y Hy. apply Hf. by right.
Qed.

Lemma noReferenceError_mapM' {A B} (f : A → Result B) (l : list A) :
  (∀ x, noReferenceError (f x)) → noReferenceError (mapM' f l).
Proof.
  intros Hf. induction l as [|x l IH]; simpl; [done|].
  apply noReferenceError_bind; [done|]. intros y _.
  apply noReferenceError_bind; [done|]. done.
Qed.

Lemma noReferenceError_nullthrows {A} (o : option A) (what : string) :
  noReferenceError (nullthrows o what).
Proof. by destruct o. Qed.

Lemma noReferenceError_assetsConnectedFrom (rr : ContentGraph Asset unit) (id : string) :
  noReferenceError (assetsConnectedFrom rr id).
Proof.
  unfold assetsConnectedFrom. apply noReferenceError_bind.
  - apply noReferenceError_nullthrows.
  - intros nodeId _. apply noReferenceError_mapM'. intros i.
    apply noReferenceError_nullthrows.
Qed.

Lemma noReferenceError_scanBundleInGroup (d : Discovery) (r : Reachability)
    (bundleRoot : Asset) (sc : GroupScan) (bundleIdInGroup : nat) :
  noReferenceError (scanBundleInGroup d r bundleRoot sc bundleIdInGroup).
Proof.
  unfold scanBundleInGroup.
  apply noReferenceError_bind; [by destruct (getNode _ _)|]. intros bundleInGroup _.
  apply noReferenceError_bind; [by destruct (findBundleRootInGroup _ _ _)|].
  intros rootInGroup _.
  apply noReferenceError_bind; [apply noReferenceError_assetsConnectedFrom|]. done.
Qed.

Lemma noReferenceError_shareWithGroup (d : Discovery) (availableRef : nat)
    (acc : Availability * option Asset) (bundleIdInGroup : nat) :
  singleParent (bundleGraph (store d)) →
  noReferenceError (shareWithGroup d availableRef acc bundleIdInGroup).
Proof.
  intros [_ Hone]. unfold shareWithGroup. destruct acc as [av cur].
  apply noReferenceError_bind; [by destruct (getNode _ _)|]. intros bundleInGroup _.
  apply noReferenceError_bind; [by destruct (findBundleRootInGroup _ _ _)|].
  intros rootInGroup _.
  destruct (jsmap_get _ _); [|done].
  rewrite bool_decide_eq_false_2 by (specialize (Hone bundleIdInGroup); lia).
  by destruct (allocSet _ _).
Qed.

Lemma noReferenceError_availability (d : Discovery) (r : Reachability) :
  singleParent (bundleGraph (store d)) → noReferenceError (availability d r).
Proof.
  intros Hd. unfold availability. apply noReferenceError_foldM. intros av nodeId _.
  unfold availableAt. destruct (cg_getNode _ _) as [[|bundleRoot]|]; [done| |done].
  apply noReferenceError_bind.
  - unfold combinedAt.
    apply noReferenceError_bind; [apply noReferenceError_assetsConnectedFrom|].
    intros syncAssetsLoaded _.
    apply noReferenceError_bind; [apply noReferenceError_nullthrows|]. intros tuple _.
    apply noReferenceError_bind.
    { apply noReferenceError_foldM. intros sc i _.
      apply noReferenceError_scanBundleInGroup. }
    intros sc _. destruct (allocSet _ _) as [availableRef av'].
    apply noReferenceError_bind.
    { apply noReferenceError_foldM. intros acc i _.
      by apply noReferenceError_shareWithGroup. }
    by intros [av'' ?] _.
  - intros [combinedRef av'] _. apply noReferenceError_foldM. intros av'' childId _.
    unfold propagateToChild.
    destruct (cg_getNode _ _) as [[|child]|]; [done| |done].
    by destruct (jsmap_get _ _).
Qed.

(** The second loop over a bundle group calls [setIntersection], which the
    file does not define, for a bundle with two incoming edges whose root
    has available assets already.  After the first step no bundle has two
    incoming edges, so the step that computes the available assets never
    comes to this call: whatever it throws, it is no [ReferenceError]. *)
Theorem availability_never_calls_setIntersection (g : AssetGraph)
    (entries : list (Asset * Dependency)) (d : Discovery) (r : Reachability) :
  discover g entries = Ok d →
  noReferenceError (availability d r).
Proof. intros Hd%discover_singleParent. by apply noReferenceError_availability. Qed.

Lemma availability_never_calls_setIntersection_witness :
  ∃ d r,
    discover inlineChildOfAsyncRoot
             [(mkAsset "E" "js" None 10, mkDependency "dE" sync true None)] = Ok d ∧
    reach inlineChildOfAsyncRoot d = Ok r ∧
    noReferenceError (availability d r).
Proof.
  do 2 eexists. split; [vm_compute; reflexivity|]. split; [vm_compute; reflexivity|].
  apply (availability_never_calls_setIntersection inlineChildOfAsyncRoot
           [(mkAsset "E" "js" None 10, mkDependency "dE" sync true None)]).
  vm_compute; reflexivity.
Defined.

(** ** The sizes of the bundles when all assets are placed *)

Lemma placement_stages (g : AssetGraph) (p : Placement) :
  placement g = Ok p →
  collectEntries g = Ok (placed_entries p) ∧
  discover g (placed_entries p) = Ok (placed_discovery p) ∧
  reach g (placed_discovery p) = Ok (placed_reachability p) ∧
  availability (placed_discovery p) (placed_reachability p) = Ok (placed_availability p) ∧
  placeAssets (placed_discovery p) (placed_reachability p) (placed_availability p)
              (assets (placed_discovery p)) (store (placed_discovery p))
    = Ok (placed_store p).
Proof.
  unfold placement. intros H. bind_inv H. bind_inv H. bind_inv H. bind_inv H.
  bind_inv H. by injection H as <-.
Qed.

Lemma totalSize_app (l1 l2 : list Asset) :
  totalSize (l1 ++ l2) = (totalSize l1 + totalSize l2)%Z.
Proof. induction l1 as [|a l1 IH]; simpl; [done|]. rewrite IH. lia. Qed.

Lemma sizedUpTo_more (d : Discovery) (seen seen' : list Asset) (bg : Graph Bundle) :
  seen ⊆ seen' → sizedUpTo d seen bg → sizedUpTo d seen' bg.
Proof.
  intros Hsub Hbg i b Hb. destruct (Hbg i b Hb) as (Hsize & Hnodup & Hin).
  split; [done|]. split; [done|]. intros a Ha. destruct (Hin a Ha); [by left|right; auto].
Qed.

Lemma placeAsset_sizedUpTo (d : Discovery) (r : Reachability) (av : Availability)
    (seen : list Asset) (s s' : BundleStore) (x : Asset) :
  x ∉ seen → sizedUpTo d seen (bundleGraph s) →
  placeAsset d r av s x = Ok s' → sizedUpTo d (seen ++ [x]) (bundleGraph s').
Proof.
  intros Hx Hs (l & Hl & H)%placeAsset_cases.
  assert (seen ⊆ seen ++ [x]) as Hsub by (intros a Ha; apply elem_of_app; by left).
  destruct (jsmap_get (bundleRoots d) x) as [rootBundle|] eqn:Hroot.
  - apply placeRoot_spec in H as (_ & _ & _ & Hcore).
    apply (sizedUpTo_more d seen); [done|]. intros i b Hb.
    specialize (Hcore i). rewrite Hb in Hcore.
    destruct (getNode (bundleGraph s) i) as [b0|] eqn:Hb0; [|done].
    injection Hcore as Ha Hsz _ _. rewrite Ha, Hsz. by apply (Hs i).
  - destruct H as [[_ ->]|[_ H]]; [by apply (sizedUpTo_more d seen)|].
    apply placeShared_spec in H as (i & b0 & srcs & _ & _ & Hother & Hi & Hcase).
    assert (bundle_size b0 = totalSize (bundle_assets b0) ∧ NoDup (bundle_assets b0) ∧
            ∀ a, a ∈ bundle_assets b0 → a ∈ (bundleRoots d).*1 ∨ a ∈ seen) as Hb0.
    { destruct Hcase as [(Hb0 & _)|(_ & _ & _ & _ & Ha & Hsz & _)]; [by apply (Hs i)|].
      rewrite Ha, Hsz. split; [done|]. split; [constructor|]. by intros a ?%elem_of_nil. }
    destruct Hb0 as (Hsize & Hnodup & Hin).
    assert (x ∉ bundle_assets b0) as Hfresh.
    { intros [Hkey|Hseen]%Hin; [|done].
      apply jsmap_get_is_Some in Hkey. rewrite Hroot in Hkey. by destruct Hkey. }
    intros j b Hb. destruct (decide (j = i)) as [->|Hne].
    + rewrite Hi in Hb. injection Hb as <-. simpl. unfold jsset_add.
      rewrite decide_False by done. split; [|split].
      * rewrite totalSize_app, Hsize. simpl. lia.
      * apply NoDup_app. split; [done|]. split; [|apply NoDup_singleton].
        intros a Ha ->%list_elem_of_singleton. done.
      * intros a [Ha|Ha]%elem_of_app.
        -- destruct (Hin a Ha); [by left|right]. by apply Hsub.
        -- right. apply elem_of_app. by right.
    + rewrite Hother in Hb by done.
      by apply (sizedUpTo_more d seen _ _ Hsub Hs j).
Qed.

Lemma placeAssets_sizedUpTo (d : Discovery) (r : Reachability) (av : Availability)
    (l : list Asset) (s s' : BundleStore) :
  NoDup l → sizedUpTo d [] (bundleGraph s) →
  placeAssets d r av l s = Ok s' → sizedUpTo d l (bundleGraph s').
Proof.
  intros Hnodup Hs H. unfold placeAssets in H.
  apply (foldM_invariant_prefix (λ seen s, sizedUpTo d seen (bundleGraph s))) in H;
    [done| |done].
  intros pre x post s1 s2 Heq Hs1 Hx. eapply placeAsset_sizedUpTo; [|done|done].
  rewrite Heq in Hnodup. apply NoDup_app in Hnodup as (_ & Hdisj & _).
  intros Hin. apply (Hdisj x Hin). by left.
Qed.

(** At the end of the third step the size of every bundle is the sum of the
    sizes of its assets, and every asset of a bundle is a bundle root or an
    asset that the second traversal entered.  (The merges of the fourth step
    do not keep the sizes so.) *)
Theorem placement_sizes_are_sums (g : AssetGraph) (p : Placement) (i : nat) (b : Bundle) :
  placement g = Ok p →
  getNode (bundleGraph (placed_store p)) i = Some b →
  bundle_size b = totalSize (bundle_assets b) ∧
  NoDup (bundle_assets b) ∧
  ∀ a, a ∈ bundle_assets b →
    is_Some (jsmap_get (bundleRoots (placed_discovery p)) a) ∨
    a ∈ enteredAssets (traverse g (λ _, false) None).
Proof.
  intros (_ & Hd & _ & _ & Hplace)%placement_stages Hb.
  pose proof (discover_assets _ _ _ Hd) as Hassets.
  pose proof (NoDup_enteredAssets_traverse g (λ _, false) None) as Hnodup.
  rewrite <- Hassets in Hnodup.
  apply placeAssets_sizedUpTo in Hplace; [|done|].
  - destruct (Hplace i b Hb) as (Hsize & Hnd & Hin). split; [done|]. split; [done|].
    intros a Ha. rewrite jsmap_get_is_Some, <- Hassets. by apply Hin.
  - apply discover_groupStructure in Hd as (Hnodes & _).
    intros j bj Hbj. destruct (Hnodes j bj Hbj) as (root & Hroot & Ha & Hsz & _).
    rewrite Ha, Hsz. simpl. split; [lia|]. split; [apply NoDup_singleton|].
    intros a ->%list_elem_of_singleton. by left.
Qed.

Lemma placement_sizes_are_sums_witness :
  ∃ p b,
    placement sharedWithSibling = Ok p ∧
    getNode (bundleGraph (placed_store p)) 3 = Some b ∧
    bundle_sourceBundles b = [0; 2] ∧
    bundle_size b = totalSize (bundle_assets b) ∧
    NoDup (bundle_assets b) ∧
    ∀ a, a ∈ bundle_assets b →
      is_Some (jsmap_get (bundleRoots (placed_discovery p)) a) ∨
      a ∈ enteredAssets (traverse sharedWithSibling (λ _, false) None).
Proof.
  do 2 eexists. split; [vm_compute; reflexivity|]. split; [vm_compute; reflexivity|].
  split; [vm_compute; reflexivity|].
  eapply (placement_sizes_are_sums sharedWithSibling _ 3).
  - vm_compute; reflexivity.
  - vm_compute; reflexivity.
Defined.

(** ** What placement leaves as it is *)

(** Placement keeps the bundles of the first step: when all assets are
    placed, the bundle of a bundle root is still in [bundleGraph], the root
    is still the first of its assets (the one that [[...assets][0]] reads),
    and the bundle still has no source bundles. *)
Theorem placement_keeps_root_bundles (g : AssetGraph) (p : Placement) (root : Asset)
    (bundleId groupId : nat) :
  placement g = Ok p →
  jsmap_get (bundleRoots (placed_discovery p)) root = Some (bundleId, groupId) →
  ∃ b, getNode (bundleGraph (placed_store p)) bundleId = Some b ∧
       head (bundle_assets b) = Some root ∧
       bundle_sourceBundles b = [].
Proof.
  intros (_ & Hd & _ & _ & Hplace)%placement_stages Hget%jsmap_get_Some.
  apply discover_groupStructure in Hd as (_ & Hroots & _).
  destruct (Hroots _ _ Hget) as ((b & Hb & Ha & _ & _ & _ & _ & Hsrc & _) & _).
  apply placeAssets_extends in Hplace as (_ & _ & Hext).
  destruct (Hext _ _ Hb) as (b' & Hb' & [rest Hpre] & Hsrc').
  exists b'. split; [done|]. split; [|congruence].
  rewrite Hpre, Ha. done.
Qed.

Lemma placement_keeps_root_bundles_witness :
  ∃ p,
    placement sharedWithSibling = Ok p ∧
    ∃ b, getNode (bundleGraph (placed_store p)) 0 = Some b ∧
         head (bundle_assets b) = Some (mkAsset "E1" "js" None 10) ∧
         bundle_sourceBundles b = [].
Proof.
  eexists. split; [vm_compute; reflexivity|].
  apply (placement_keeps_root_bundles sharedWithSibling _ (mkAsset "E1" "js" None 10) 0 0).
  - vm_compute; reflexivity.
  - vm_compute; reflexivity.
Defined.

(** An asset that a single bundle root needs goes into the bundle of that
    root: the key of the shared bundle of one root is the id of the root,
    under which [bundles] has its bundle.  No bundle is made and no edge is
    added. *)
Theorem asset_of_one_root_joins_its_bundle (d : Discovery) (r : Reachability)
    (av : Availability) (s s' : BundleStore) (asset root : Asset) :
  jsmap_get (bundleRoots d) asset = None →
  filteredReachable d r av s asset = Ok [root] →
  placeAsset d r av s asset = Ok s' →
  ∃ i b0,
    bundles s !! asset_id root = Some i ∧
    getNode (bundleGraph s) i = Some b0 ∧
    getNode (bundleGraph s') i = Some (addAssetToBundle asset b0) ∧
    (∀ j, j ≠ i → getNode (bundleGraph s') j = getNode (bundleGraph s) j) ∧
    bundles s' = bundles s ∧
    length (nodes (bundleGraph s')) = length (nodes (bundleGraph s)) ∧
    edges (bundleGraph s') = edges (bundleGraph s).
Proof.
  intros Hroot Hl. unfold placeAsset. rewrite Hl, Hroot. simpl.
  unfold placeShared. simpl. rewrite sharedBundleKey_singleton.
  destruct (bundles s !! asset_id root) as [i|] eqn:Hi; [|done]. simpl.
  destruct (getNode (bundleGraph s) i) as [b0|] eqn:Hb0; [|done]. simpl.
  rewrite decide_False by naive_solver. intros [= <-]. cbn [bundles bundleGraph].
  exists i, b0. split; [done|]. split; [done|].
  split; [by rewrite getNode_updateNode, decide_True, Hb0|].
  split; [intros j Hj; by rewrite getNode_updateNode, decide_False|].
  split; [done|]. unfold updateNode. rewrite Hb0. simpl.
  by rewrite length_insert.
Qed.

Lemma asset_of_one_root_joins_its_bundle_witness :
  ∃ d r av s',
    discover (entryWithDependency ["A"])
             [(mkAsset "E" "js" None 10, mkDependency "dE" sync true None)] = Ok d ∧
    reach (entryWithDependency ["A"]) d = Ok r ∧
    availability d r = Ok av ∧
    placeAsset d r av (store d) (mkAsset "A" "js" None 20) = Ok s' ∧
    ∃ i b0,
      bundles (store d) !! asset_id (mkAsset "E" "js" None 10) = Some i ∧
      getNode (bundleGraph (store d)) i = Some b0 ∧
      getNode (bundleGraph s') i = Some (addAssetToBundle (mkAsset "A" "js" None 20) b0) ∧
      (∀ j, j ≠ i → getNode (bundleGraph s') j = getNode (bundleGraph (store d)) j) ∧
      bundles s' = bundles (store d) ∧
      length (nodes (bundleGraph s')) = length (nodes (bundleGraph (store d))) ∧
      edges (bundleGraph s') = edges (bundleGraph (store d)).
Proof.
  do 4 eexists. split; [vm_compute; reflexivity|]. split; [vm_compute; reflexivity|].
  split; [vm_compute; reflexivity|]. split; [vm_compute; reflexivity|].
  lazymatch goal with
  | |- ∃ i b0, bundles (store ?d) !! _ = _ ∧ _ =>
      let reached := eval vm_compute in (reach (entryWithDependency ["A"]) d) in
      lazymatch reached with
      | Ok ?r =>
          let available := eval vm_compute in (availability d r) in
          lazymatch available with
          | Ok ?av =>
              eapply (asset_of_one_root_joins_its_bundle d r av (store d) _
                        (mkAsset "A" "js" None 20) (mkAsset "E" "js" None 10))
          end
      end
  end.
  - vm_compute; reflexivity.
  - vm_compute; reflexivity.
  - vm_compute; reflexivity.
Defined.

(** ** The last loop of the fourth step *)

Lemma edges_removeNode {A} (g : Graph A) (i : nat) (e : nat * nat) :
  e ∈ edges (removeNode g i) ↔ e ∈ edges g ∧ e.1 ≠ i ∧ e.2 ≠ i.
Proof. unfold removeNode. simpl. rewrite list_elem_of_filter. naive_solver. Qed.

Lemma dropOrphans_spec (bg : Graph Bundle)
    (rar : list (nat * list Asset)) :
  (∀ i, getNode (dropOrphans bg rar) i
        = (if decide ((i, []) ∈ rar) then None else getNode bg i)) ∧
  (∀ e, e ∈ edges (dropOrphans bg rar) ↔
        e ∈ edges bg ∧ ((e.1, []) ∉ rar) ∧ ((e.2, []) ∉ rar)).
Proof.
  unfold dropOrphans. revert bg. induction rar as [|[k roots] rar IH]; intros bg.
  - split; [done|]. intros e. simpl. split; [|naive_solver].
    intros He. split; [done|]. split; by intros ?%elem_of_nil.
  - simpl. destruct (IH (if decide (length roots = 0) then removeNode bg k else bg))
      as [Hnodes Hedges].
    assert (length roots = 0 ↔ roots = []) as Hlen by (by destruct roots).
    split.
    + intros i. rewrite Hnodes. destruct (decide ((i, []) ∈ rar)) as [Hin|Hnin].
      * rewrite decide_True; [done|]. by right.
      * destruct (decide (length roots = 0)) as [Hz|Hnz].
        -- rewrite getNode_removeNode. apply Hlen in Hz as ->.
           destruct (decide (i = k)) as [->|Hne].
           ++ rewrite decide_True; [done|]. by left.
           ++ rewrite decide_False; [done|]. intros [[= ?]|?]%elem_of_cons; done.
        -- rewrite decide_False; [done|].
           intros [[= ? ?]|?]%elem_of_cons; [|done]. subst. by apply Hnz.
    + intros e. rewrite Hedges, !not_elem_of_cons.
      destruct (decide (length roots = 0)) as [Hz|Hnz].
      * rewrite edges_removeNode. apply Hlen in Hz as ->. naive_solver.
      * assert (roots ≠ []) by (by rewrite <- Hlen). naive_solver.
Qed.

(** The last loop removes the bundles whose set in [reachableAsyncRoots] is
    empty, with their edges, and nothing else: every other bundle and every
    edge between two other bundles stay as they are. *)
Theorem dropOrphans_removes_empty_only (bg : Graph Bundle)
    (rar : list (nat * list Asset)) :
  (∀ i, getNode (dropOrphans bg rar) i
        = (if decide ((i, []) ∈ rar) then None else getNode bg i)) ∧
  (∀ e, e ∈ edges (dropOrphans bg rar) ↔
        e ∈ edges bg ∧ ((e.1, []) ∉ rar) ∧ ((e.2, []) ∉ rar)).
Proof. apply dropOrphans_spec. Qed.

(** ** The sets of available assets are shared objects *)

Lemma propagateToChild_refs (d : Discovery) (combinedRef : nat) (av av' : Availability)
    (childId : nat) :
  propagateToChild d combinedRef av childId = Ok av' →
  length (assetSets av') = length (assetSets av) ∧
  (∀ other, jsmap_get (ancestorAssets av') other = jsmap_get (ancestorAssets av) other ∨
            (jsmap_get (ancestorAssets av) other = None ∧
             jsmap_get (ancestorAssets av') other = Some combinedRef)) ∧
  ∀ child, cg_getNode (asyncBundleRootGraph d) childId = Some (BundleRootNode child) →
    is_Some (jsmap_get (ancestorAssets av') child).
Proof.
  unfold propagateToChild.
  destruct (cg_getNode _ _) as [[|child]|]; [done| |done].
  destruct (jsmap_get (ancestorAssets av) child) as [ref|] eqn:Hchild; intros [= <-]; simpl.
  - rewrite length_insert. split; [done|]. split; [by left|].
    intros ? [= <-]. by rewrite Hchild.
  - split; [done|]. split.
    + intros other. destruct (decide (child = other)) as [<-|Hne].
      * right. by rewrite jsmap_get_set_eq.
      * left. by rewrite jsmap_get_set_ne.
    + intros ? [= <-]. by rewrite jsmap_get_set_eq.
Qed.

Lemma propagate_refs (d : Discovery) (combinedRef : nat) (children : list nat)
    (av av' : Availability) :
  foldM (propagateToChild d combinedRef) children av = Ok av' →
  length (assetSets av') = length (assetSets av) ∧
  (∀ other, jsmap_get (ancestorAssets av') other = jsmap_get (ancestorAssets av) other ∨
            (jsmap_get (ancestorAssets av) other = None ∧
             jsmap_get (ancestorAssets av') other = Some combinedRef)) ∧
  ∀ childId child, childId ∈ children →
    cg_getNode (asyncBundleRootGraph d) childId = Some (BundleRootNode child) →
    is_Some (jsmap_get (ancestorAssets av') child).
Proof.
  revert av. induction children as [|c children IH]; intros av H; simpl in H.
  - injection H as <-. split; [done|]. split; [by left|]. by intros ? ? ?%elem_of_nil.
  - bind_inv H. apply propagateToChild_refs in E as (Hlen1 & Hkeep1 & Hnew1).
    apply IH in H as (Hlen2 & Hkeep2 & Hnew2).
    split; [congruence|]. split.
    + intros other. destruct (Hkeep1 other) as [H1|[H1 H1']], (Hkeep2 other) as [H2|[H2 H2']].
      * left. congruence.
      * right. split; congruence.
      * right. split; congruence.
      * congruence.
    + intros childId child [->|Hin]%elem_of_cons Hnode; [|by eapply Hnew2].
      destruct (Hnew1 child Hnode) as [ref Href].
      destruct (Hkeep2 child) as [H2|[H2 H2']]; [|congruence].
      rewrite H2, Href. done.
Qed.

(** The loop over the children of a bundle root gives every child that has
    no available assets yet the one [Set] object [combined].  The children
    then share it: when the set of one of them is intersected later, for
    another parent, the available assets of the others change with it. *)
Theorem children_share_combined (d : Discovery) (combinedRef : nat) (children : list nat)
    (av av' : Availability) (childId otherId : nat) (child other : Asset) :
  foldM (propagateToChild d combinedRef) children av = Ok av' →
  childId ∈ children → otherId ∈ children →
  cg_getNode (asyncBundleRootGraph d) childId = Some (BundleRootNode child) →
  cg_getNode (asyncBundleRootGraph d) otherId = Some (BundleRootNode other) →
  jsmap_get (ancestorAssets av) child = None →
  jsmap_get (ancestorAssets av) other = None →
  combinedRef < length (assetSets av) →
  jsmap_get (ancestorAssets av') child = Some combinedRef ∧
  jsmap_get (ancestorAssets av') other = Some combinedRef ∧
  ∀ laterRef av'',
    propagateToChild d laterRef av' childId = Ok av'' →
    ancestorAssetsOf av'' other
    = Some (setIntersect (derefSet av' combinedRef) (derefSet av' laterRef)).
Proof.
  intros (Hlen & Hkeep & Hnew)%propagate_refs Hchild Hother Hc Ho Hcnone Honone Hlt.
  assert (∀ id a, id ∈ children →
            cg_getNode (asyncBundleRootGraph d) id = Some (BundleRootNode a) →
            jsmap_get (ancestorAssets av) a = None →
            jsmap_get (ancestorAssets av') a = Some combinedRef) as Hset.
  { intros id a Hid Ha Hnone. destruct (Hnew id a Hid Ha) as [ref Href].
    destruct (Hkeep a) as [H1|[_ H1]]; [congruence|done]. }
  pose proof (Hset _ _ Hchild Hc Hcnone) as Hc'.
  pose proof (Hset _ _ Hother Ho Honone) as Ho'.
  split; [done|]. split; [done|].
  intros laterRef av''. unfold propagateToChild. rewrite Hc, Hc'. intros [= <-].
  unfold ancestorAssetsOf, intersectInPlace, derefSet. cbn [ancestorAssets assetSets].
  rewrite Ho'. simpl. rewrite list_lookup_insert_eq by lia. done.
Qed.

Lemma children_share_combined_witness :
  let U := mkAsset "U" "js" None 1 in
  let V := mkAsset "V" "js" None 2 in
  let L1 := mkAsset "L1" "js" None 20 in
  let L2 := mkAsset "L2" "js" None 30 in
  let d := asyncRootsOnly [L1; L2] in
  let av := {| ancestorAssets := []; assetSets := [[U; V]; [V]];
               assetRefsInBundleGroup := [] |} in
  ∃ av',
    foldM (propagateToChild d 0) [0; 1] av = Ok av' ∧
    jsmap_get (ancestorAssets av') L1 = Some 0 ∧
    jsmap_get (ancestorAssets av') L2 = Some 0 ∧
    ∀ laterRef av'',
      propagateToChild d laterRef av' 0 = Ok av'' →
      ancestorAssetsOf av'' L2
      = Some (setIntersect (derefSet av' 0) (derefSet av' laterRef)).
Proof.
  intros U V L1 L2 d av. eexists. split; [vm_compute; reflexivity|].
  apply (children_share_combined d 0 [0; 1] av _ 0 1 L1 L2).
  - vm_compute; reflexivity.
  - apply (bool_decide_unpack _); vm_compute; exact I.
  - apply (bool_decide_unpack _); vm_compute; exact I.
  - vm_compute; reflexivity.
  - vm_compute; reflexivity.
  - vm_compute; reflexivity.
  - vm_compute; reflexivity.
  - vm_compute; lia.
Defined.

(** ** The bundle roots that reach one another asynchronously *)

Lemma markReachable_inv (roots : list Asset) (registered : string → Prop)
    (childAsset : Asset) (frames : list (Asset * nat)) (isTop : bool)
    (acc : list (Asset * list Asset) * ContentGraph AsyncRootNode unit) :
  let P := λ rb : list (Asset * list Asset),
    ∀ a l c, (a, l) ∈ rb → c ∈ l → sameKind a c ∧ a ∈ roots ∧ registered (asset_id c) in
  registered (asset_id childAsset) →
  (∀ frame, frame ∈ frames → frame.1 ∈ roots) →
  P acc.1 → P (markReachable childAsset frames isTop acc).1.
Proof.
  intros P Hchild. revert isTop acc.
  induction frames as [|[stackAsset group] frames IH]; intros isTop acc Hframes Hacc;
    simpl; [done|].
  destruct (_ || _) eqn:Hstop; [done|].
  apply orb_false_iff in Hstop as [[Htype Hctx]%orb_false_iff Hiso].
  apply bool_decide_eq_false in Htype. apply bool_decide_eq_false in Hctx.
  apply IH; [intros frame Hin; apply Hframes; by right|]. simpl.
  intros a l c [[= -> ->]|Hin]%elem_of_jsmap_set; [|by apply Hacc].
  intros [->|Hc]%elem_of_jsset_add.
  - split; [|split; [|done]].
    + split; [by apply dec_stable|]. split; [by apply dec_stable|done].
    + apply (Hframes (stackAsset, group)). by left.
  - unfold defaultmap_peek in Hc.
    destruct (jsmap_get acc.1 stackAsset) as [l0|] eqn:Hl0; simpl in Hc.
    + apply jsmap_get_Some in Hl0. by eapply Hacc.
    + by apply elem_of_nil in Hc.
Qed.

Lemma asyncReachable_more (st st' : Discovery) :
  stack st' = stack st → reachableBundles st' = reachableBundles st →
  (∀ a, a ∈ (bundleRoots st).*1 → a ∈ (bundleRoots st').*1) →
  (∀ id, is_Some (bundles (store st) !! id) → is_Some (bundles (store st') !! id)) →
  asyncReachable st → asyncReachable st'.
Proof.
  intros Hstack Hrb Hroots Hbundles [Hframes Hreach]. split.
  - intros frame. rewrite Hstack. intros Hin. by apply Hroots, Hframes.
  - intros a l c. rewrite Hrb. intros Hin Hc.
    destruct (Hreach a l c Hin Hc) as (? & ? & ?). auto.
Qed.

Lemma createEntryBundle_asyncReachable (st st' : Discovery) (entry : Asset * Dependency) :
  asyncReachable st → createEntryBundle st entry = Ok st' → asyncReachable st'.
Proof.
  intros Hst. unfold createEntryBundle. destruct entry as [asset dependency].
  intros H. bind_inv H. bind_inv H.
  destruct (addNode _ _) as [nodeId bg].
  bind_inv H. destruct (addNodeByContentKey _ _ _) as [entryNodeId abg].
  injection H as <-. apply (asyncReachable_more st); [done|done| | |done]; simpl.
  - intros a Ha. apply jsmap_set_keys. by right.
  - intros id Hid. rewrite lookup_insert_is_Some. destruct (decide (asset_id asset = id)); auto.
Qed.

Lemma splitTypeChange_asyncReachable (st st' : Discovery) (dependency : Dependency)
    (childAsset : Asset) :
  asyncReachable st → splitTypeChange st dependency childAsset = Ok st' → asyncReachable st'.
Proof.
  intros Hst. unfold splitTypeChange. intros H. bind_inv H. bind_inv H. bind_inv H.
  destruct (addNode _ _) as [newId bg']. injection H as <-.
  apply (asyncReachable_more st); [done|done| | |done]; simpl.
  - intros a Ha. apply jsmap_set_keys. by right.
  - intros id Hid. rewrite lookup_insert_is_Some.
    destruct (decide (asset_id childAsset = id)); auto.
Qed.

Lemma splitAsync_asyncReachable (st st' : Discovery) (dependency : Dependency)
    (childAsset : Asset) :
  asyncReachable st → splitAsync st dependency childAsset = Ok st' → asyncReachable st'.
Proof.
  intros [Hframes Hreach]. unfold splitAsync. intros H. bind_inv H.
  destruct x as [[[[bundleId bg] bundlesMap] roots] groupIds].
  pose proof (markReachable_inv (bundleRoots st).*1
                (λ id, is_Some (bundlesMap !! id)) childAsset (reverse (stack st)) true
                (reachableBundles st, asyncBundleRootGraph st)) as Hmark.
  destruct (markReachable _ _ _ _) as [rb abg]. injection H as <-.
  assert ((∀ a, a ∈ (bundleRoots st).*1 → a ∈ roots.*1) ∧
          (∀ id, is_Some (bundles (store st) !! id) → is_Some (bundlesMap !! id)) ∧
          is_Some (bundlesMap !! asset_id childAsset)) as (Hroots & Hbundles & Hchild).
  { destruct (bundles (store st) !! asset_id childAsset) as [existing|] eqn:Hlook.
    - bind_inv E. injection E as <- <- <- <- <-.
      split; [done|]. split; [done|]. rewrite Hlook. by eexists.
    - bind_inv E. bind_inv E. bind_inv E.
      destruct (addNode _ _) as [newId bg'].
      injection E as <- <- <- <- <-. split; [|split].
      + intros a Ha. apply jsmap_set_keys. by right.
      + intros id Hid. rewrite lookup_insert_is_Some.
        destruct (decide (asset_id childAsset = id)); auto.
      + rewrite lookup_insert_eq. by eexists. }
  split; simpl.
  - intros frame Hin. by apply Hroots, Hframes.
  - intros a l c Hin Hc.
    destruct (Hmark Hchild) with (a := a) (l := l) (c := c) as (? & ? & ?); try done.
    + intros frame Hframe. rewrite elem_of_reverse in Hframe. by apply Hframes.
    + simpl. intros a0 l0 c0 Hin0 Hc0.
      destruct (Hreach a0 l0 c0 Hin0 Hc0) as (? & ? & ?). auto.
    + auto.
Qed.

Lemma splitVisitor_asyncReachable (g : AssetGraph) (st st' : Discovery) (ev : Event) :
  asyncReachable st → splitVisitor g st ev = Ok st' → asyncReachable st'.
Proof.
  intros Hst. destruct ev as [[a|dependency] ctx|n]; simpl.
  - intros [= <-]. destruct Hst as [Hframes Hreach]. split; [|done]. simpl.
    destruct (jsmap_get (bundleRoots st) a) as [tuple|] eqn:Ha; [|done].
    intros frame [Hin|Hin%list_elem_of_singleton]%elem_of_app; [by apply Hframes|].
    subst frame. simpl. apply jsmap_get_is_Some. rewrite Ha. by eexists.
  - destruct ctx as [[parentAsset|?]|]; [|done|by intros [= <-]].
    destruct (getDependencyAssets g dependency) as [|childAsset [|? ?]];
      [by intros [= <-]| |done].
    destruct (_ || _); [by apply splitAsync_asyncReachable|].
    destruct (_ || _); [by apply splitTypeChange_asyncReachable|].
    by intros [= <-].
  - destruct (last (stack st)) as [[top ?]|] eqn:Hlast; [|by intros [= <-]].
    destruct (decide _); intros [= <-]; [|done].
    destruct Hst as [Hframes Hreach]. split; [|done]. simpl.
    intros frame Hin. apply Hframes.
    destruct (stack st) as [|f fs] using rev_ind; [done|].
    rewrite removelast_last in Hin. apply elem_of_app. by left.
Qed.

Lemma discover_asyncReachable (g : AssetGraph) (entries : list (Asset * Dependency))
    (d : Discovery) :
  discover g entries = Ok d → asyncReachable d.
Proof.
  unfold discover. intros H. bind_inv H.
  eapply (foldM_invariant asyncReachable); [| |exact H].
  - intros s ev s' _. apply splitVisitor_asyncReachable.
  - eapply (foldM_invariant asyncReachable); [| |exact E].
    + intros s e s' _. apply createEntryBundle_asyncReachable.
    + split; [by intros frame ?%elem_of_nil|]. by intros a l c ?%elem_of_nil.
Qed.

(** When the first step is done, a bundle root in the set that
    [reachableBundles] has for another bundle root has the type and the
    context of that root, which is not isolated: the walk up the stack stops
    at the first frame of another kind.  The root that reaches is a key of
    [bundleRoots], and the one it reaches has a bundle under its id. *)
Theorem reachable_bundles_same_kind (g : AssetGraph) (entries : list (Asset * Dependency))
    (d : Discovery) (a c : Asset) (l : list Asset) :
  discover g entries = Ok d →
  jsmap_get (reachableBundles d) a = Some l → c ∈ l →
  asset_type a = asset_type c ∧
  env_context (asset_env a) = env_context (asset_env c) ∧
  env_isIsolated (asset_env a) = false ∧
  is_Some (jsmap_get (bundleRoots d) a) ∧
  is_Some (bundles (store d) !! asset_id c).
Proof.
  intros [_ Hreach]%discover_asyncReachable Hl%jsmap_get_Some Hc.
  destruct (Hreach a l c Hl Hc) as ((? & ? & ?) & ? & ?).
  by rewrite jsmap_get_is_Some.
Qed.

Lemma reachable_bundles_same_kind_witness :
  ∃ d,
    discover inlineChildOfAsyncRoot
             [(mkAsset "E" "js" None 10, mkDependency "dE" sync true None)] = Ok d ∧
    jsmap_get (reachableBundles d) (mkAsset "E" "js" None 10)
      = Some [mkAsset "P" "js" None 30; mkAsset "C" "js" (Some inline) 7] ∧
    asset_type (mkAsset "E" "js" None 10) = asset_type (mkAsset "P" "js" None 30) ∧
    env_context (asset_env (mkAsset "E" "js" None 10))
      = env_context (asset_env (mkAsset "P" "js" None 30)) ∧
    env_isIsolated (asset_env (mkAsset "E" "js" None 10)) = false ∧
    is_Some (jsmap_get (bundleRoots d) (mkAsset "E" "js" None 10)) ∧
    is_Some (bundles (store d) !! asset_id (mkAsset "P" "js" None 30)).
Proof.
  eexists. split; [vm_compute; reflexivity|]. split; [vm_compute; reflexivity|].
  eapply (reachable_bundles_same_kind inlineChildOfAsyncRoot
            [(mkAsset "E" "js" None 10, mkDependency "dE" sync true None)] _
            (mkAsset "E" "js" None 10) (mkAsset "P" "js" None 30)
            [mkAsset "P" "js" None 30; mkAsset "C" "js" (Some inline) 7]).
  - vm_compute; reflexivity.
  - vm_compute; reflexivity.
  - apply (bool_decide_unpack _); vm_compute; exact I.
Defined.

(** ** The entry bundle takes the assets of its siblings *)

Lemma assetsGrow_refl (bg : Graph Bundle) : assetsGrow bg bg.
Proof. split; [|done]. intros j b Hb. by exists b. Qed.

Lemma assetsGrow_trans (bg1 bg2 bg3 : Graph Bundle) :
  assetsGrow bg1 bg2 → assetsGrow bg2 bg3 → assetsGrow bg1 bg3.
Proof.
  intros [H1 E1] [H2 E2]. split; [|by auto].
  intros j b Hb. destruct (H1 j b Hb) as (b' & Hb' & Ht' & Ha').
  destruct (H2 j b' Hb') as (b'' & Hb'' & Ht'' & Ha'').
  exists b''. split; [done|]. split; [congruence|by auto].
Qed.

Lemma assetsGrow_absorbAssets (bg : Graph Bundle) (into : nat) (l : list Asset) :
  assetsGrow bg (absorbAssets bg into l).
Proof.
  split; [|by rewrite edges_absorbAssets]. intros j b Hb.
  rewrite getNode_absorbAssets. destruct (decide (j = into)) as [->|Hne].
  - rewrite Hb. simpl. eexists. split; [done|]. split; [apply absorb_type|].
    intros a Ha. apply elem_of_absorb. by left.
  - by exists b.
Qed.

Lemma assetsGrow_removeEdge (bg : Graph Bundle) (i j : nat) :
  assetsGrow bg (removeEdge bg i j).
Proof.
  split; [|by intros e [_ He]%elem_of_edges_removeEdge].
  intros k b Hb. by exists b.
Qed.

Lemma assetsGrow_setSourceBundles (bg : Graph Bundle) (i : nat) (srcs : list nat) :
  assetsGrow bg (updateNode bg i (setSourceBundles srcs)).
Proof.
  split; [|by rewrite edges_updateNode]. intros j b Hb.
  rewrite getNode_updateNode. destruct (decide (j = i)) as [->|Hne].
  - rewrite Hb. simpl. by eexists.
  - by exists b.
Qed.

Lemma foldSibling_assetsGrow (entryAsset : Asset) (entryBundleId : nat) (entryType : string)
    (bg : Graph Bundle) (rar : list (nat * list Asset))
    (st' : Graph Bundle * list (nat * list Asset)) (siblingId : nat) :
  foldSibling entryAsset entryBundleId entryType (bg, rar) siblingId = Ok st' →
  assetsGrow bg st'.1 ∧
  ∀ sibling, getNode bg siblingId = Some sibling → bundle_type sibling = entryType →
    assetsGrow (removeEdge (absorbAssets bg entryBundleId (bundle_assets sibling))
                           entryBundleId siblingId) st'.1.
Proof.
  unfold foldSibling. intros H. bind_inv H. rename x into sibling.
  assert (getNode bg siblingId = Some sibling) as Hsib.
  { destruct (getNode bg siblingId); [by injection E as ->|done]. }
  destruct (decide _) as [Hne|Heq].
  { injection H as <-. split; [apply assetsGrow_refl|].
    intros s0 Hs0 Ht. rewrite Hsib in Hs0. by injection Hs0 as <-. }
  set (bg2 := removeEdge (absorbAssets bg entryBundleId (bundle_assets sibling))
                entryBundleId siblingId) in *.
  assert (assetsGrow bg bg2) as H02.
  { eapply assetsGrow_trans; [apply assetsGrow_absorbAssets|apply assetsGrow_removeEdge]. }
  assert (assetsGrow bg2 st'.1) as H2.
  { destruct (defaultmap_get _ _ _) as [dependentRoots rar1].
    destruct (bool_decide _).
    - destruct (list_find _ _) as [[entryBundleIndex ?]|]; [|done].
      destruct (delete _ _) as [|id [|id' rest]].
      + injection H as <-. apply assetsGrow_setSourceBundles.
      + bind_inv H. injection H as <-. simpl.
        eapply assetsGrow_trans; [apply assetsGrow_setSourceBundles|].
        eapply assetsGrow_trans; [apply assetsGrow_absorbAssets|apply assetsGrow_removeEdge].
      + injection H as <-. apply assetsGrow_setSourceBundles.
    - injection H as <-. apply assetsGrow_refl. }
  split; [by eapply assetsGrow_trans|].
  intros s0 Hs0 _. rewrite Hsib in Hs0. by injection Hs0 as <-.
Qed.

Lemma foldSiblings_absorbed (entryAsset : Asset) (entryBundleId : nat) (entryType : string)
    (siblings : list nat) (st st' : Graph Bundle * list (nat * list Asset)) :
  foldM (foldSibling entryAsset entryBundleId entryType) siblings st = Ok st' →
  assetsGrow st.1 st'.1 ∧
  ∀ siblingId sibling entryBundle, siblingId ∈ siblings →
    getNode st.1 siblingId = Some sibling → bundle_type sibling = entryType →
    getNode st.1 entryBundleId = Some entryBundle →
    (∃ entryBundle', getNode st'.1 entryBundleId = Some entryBundle' ∧
       ∀ a, a ∈ bundle_assets sibling → a ∈ bundle_assets entryBundle') ∧
    (entryBundleId, siblingId) ∉ edges st'.1.
Proof.
  intros H.
  pose (P := λ (pre : list nat) (cur : Graph Bundle * list (nat * list Asset)),
          assetsGrow st.1 cur.1 ∧
          ∀ siblingId sibling entryBundle, siblingId ∈ pre →
            getNode st.1 siblingId = Some sibling → bundle_type sibling = entryType →
            getNode st.1 entryBundleId = Some entryBundle →
            (∃ entryBundle', getNode cur.1 entryBundleId = Some entryBundle' ∧
               ∀ a, a ∈ bundle_assets sibling → a ∈ bundle_assets entryBundle') ∧
            (entryBundleId, siblingId) ∉ edges cur.1).
  apply (foldM_invariant_prefix P) in H; [done| |].
  - intros pre x post [bg rar] cur' _ [Hgrow Hdone] Hx.
    apply foldSibling_assetsGrow in Hx as [Hstep Hsame]. simpl in *.
    split; [by eapply assetsGrow_trans|].
    intros siblingId sibling entryBundle [Hin|Hin%list_elem_of_singleton]%elem_of_app
      Hsib Htype Hentry.
    + destruct (Hdone _ _ _ Hin Hsib Htype Hentry) as [(e1 & He1 & Ha1) Hedge].
      destruct Hstep as [Hnodes Hedges].
      destruct (Hnodes _ _ He1) as (e2 & He2 & _ & Ha2).
      split; [exists e2; split; [done|by auto]|]. intros He. by apply Hedge, Hedges.
    + subst x. destruct Hgrow as [Hnodes _].
      destruct (Hnodes _ _ Hsib) as (sibling1 & Hsib1 & Htype1 & Ha1).
      destruct (Hnodes _ _ Hentry) as (entry1 & Hentry1 & _ & _).
      destruct (Hsame sibling1 Hsib1) as [Hnodes2 Hedges2]; [congruence|].
      destruct (Hnodes2 entryBundleId (absorb entry1 (bundle_assets sibling1)))
        as (e2 & He2 & _ & Ha2).
      { rewrite getNode_removeEdge, getNode_absorbAssets, decide_True by done.
        by rewrite Hentry1. }
      split.
      * exists e2. split; [done|]. intros a Ha. apply Ha2, elem_of_absorb. right. by apply Ha1.
      * intros He%Hedges2%elem_of_edges_removeEdge. by destruct He.
  - split; [apply assetsGrow_refl|]. by intros ? ? ? ?%elem_of_nil.
Qed.

(** The loop over the siblings of an entry bundle: a bundle that the entry
    bundle is connected to and that has the type of the entry bundle gives
    the entry bundle all its assets, and the edge from the entry bundle to
    it goes. *)
Theorem entry_absorbs_siblings (d : Discovery)
    (st st' : Graph Bundle * list (nat * list Asset)) (entryAsset : Asset)
    (tuple : nat * nat) (entryBundle sibling : Bundle) (siblingId : nat) :
  foldEntry d st entryAsset = Ok st' →
  jsmap_get (bundleRoots d) entryAsset = Some tuple →
  getNode st.1 tuple.1 = Some entryBundle →
  (tuple.1, siblingId) ∈ edges st.1 →
  getNode st.1 siblingId = Some sibling →
  bundle_type sibling = bundle_type entryBundle →
  (∃ entryBundle', getNode st'.1 tuple.1 = Some entryBundle' ∧
     ∀ a, a ∈ bundle_assets entryBundle ∨ a ∈ bundle_assets sibling →
          a ∈ bundle_assets entryBundle') ∧
  (tuple.1, siblingId) ∉ edges st'.1.
Proof.
  unfold foldEntry. intros H Htuple Hentry Hedge Hsib Htype.
  rewrite Htuple in H. cbn [fmap option_fmap option_map nullthrows mbind Result_bind fst] in H.
  rewrite Hentry in H. cbn [nullthrows mbind Result_bind] in H.
  apply foldSiblings_absorbed in H as [[Hnodes _] Hdone].
  destruct (Hdone siblingId sibling entryBundle) as [(e' & He' & Ha') Hgone]; try done.
  { by apply elem_of_connectedFrom. }
  split; [|done]. exists e'. split; [done|]. intros a [Ha|Ha]; [|by apply Ha'].
  destruct (Hnodes _ _ Hentry) as (e'' & He'' & _ & Ha''). 
  assert (e'' = e') as -> by congruence. by apply Ha''.
Qed.

Lemma entry_absorbs_siblings_witness :
  ∃ p bg st',
    placement sharedWithSibling = Ok p ∧
    mergeSmallShared http2 (bundleGraph (placed_store p)) = Ok bg ∧
    foldEntry (placed_discovery p) (bg, reachableAsyncRoots (placed_reachability p))
              (mkAsset "E1" "js" None 10) = Ok st' ∧
    (∃ entryBundle', getNode st'.1 0 = Some entryBundle' ∧
       ∀ a, a ∈ [mkAsset "E1" "js" None 10; mkAsset "A" "js" None 5000]
            ∨ a ∈ [mkAsset "L" "js" None 30; mkAsset "A" "js" None 5000] →
            a ∈ bundle_assets entryBundle') ∧
    (0, 2) ∉ edges st'.1.
Proof.
  do 3 eexists. split; [vm_compute; reflexivity|]. split; [vm_compute; reflexivity|].
  split; [vm_compute; reflexivity|].
  lazymatch goal with
  | |- (∃ _, getNode (fst ?st') _ = _ ∧ _) ∧ _ =>
      let placed := eval vm_compute in (placement sharedWithSibling) in
      lazymatch placed with
      | Ok ?p =>
          let merged := eval vm_compute in
            (mergeSmallShared http2 (bundleGraph (placed_store p))) in
          lazymatch merged with
          | Ok ?bg =>
              let e := eval vm_compute in (getNode bg 0) in
              let s := eval vm_compute in (getNode bg 2) in
              lazymatch e with
              | Some ?entryBundle =>
                  lazymatch s with
                  | Some ?sibling =>
                      apply (entry_absorbs_siblings (placed_discovery p)
                               (bg, reachableAsyncRoots (placed_reachability p)) st'
                               (mkAsset "E1" "js" None 10) (0, 0) entryBundle sibling 2)
                  end
              end
          end
      end
  end.
  - vm_compute; reflexivity.
  - vm_compute; reflexivity.
  - vm_compute; reflexivity.
  - apply (bool_decide_unpack _); vm_compute; exact I.
  - vm_compute; reflexivity.
  - vm_compute; reflexivity.
Defined.

(** ** What [reachableRoots] holds after the second step *)

Lemma elem_of_enteredAssets (evs : list Event) (a : Asset) :
  a ∈ enteredAssets evs ↔ ∃ ctx, Enter (AssetNode a) ctx ∈ evs.
Proof.
  unfold enteredAssets, enteredNodes. rewrite list_elem_of_omap. split.
  - intros (n & Hn & Ha). apply list_elem_of_omap in Hn as (ev & Hev & Hn).
    destruct ev as [n' ctx|?]; [|done]. injection Hn as ->.
    destruct n as [a'|?]; [|done]. injection Ha as ->. by exists ctx.
  - intros [ctx Hin]. exists (AssetNode a). split; [|done].
    apply list_elem_of_omap. by exists (Enter (AssetNode a) ctx).
Qed.

Lemma reach_reachInv (g : AssetGraph) (d : Discovery) (r : Reachability) :
  reach g d = Ok r → reachInv d (reachableRoots r).
Proof.
  unfold reach. intros H.
  eapply (foldM_invariant (λ r, reachInv d (reachableRoots r))); [| |exact H].
  - intros s e s' He. by apply reachFrom_inv.
  - split; [intros i key a Hi; by destruct i|]. intros e He. by apply elem_of_nil in He.
Qed.

Lemma reachSound_nodes (g : AssetGraph) (d : Discovery) (rr rr' : ContentGraph Asset unit) :
  (∀ j y, cg_nodes rr !! j = Some y → cg_nodes rr' !! j = Some y) →
  cg_edges rr' = cg_edges rr →
  reachSound g d rr → reachSound g d rr'.
Proof.
  intros Hkeep Hedges Hrr e He. rewrite Hedges in He.
  destruct (Hrr e He) as (root & a & Hroot & Hne & Ha & [x Hx] & [y Hy]).
  exists root, a. split; [done|]. split; [done|]. split; [done|].
  split; [exists x|exists y]; by apply Hkeep.
Qed.

Lemma reachVisitor_sound (g : AssetGraph) (d : Discovery) (root : Asset) (rootNodeId : nat)
    (r r' : Reachability) (ev : Event) :
  let P := λ r : Reachability,
    reachSound g d (reachableRoots r) ∧
    ∃ x, cg_nodes (reachableRoots r) !! rootNodeId = Some (Some (asset_id root), x) in
  root ∈ (bundleRoots d).*1 →
  ev ∈ traverse g (isSplitPoint d) (Some root) →
  P r → reachVisitor g d root rootNodeId r ev = Ok r' → P r'.
Proof.
  intros P Hroot Hev HP. destruct ev as [n ctx|n]; simpl; [|by intros [= <-]].
  destruct (decide _) as [|Hne]; [by intros [= <-]|]. destruct n as [a|dep].
  - pose proof (addNodeByContentKeyIfNeeded_spec (reachableRoots r) (asset_id a) a)
      as (Hedges & _ & Hkeep & [y Hy] & _).
    destruct (addNodeByContentKeyIfNeeded _ _ _) as [nodeId rr]. simpl in *.
    intros [= <-]. destruct HP as [Hsound [x Hx]].
    unfold P. cbn [reachableRoots]. rewrite cg_nodes_addEdge.
    split; [|exists x; by apply Hkeep].
    intros e [->|He]%elem_of_cg_addEdge.
    + exists root, a. split; [done|]. split; [congruence|]. split.
      { apply elem_of_enteredAssets. by exists ctx. }
      rewrite cg_nodes_addEdge. simpl. split; [exists x; by apply Hkeep|by exists y].
    + destruct (reachSound_nodes g d _ rr Hkeep Hedges Hsound e He)
        as (root' & a' & ? & ? & ? & ? & ?).
      exists root', a'. by rewrite cg_nodes_addEdge.
  - destruct (_ && _); [|by intros [= <-]].
    destruct (getDependencyAssets g dep) as [|bundleRoot [|? ?]]; [by intros [= <-]| |done].
    intros H. bind_inv H. bind_inv H. destruct (defaultmap_get _ _ _). by injection H as <-.
Qed.

Lemma reachFrom_sound (g : AssetGraph) (d : Discovery) (r r' : Reachability)
    (entry : Asset * (nat * nat)) :
  entry ∈ bundleRoots d → reachSound g d (reachableRoots r) →
  reachFrom g d r entry = Ok r' → reachSound g d (reachableRoots r').
Proof.
  intros Hentry Hsound. unfold reachFrom.
  pose proof (addNodeByContentKeyIfNeeded_spec (reachableRoots r) (asset_id entry.1) entry.1)
    as (Hedges & _ & Hkeep & Hx & _).
  destruct (addNodeByContentKeyIfNeeded _ _ _) as [rootNodeId rr]. simpl in *.
  intros H.
  assert (entry.1 ∈ (bundleRoots d).*1) as Hroot.
  { apply list_elem_of_fmap. by exists entry. }
  eapply (foldM_invariant (λ r : Reachability,
            reachSound g d (reachableRoots r) ∧
            ∃ x, cg_nodes (reachableRoots r) !! rootNodeId
                 = Some (Some (asset_id entry.1), x)))
    in H as [Hinv _]; [done| |].
  - intros s ev s' Hev. by apply reachVisitor_sound.
  - simpl. split; [by eapply reachSound_nodes|done].
Qed.

Lemma reach_reachSound (g : AssetGraph) (d : Discovery) (r : Reachability) :
  reach g d = Ok r → reachSound g d (reachableRoots r).
Proof.
  unfold reach. intros H.
  eapply (foldM_invariant (λ r, reachSound g d (reachableRoots r))); [| |exact H].
  - intros s e s' He. by apply reachFrom_sound.
  - by intros e ?%elem_of_nil.
Qed.

(** The bundle roots that [getReachableBundleRoots] returns for an asset
    after the second step: each has the id of a bundle root from which the
    traversal, which stops at the dependencies that have a bundle, entered an
    asset with the id of the asset, other than the root itself. *)
Theorem reachable_bundle_roots_sound (g : AssetGraph) (d : Discovery) (r : Reachability)
    (a b : Asset) (l : list Asset) :
  reach g d = Ok r →
  getReachableBundleRoots a (reachableRoots r) = Ok l → b ∈ l →
  ∃ root a',
    is_Some (jsmap_get (bundleRoots d) root) ∧ asset_id root = asset_id b ∧
    asset_id a' = asset_id a ∧ a' ≠ root ∧
    a' ∈ enteredAssets (traverse g (isSplitPoint d) (Some root)).
Proof.
  intros Hreach Hl Hb.
  pose proof (reach_reachSound _ _ _ Hreach) as Hsound.
  destruct (reach_reachInv _ _ _ Hreach) as [Hkeys _].
  unfold getReachableBundleRoots in Hl. bind_inv Hl.
  unfold getNodeIdByContentKey in E.
  destruct (lookupContentKey (reachableRoots r) (asset_id a)) as [nodeId|] eqn:Hlook; [|done].
  injection E as <-. apply lookupContentKey_Some in Hlook as [xa Hxa].
  apply mapM'_Ok in Hl. apply list_elem_of_lookup in Hb as [k Hk].
  destruct (Forall2_lookup_r _ _ _ _ _ Hl Hk) as (i & Hi & Hnode).
  apply list_elem_of_lookup_2 in Hi. apply elem_of_cg_connectedTo in Hi as [label Hedge].
  destruct (Hsound _ Hedge) as (root & a' & Hroot & Hne & Ha' & [x Hx] & [y Hy]).
  simpl in Hx, Hy. exists root, a'.
  split; [by apply jsmap_get_is_Some|]. split; [|split; [|done]].
  - unfold cg_getNode in Hnode. rewrite Hx in Hnode. simpl in Hnode.
    destruct (cg_nodes (reachableRoots r) !! i) as [[key b']|] eqn:Hb'; [|done].
    injection Hnode as ->. injection Hx as -> ->. 
    apply Hkeys in Hb'. by injection Hb'.
  - rewrite Hxa in Hy. by injection Hy.
Qed.

Lemma reachable_bundle_roots_sound_witness :
  ∃ d r,
    discover sharedWithSibling
             [(mkAsset "E1" "js" None 10, mkDependency "dE1" sync true None);
              (mkAsset "E2" "js" None 20, mkDependency "dE2" sync true None)] = Ok d ∧
    reach sharedWithSibling d = Ok r ∧
    getReachableBundleRoots (mkAsset "A" "js" None 5000) (reachableRoots r)
      = Ok [mkAsset "E1" "js" None 10; mkAsset "L" "js" None 30] ∧
    ∃ root a',
      is_Some (jsmap_get (bundleRoots d) root) ∧
      asset_id root = asset_id (mkAsset "L" "js" None 30) ∧
      asset_id a' = asset_id (mkAsset "A" "js" None 5000) ∧ a' ≠ root ∧
      a' ∈ enteredAssets (traverse sharedWithSibling (isSplitPoint d) (Some root)).
Proof.
  do 2 eexists. split; [vm_compute; reflexivity|]. split; [vm_compute; reflexivity|].
  split; [vm_compute; reflexivity|].
  eapply (reachable_bundle_roots_sound sharedWithSibling _ _ (mkAsset "A" "js" None 5000)
            (mkAsset "L" "js" None 30)
            [mkAsset "E1" "js" None 10; mkAsset "L" "js" None 30]).
  - vm_compute; reflexivity.
  - vm_compute; reflexivity.
  - apply (bool_decide_unpack _); vm_compute; exact I.
Defined.

(** ** Every asset that the traversal from a root enters gets the root *)

Section content_graph_later.
Context {A L : Type} `{EqDecision L}.
Implicit Types (g : ContentGraph A L) (key : string).

Lemma cgExtends_refl g : cgExtends g g.
Proof. by split. Qed.

Lemma cgExtends_trans g1 g2 g3 : cgExtends g1 g2 → cgExtends g2 g3 → cgExtends g1 g3.
Proof. intros [H1 E1] [H2 E2]. split; [intros key i Hi|intros e He]; auto. Qed.

Lemma lookupContentKey_addNode g key (x : A) :
  lookupContentKey (addNodeByContentKeyIfNeeded g key x).2 key
  = Some (addNodeByContentKeyIfNeeded g key x).1.
Proof.
  unfold addNodeByContentKeyIfNeeded.
  destruct (lookupContentKey g key) as [i|] eqn:Hlook; simpl; [done|].
  unfold lookupContentKey in *. simpl.
  destruct (list_find _ (cg_nodes g)) as [[j n]|] eqn:Hfind; [done|].
  rewrite list_find_app_r by done. simpl. rewrite decide_True by done. simpl.
  by rewrite ?Nat.add_0_r.
Qed.

Lemma cgExtends_addNode g key (x : A) :
  cgExtends g (addNodeByContentKeyIfNeeded g key x).2.
Proof.
  unfold addNodeByContentKeyIfNeeded.
  destruct (lookupContentKey g key) as [i|] eqn:Hlook; simpl; [apply cgExtends_refl|].
  split; [|done]. intros key' i. unfold lookupContentKey. simpl.
  destruct (list_find _ (cg_nodes g)) as [[j n]|] eqn:Hfind; [|done].
  simpl. intros [= <-]. by erewrite list_find_app_l.
Qed.

Lemma cgExtends_addEdge g (from to : nat) (label : L) :
  cgExtends g (cg_addEdge g from to label).
Proof.
  split.
  - intros key i. unfold lookupContentKey. by rewrite cg_nodes_addEdge.
  - intros e He. apply elem_of_cg_addEdge. by right.
Qed.
End content_graph_later.

Lemma reachedFrom_later (rr rr' : ContentGraph Asset unit) (root : Asset)
    (seen : list Asset) :
  cgExtends rr rr' → reachedFrom rr root seen → reachedFrom rr' root seen.
Proof.
  intros [Hkeys Hedges] Hseen a Ha Hne.
  destruct (Hseen a Ha Hne) as (i & j & Hi & Hj & He). exists i, j. auto.
Qed.

Lemma reachVisitor_complete (g : AssetGraph) (d : Discovery) (root : Asset)
    (rootNodeId : nat) (seen : list Event) (r r' : Reachability) (ev : Event) :
  let P := λ (seen : list Event) (r : Reachability),
    lookupContentKey (reachableRoots r) (asset_id root) = Some rootNodeId ∧
    reachedFrom (reachableRoots r) root (enteredAssets seen) in
  P seen r → reachVisitor g d root rootNodeId r ev = Ok r' →
  cgExtends (reachableRoots r) (reachableRoots r') ∧ P (seen ++ [ev]) r'.
Proof.
  intros P [Hroot Hseen].
  assert (∀ r', reachableRoots r' = reachableRoots r →
            enteredAssets [ev] = [] ∨ enteredAssets [ev] = [root] →
            cgExtends (reachableRoots r) (reachableRoots r') ∧ P (seen ++ [ev]) r')
    as Hsame.
  { intros r1 Hr1 Hev. unfold P. rewrite Hr1. split; [apply cgExtends_refl|]. split; [done|].
    rewrite enteredAssets_app. intros a [Ha|Ha]%elem_of_app Hne; [by apply Hseen|].
    destruct Hev as [Hev|Hev]; rewrite Hev in Ha.
    - by apply elem_of_nil in Ha.
    - by apply list_elem_of_singleton in Ha. }
  destruct ev as [n ctx|n]; simpl; [|intros [= <-]; apply Hsame; [done|by left]].
  destruct (decide _) as [->|Hne]; [intros [= <-]; apply Hsame; [done|by right]|].
  destruct n as [a|dep].
  - pose proof (lookupContentKey_addNode (reachableRoots r) (asset_id a) a) as Hlook.
    pose proof (cgExtends_addNode (reachableRoots r) (asset_id a) a) as Hext.
    destruct (addNodeByContentKeyIfNeeded _ _ _) as [nodeId rr]. simpl in *.
    intros [= <-]. unfold P. cbn [reachableRoots].
    pose proof (cgExtends_addEdge rr rootNodeId nodeId ()) as Hext'.
    assert (cgExtends (reachableRoots r) (cg_addEdge rr rootNodeId nodeId ())) as Hall.
    { by eapply cgExtends_trans. }
    split; [done|]. split; [by apply Hall|].
    rewrite enteredAssets_app. intros a' [Ha'|Ha']%elem_of_app Hne'.
    + by apply (reachedFrom_later _ _ _ _ Hall Hseen).
    + change (enteredAssets [Enter (AssetNode a) ctx]) with [a] in Ha'.
      apply list_elem_of_singleton in Ha' as ->.
      exists rootNodeId, nodeId. split; [by apply Hall|]. split; [by apply Hext'|].
      apply elem_of_cg_addEdge. by left.
  - destruct (_ && _); [|intros [= <-]; apply Hsame; [done|by left]].
    destruct (getDependencyAssets g dep) as [|bundleRoot [|? ?]];
      [intros [= <-]; apply Hsame; [done|by left]| |done].
    intros H. bind_inv H. bind_inv H. destruct (defaultmap_get _ _ _).
    injection H as <-. apply Hsame; [done|by left].
Qed.

Lemma reachFrom_complete (g : AssetGraph) (d : Discovery) (r r' : Reachability)
    (entry : Asset * (nat * nat)) :
  reachFrom g d r entry = Ok r' →
  cgExtends (reachableRoots r) (reachableRoots r') ∧
  reachedFrom (reachableRoots r') entry.1
    (enteredAssets (traverse g (isSplitPoint d) (Some entry.1))).
Proof.
  unfold reachFrom.
  pose proof (lookupContentKey_addNode (reachableRoots r) (asset_id entry.1) entry.1) as Hlook.
  pose proof (cgExtends_addNode (reachableRoots r) (asset_id entry.1) entry.1) as Hext.
  destruct (addNodeByContentKeyIfNeeded _ _ _) as [rootNodeId rr]. simpl in *.
  intros H.
  apply (foldM_invariant_prefix (λ seen r1,
           cgExtends rr (reachableRoots r1) ∧
           lookupContentKey (reachableRoots r1) (asset_id entry.1) = Some rootNodeId ∧
           reachedFrom (reachableRoots r1) entry.1 (enteredAssets seen))) in H.
  - destruct H as (Hext' & _ & Hseen). split; [by eapply cgExtends_trans|done].
  - intros pre ev post s s' _ (Hs & Hroot & Hseen) Hev.
    eapply reachVisitor_complete in Hev as [Hstep [Hroot' Hseen']]; [|by split].
    split; [by eapply cgExtends_trans|done].
  - simpl. split; [apply cgExtends_refl|]. split; [done|]. by intros a ?%elem_of_nil.
Qed.

Lemma reach_complete (g : AssetGraph) (d : Discovery) (r : Reachability)
    (entry : Asset * (nat * nat)) :
  reach g d = Ok r → entry ∈ bundleRoots d →
  reachedFrom (reachableRoots r) entry.1
    (enteredAssets (traverse g (isSplitPoint d) (Some entry.1))).
Proof.
  unfold reach. intros H Hentry.
  pose (P := λ (done : list (Asset * (nat * nat))) (r1 : Reachability),
          ∀ entry, entry ∈ done →
            reachedFrom (reachableRoots r1) entry.1
              (enteredAssets (traverse g (isSplitPoint d) (Some entry.1)))).
  assert (P (bundleRoots d) r) as Hall; [|by apply Hall].
  eapply (foldM_invariant_prefix P); [| |exact H].
  - intros pre x post s s' _ Hs Hx. apply reachFrom_complete in Hx as [Hext Hnew].
    intros e [He|He%list_elem_of_singleton]%elem_of_app; [|by subst e].
    eapply reachedFrom_later; [done|by apply Hs].
  - by intros e ?%elem_of_nil.
Qed.

Lemma mapM'_total {A B} (f : A → Result B) (l : list A) :
  (∀ x, x ∈ l → ∃ y, f x = Ok y) → ∃ l', mapM' f l = Ok l'.
Proof.
  induction l as [|x l IH]; intros Hf; simpl; [by eexists|].
  destruct (Hf x) as [y ->]; [by left|]. simpl.
  destruct IH as [l' ->]; [intros z Hz; apply Hf; by right|]. simpl. by eexists.
Qed.

(** After the second step, an asset that the traversal from a bundle root
    enters (the traversal stops at the dependencies that have a bundle) has
    this root among the bundle roots that [getReachableBundleRoots] returns
    for it, under the id of the root; and the call does not throw. *)
Theorem reachable_bundle_roots_complete (g : AssetGraph) (d : Discovery)
    (r : Reachability) (root a : Asset) :
  reach g d = Ok r →
  is_Some (jsmap_get (bundleRoots d) root) →
  a ∈ enteredAssets (traverse g (isSplitPoint d) (Some root)) → a ≠ root →
  ∃ l b, getReachableBundleRoots a (reachableRoots r) = Ok l ∧
         b ∈ l ∧ asset_id b = asset_id root.
Proof.
  intros Hreach [tuple Htuple%jsmap_get_Some] Ha Hne.
  destruct (reach_complete _ _ _ _ Hreach Htuple a Ha Hne) as (i & j & Hi & Hj & Hedge).
  destruct (reach_reachInv _ _ _ Hreach) as [Hkeys Hfrom].
  unfold getReachableBundleRoots, getNodeIdByContentKey. simpl in *. rewrite Hj. simpl.
  destruct (mapM'_total (λ i, nullthrows (cg_getNode (reachableRoots r) i) "graph.getNode")
              (cg_connectedTo (reachableRoots r) j)) as [l Hl].
  { intros k [label Hk]%elem_of_cg_connectedTo.
    destruct (Hfrom _ Hk) as (b & Hb & _). simpl in Hb. rewrite Hb. by eexists. }
  rewrite Hl. simpl.
  assert (i ∈ cg_connectedTo (reachableRoots r) j) as Hin.
  { apply elem_of_cg_connectedTo. by exists (). }
  apply list_elem_of_lookup in Hin as [k Hk].
  apply mapM'_Ok in Hl. destruct (Forall2_lookup_l _ _ _ _ _ Hl Hk) as (b & Hb & Hnode).
  exists l, b. split; [done|]. split; [by eapply list_elem_of_lookup_2|].
  apply lookupContentKey_Some in Hi as [x Hx].
  unfold cg_getNode in Hnode. rewrite Hx in Hnode. simpl in Hnode. injection Hnode as <-.
  apply Hkeys in Hx. by injection Hx.
Qed.

Lemma reachable_bundle_roots_complete_witness :
  ∃ d r,
    discover sharedWithSibling
             [(mkAsset "E1" "js" None 10, mkDependency "dE1" sync true None);
              (mkAsset "E2" "js" None 20, mkDependency "dE2" sync true None)] = Ok d ∧
    reach sharedWithSibling d = Ok r ∧
    ∃ l b, getReachableBundleRoots (mkAsset "A" "js" None 5000) (reachableRoots r) = Ok l ∧
           b ∈ l ∧ asset_id b = asset_id (mkAsset "L" "js" None 30).
Proof.
  do 2 eexists. split; [vm_compute; reflexivity|]. split; [vm_compute; reflexivity|].
  lazymatch goal with
  | |- ∃ l b, getReachableBundleRoots _ (reachableRoots ?r) = _ ∧ _ =>
      let discovered := eval vm_compute in
        (discover sharedWithSibling
           [(mkAsset "E1" "js" None 10, mkDependency "dE1" sync true None);
            (mkAsset "E2" "js" None 20, mkDependency "dE2" sync true None)]) in
      lazymatch discovered with
      | Ok ?d =>
          apply (reachable_bundle_roots_complete sharedWithSibling d r
                   (mkAsset "L" "js" None 30) (mkAsset "A" "js" None 5000))
      end
  end.
  - vm_compute; reflexivity.
  - vm_compute. by eexists.
  - apply (bool_decide_unpack _); vm_compute; exact I.
  - discriminate.
Defined.

(** ** Decoration *)

(** A loop throws when one of its iterations throws in every state that the
    loop can be in. *)
Lemma foldM_aborted_inv {A S} (Q : S → Prop) (f : S → A → Result S) (l : list A) (x : A) :
  x ∈ l → (∀ s y s', Q s → f s y = Ok s' → Q s') → (∀ s, Q s → aborted (f s x)) →
  ∀ s, Q s → aborted (foldM f l s).
Proof.
  intros Hx Hkeep Hf. induction l as [|y l IH]; intros s Hs; [by inversion Hx|].
  simpl. destruct (f s y) as [s'|e] eqn:Hy; [|by eexists]. simpl.
  apply elem_of_cons in Hx as [->|Hx].
  - destruct (Hf s Hs) as [e He]. congruence.
  - apply IH; [done|]. by eapply Hkeep.
Qed.

Lemma elem_of_nodeEntries {A} (g : Graph A) (i : nat) (x : A) :
  (i, x) ∈ nodeEntries g ↔ getNode g i = Some x.
Proof.
  unfold nodeEntries. rewrite list_elem_of_omap. split.
  - intros (j & _ & Hj). destruct (getNode g j) as [y|] eqn:Hy; [|done].
    simpl in Hj. by injection Hj as -> ->.
  - intros Hi. exists i. split; [|by rewrite Hi].
    apply elem_of_seq. apply getNode_lt in Hi. lia.
Qed.

Lemma NoDup_nodeEntries_keys {A} (g : Graph A) : NoDup (nodeEntries g).*1.
Proof.
  unfold nodeEntries. generalize (NoDup_seq 0 (length (nodes g))).
  induction (seq 0 (length (nodes g))) as [|i l IH]; intros Hnd; simpl; [constructor|].
  apply NoDup_cons in Hnd as [Hi Hnd].
  destruct (getNode g i) as [x|]; simpl; [|by apply IH].
  apply NoDup_cons. split; [|by apply IH].
  intros ([j y] & Heq & (k & Hk & Hy)%list_elem_of_omap)%list_elem_of_fmap.
  simpl in Heq. subst j. destruct (getNode g k); [|done]. simpl in Hy.
  injection Hy as -> _. done.
Qed.

Lemma callHost_spec (st : Decoration) (c : HostCall) :
  (callHost st c).1 = length (hostCalls st) ∧
  hostCalls (callHost st c).2 = hostCalls st ++ [c] ∧
  idealBundleToLegacyBundle (callHost st c).2 = idealBundleToLegacyBundle st ∧
  entryBundleToBundleGroup (callHost st c).2 = entryBundleToBundleGroup st.
Proof. done. Qed.

Lemma addAssetsToBundle_spec (st : Decoration) (l : list Asset) (bundle : nat) :
  hostCalls (addAssetsToBundle st l bundle)
  = hostCalls st ++ ((λ a, AddAssetToBundle a bundle) <$> l) ∧
  idealBundleToLegacyBundle (addAssetsToBundle st l bundle) = idealBundleToLegacyBundle st ∧
  entryBundleToBundleGroup (addAssetsToBundle st l bundle) = entryBundleToBundleGroup st.
Proof.
  unfold addAssetsToBundle. revert st. induction l as [|a l IH]; intros st.
  - simpl. by rewrite app_nil_r.
  - cbn [foldl]. destruct (IH (callHost st (AddAssetToBundle a bundle)).2) as (H1 & H2 & H3).
    rewrite H1, H2, H3. split; [|done]. simpl. by rewrite <- app_assoc.
Qed.

(** One iteration of the first loop: the calls it adds. *)
Lemma decorateBundle_spec (idealGraph : IdealGraph) (st st' : Decoration)
    (i : nat) (b : Bundle) :
  decorateBundle idealGraph st (i, b) = Ok st' →
  ∃ groups h after,
    Forall (λ c, isBundleCall c = false) groups ∧
    Forall (λ c, isBundleCall c = false) after ∧
    h = length (hostCalls st ++ groups) ∧
    hostCalls st'
    = hostCalls st ++ groups ++ [CreateBundle (legacyBundleOpts idealGraph i b)] ++ after
      ++ ((λ a, AddAssetToBundle a h) <$> bundle_assets b) ∧
    idealBundleToLegacyBundle st' = jsmap_set (idealBundleToLegacyBundle st) i h.
Proof.
  unfold decorateBundle, legacyBundleOpts. intros H. bind_inv H. destruct x as [h st1].
  injection H as <-.
  pose proof (addAssetsToBundle_spec
                {| hostCalls := hostCalls st1;
                   idealBundleToLegacyBundle := jsmap_set (idealBundleToLegacyBundle st1) i h;
                   entryBundleToBundleGroup := entryBundleToBundleGroup st1 |}
                (bundle_assets b) h) as (Hcalls & Hmap & _).
  rewrite Hcalls, Hmap. cbn [hostCalls idealBundleToLegacyBundle].
  destruct (decide (i ∈ ideal_bundleGroupBundleIds idealGraph)) as [Hgroup|Hgroup].
  - bind_inv E. rename x into dependencies.
    assert (∀ acc : option nat * Decoration,
              ∃ groups,
                Forall (λ c, isBundleCall c = false) groups ∧
                hostCalls (foldl (λ acc dependency,
                     let '(bundleGroup, st) :=
                       callHost acc.2 (CreateBundleGroup dependency (bundle_target b)) in
                     (Some bundleGroup, st)) acc dependencies).2
                = hostCalls acc.2 ++ groups ∧
                idealBundleToLegacyBundle (foldl (λ acc dependency,
                     let '(bundleGroup, st) :=
                       callHost acc.2 (CreateBundleGroup dependency (bundle_target b)) in
                     (Some bundleGroup, st)) acc dependencies).2
                = idealBundleToLegacyBundle acc.2) as Hgroups.
    { clear. induction dependencies as [|dep deps IH]; intros acc; simpl.
      - exists []. by rewrite app_nil_r.
      - destruct (IH (Some (length (hostCalls acc.2)),
                      (callHost acc.2 (CreateBundleGroup dep (bundle_target b))).2))
          as (groups & Hg & Hc & Hm).
        exists (CreateBundleGroup dep (bundle_target b) :: groups).
        split; [by constructor|]. simpl in *. rewrite Hc, Hm.
        by rewrite <- app_assoc. }
    destruct (Hgroups (None, st)) as (groups & Hg & Hc & Hm). simpl in Hc, Hm.
    destruct (foldl _ _ _) as [bundleGroup st2]. simpl in Hc, Hm.
    bind_inv E. injection E as <- <-. cbn [hostCalls idealBundleToLegacyBundle callHost snd].
    exists groups, (length (hostCalls st2)), [AddBundleToBundleGroup (length (hostCalls st2)) x].
    split; [done|]. split; [by repeat constructor|]. rewrite Hc, Hm.
    split; [done|]. split; [|done]. by rewrite <- !app_assoc.
  - destruct (bool_decide _); injection E as <- <-; simpl;
      exists [], (length (hostCalls st)), []; rewrite !app_nil_r;
      (split; [done|]); (split; [done|]); (split; [done|]); (split; [|done]);
      by rewrite <- !app_assoc.
Qed.

Lemma jsmap_set_fresh {K V} `{EqDecision K} (m : list (K * V)) (k : K) (v : V) :
  k ∉ m.*1 → jsmap_set m k v = m ++ [(k, v)].
Proof.
  induction m as [|[k' v'] m IH]; simpl; [done|].
  intros [Hne Hk]%not_elem_of_cons. rewrite decide_False by done. by rewrite IH.
Qed.

Lemma decorateBundle_decorated (idealGraph : IdealGraph) (done : list (nat * Bundle))
    (st st' : Decoration) (i : nat) (b : Bundle) :
  i ∉ done.*1 → decorated idealGraph done st →
  decorateBundle idealGraph st (i, b) = Ok st' →
  decorated idealGraph (done ++ [(i, b)]) st'.
Proof.
  intros Hi (Hmap & Hnd & Hmade & Hadded)
    (groups & h & after & Hgroups & Hafter & Hh & Hcalls & Hmap')%decorateBundle_spec.
  assert (i ∉ (idealBundleToLegacyBundle st).*1) as Hfresh.
  { intros ([k h'] & -> & Hin)%list_elem_of_fmap. by destruct (Hmap _ _ Hin). }
  assert (∀ i' b', (i', b') ∈ done → i' ≠ i) as Hother.
  { intros i' b' Hin ->. apply Hi. apply list_elem_of_fmap. by exists (i, b'). }
  rewrite length_app in Hh.
  split; [|split; [|split]].
  - intros k h' Hin. rewrite Hmap' in Hin. rewrite Hcalls, !length_app, fmap_app. simpl.
    apply elem_of_jsmap_set in Hin as [[= -> ->]|Hin].
    + split; [lia|]. apply elem_of_app. right. by left.
    + destruct (Hmap _ _ Hin). split; [lia|]. apply elem_of_app. by left.
  - rewrite Hmap', jsmap_set_fresh, fmap_app by done. simpl.
    apply NoDup_app. split; [done|]. split; [|apply NoDup_singleton].
    intros h' ([k h0] & Heq & Hin)%list_elem_of_fmap Hh'%list_elem_of_singleton.
    destruct (Hmap _ _ Hin). simpl in *. lia.
  - intros i' b' [Hin|Hin%list_elem_of_singleton]%elem_of_app.
    + destruct (Hmade _ _ Hin) as (h' & Hget & Hcall). exists h'.
      rewrite Hmap', jsmap_get_set_ne by (symmetry; by eapply Hother).
      split; [done|]. rewrite Hcalls. by apply lookup_app_l_Some.
    + injection Hin as -> ->. exists h. rewrite Hmap', jsmap_get_set_eq.
      split; [done|]. rewrite Hcalls, app_assoc, lookup_app_r by (rewrite length_app; lia).
      rewrite length_app. by replace (h - _) with 0 by lia.
  - intros a h'. rewrite Hcalls, !elem_of_app, Hadded. split.
    + intros [(i' & b' & Hin & Hget & Ha)|[Hin|[Hin|[Hin|Hin]]]].
      * exists i', b'. split; [apply elem_of_app; by left|].
        rewrite Hmap', jsmap_get_set_ne by (symmetry; by eapply Hother). done.
      * rewrite Forall_forall in Hgroups. by specialize (Hgroups _ Hin).
      * by apply list_elem_of_singleton in Hin.
      * rewrite Forall_forall in Hafter. by specialize (Hafter _ Hin).
      * apply list_elem_of_fmap in Hin as (a' & [= -> ->] & Ha).
        exists i, b. split; [apply elem_of_app; right; by left|].
        by rewrite Hmap', jsmap_get_set_eq.
    + intros (i' & b' & [Hin|Hin%list_elem_of_singleton]%elem_of_app & Hget & Ha).
      * left. exists i', b'. split; [done|]. split; [|done].
        rewrite Hmap', jsmap_get_set_ne in Hget by (symmetry; by eapply Hother). done.
      * injection Hin as -> ->. rewrite Hmap', jsmap_get_set_eq in Hget.
        injection Hget as <-. do 4 right. apply list_elem_of_fmap. by exists a.
Qed.

Lemma decorateBundles_decorated (idealGraph : IdealGraph) (st : Decoration) :
  foldM (decorateBundle idealGraph) (nodeEntries (ideal_bundleGraph idealGraph))
        {| hostCalls := []; idealBundleToLegacyBundle := [];
           entryBundleToBundleGroup := [] |} = Ok st →
  decorated idealGraph (nodeEntries (ideal_bundleGraph idealGraph)) st.
Proof.
  intros H.
  eapply (foldM_invariant_prefix (decorated idealGraph)); [| |exact H].
  - intros pre [i b] post s s' Heq Hs Hx. eapply decorateBundle_decorated; [|done|done].
    pose proof (NoDup_nodeEntries_keys (ideal_bundleGraph idealGraph)) as Hnd.
    rewrite Heq, fmap_app in Hnd. apply NoDup_app in Hnd as (_ & Hdisj & _).
    intros Hin. apply (Hdisj _ Hin). simpl. by left.
  - split; [by intros k h ?%elem_of_nil|]. split; [constructor|].
    split; [by intros i b ?%elem_of_nil|]. intros a h. split.
    + by intros ?%elem_of_nil.
    + by intros (i & b & ?%elem_of_nil & _).
Qed.

Lemma decoratedLater_refl (st : Decoration) : decoratedLater st st.
Proof. split; [done|]. exists []. by rewrite app_nil_r. Qed.

Lemma decoratedLater_trans (st1 st2 st3 : Decoration) :
  decoratedLater st1 st2 → decoratedLater st2 st3 → decoratedLater st1 st3.
Proof.
  intros [Hm1 (more1 & Hc1 & Hf1)] [Hm2 (more2 & Hc2 & Hf2)]. split; [congruence|].
  exists (more1 ++ more2). rewrite Hc2, Hc1, <- app_assoc. split; [done|].
  by apply Forall_app.
Qed.

Lemma decoratedLater_callHost (st : Decoration) (c : HostCall) :
  isBundleCall c = false → decoratedLater st (callHost st c).2.
Proof. intros Hc. split; [done|]. exists [c]. split; [done|]. by constructor. Qed.

Lemma foldM_decoratedLater {A} (f : Decoration → A → Result Decoration) (l : list A)
    (st st' : Decoration) :
  (∀ s x s', f s x = Ok s' → decoratedLater s s') →
  foldM f l st = Ok st' → decoratedLater st st'.
Proof.
  intros Hf. revert st. induction l as [|x l IH]; intros st H; simpl in H.
  - injection H as <-. apply decoratedLater_refl.
  - bind_inv H. eapply decoratedLater_trans; [by eapply Hf|by apply IH].
Qed.

Lemma foldl_decoratedLater {A} (f : Decoration → A → Decoration) (l : list A)
    (st : Decoration) :
  (∀ s x, decoratedLater s (f s x)) → decoratedLater st (foldl f st l).
Proof.
  intros Hf. revert st. induction l as [|x l IH]; intros st; simpl.
  - apply decoratedLater_refl.
  - eapply decoratedLater_trans; [apply Hf|apply IH].
Qed.

Section decoration_facts.
Variable getIncomingDependencies : string → list Dependency.
Variable hasDependency : nat → Dependency → bool.

Lemma internalizeDependencies_later (st st' : Decoration) (entry : nat * Bundle) :
  internalizeDependencies getIncomingDependencies hasDependency st entry = Ok st' →
  decoratedLater st st'.
Proof.
  unfold internalizeDependencies. intros H. bind_inv H. injection H as <-.
  apply foldl_decoratedLater. intros s internalized.
  apply foldl_decoratedLater. intros s' incomingDep.
  destruct (_ && _); [by apply decoratedLater_callHost|apply decoratedLater_refl].
Qed.

Lemma addSiblingsToGroup_later (idealGraph : IdealGraph) (st st' : Decoration)
    (entry : nat * nat) :
  addSiblingsToGroup idealGraph st entry = Ok st' → decoratedLater st st'.
Proof.
  unfold addSiblingsToGroup. destruct entry as [bundleId bundleGroup].
  intros H. bind_inv H. bind_inv H. eapply foldM_decoratedLater; [|exact H].
  intros s id s' Hs. bind_inv Hs. bind_inv Hs. injection Hs as <-.
  by apply decoratedLater_callHost.
Qed.

Lemma createAssetReferences_later (st st' : Decoration)
    (entry : Asset * list (Dependency * nat)) :
  createAssetReferences st entry = Ok st' → decoratedLater st st'.
Proof.
  unfold createAssetReferences. intros H. eapply foldM_decoratedLater; [|exact H].
  intros s reference s' Hs. bind_inv Hs. injection Hs as <-.
  by apply decoratedLater_callHost.
Qed.

Lemma decorateLegacyGraph_stages (idealGraph : IdealGraph) (calls : list HostCall) :
  decorateLegacyGraph getIncomingDependencies hasDependency idealGraph = Ok calls →
  ∃ st st',
    decorated idealGraph (nodeEntries (ideal_bundleGraph idealGraph)) st ∧
    decoratedLater st st' ∧ hostCalls st' = calls.
Proof.
  unfold decorateLegacyGraph. intros H. bind_inv H. bind_inv H. bind_inv H. bind_inv H.
  injection H as <-. exists x, x2. split; [by apply decorateBundles_decorated|].
  split; [|done].
  eapply decoratedLater_trans;
    [eapply foldM_decoratedLater; [|exact E0]; intros ? ? ?;
     apply internalizeDependencies_later|].
  eapply decoratedLater_trans;
    [eapply foldM_decoratedLater; [|exact E1]; intros ? ? ?;
     apply addSiblingsToGroup_later|].
  eapply foldM_decoratedLater; [|exact E2]. intros ? ? ?. apply createAssetReferences_later.
Qed.

(** When [decorateLegacyGraph] returns, every bundle of the plan has a
    legacy bundle of its own, made by a call of [createBundle] with the
    options of the bundle, and the calls of [addAssetToBundle] are exactly
    those that add an asset of a bundle of the plan to its legacy bundle. *)
Theorem decoration_adds_the_assets (idealGraph : IdealGraph) (calls : list HostCall) :
  decorateLegacyGraph getIncomingDependencies hasDependency idealGraph = Ok calls →
  ∃ legacy : list (nat * nat),
    NoDup legacy.*2 ∧
    (∀ i b, getNode (ideal_bundleGraph idealGraph) i = Some b →
       ∃ h, jsmap_get legacy i = Some h ∧
            calls !! h = Some (CreateBundle (legacyBundleOpts idealGraph i b))) ∧
    (∀ a h, AddAssetToBundle a h ∈ calls ↔
       ∃ i b, getNode (ideal_bundleGraph idealGraph) i = Some b ∧
              jsmap_get legacy i = Some h ∧ a ∈ bundle_assets b).
Proof.
  intros (st & st' & (Hmap & Hnd & Hmade & Hadded) & [Hlegacy (more & Hcalls & Hmore)] & <-)
    %decorateLegacyGraph_stages.
  exists (idealBundleToLegacyBundle st). split; [done|]. split.
  - intros i b Hb%elem_of_nodeEntries. destruct (Hmade _ _ Hb) as (h & Hget & Hcall).
    exists h. split; [done|]. rewrite Hcalls. by apply lookup_app_l_Some.
  - intros a h. rewrite Hcalls, elem_of_app, Hadded. split.
    + intros [(i & b & Hin & ?)|Hin].
      * exists i, b. by rewrite <- elem_of_nodeEntries.
      * rewrite Forall_forall in Hmore. by specialize (Hmore _ Hin).
    + intros (i & b & Hb & ?). left. exists i, b. by rewrite elem_of_nodeEntries.
Qed.

(** [assetReference] holds bundle objects.  When one of them is no longer
    in the bundle graph of the plan, it has no legacy bundle, and
    [decorateLegacyGraph] throws. *)
Theorem dangling_asset_reference_throws (idealGraph : IdealGraph) (asset : Asset)
    (references : list (Dependency * nat)) (dependency : Dependency) (bundleId : nat) :
  (asset, references) ∈ ideal_assetReference idealGraph →
  (dependency, bundleId) ∈ references →
  getNode (ideal_bundleGraph idealGraph) bundleId = None →
  aborted (decorateLegacyGraph getIncomingDependencies hasDependency idealGraph).
Proof.
  intros Hasset Href Hnone. unfold decorateLegacyGraph.
  destruct (foldM (decorateBundle idealGraph) _ _) as [st1|e] eqn:H1; [|by eexists].
  simpl. destruct (foldM _ _ st1) as [st2|e] eqn:H2; [|by eexists].
  simpl. destruct (foldM _ _ st2) as [st3|e] eqn:H3; [|by eexists].
  simpl. apply aborted_bind_l.
  assert (jsmap_get (idealBundleToLegacyBundle st3) bundleId = None) as Hst3.
  { apply decorateBundles_decorated in H1 as (Hmap & _).
    assert (decoratedLater st1 st3) as [-> _].
    { eapply decoratedLater_trans.
      - eapply foldM_decoratedLater; [|exact H2]. intros ? ? ?.
        apply internalizeDependencies_later.
      - eapply foldM_decoratedLater; [|exact H3]. intros ? ? ?.
        apply addSiblingsToGroup_later. }
    apply eq_None_not_Some. intros [h Hh%jsmap_get_Some].
    destruct (Hmap _ _ Hh) as [_ ([k b] & Hk & Hin)%list_elem_of_fmap].
    simpl in Hk. subst k. apply elem_of_nodeEntries in Hin. congruence. }
  pose (Q := λ st : Decoration, jsmap_get (idealBundleToLegacyBundle st) bundleId = None).
  apply (foldM_aborted_inv Q _ _ (asset, references)); [done| | |done].
  - intros s y s' Hs [Heq _]%createAssetReferences_later. unfold Q. by rewrite Heq.
  - intros s Hs. unfold createAssetReferences. cbn [fst snd].
    apply (foldM_aborted_inv Q _ _ (dependency, bundleId)); [done| | |done].
    + intros s1 y s2 Hs1 Hy. bind_inv Hy. injection Hy as <-. done.
    + intros s1 Hs1. unfold Q in Hs1. cbn [snd]. rewrite Hs1. by eexists.
Qed.
End decoration_facts.

Lemma decoration_adds_the_assets_witness :
  ∃ idealGraph calls,
    createIdealGraph (twoEntriesSharing 40000) http2 = Ok idealGraph ∧
    decorateLegacyGraph (λ _, []) (λ _ _, false) idealGraph = Ok calls ∧
    calls !! 6 = Some (CreateBundle (entryBundleOpts
                         {| bundle_assets := [mkAsset "E2" "js" None 20;
                                              mkAsset "S" "js" None 40000];
                            bundle_internalizedAssetIds := [];
                            bundle_bundleBehavior := None;
                            bundle_needsStableName := true;
                            bundle_size := 40020;
                            bundle_sourceBundles := [];
                            bundle_target := "main";
                            bundle_env := browser;
                            bundle_type := "js" |})) ∧
    ∃ legacy : list (nat * nat),
      NoDup legacy.*2 ∧
      (∀ i b, getNode (ideal_bundleGraph idealGraph) i = Some b →
         ∃ h, jsmap_get legacy i = Some h ∧
              calls !! h = Some (CreateBundle (legacyBundleOpts idealGraph i b))) ∧
      (∀ a h, AddAssetToBundle a h ∈ calls ↔
         ∃ i b, getNode (ideal_bundleGraph idealGraph) i = Some b ∧
                jsmap_get legacy i = Some h ∧ a ∈ bundle_assets b).
Proof.
  do 2 eexists. split; [vm_compute; reflexivity|]. split; [vm_compute; reflexivity|].
  split; [vm_compute; reflexivity|].
  eapply (decoration_adds_the_assets (λ _, []) (λ _ _, false)).
  vm_compute; reflexivity.
Defined.

Lemma dangling_asset_reference_throws_witness :
  ∃ idealGraph,
    createIdealGraph inlineChildOfEntry http2 = Ok idealGraph ∧
    aborted (decorateLegacyGraph (λ _, []) (λ _ _, false) idealGraph).
Proof.
  eexists. split; [vm_compute; reflexivity|].
  eapply (dangling_asset_reference_throws (λ _, []) (λ _ _, false) _
            (mkAsset "C" "js" (Some inline) 7)
            [(mkDependency "dC" sync false None, 1)]
            (mkDependency "dC" sync false None) 1).
  - apply (bool_decide_unpack _); vm_compute; exact I.
  - apply (bool_decide_unpack _); vm_compute; exact I.
  - vm_compute; reflexivity.
Defined.

(** ** The filter of the bundle roots that need an asset *)

Lemma filterM_sublist {A} (p : A → Result bool) (l l' : list A) :
  filterM p l = Ok l' → l' `sublist_of` l.
Proof.
  revert l'. induction l as [|x l IH]; intros l' H; simpl in H.
  - by injection H as <-.
  - bind_inv H. bind_inv H. injection H as <-. destruct x0.
    + apply sublist_skip. by apply IH.
    + apply sublist_cons. by apply IH.
Qed.

(** The bundle roots that step 3 keeps for an asset are some of those that
    [getReachableBundleRoots] returns, in their order; none of them has the
    asset among its available assets, and for none of them the group of its
    bundle counts the asset twice. *)
Theorem filtered_roots_need_the_asset (d : Discovery) (r : Reachability)
    (av : Availability) (s : BundleStore) (asset b : Asset) (l : list Asset) :
  filteredReachable d r av s asset = Ok l → b ∈ l →
  (∃ reachable, getReachableBundleRoots asset (reachableRoots r) = Ok reachable ∧
                l `sublist_of` reachable) ∧
  (∀ available, ancestorAssetsOf av b = Some available → asset ∉ available) ∧
  (∀ groupRoot, groupRootAsset d s b = Ok (Some groupRoot) →
     defaultmap_peek 0 (assetRefsInBundleGroup av) (groupRoot, b, asset) ≤ 1).
Proof.
  unfold filteredReachable. intros H Hb. bind_inv H. rename x into reachable.
  split; [exists reachable; split; [done|by eapply filterM_sublist]|].
  destruct (filterM_Ok_elem_of _ _ _ _ H Hb) as [_ Hkeep].
  unfold keepReachable in Hkeep. bind_inv Hkeep.
  destruct (ancestorAssetsOf av b) as [available|] eqn:Hav.
  - unfold jsset_has in Hkeep.
    destruct (bool_decide (asset ∈ available)) eqn:Hin; simpl in Hkeep; [done|].
    apply bool_decide_eq_false in Hin. split; [by intros ? [= <-]|].
    intros groupRoot Hgroup. rewrite Hgroup in E0. injection E0 as <-.
    injection Hkeep as Hkeep. apply negb_true_iff, bool_decide_eq_false in Hkeep. lia.
  - split; [done|]. simpl in Hkeep.
    intros groupRoot Hgroup. rewrite Hgroup in E0. injection E0 as <-.
    injection Hkeep as Hkeep. apply negb_true_iff, bool_decide_eq_false in Hkeep. lia.
Qed.

Lemma filtered_roots_need_the_asset_witness :
  ∃ d r av,
    discover sharedWithSibling
             [(mkAsset "E1" "js" None 10, mkDependency "dE1" sync true None);
              (mkAsset "E2" "js" None 20, mkDependency "dE2" sync true None)] = Ok d ∧
    reach sharedWithSibling d = Ok r ∧
    availability d r = Ok av ∧
    filteredReachable d r av (store d) (mkAsset "A" "js" None 5000)
      = Ok [mkAsset "E1" "js" None 10; mkAsset "L" "js" None 30] ∧
    (∃ reachable,
       getReachableBundleRoots (mkAsset "A" "js" None 5000) (reachableRoots r)
         = Ok reachable ∧
       [mkAsset "E1" "js" None 10; mkAsset "L" "js" None 30] `sublist_of` reachable) ∧
    (∀ available, ancestorAssetsOf av (mkAsset "L" "js" None 30) = Some available →
       mkAsset "A" "js" None 5000 ∉ available) ∧
    (∀ groupRoot, groupRootAsset d (store d) (mkAsset "L" "js" None 30) = Ok (Some groupRoot) →
       defaultmap_peek 0 (assetRefsInBundleGroup av)
         (groupRoot, mkAsset "L" "js" None 30, mkAsset "A" "js" None 5000) ≤ 1).
Proof.
  do 3 eexists. split; [vm_compute; reflexivity|]. split; [vm_compute; reflexivity|].
  split; [vm_compute; reflexivity|]. split; [vm_compute; reflexivity|].
  lazymatch goal with
  | |- (∃ reachable, getReachableBundleRoots _ (reachableRoots ?r) = _ ∧ _) ∧
       (∀ available, ancestorAssetsOf ?av _ = _ → _) ∧
       (∀ groupRoot, groupRootAsset ?d _ _ = _ → _) =>
      apply (filtered_roots_need_the_asset d r av (store d) (mkAsset "A" "js" None 5000)
               (mkAsset "L" "js" None 30)
               [mkAsset "E1" "js" None 10; mkAsset "L" "js" None 30])
  end.
  - vm_compute; reflexivity.
  - apply (bool_decide_unpack _); vm_compute; exact I.
Defined.

(** ** The placement of a bundle root *)

Lemma joinGroups_spec (d : Discovery) (asset : Asset) (to : nat) (reachable : list Asset)
    (bg bg' : Graph Bundle) :
  foldM (λ bg reachableAsset,
           if decide (reachableAsset ≠ asset) then
             tuple ← nullthrows (jsmap_get (bundleRoots d) reachableAsset)
                                "bundleRoots.get(reachableAsset)";
             Ok (addEdge bg tuple.2 to)
           else Ok bg) reachable bg = Ok bg' →
  (∀ e, e ∈ edges bg → e ∈ edges bg') ∧
  ∀ reacher, reacher ∈ reachable → reacher ≠ asset →
    ∃ tuple, jsmap_get (bundleRoots d) reacher = Some tuple ∧ (tuple.2, to) ∈ edges bg'.
Proof.
  revert bg. induction reachable as [|x l IH]; intros bg H; simpl in H.
  - injection H as <-. split; [done|]. by intros ? ?%elem_of_nil.
  - bind_inv H. apply IH in H as [Hkeep Hnew].
    destruct (decide (x ≠ asset)) as [Hne|Heq].
    + bind_inv E. injection E as <-.
      destruct (jsmap_get (bundleRoots d) x) as [tuple|] eqn:Hx; [|done].
      injection E0 as <-. split.
      * intros e He. apply Hkeep, elem_of_edges_addEdge. by right.
      * intros reacher [->|Hin]%elem_of_cons Hreacher; [|by apply Hnew].
        exists tuple. split; [done|]. apply Hkeep, elem_of_edges_addEdge. by left.
    + injection E as <-. split; [done|].
      intros reacher [->|Hin]%elem_of_cons Hreacher; [|by apply Hnew].
      by destruct Heq.
Qed.

Lemma internalize_spec (bundlesMap : gmap string nat) (asset : Asset) (roots : list Asset)
    (bg bg' : Graph Bundle) :
  foldM (λ bg bundleRoot,
           if decide (bundleRoot ≠ asset) then
             bundleId ← nullthrows (bundlesMap !! asset_id bundleRoot)
                                   "bundles.get(bundleRoot.id)";
             _ ← nullthrows (getNode bg bundleId) "bundle";
             Ok (updateNode bg bundleId (pushInternalized (asset_id asset)))
           else Ok bg) roots bg = Ok bg' →
  edges bg' = edges bg ∧
  (∀ i b, getNode bg i = Some b →
     ∃ b', getNode bg' i = Some b' ∧
           ∀ id, id ∈ bundle_internalizedAssetIds b → id ∈ bundle_internalizedAssetIds b') ∧
  ∀ bundleRoot, bundleRoot ∈ roots → bundleRoot ≠ asset →
    ∃ i b', bundlesMap !! asset_id bundleRoot = Some i ∧ getNode bg' i = Some b' ∧
            asset_id asset ∈ bundle_internalizedAssetIds b'.
Proof.
  revert bg. induction roots as [|x l IH]; intros bg H; simpl in H.
  - injection H as <-. split; [done|]. split; [|by intros ? ?%elem_of_nil].
    intros i b Hb. by exists b.
  - bind_inv H. apply IH in H as (Hedges & Hkeep & Hnew).
    destruct (decide (x ≠ asset)) as [Hne|Heq].
    + bind_inv E. bind_inv E. injection E as <-.
      destruct (bundlesMap !! asset_id x) as [i|] eqn:Hi; [|done]. injection E0 as <-.
      destruct (getNode bg i) as [b|] eqn:Hb; [|done]. injection E1 as <-.
      assert (getNode (updateNode bg i (pushInternalized (asset_id asset))) i
              = Some (pushInternalized (asset_id asset) b)) as Hupd.
      { by rewrite getNode_updateNode, decide_True, Hb. }
      split; [by rewrite Hedges, edges_updateNode|]. split.
      * intros j bj Hbj. destruct (decide (j = i)) as [->|Hji].
        -- destruct (Hkeep _ _ Hupd) as (b' & Hb' & Hids). exists b'. split; [done|].
           intros id Hid. apply Hids. simpl. apply elem_of_app. left. congruence.
        -- apply Hkeep. by rewrite getNode_updateNode, decide_False.
      * intros bundleRoot [->|Hin]%elem_of_cons Hroot; [|by apply Hnew].
        destruct (Hkeep _ _ Hupd) as (b' & Hb' & Hids). exists i, b'.
        split; [done|]. split; [done|]. apply Hids. simpl. apply elem_of_app. right. by left.
    + injection E as <-. split; [done|]. split; [done|].
      intros bundleRoot [->|Hin]%elem_of_cons Hroot; [|by apply Hnew].
      by destruct Heq.
Qed.

(** The placement of a bundle root: its bundle joins the bundle group of
    every other root that still needs it (an edge from the bundle that leads
    the group), and every other root that loads it asynchronously and that
    has it at hand, because a root that needs it synchronously is this root
    or reaches this root, gets its id among its internalized assets. *)
Theorem root_joins_groups_and_is_internalized (d : Discovery) (r : Reachability)
    (s s' : BundleStore) (asset : Asset) (rootBundle : nat * nat) (reachable : list Asset) :
  placeRoot d r s asset rootBundle reachable = Ok s' →
  (∀ reacher, reacher ∈ reachable → reacher ≠ asset →
     ∃ tuple, jsmap_get (bundleRoots d) reacher = Some tuple ∧
              (tuple.2, rootBundle.1) ∈ edges (bundleGraph s')) ∧
  (∀ b a allReachable,
     b ∈ defaultmap_peek [] (reachableAsyncRoots r) rootBundle.1 → b ≠ asset →
     getReachableBundleRoots asset (reachableRoots r) = Ok allReachable →
     a ∈ allReachable → a = b ∨ b ∈ defaultmap_peek [] (reachableBundles d) a →
     ∃ i bundle, bundles s' !! asset_id b = Some i ∧
                 getNode (bundleGraph s') i = Some bundle ∧
                 asset_id asset ∈ bundle_internalizedAssetIds bundle).
Proof.
  unfold placeRoot. intros H. bind_inv H. bind_inv H. bind_inv H. injection H as <-.
  cbn [bundles bundleGraph].
  apply joinGroups_spec in E as [_ Hjoined].
  apply internalize_spec in E1 as (Hedges & _ & Hinternalized).
  split.
  - intros reacher Hin Hne. destruct (Hjoined reacher Hin Hne) as (tuple & Htuple & He).
    exists tuple. by rewrite Hedges.
  - intros b a allReachable Hb Hne Hall Ha Hreach. rewrite E0 in Hall. injection Hall as <-.
    apply Hinternalized; [|done]. apply list_elem_of_filter. split.
    + rewrite Forall_forall. intros Hnone. by apply (Hnone a Ha).
    + unfold jsmap_has. unfold defaultmap_peek in *.
      destruct (jsmap_get (reachableAsyncRoots r) rootBundle.1) as [roots|] eqn:Hroots.
      * by rewrite bool_decide_eq_true_2 by (by eexists).
      * by apply elem_of_nil in Hb.
Qed.

Lemma root_joins_groups_and_is_internalized_witness :
  let E := mkAsset "E" "js" None 10 in
  let X := mkAsset "X" "js" None 30 in
  ∃ d r s',
    discover syncAndLazyImport [(E, mkDependency "dE" sync true None)] = Ok d ∧
    reach syncAndLazyImport d = Ok r ∧
    placeRoot d r (store d) X (1, 1) [E] = Ok s' ∧
    (∀ reacher, reacher ∈ [E] → reacher ≠ X →
       ∃ tuple, jsmap_get (bundleRoots d) reacher = Some tuple ∧
                (tuple.2, 1) ∈ edges (bundleGraph s')) ∧
    (∀ b a allReachable,
       b ∈ defaultmap_peek [] (reachableAsyncRoots r) 1 → b ≠ X →
       getReachableBundleRoots X (reachableRoots r) = Ok allReachable →
       a ∈ allReachable → a = b ∨ b ∈ defaultmap_peek [] (reachableBundles d) a →
       ∃ i bundle, bundles s' !! asset_id b = Some i ∧
                   getNode (bundleGraph s') i = Some bundle ∧
                   asset_id X ∈ bundle_internalizedAssetIds bundle).
Proof.
  intros E X. do 3 eexists. split; [vm_compute; reflexivity|].
  split; [vm_compute; reflexivity|]. split; [vm_compute; reflexivity|].
  lazymatch goal with
  | |- (∀ reacher, _ → _ → ∃ tuple, jsmap_get (bundleRoots ?d) _ = _ ∧ _) ∧
       (∀ b a allReachable, b ∈ defaultmap_peek [] (reachableAsyncRoots ?r) _ → _) =>
      apply (root_joins_groups_and_is_internalized d r (store d) _ X (1, 1) [E])
  end.
  vm_compute; reflexivity.
Defined.

(** ** The placement of an asset that is no bundle root does not throw *)

Lemma bundlesPresent_new (s : BundleStore) (key : string)
    (bm : gmap string nat) (bg : Graph Bundle) :
  bundlesPresent s →
  bm = <[key := length (nodes (bundleGraph s))]> (bundles s) →
  length (nodes bg) = S (length (nodes (bundleGraph s))) →
  ∀ dbg, bundlesPresent {| bundles := bm; bundleGraph := bg; dependencyBundleGraph := dbg |}.
Proof.
  intros Hs -> Hlen dbg key' i. simpl. rewrite Hlen.
  destruct (decide (key = key')) as [->|Hne].
  - rewrite lookup_insert_eq. intros [= <-]. lia.
  - rewrite lookup_insert_ne by done. intros Hi. specialize (Hs _ _ Hi). lia.
Qed.

Lemma createEntryBundle_bundlesPresent (st st' : Discovery) (entry : Asset * Dependency) :
  bundlesPresent (store st) → createEntryBundle st entry = Ok st' →
  bundlesPresent (store st').
Proof.
  intros Hst. unfold createEntryBundle. destruct entry as [asset dependency].
  intros H. bind_inv H. bind_inv H.
  destruct (addNode _ _) as [nodeId bg] eqn:Hadd.
  bind_inv H. destruct (addNodeByContentKey _ _ _) as [entryNodeId abg].
  injection H as <-. cbn [store]. injection Hadd as <- <-.
  eapply bundlesPresent_new; [done|done|]. simpl. rewrite length_app. simpl. lia.
Qed.

Lemma splitAsync_bundlesPresent (st st' : Discovery) (dependency : Dependency)
    (childAsset : Asset) :
  bundlesPresent (store st) → splitAsync st dependency childAsset = Ok st' →
  bundlesPresent (store st').
Proof.
  intros Hst. unfold splitAsync. intros H. bind_inv H.
  destruct x as [[[[bundleId bg] bundlesMap] roots] groupIds].
  destruct (markReachable _ _ _ _) as [rb abg]. injection H as <-. cbn [store].
  destruct (bundles (store st) !! asset_id childAsset) as [existing|] eqn:Hlook.
  - bind_inv E. injection E as <- <- <- <- <-. exact Hst.
  - bind_inv E. bind_inv E. bind_inv E.
    destruct (addNode _ _) as [newId bg'] eqn:Hadd.
    injection E as <- <- <- <- <-. injection Hadd as <- <-.
    eapply bundlesPresent_new; [done|done|]. simpl. rewrite length_app. simpl. lia.
Qed.

Lemma splitTypeChange_bundlesPresent (st st' : Discovery) (dependency : Dependency)
    (childAsset : Asset) :
  bundlesPresent (store st) → splitTypeChange st dependency childAsset = Ok st' →
  bundlesPresent (store st').
Proof.
  intros Hst. unfold splitTypeChange. intros H. bind_inv H. bind_inv H. bind_inv H.
  destruct (addNode _ _) as [newId bg'] eqn:Hadd. injection H as <-. cbn [store].
  injection Hadd as <- <-.
  eapply bundlesPresent_new; [done|done|]. rewrite nodes_addEdge. simpl.
  rewrite length_app. simpl. lia.
Qed.

Lemma splitVisitor_bundlesPresent (g : AssetGraph) (st st' : Discovery) (ev : Event) :
  bundlesPresent (store st) → splitVisitor g st ev = Ok st' → bundlesPresent (store st').
Proof.
  intros Hst. destruct ev as [[a|dependency] ctx|n]; simpl.
  - by intros [= <-].
  - destruct ctx as [[parentAsset|?]|]; [|done|by intros [= <-]].
    destruct (getDependencyAssets g dependency) as [|childAsset [|? ?]];
      [by intros [= <-]| |done].
    destruct (_ || _); [by apply splitAsync_bundlesPresent|].
    destruct (_ || _); [by apply splitTypeChange_bundlesPresent|].
    by intros [= <-].
  - destruct (last (stack st)) as [[top ?]|]; [|by intros [= <-]].
    destruct (decide _); by intros [= <-].
Qed.

Lemma discover_bundlesPresent (g : AssetGraph) (entries : list (Asset * Dependency))
    (d : Discovery) :
  discover g entries = Ok d → bundlesPresent (store d).
Proof.
  unfold discover. intros H. bind_inv H.
  eapply (foldM_invariant (λ st, bundlesPresent (store st))); [| |exact H].
  - intros s ev s' _. apply splitVisitor_bundlesPresent.
  - eapply (foldM_invariant (λ st, bundlesPresent (store st))); [| |exact E].
    + intros s e s' _. apply createEntryBundle_bundlesPresent.
    + by intros key i.
Qed.

Lemma placeRoot_bundles (d : Discovery) (r : Reachability) (s s' : BundleStore)
    (asset : Asset) (rootBundle : nat * nat) (reachable : list Asset) :
  placeRoot d r s asset rootBundle reachable = Ok s' →
  bundles s' = match bundles s !! asset_id asset with
               | Some _ => bundles s
               | None => <[asset_id asset := rootBundle.1]> (bundles s)
               end.
Proof.
  unfold placeRoot. intros H. bind_inv H. bind_inv H. bind_inv H. by injection H as <-.
Qed.

Lemma placeAsset_bundlesPresent (d : Discovery) (r : Reachability) (av : Availability)
    (s s' : BundleStore) (asset : Asset) :
  (∀ root tuple, (root, tuple) ∈ bundleRoots d →
     tuple.1 < length (nodes (bundleGraph s))) →
  bundlesPresent s → placeAsset d r av s asset = Ok s' → bundlesPresent s'.
Proof.
  intros Hroots Hs (l & Hl & H)%placeAsset_cases.
  destruct (jsmap_get (bundleRoots d) asset) as [rootBundle|] eqn:Hroot.
  - pose proof (placeRoot_bundles _ _ _ _ _ _ _ H) as Hbm.
    apply placeRoot_spec in H as (_ & _ & Hlen & _).
    intros key i. rewrite Hbm, Hlen.
    destruct (bundles s !! asset_id asset); [apply Hs|].
    destruct (decide (asset_id asset = key)) as [->|Hne].
    + rewrite lookup_insert_eq. intros [= <-].
      apply jsmap_get_Some in Hroot. by apply Hroots in Hroot.
    + rewrite lookup_insert_ne by done. apply Hs.
  - destruct H as [[_ ->]|[_ H]]; [done|].
    apply placeShared_spec in H as (i & b0 & srcs & _ & _ & _ & _ & Hcase).
    destruct Hcase as [(_ & Hbm & Hlen)|(-> & _ & Hbm & Hlen & _)]; intros key j.
    + rewrite Hbm, Hlen. apply Hs.
    + rewrite Hbm, Hlen. destruct (decide (sharedBundleKey l = key)) as [->|Hne].
      * rewrite lookup_insert_eq. intros [= <-]. lia.
      * rewrite lookup_insert_ne by done. intros Hj. specialize (Hs _ _ Hj). lia.
Qed.

Lemma placeAssets_ready (g : AssetGraph) (entries : list (Asset * Dependency))
    (d : Discovery) (r : Reachability) (av : Availability) (l : list Asset)
    (s : BundleStore) :
  discover g entries = Ok d → reach g d = Ok r →
  placeAssets d r av l (store d) = Ok s →
  placementInv d (length (nodes (bundleGraph (store d)))) s ∧ bundlesPresent s.
Proof.
  intros Hd Hr H. pose proof (reach_reachersAreRoots _ _ _ Hr) as Hreach.
  pose proof (discover_discovered _ _ _ Hd) as Hdisc.
  unfold placeAssets in H.
  eapply (foldM_invariant
            (λ s, placementInv d (length (nodes (bundleGraph (store d)))) s ∧
                  bundlesPresent s)); [| |exact H].
  - intros s1 x s2 _ [Hinv Hpresent] Hx. split; [by eapply placeAsset_inv|].
    eapply placeAsset_bundlesPresent; [|done|done].
    intros root tuple Hin. destruct Hdisc as (_ & _ & Hroots).
    destruct (Hroots _ _ Hin) as [Hlt _]. destruct Hinv as (_ & Hn & _). lia.
  - split; [by apply discovered_placementInv|by eapply discover_bundlesPresent].
Qed.

(** In the third step, the placement of an asset that is no bundle root
    does not throw once the bundle roots that need it are known: [bundles]
    has a bundle for every one of them, the first source bundle is in
    [bundleGraph], and the bundle found under the key of these roots is
    there too. *)
Theorem placing_a_shared_asset_never_throws (g : AssetGraph)
    (entries : list (Asset * Dependency)) (d : Discovery) (r : Reachability)
    (av : Availability) (l : list Asset) (s : BundleStore) (asset : Asset)
    (reachable : list Asset) :
  discover g entries = Ok d → reach g d = Ok r →
  placeAssets d r av l (store d) = Ok s →
  jsmap_get (bundleRoots d) asset = None →
  filteredReachable d r av s asset = Ok reachable →
  ∃ s', placeAsset d r av s asset = Ok s'.
Proof.
  intros Hd Hr Hs Hroot Hl.
  destruct (placeAssets_ready _ _ _ _ _ _ _ Hd Hr Hs) as [(Hws & Hn & Hpresent & Hroots) Hbm].
  pose proof (reach_reachersAreRoots _ _ _ Hr) as Hreach.
  unfold placeAsset. rewrite Hl, Hroot. simpl.
  destruct reachable as [|b0 rest] eqn:Hreachable; [by eexists|]. rewrite <- Hreachable in *.
  unfold placeShared.
  destruct (mapM'_total (λ a, nullthrows (bundles s !! asset_id a) "bundles.get(a.id)")
              reachable) as [srcs Hsrcs].
  { intros a Ha. destruct (Hroots (asset_id a)) as (i & Hi & _).
    - by eapply filteredReachable_roots.
    - rewrite Hi. by eexists. }
  rewrite Hsrcs. simpl.
  destruct (bundles s !! sharedBundleKey reachable) as [bundleId|] eqn:Hkey.
  - destruct (Hpresent bundleId) as [b Hb]; [by eapply Hbm|]. rewrite Hb. simpl.
    by eexists.
  - apply mapM'_Ok in Hsrcs. rewrite Hreachable in Hsrcs.
    apply Forall2_cons_inv_l in Hsrcs as (i0 & srcs' & Hi0 & _ & ->).
    destruct (Hroots (asset_id b0)) as (i & Hi & Hlt).
    { eapply filteredReachable_roots; [done|done|]. rewrite Hreachable. by left. }
    rewrite Hi in Hi0. injection Hi0 as <-. simpl.
    destruct (Hpresent i) as [first Hfirst]; [lia|]. rewrite Hfirst. simpl.
    by eexists.
Qed.

Lemma placing_a_shared_asset_never_throws_witness :
  ∃ d r av s,
    discover sharedWithSibling
             [(mkAsset "E1" "js" None 10, mkDependency "dE1" sync true None);
              (mkAsset "E2" "js" None 20, mkDependency "dE2" sync true None)] = Ok d ∧
    reach sharedWithSibling d = Ok r ∧
    availability d r = Ok av ∧
    placeAssets d r av [mkAsset "E1" "js" None 10] (store d) = Ok s ∧
    ∃ s', placeAsset d r av s (mkAsset "A" "js" None 5000) = Ok s'.
Proof.
  do 4 eexists. split; [vm_compute; reflexivity|]. split; [vm_compute; reflexivity|].
  split; [vm_compute; reflexivity|]. split; [vm_compute; reflexivity|].
  lazymatch goal with
  | |- ∃ s', placeAsset ?d ?r ?av ?s _ = _ =>
      apply (placing_a_shared_asset_never_throws sharedWithSibling
               [(mkAsset "E1" "js" None 10, mkDependency "dE1" sync true None);
                (mkAsset "E2" "js" None 20, mkDependency "dE2" sync true None)]
               d r av [mkAsset "E1" "js" None 10] s (mkAsset "A" "js" None 5000)
               [mkAsset "E1" "js" None 10; mkAsset "L" "js" None 30])
  end.
  - vm_compute; reflexivity.
  - vm_compute; reflexivity.
  - vm_compute; reflexivity.
  - vm_compute; reflexivity.
  - vm_compute; reflexivity.
Defined.

(** ** What a child gets when it is seen for the first time *)

Lemma shareWithGroup_sets (d : Discovery) (availableRef : nat)
    (acc acc' : Availability * option Asset) (bundleIdInGroup : nat) :
  shareWithGroup d availableRef acc bundleIdInGroup = Ok acc' →
  assetSets acc.1 `prefix_of` assetSets acc'.1.
Proof.
  unfold shareWithGroup. destruct acc as [av cur]. intros H. bind_inv H. bind_inv H.
  destruct (jsmap_get _ _); [|by injection H as <-].
  destruct (bool_decide _); [done|]. injection H as <-. simpl. by apply prefix_app_r.
Qed.

Lemma shareWithGroups_sets (d : Discovery) (availableRef : nat) (group : list nat)
    (acc acc' : Availability * option Asset) :
  foldM (shareWithGroup d availableRef) group acc = Ok acc' →
  assetSets acc.1 `prefix_of` assetSets acc'.1.
Proof.
  revert acc. induction group as [|i group IH]; intros acc H; simpl in H.
  - by injection H as <-.
  - bind_inv H. etrans; [by eapply shareWithGroup_sets|by apply IH].
Qed.

Lemma derefSet_prefix (av av' : Availability) (ref : nat) :
  assetSets av `prefix_of` assetSets av' → ref < length (assetSets av) →
  derefSet av' ref = derefSet av ref.
Proof.
  intros [more Hmore] Hlt. unfold derefSet. rewrite Hmore. by rewrite lookup_app_l.
Qed.

Lemma combinedAt_spec (d : Discovery) (r : Reachability) (av av1 : Availability)
    (bundleRoot : Asset) (combinedRef : nat) (syncAssetsLoaded : list Asset) :
  refsValid av →
  assetsConnectedFrom (reachableRoots r) (asset_id bundleRoot) = Ok syncAssetsLoaded →
  combinedAt d r av bundleRoot = Ok (combinedRef, av1) →
  derefSet av1 combinedRef
  = match ancestorAssetsOf av bundleRoot with
    | Some ancestors => setUnion ancestors syncAssetsLoaded
    | None => jsset_of syncAssetsLoaded
    end.
Proof.
  intros Hvalid Hsync. unfold combinedAt. rewrite Hsync. simpl. intros H.
  bind_inv H. bind_inv H. rename x0 into sc.
  bind_inv H. destruct x0 as [av3 cur]. injection H as <- <-.
  apply shareWithGroups_sets in E1. simpl in E1.
  assert (assetSets av `prefix_of` assetSets av3) as Hprefix.
  { etrans; [|exact E1]. by apply prefix_app_r. }
  unfold derefSet at 1. simpl. rewrite lookup_app_r, Nat.sub_diag by done. simpl.
  unfold ancestorAssetsOf.
  destruct (jsmap_get (ancestorAssets av) bundleRoot) as [ref|] eqn:Href; simpl; [|done].
  rewrite (derefSet_prefix av av3); [done|done|].
  apply jsmap_get_Some in Href. by eapply Hvalid.
Qed.

Lemma filter_all {A} (P : A → Prop) `{∀ x, Decision (P x)} (l : list A) :
  (∀ x, x ∈ l → P x) → filter P l = l.
Proof.
  induction l as [|x l IH]; intros Hl; [done|].
  rewrite filter_cons_True by (apply Hl; by left). f_equal.
  apply IH. intros y Hy. apply Hl. by right.
Qed.

Lemma setIntersect_self {K} `{EqDecision K} (a : list K) : setIntersect a a = a.
Proof. unfold setIntersect. by apply filter_all. Qed.

Lemma propagateToChild_combined (d : Discovery) (combinedRef : nat) (av av' : Availability)
    (childId : nat) :
  propagateToChild d combinedRef av childId = Ok av' →
  derefSet av' combinedRef = derefSet av combinedRef.
Proof.
  unfold propagateToChild.
  destruct (cg_getNode _ _) as [[|child]|]; [done| |done].
  destruct (jsmap_get (ancestorAssets av) child) as [ref|]; intros [= <-]; [|done].
  unfold derefSet, intersectInPlace. simpl.
  destruct (decide (ref = combinedRef)) as [->|Hne].
  - destruct (assetSets av !! combinedRef) as [x|] eqn:Hx.
    + rewrite list_lookup_insert_eq by (apply (lookup_lt_Some _ _ _ Hx)). simpl.
      rewrite setIntersect_self. unfold derefSet. by rewrite Hx.
    + rewrite list_insert_ge by (by apply lookup_ge_None). by rewrite Hx.
  - by rewrite list_lookup_insert_ne.
Qed.

Lemma propagate_combined (d : Discovery) (combinedRef : nat) (children : list nat)
    (av av' : Availability) :
  foldM (propagateToChild d combinedRef) children av = Ok av' →
  derefSet av' combinedRef = derefSet av combinedRef.
Proof.
  revert av. induction children as [|c children IH]; intros av H; simpl in H.
  - by injection H as <-.
  - bind_inv H. rewrite (IH _ H). by eapply propagateToChild_combined.
Qed.

(** The body of the loop over the sorted bundle roots, for the root
    [bundleRoot]: a child that has no available assets when the loop over the
    children starts gets the assets available at [bundleRoot] before the
    iteration, together with the assets that [bundleRoot] loads
    synchronously. *)
Theorem first_child_gets_combined (d : Discovery) (r : Reachability)
    (av av1 av' : Availability) (bundleRoot child : Asset) (combinedRef : nat)
    (children : list nat) (childId : nat) (syncAssetsLoaded : list Asset) :
  refsValid av →
  assetsConnectedFrom (reachableRoots r) (asset_id bundleRoot) = Ok syncAssetsLoaded →
  combinedAt d r av bundleRoot = Ok (combinedRef, av1) →
  foldM (propagateToChild d combinedRef) children av1 = Ok av' →
  childId ∈ children →
  cg_getNode (asyncBundleRootGraph d) childId = Some (BundleRootNode child) →
  jsmap_get (ancestorAssets av1) child = None →
  ∃ available,
    ancestorAssetsOf av' child = Some available ∧
    ∀ a, a ∈ available ↔
         (∃ ancestors, ancestorAssetsOf av bundleRoot = Some ancestors ∧ a ∈ ancestors)
         ∨ a ∈ syncAssetsLoaded.
Proof.
  intros Hvalid Hsync Hcombined Hloop Hin Hchild Hnone.
  pose proof (combinedAt_spec _ _ _ _ _ _ _ Hvalid Hsync Hcombined) as Hset.
  pose proof (propagate_combined _ _ _ _ _ Hloop) as Hkept.
  apply propagate_refs in Hloop as (_ & Hkeep & Hnew).
  destruct (Hnew _ _ Hin Hchild) as [ref Href].
  destruct (Hkeep child) as [Heq|[_ Heq]]; [congruence|].
  exists (derefSet av' combinedRef). split; [unfold ancestorAssetsOf; by rewrite Heq|].
  intros a. rewrite Hkept, Hset.
  destruct (ancestorAssetsOf av bundleRoot) as [ancestors|].
  - rewrite elem_of_setUnion. split.
    + intros [Ha|Ha]; [left; by exists ancestors|by right].
    + intros [(? & [= <-] & Ha)|Ha]; [by left|by right].
  - rewrite elem_of_jsset_of. split; [by right|]. by intros [(? & ? & _)|?].
Qed.

Lemma first_child_gets_combined_witness :
  let E := mkAsset "E" "js" None 10 in
  let U := mkAsset "U" "js" None 1 in
  let L := mkAsset "L" "js" None 30 in
  ∃ d r combinedRef av1 av',
    discover lazyChildSharingImport [(E, mkDependency "dE" sync true None)] = Ok d ∧
    reach lazyChildSharingImport d = Ok r ∧
    combinedAt d r noAvailability E = Ok (combinedRef, av1) ∧
    foldM (propagateToChild d combinedRef) [2] av1 = Ok av' ∧
    ∃ available,
      ancestorAssetsOf av' L = Some available ∧
      ∀ a, a ∈ available ↔
           (∃ ancestors, ancestorAssetsOf noAvailability E = Some ancestors ∧ a ∈ ancestors)
           ∨ a ∈ [U].
Proof.
  intros E U L. do 5 eexists. split; [vm_compute; reflexivity|].
  split; [vm_compute; reflexivity|]. split; [vm_compute; reflexivity|].
  split; [vm_compute; reflexivity|].
  lazymatch goal with
  | |- ∃ available, ancestorAssetsOf ?av' _ = _ ∧ _ =>
      let discovered := eval vm_compute in
        (discover lazyChildSharingImport [(E, mkDependency "dE" sync true None)]) in
      lazymatch discovered with
      | Ok ?d =>
          let reached := eval vm_compute in (reach lazyChildSharingImport d) in
          lazymatch reached with
          | Ok ?r =>
              let combined := eval vm_compute in (combinedAt d r noAvailability E) in
              lazymatch combined with
              | Ok (?combinedRef, ?av1) =>
                  apply (first_child_gets_combined d r noAvailability av1 av' E L
                           combinedRef [2] 2 [U])
              end
          end
      end
  end.
  - by intros root ref ?%elem_of_nil.
  - vm_compute; reflexivity.
  - vm_compute; reflexivity.
  - vm_compute; reflexivity.
  - apply (bool_decide_unpack _); vm_compute; exact I.
  - vm_compute; reflexivity.
  - vm_compute; reflexivity.
Defined.

(** ** The edges of the plan join bundles of the plan *)

Lemma edgesBelow_addNode (bg : Graph Bundle) (b : Bundle) :
  edgesBelow bg → edgesBelow (addNode bg b).2.
Proof.
  intros Hbg e He. rewrite length_nodes_addNode. destruct (Hbg e He). lia.
Qed.

Lemma edgesBelow_addEdge (bg : Graph Bundle) (i j : nat) :
  i < length (nodes bg) → j < length (nodes bg) →
  edgesBelow bg → edgesBelow (addEdge bg i j).
Proof.
  intros Hi Hj Hbg e. rewrite nodes_addEdge.
  intros [->|He]%elem_of_edges_addEdge; [done|by apply Hbg].
Qed.

Lemma edgesBelow_same (bg bg' : Graph Bundle) :
  edges bg' = edges bg → length (nodes bg') = length (nodes bg) →
  edgesBelow bg → edgesBelow bg'.
Proof. intros He Hn Hbg e. rewrite He, Hn. apply Hbg. Qed.

Lemma createEntryBundle_edgesBelow (st st' : Discovery) (entry : Asset * Dependency) :
  edgesBelow (bundleGraph (store st)) → createEntryBundle st entry = Ok st' →
  edgesBelow (bundleGraph (store st')).
Proof.
  intros Hst. unfold createEntryBundle. destruct entry as [asset dependency].
  intros H. bind_inv H. bind_inv H.
  destruct (addNode _ _) as [nodeId bg] eqn:Hadd.
  bind_inv H. destruct (addNodeByContentKey _ _ _) as [entryNodeId abg].
  injection H as <-. cbn [store bundleGraph].
  replace bg with (addNode (bundleGraph (store st)) x0).2 by (by rewrite Hadd).
  by apply edgesBelow_addNode.
Qed.

Lemma splitAsync_edgesBelow (st st' : Discovery) (dependency : Dependency)
    (childAsset : Asset) :
  edgesBelow (bundleGraph (store st)) → splitAsync st dependency childAsset = Ok st' →
  edgesBelow (bundleGraph (store st')).
Proof.
  intros Hst. unfold splitAsync. intros H. bind_inv H.
  destruct x as [[[[bundleId bg] bundlesMap] roots] groupIds].
  destruct (markReachable _ _ _ _) as [rb abg]. injection H as <-.
  cbn [store bundleGraph].
  destruct (bundles (store st) !! asset_id childAsset) as [existing|] eqn:Hlook.
  - bind_inv E. by injection E as <- <- <- <- <-.
  - bind_inv E. bind_inv E. bind_inv E.
    destruct (addNode _ _) as [newId bg'] eqn:Hadd.
    injection E as <- <- <- <- <-.
    replace bg' with (addNode (bundleGraph (store st)) x1).2 by (by rewrite Hadd).
    by apply edgesBelow_addNode.
Qed.

Lemma splitTypeChange_edgesBelow (st st' : Discovery) (dependency : Dependency)
    (childAsset : Asset) :
  edgesBelow (bundleGraph (store st)) → splitTypeChange st dependency childAsset = Ok st' →
  edgesBelow (bundleGraph (store st')).
Proof.
  intros Hst. unfold splitTypeChange. intros H. bind_inv H. bind_inv H. bind_inv H.
  destruct (addNode _ _) as [newId bg'] eqn:Hadd. injection H as <-.
  cbn [store bundleGraph].
  assert (newId = length (nodes (bundleGraph (store st)))) as -> by (by injection Hadd as <- _).
  replace bg' with (addNode (bundleGraph (store st)) x1).2 by (by rewrite Hadd).
  destruct (getNode (bundleGraph (store st)) x.2) as [b|] eqn:Hb; [|done].
  apply getNode_lt in Hb.
  apply edgesBelow_addEdge; rewrite ?length_nodes_addNode; [lia|lia|].
  by apply edgesBelow_addNode.
Qed.

Lemma splitVisitor_edgesBelow (g : AssetGraph) (st st' : Discovery) (ev : Event) :
  edgesBelow (bundleGraph (store st)) → splitVisitor g st ev = Ok st' →
  edgesBelow (bundleGraph (store st')).
Proof.
  intros Hst. destruct ev as [[a|dependency] ctx|n]; simpl.
  - by intros [= <-].
  - destruct ctx as [[parentAsset|?]|]; [|done|by intros [= <-]].
    destruct (getDependencyAssets g dependency) as [|childAsset [|? ?]];
      [by intros [= <-]| |done].
    destruct (_ || _); [by apply splitAsync_edgesBelow|].
    destruct (_ || _); [by apply splitTypeChange_edgesBelow|].
    by intros [= <-].
  - destruct (last (stack st)) as [[top ?]|]; [|by intros [= <-]].
    destruct (decide _); by intros [= <-].
Qed.

Lemma discover_edgesBelow (g : AssetGraph) (entries : list (Asset * Dependency))
    (d : Discovery) :
  discover g entries = Ok d → edgesBelow (bundleGraph (store d)).
Proof.
  unfold discover. intros H. bind_inv H.
  eapply (foldM_invariant (λ st, edgesBelow (bundleGraph (store st)))); [| |exact H].
  - intros s ev s' _. apply splitVisitor_edgesBelow.
  - eapply (foldM_invariant (λ st, edgesBelow (bundleGraph (store st)))); [| |exact E].
    + intros s e s' _. apply createEntryBundle_edgesBelow.
    + by intros e ?%elem_of_nil.
Qed.

Lemma placeRoot_edgesBelow (d : Discovery) (r : Reachability) (s s' : BundleStore)
    (asset : Asset) (rootBundle : nat * nat) (reachable : list Asset) :
  (∀ root tuple, (root, tuple) ∈ bundleRoots d →
     tuple.1 < length (nodes (bundleGraph s)) ∧ tuple.2 < length (nodes (bundleGraph s))) →
  jsmap_get (bundleRoots d) asset = Some rootBundle →
  edgesBelow (bundleGraph s) → placeRoot d r s asset rootBundle reachable = Ok s' →
  edgesBelow (bundleGraph s').
Proof.
  intros Hroots Hroot Hs. unfold placeRoot. intros H. bind_inv H. bind_inv H. bind_inv H.
  injection H as <-. cbn [bundleGraph].
  apply jsmap_get_Some, Hroots in Hroot as [Hto _].
  assert (edgesBelow x ∧ length (nodes x) = length (nodes (bundleGraph s))) as [Hx Hlen].
  { eapply (foldM_invariant
              (λ bg, edgesBelow bg ∧ length (nodes bg) = length (nodes (bundleGraph s))));
      [| |exact E]; [|done].
    intros bg a bg' _ [Hbg Hn]. cbv beta. destruct (decide (a ≠ asset)); intros Ha;
      [|by injection Ha as <-].
    bind_inv Ha. injection Ha as <-. rewrite nodes_addEdge. split; [|done].
    destruct (jsmap_get (bundleRoots d) a) as [tuple|] eqn:Htuple; [|done].
    injection E2 as <-. apply jsmap_get_Some, Hroots in Htuple as [_ Hfrom].
    apply edgesBelow_addEdge; [lia|lia|done]. }
  eapply (foldM_invariant (λ bg, edgesBelow bg)); [| |exact E1]; [|done].
  intros bg a bg' _ Hbg. cbv beta.
  destruct (decide (a ≠ asset)); intros Ha; [|by injection Ha as <-].
  bind_inv Ha. bind_inv Ha. injection Ha as <-.
  eapply edgesBelow_same; [apply edges_updateNode|apply length_nodes_updateNode|done].
Qed.

Lemma addEdges_edgesBelow (bg : Graph Bundle) (to : nat) (srcs : list nat) :
  (∀ y, y ∈ srcs → y < length (nodes bg)) → to < length (nodes bg) →
  edgesBelow bg →
  edgesBelow (foldl (λ bg src, if decide (to ≠ src) then addEdge bg src to else bg) bg srcs).
Proof.
  revert bg. induction srcs as [|y srcs IH]; intros bg Hsrcs Hto Hbg; simpl; [done|].
  assert (y < length (nodes bg)) as Hy by (apply Hsrcs; by left).
  apply IH.
  - intros z Hz. destruct (decide _); rewrite ?nodes_addEdge; apply Hsrcs; by right.
  - destruct (decide _); by rewrite ?nodes_addEdge.
  - destruct (decide _); [|done]. by apply edgesBelow_addEdge.
Qed.

Lemma placeShared_edgesBelow (n : nat) (s s' : BundleStore) (asset : Asset)
    (reachable : list Asset) :
  n ≤ length (nodes (bundleGraph s)) →
  (∀ a, a ∈ reachable → ∃ i, bundles s !! asset_id a = Some i ∧ i < n) →
  bundlesPresent s → edgesBelow (bundleGraph s) →
  placeShared s asset reachable = Ok s' → edgesBelow (bundleGraph s').
Proof.
  intros Hn Hroots Hbm Hs. unfold placeShared. intros H. bind_inv H. rename x into srcs.
  bind_inv H. destruct x as [[bundleId bg] bundlesMap]. injection H as <-.
  cbn [bundleGraph].
  assert (∀ y, y ∈ srcs → y < n) as Hbelow.
  { apply mapM'_Ok in E. intros y Hy. apply list_elem_of_lookup in Hy as [k Hk].
    destruct (Forall2_lookup_r _ _ _ _ _ E Hk) as (b & Hb & Hy).
    apply list_elem_of_lookup_2 in Hb. destruct (Hroots _ Hb) as (j & Hj & Hlt).
    rewrite Hj in Hy. simpl in Hy. by injection Hy as <-. }
  assert (edgesBelow bg ∧ bundleId < length (nodes bg) ∧
          length (nodes (bundleGraph s)) ≤ length (nodes bg)) as (Hbg & Hid & Hlen).
  { destruct (bundles s !! sharedBundleKey reachable) as [existing|] eqn:Hkey.
    - bind_inv E0. injection E0 as <- <- <-. split; [done|]. split; [by eapply Hbm|done].
    - bind_inv E0. bind_inv E0. destruct (addNode _ _) as [newId bg'] eqn:Hadd.
      injection E0 as <- <- <-. injection Hadd as <- <-.
      split; [by apply (edgesBelow_addNode _ _ Hs)|]. simpl. rewrite length_app. simpl.
      split; lia. }
  assert (edgesBelow (updateNode bg bundleId (addAssetToBundle asset)) ∧
          length (nodes (updateNode bg bundleId (addAssetToBundle asset)))
          = length (nodes bg)) as [Hupd Hlen'].
  { split; [|apply length_nodes_updateNode].
    eapply edgesBelow_same; [apply edges_updateNode|apply length_nodes_updateNode|done]. }
  apply addEdges_edgesBelow; [|lia|done].
  intros y Hy. specialize (Hbelow y Hy). lia.
Qed.

Lemma placeAsset_edgesBelow (d : Discovery) (r : Reachability) (av : Availability)
    (n : nat) (s s' : BundleStore) (asset : Asset) :
  reachersAreRoots d r →
  (∀ root tuple, (root, tuple) ∈ bundleRoots d → tuple.1 < n ∧ tuple.2 < n) →
  placementInv d n s → bundlesPresent s → edgesBelow (bundleGraph s) →
  placeAsset d r av s asset = Ok s' → edgesBelow (bundleGraph s').
Proof.
  intros Hreach Hroots (Hws & Hn & Hpresent & Hids) Hbm Hs (l & Hl & H)%placeAsset_cases.
  destruct (jsmap_get (bundleRoots d) asset) as [rootBundle|] eqn:Hroot.
  - eapply placeRoot_edgesBelow; [|done|done|done].
    intros root tuple Hin. destruct (Hroots _ _ Hin). lia.
  - destruct H as [[_ ->]|[_ H]]; [done|].
    eapply (placeShared_edgesBelow n); [done| |done|done|done].
    intros a Ha. apply Hids. by eapply filteredReachable_roots.
Qed.

Lemma placement_edgesPresent (g : AssetGraph) (p : Placement) :
  placement g = Ok p → edgesPresent (bundleGraph (placed_store p)).
Proof.
  intros (_ & Hd & Hr & _ & Hplace)%placement_stages.
  pose proof (reach_reachersAreRoots _ _ _ Hr) as Hreach.
  pose proof (discover_discovered _ _ _ Hd) as Hdisc.
  pose proof (discover_groupStructure _ _ _ Hd) as (_ & Hgroups & _).
  set (d := placed_discovery p) in *. set (n := length (nodes (bundleGraph (store d)))).
  assert (∀ root tuple, (root, tuple) ∈ bundleRoots d → tuple.1 < n ∧ tuple.2 < n) as Hroots.
  { intros root tuple Hin. destruct (Hgroups _ _ Hin) as ((b & Hb & _) & [b' Hb'] & _).
    apply getNode_lt in Hb, Hb'. done. }
  assert (placementInv d n (placed_store p) ∧ bundlesPresent (placed_store p) ∧
          edgesBelow (bundleGraph (placed_store p))) as ((_ & _ & Hpresent & _) & _ & Hbelow).
  { unfold placeAssets in Hplace.
    eapply (foldM_invariant
              (λ s, placementInv d n s ∧ bundlesPresent s ∧ edgesBelow (bundleGraph s)));
      [| |exact Hplace].
    - intros s1 x s2 _ (Hinv & Hbm & Hedges) Hx. split; [by eapply placeAsset_inv|].
      split; [|by eapply placeAsset_edgesBelow].
      eapply placeAsset_bundlesPresent; [|done|done].
      intros root tuple Hin. destruct (Hroots _ _ Hin). destruct Hinv as (_ & Hn & _). lia.
    - split; [by apply discovered_placementInv|].
      split; [by eapply discover_bundlesPresent|by eapply discover_edgesBelow]. }
  intros e He. destruct (Hbelow e He). split; by apply Hpresent.
Qed.

Lemma edgesPresent_later (bg bg' : Graph Bundle) :
  (∀ j, is_Some (getNode bg j) → is_Some (getNode bg' j)) →
  (∀ e, e ∈ edges bg' → e ∈ edges bg) →
  edgesPresent bg → edgesPresent bg'.
Proof. intros Hnodes Hedges Hbg e He. destruct (Hbg e (Hedges e He)). auto. Qed.

Lemma edgesPresent_removeNode (bg : Graph Bundle) (i : nat) :
  edgesPresent bg → edgesPresent (removeNode bg i).
Proof.
  intros Hbg e [He [H1 H2]]%edges_removeNode. rewrite !getNode_removeNode.
  rewrite !decide_False by done. by apply Hbg.
Qed.

Lemma removeBundle_edgesPresent (bg bg' : Graph Bundle) (bundleId : nat) :
  edgesPresent bg → removeBundle bg bundleId = Ok bg' → edgesPresent bg'.
Proof.
  intros Hbg. unfold removeBundle. intros H. bind_inv H. bind_inv H. injection H as <-.
  apply edgesPresent_removeNode.
  eapply (foldM_invariant edgesPresent); [| |exact E0]; [|done].
  intros bg1 a bg2 _ Hbg1 Ha.
  eapply (foldM_invariant edgesPresent); [| |exact Ha]; [|done].
  intros bg3 src bg4 _ Hbg3 Hsrc. bind_inv Hsrc. injection Hsrc as <-.
  eapply edgesPresent_later; [| |exact Hbg3].
  - intros j Hj. rewrite getNode_updateNode. destruct (decide _) as [->|]; [|done].
    destruct Hj as [b ->]. by eexists.
  - intros e. by rewrite edges_updateNode.
Qed.

Lemma mergeSmallShared_edgesPresent (config : ResolvedBundlerConfig)
    (bg bg' : Graph Bundle) :
  edgesPresent bg → mergeSmallShared config bg = Ok bg' → edgesPresent bg'.
Proof.
  intros Hbg H. unfold mergeSmallShared in H.
  eapply (foldM_invariant edgesPresent); [| |exact H]; [|done].
  intros bg1 i bg2 _ Hbg1. cbv beta. destruct (getNode bg1 i) as [b|]; [|by intros [= <-]].
  destruct (_ && _); [by apply removeBundle_edgesPresent|by intros [= <-]].
Qed.

Lemma foldEntry_edgesPresent (d : Discovery)
    (st st' : Graph Bundle * list (nat * list Asset)) (entryAsset : Asset) :
  edgesPresent st.1 → foldEntry d st entryAsset = Ok st' → edgesPresent st'.1.
Proof.
  intros Hst. unfold foldEntry. intros H. bind_inv H. bind_inv H.
  apply foldSiblings_absorbed in H as [[Hnodes Hedges] _].
  eapply edgesPresent_later; [|exact Hedges|exact Hst].
  intros j [b Hb]. destruct (Hnodes _ _ Hb) as (b' & -> & _). by eexists.
Qed.

Lemma dropOrphans_edgesPresent (bg : Graph Bundle) (rar : list (nat * list Asset)) :
  edgesPresent bg → edgesPresent (dropOrphans bg rar).
Proof.
  intros Hbg e. destruct (dropOrphans_spec bg rar) as [Hnodes Hedges].
  intros (He & H1 & H2)%Hedges. rewrite !Hnodes, !decide_False by done. by apply Hbg.
Qed.

(** In the plan that [createIdealGraph] returns, every edge of [bundleGraph]
    joins two bundles that are in [bundleGraph]: a bundle that a merge or the
    last loop removed has no edge left. *)
Theorem plan_edges_join_bundles (g : AssetGraph) (config : ResolvedBundlerConfig)
    (plan : IdealGraph) (from to : nat) :
  createIdealGraph g config = Ok plan →
  (from, to) ∈ edges (ideal_bundleGraph plan) →
  is_Some (getNode (ideal_bundleGraph plan) from) ∧
  is_Some (getNode (ideal_bundleGraph plan) to).
Proof.
  unfold createIdealGraph. intros H He. bind_inv H. rename x into p.
  bind_inv H. destruct x as [bg rar]. injection H as <-. simpl in *.
  unfold mergeAndCleanup in E0. bind_inv E0. bind_inv E0. destruct x0 as [bg2 rar2].
  injection E0 as <- <-.
  assert (edgesPresent (dropOrphans bg2 rar2)) as Hplan; [|exact (Hplan _ He)].
  apply dropOrphans_edgesPresent.
  eapply (foldM_invariant (λ st, edgesPresent st.1)) in E2; [exact E2| |].
  - intros s e s' _. apply foldEntry_edgesPresent.
  - simpl. eapply mergeSmallShared_edgesPresent; [|exact E1].
    by eapply placement_edgesPresent.
Qed.

Lemma plan_edges_join_bundles_witness :
  ∃ plan,
    createIdealGraph (twoLazySharing 40000) http2 = Ok plan ∧
    (1, 3) ∈ edges (ideal_bundleGraph plan) ∧
    is_Some (getNode (ideal_bundleGraph plan) 1) ∧
    is_Some (getNode (ideal_bundleGraph plan) 3).
Proof.
  eexists. split; [vm_compute; reflexivity|].
  split; [apply (bool_decide_unpack _); vm_compute; exact I|].
  apply (plan_edges_join_bundles (twoLazySharing 40000) http2).
  - vm_compute; reflexivity.
  - apply (bool_decide_unpack _); vm_compute; exact I.
Defined.

(** ** The bundles of the bundle roots in the plan *)

Lemma bundleKept_refl (b : Bundle) : bundleKept b b.
Proof. done. Qed.

Lemma bundleKept_trans (b1 b2 b3 : Bundle) :
  bundleKept b1 b2 → bundleKept b2 b3 → bundleKept b1 b3.
Proof.
  intros (Hk1 & Ha1 & Hs1) (Hk2 & Ha2 & Hs2). split; [congruence|].
  split; [by etrans|auto].
Qed.

Lemma bundlesFrom_refl (bg : Graph Bundle) : bundlesFrom bg bg.
Proof. split; [done|]. intros j b' _ Hb'. by exists b'. Qed.

Lemma bundlesFrom_trans (bg1 bg2 bg3 : Graph Bundle) :
  bundlesFrom bg1 bg2 → bundlesFrom bg2 bg3 → bundlesFrom bg1 bg3.
Proof.
  intros [Hl1 H1] [Hl2 H2]. split; [lia|]. intros j b3 Hj Hb3.
  destruct (H2 j b3) as (b2 & Hb2 & Hk2); [lia|done|].
  destruct (H1 j b2 Hj Hb2) as (b1 & Hb1 & Hk1).
  exists b1. split; [done|]. by eapply bundleKept_trans.
Qed.

Lemma bundlesFrom_same_nodes (bg bg' : Graph Bundle) :
  nodes bg' = nodes bg → bundlesFrom bg bg'.
Proof.
  intros Hn. split; [by rewrite Hn|]. intros j b' _ Hb'. exists b'.
  rewrite <- (getNode_ext bg' bg) by done. done.
Qed.

Lemma bundlesFrom_addNode (bg : Graph Bundle) (b : Bundle) : bundlesFrom bg (addNode bg b).2.
Proof.
  split; [rewrite length_nodes_addNode; lia|]. intros j b' Hj.
  rewrite getNode_addNode, decide_False by lia. intros Hb'. by exists b'.
Qed.

Lemma bundlesFrom_addEdge (bg : Graph Bundle) (i j : nat) : bundlesFrom bg (addEdge bg i j).
Proof. apply bundlesFrom_same_nodes, nodes_addEdge. Qed.

Lemma bundlesFrom_removeEdge (bg : Graph Bundle) (i j : nat) :
  bundlesFrom bg (removeEdge bg i j).
Proof. by apply bundlesFrom_same_nodes. Qed.

Lemma bundlesFrom_removeNode (bg : Graph Bundle) (i : nat) : bundlesFrom bg (removeNode bg i).
Proof.
  split; [simpl; by rewrite length_insert|]. intros j b' _.
  rewrite getNode_removeNode. destruct (decide _); [done|]. intros Hb'. by exists b'.
Qed.

Lemma bundlesFrom_updateNode (bg : Graph Bundle) (i : nat) (f : Bundle → Bundle) :
  (∀ b, getNode bg i = Some b → bundleKept b (f b)) → bundlesFrom bg (updateNode bg i f).
Proof.
  intros Hf. split; [by rewrite length_nodes_updateNode|]. intros j b' _.
  rewrite getNode_updateNode. destruct (decide (j = i)) as [->|Hne].
  - destruct (getNode bg i) as [b|] eqn:Hb; [|done]. intros [= <-]. exists b. auto.
  - intros Hb'. by exists b'.
Qed.

Lemma bundleKept_addAssetToBundle (a : Asset) (b : Bundle) :
  bundleKept b (addAssetToBundle a b).
Proof. split; [done|]. split; [apply jsset_add_prefix|done]. Qed.

Lemma bundleKept_pushInternalized (id : string) (b : Bundle) :
  bundleKept b (pushInternalized id b).
Proof. done. Qed.

Lemma bundlesFrom_absorbAssets (bg : Graph Bundle) (into : nat) (l : list Asset) :
  bundlesFrom bg (absorbAssets bg into l).
Proof.
  unfold absorbAssets. revert bg. induction l as [|a l IH]; intros bg; simpl.
  - apply bundlesFrom_refl.
  - eapply bundlesFrom_trans; [|apply IH]. apply bundlesFrom_updateNode.
    intros b _. apply bundleKept_addAssetToBundle.
Qed.

Lemma foldM_bundlesFrom {A} (f : Graph Bundle → A → Result (Graph Bundle)) (l : list A)
    (bg bg' : Graph Bundle) :
  (∀ g x g', f g x = Ok g' → bundlesFrom g g') →
  foldM f l bg = Ok bg' → bundlesFrom bg bg'.
Proof.
  intros Hf. revert bg. induction l as [|x l IH]; intros bg H; simpl in H.
  - injection H as <-. apply bundlesFrom_refl.
  - bind_inv H. eapply bundlesFrom_trans; [by eapply Hf|by apply IH].
Qed.

Lemma placeRoot_bundlesFrom (d : Discovery) (r : Reachability) (s s' : BundleStore)
    (asset : Asset) (rootBundle : nat * nat) (reachable : list Asset) :
  placeRoot d r s asset rootBundle reachable = Ok s' →
  bundlesFrom (bundleGraph s) (bundleGraph s').
Proof.
  unfold placeRoot. intros H. bind_inv H. bind_inv H. bind_inv H. injection H as <-.
  cbn [bundleGraph]. eapply bundlesFrom_trans.
  - eapply foldM_bundlesFrom; [|exact E]. intros g a g'. cbv beta.
    destruct (decide (a ≠ asset)); [|intros [= <-]; apply bundlesFrom_refl].
    intros Ha. bind_inv Ha. injection Ha as <-. apply bundlesFrom_addEdge.
  - eapply foldM_bundlesFrom; [|exact E1]. intros g a g'. cbv beta.
    destruct (decide (a ≠ asset)); [|intros [= <-]; apply bundlesFrom_refl].
    intros Ha. bind_inv Ha. bind_inv Ha. injection Ha as <-.
    apply bundlesFrom_updateNode. intros b _. apply bundleKept_pushInternalized.
Qed.

Lemma addEdges_bundlesFrom (bg : Graph Bundle) (to : nat) (srcs : list nat) :
  bundlesFrom bg
    (foldl (λ bg src, if decide (to ≠ src) then addEdge bg src to else bg) bg srcs).
Proof.
  apply bundlesFrom_same_nodes, nodes_addEdges.
Qed.

Lemma placeShared_bundlesFrom (s s' : BundleStore) (asset : Asset) (reachable : list Asset) :
  placeShared s asset reachable = Ok s' → bundlesFrom (bundleGraph s) (bundleGraph s').
Proof.
  unfold placeShared. intros H. bind_inv H. bind_inv H.
  destruct x0 as [[bundleId bg] bundlesMap]. injection H as <-. cbn [bundleGraph].
  assert (bundlesFrom (bundleGraph s) bg) as Hbg.
  { destruct (bundles s !! sharedBundleKey reachable).
    - bind_inv E0. injection E0 as <- <- <-. apply bundlesFrom_refl.
    - bind_inv E0. bind_inv E0. destruct (addNode _ _) as [newId bg'] eqn:Hadd.
      injection E0 as <- <- <-.
      replace bg' with (addNode (bundleGraph s) (setSourceBundles x x1)).2
        by (by rewrite Hadd).
      apply bundlesFrom_addNode. }
  eapply bundlesFrom_trans; [exact Hbg|].
  eapply bundlesFrom_trans; [|apply addEdges_bundlesFrom].
  apply bundlesFrom_updateNode. intros b _. apply bundleKept_addAssetToBundle.
Qed.

Lemma placeAssets_bundlesFrom (d : Discovery) (r : Reachability) (av : Availability)
    (l : list Asset) (s s' : BundleStore) :
  placeAssets d r av l s = Ok s' → bundlesFrom (bundleGraph s) (bundleGraph s').
Proof.
  unfold placeAssets. revert s. induction l as [|x l IH]; intros s H; simpl in H.
  - injection H as <-. apply bundlesFrom_refl.
  - bind_inv H. eapply bundlesFrom_trans; [|by apply IH].
    apply placeAsset_cases in E as (reachable & _ & Hcase).
    destruct (jsmap_get (bundleRoots d) x) as [rootBundle|].
    + by eapply placeRoot_bundlesFrom.
    + destruct Hcase as [[_ ->]|[_ Hshared]]; [apply bundlesFrom_refl|].
      by eapply placeShared_bundlesFrom.
Qed.

Lemma removeBundle_bundlesFrom (bg bg' : Graph Bundle) (bundleId : nat) :
  removeBundle bg bundleId = Ok bg' → bundlesFrom bg bg'.
Proof.
  unfold removeBundle. intros H. bind_inv H. bind_inv H. injection H as <-.
  eapply bundlesFrom_trans; [|apply bundlesFrom_removeNode].
  eapply foldM_bundlesFrom; [|exact E0]. intros g a g' Ha.
  eapply foldM_bundlesFrom; [|exact Ha]. intros g1 src g2 Hsrc.
  bind_inv Hsrc. injection Hsrc as <-.
  apply bundlesFrom_updateNode. intros b _. apply bundleKept_addAssetToBundle.
Qed.

Lemma mergeSmallShared_bundlesFrom (config : ResolvedBundlerConfig) (bg bg' : Graph Bundle) :
  mergeSmallShared config bg = Ok bg' → bundlesFrom bg bg'.
Proof.
  unfold mergeSmallShared. intros H. eapply foldM_bundlesFrom; [|exact H].
  intros g i g'. cbv beta. destruct (getNode g i); [|intros [= <-]; apply bundlesFrom_refl].
  destruct (_ && _); [apply removeBundle_bundlesFrom|intros [= <-]; apply bundlesFrom_refl].
Qed.

Lemma foldSibling_bundlesFrom (entryAsset : Asset) (entryBundleId : nat)
    (entryType : string) (st st' : Graph Bundle * list (nat * list Asset))
    (siblingId : nat) :
  foldSibling entryAsset entryBundleId entryType st siblingId = Ok st' →
  bundlesFrom st.1 st'.1.
Proof.
  unfold foldSibling. destruct st as [bg rar]. intros H. bind_inv H. rename x into sibling.
  destruct (decide _) as [Hne|Heq]; [injection H as <-; apply bundlesFrom_refl|].
  set (bg2 := removeEdge (absorbAssets bg entryBundleId (bundle_assets sibling))
                entryBundleId siblingId) in *.
  assert (bundlesFrom bg bg2) as H02.
  { eapply bundlesFrom_trans; [apply bundlesFrom_absorbAssets|apply bundlesFrom_removeEdge]. }
  cbn [fst]. eapply bundlesFrom_trans; [exact H02|].
  destruct (defaultmap_get _ _ _) as [dependentRoots rar1].
  destruct (bool_decide (1 < length (default [] (bundle_sourceBundles <$> getNode bg2 siblingId))))
    eqn:Hshared; [|injection H as <-; apply bundlesFrom_refl].
  apply bool_decide_eq_true in Hshared.
  assert (∀ srcs, bundlesFrom bg2 (updateNode bg2 siblingId (setSourceBundles srcs))) as Hset.
  { intros srcs. apply bundlesFrom_updateNode. intros b Hb. rewrite Hb in Hshared.
    simpl in Hshared. split; [done|]. split; [done|]. intros Hnil.
    rewrite Hnil in Hshared. simpl in Hshared. lia. }
  destruct (list_find _ _) as [[entryBundleIndex ?]|]; [|done].
  destruct (delete _ _) as [|id [|id' rest]].
  - injection H as <-. apply Hset.
  - bind_inv H. injection H as <-. simpl.
    eapply bundlesFrom_trans; [apply Hset|].
    eapply bundlesFrom_trans; [apply bundlesFrom_absorbAssets|apply bundlesFrom_removeEdge].
  - injection H as <-. apply Hset.
Qed.

Lemma foldM_pairs_bundlesFrom {A B}
    (f : Graph Bundle * B → A → Result (Graph Bundle * B)) (l : list A)
    (st st' : Graph Bundle * B) :
  (∀ s x s', f s x = Ok s' → bundlesFrom s.1 s'.1) →
  foldM f l st = Ok st' → bundlesFrom st.1 st'.1.
Proof.
  intros Hf. revert st. induction l as [|x l IH]; intros st H; simpl in H.
  - injection H as <-. apply bundlesFrom_refl.
  - bind_inv H. eapply bundlesFrom_trans; [by eapply Hf|by apply IH].
Qed.

Lemma foldEntry_bundlesFrom (d : Discovery)
    (st st' : Graph Bundle * list (nat * list Asset)) (entryAsset : Asset) :
  foldEntry d st entryAsset = Ok st' → bundlesFrom st.1 st'.1.
Proof.
  unfold foldEntry. intros H. bind_inv H. bind_inv H.
  eapply foldM_pairs_bundlesFrom; [|exact H].
  intros s i s'. apply foldSibling_bundlesFrom.
Qed.

Lemma dropOrphans_bundlesFrom (bg : Graph Bundle) (rar : list (nat * list Asset)) :
  bundlesFrom bg (dropOrphans bg rar).
Proof.
  unfold dropOrphans. revert bg. induction rar as [|e rar IH]; intros bg; simpl.
  - apply bundlesFrom_refl.
  - eapply bundlesFrom_trans; [|apply IH].
    destruct (decide _); [apply bundlesFrom_removeNode|apply bundlesFrom_refl].
Qed.

Lemma createIdealGraph_bundlesFrom (g : AssetGraph) (config : ResolvedBundlerConfig)
    (plan : IdealGraph) :
  createIdealGraph g config = Ok plan →
  ∃ p, placement g = Ok p ∧
       bundlesFrom (bundleGraph (store (placed_discovery p))) (ideal_bundleGraph plan).
Proof.
  unfold createIdealGraph. intros H. bind_inv H. rename x into p.
  bind_inv H. destruct x as [bg rar]. injection H as <-. simpl.
  exists p. split; [done|].
  unfold mergeAndCleanup in E0. bind_inv E0. bind_inv E0. destruct x0 as [bg2 rar2].
  injection E0 as <- <-.
  apply placement_stages in E as (_ & _ & _ & _ & Hplace).
  eapply bundlesFrom_trans; [by eapply placeAssets_bundlesFrom|].
  eapply bundlesFrom_trans; [by eapply mergeSmallShared_bundlesFrom|].
  eapply bundlesFrom_trans; [|apply dropOrphans_bundlesFrom].
  apply (foldM_pairs_bundlesFrom _ _ _ _ (λ s a s', foldEntry_bundlesFrom _ s s' a)) in E2.
  exact E2.
Qed.

(** In the plan that [createIdealGraph] returns, the bundle of a bundle
    root, when it is still there, is the bundle that the first step made for
    the root: the root is the first of its assets, its type, environment and
    bundle behavior are those of the root, and it has no source bundles. *)
Theorem root_bundles_in_the_plan (g : AssetGraph) (config : ResolvedBundlerConfig)
    (plan : IdealGraph) (p : Placement) (root : Asset) (bundleId groupId : nat)
    (b : Bundle) :
  createIdealGraph g config = Ok plan → placement g = Ok p →
  jsmap_get (bundleRoots (placed_discovery p)) root = Some (bundleId, groupId) →
  getNode (ideal_bundleGraph plan) bundleId = Some b →
  head (bundle_assets b) = Some root ∧
  bundle_type b = asset_type root ∧
  bundle_env b = asset_env root ∧
  bundle_bundleBehavior b = asset_bundleBehavior root ∧
  bundle_sourceBundles b = [].
Proof.
  intros (p' & Hp' & [_ Hfrom])%createIdealGraph_bundlesFrom Hp Hroot%jsmap_get_Some Hb.
  assert (p' = p) as -> by congruence.
  apply placement_stages in Hp as (_ & Hd & _).
  apply discover_groupStructure in Hd as (_ & Hroots & _).
  destruct (Hroots _ _ Hroot) as ((b0 & Hb0 & Ha & _ & Ht & He & Hbeh & Hsrc & _) & _).
  simpl in Hb0. destruct (Hfrom bundleId b) as (b1 & Hb1 & Hkind & [more Hmore] & Hsrcs).
  { by eapply getNode_lt. }
  { done. }
  assert (b1 = b0) as -> by congruence. injection Hkind as _ He' Ht' _ Hbeh'.
  split; [by rewrite Hmore, Ha|]. split; [congruence|]. split; [congruence|].
  split; [congruence|by apply Hsrcs].
Qed.

Lemma root_bundles_in_the_plan_witness :
  ∃ plan p b,
    createIdealGraph sharedWithSibling http2 = Ok plan ∧
    placement sharedWithSibling = Ok p ∧
    getNode (ideal_bundleGraph plan) 0 = Some b ∧
    head (bundle_assets b) = Some (mkAsset "E1" "js" None 10) ∧
    bundle_type b = asset_type (mkAsset "E1" "js" None 10) ∧
    bundle_env b = asset_env (mkAsset "E1" "js" None 10) ∧
    bundle_bundleBehavior b = asset_bundleBehavior (mkAsset "E1" "js" None 10) ∧
    bundle_sourceBundles b = [].
Proof.
  do 3 eexists. split; [vm_compute; reflexivity|]. split; [vm_compute; reflexivity|].
  split; [vm_compute; reflexivity|].
  lazymatch goal with
  | |- head (bundle_assets ?b) = _ ∧ _ =>
      let planned := eval vm_compute in (createIdealGraph sharedWithSibling http2) in
      let placed := eval vm_compute in (placement sharedWithSibling) in
      lazymatch planned with
      | Ok ?plan =>
          lazymatch placed with
          | Ok ?p =>
              apply (root_bundles_in_the_plan sharedWithSibling http2 plan p
                       (mkAsset "E1" "js" None 10) 0 0 b)
          end
      end
  end.
  - vm_compute; reflexivity.
  - vm_compute; reflexivity.
  - vm_compute; reflexivity.
  - vm_compute; reflexivity.
Defined.

(** ** The bundles that [assetReference] names *)

Lemma referencesRooted_more (st st' : Discovery) :
  assetReference st' = assetReference st →
  (∀ j b, getNode (bundleGraph (store st)) j = Some b →
          getNode (bundleGraph (store st')) j = Some b) →
  referencesRooted st → referencesRooted st'.
Proof.
  intros Href Hnodes Hst asset references reference. rewrite Href. intros Hin Hr.
  destruct (Hst _ _ _ Hin Hr) as (b & Hb & Hholds). exists b. auto.
Qed.

Lemma getNode_addNode_old (bg bg' : Graph Bundle) (x b : Bundle) (i j : nat) :
  addNode bg x = (i, bg') → getNode bg j = Some b → getNode bg' j = Some b.
Proof.
  intros Hadd Hb. replace bg' with (addNode bg x).2 by (by rewrite Hadd).
  rewrite getNode_addNode, decide_False; [done|].
  apply getNode_lt in Hb. lia.
Qed.

Lemma createEntryBundle_referencesRooted (st st' : Discovery) (entry : Asset * Dependency) :
  referencesRooted st → createEntryBundle st entry = Ok st' → referencesRooted st'.
Proof.
  intros Hst. unfold createEntryBundle. destruct entry as [asset dependency].
  intros H. bind_inv H. bind_inv H.
  destruct (addNode _ _) as [nodeId bg] eqn:Hadd.
  bind_inv H. destruct (addNodeByContentKey _ _ _) as [entryNodeId abg].
  injection H as <-. apply (referencesRooted_more st); [done| |done]. simpl.
  intros j b Hb. by eapply getNode_addNode_old.
Qed.

Lemma splitAsync_referencesRooted (st st' : Discovery) (dependency : Dependency)
    (childAsset : Asset) :
  referencesRooted st → splitAsync st dependency childAsset = Ok st' → referencesRooted st'.
Proof.
  intros Hst. unfold splitAsync. intros H. bind_inv H.
  destruct x as [[[[bundleId bg] bundlesMap] roots] groupIds].
  destruct (markReachable _ _ _ _) as [rb abg]. injection H as <-.
  apply (referencesRooted_more st); [done| |done]. simpl.
  destruct (bundles (store st) !! asset_id childAsset) as [existing|] eqn:Hlook.
  - bind_inv E. by injection E as <- <- <- <- <-.
  - bind_inv E. bind_inv E. bind_inv E.
    destruct (addNode _ _) as [newId bg'] eqn:Hadd.
    injection E as <- <- <- <- <-.
    intros j b Hb. by eapply getNode_addNode_old.
Qed.

Lemma splitTypeChange_referencesRooted (st st' : Discovery) (dependency : Dependency)
    (childAsset : Asset) :
  referencesRooted st → splitTypeChange st dependency childAsset = Ok st' →
  referencesRooted st'.
Proof.
  intros Hst. unfold splitTypeChange. intros H. bind_inv H. bind_inv H. bind_inv H.
  destruct (addNode _ _) as [newId bg'] eqn:Hadd. injection H as <-.
  apply createBundle_holdsOnly in E1 as (Hholds & _).
  assert (getNode bg' newId = Some x1) as Hnode.
  { replace bg' with (addNode (bundleGraph (store st)) x1).2 by (by rewrite Hadd).
    rewrite getNode_addNode, decide_True; [done|]. by injection Hadd as <- _. }
  intros asset references reference. cbn [assetReference store bundleGraph].
  setoid_rewrite getNode_addEdge.
  intros [[= -> ->]|Hin]%elem_of_jsmap_set.
  - intros [Hold|Hlast%list_elem_of_singleton]%elem_of_app.
    + unfold defaultmap_peek in Hold.
      destruct (jsmap_get (assetReference st) childAsset) as [refs|] eqn:Hrefs;
        simpl in Hold; [|by apply elem_of_nil in Hold].
      apply jsmap_get_Some in Hrefs. destruct (Hst _ _ _ Hrefs Hold) as (b & Hb & Hb').
      exists b. split; [by eapply getNode_addNode_old|done].
    + subst reference. simpl. by exists x1.
  - intros Hr. destruct (Hst _ _ _ Hin Hr) as (b & Hb & Hb').
    exists b. split; [by eapply getNode_addNode_old|done].
Qed.

Lemma splitVisitor_referencesRooted (g : AssetGraph) (st st' : Discovery) (ev : Event) :
  referencesRooted st → splitVisitor g st ev = Ok st' → referencesRooted st'.
Proof.
  intros Hst. destruct ev as [[a|dependency] ctx|n]; simpl.
  - by intros [= <-].
  - destruct ctx as [[parentAsset|?]|]; [|done|by intros [= <-]].
    destruct (getDependencyAssets g dependency) as [|childAsset [|? ?]];
      [by intros [= <-]| |done].
    destruct (_ || _); [by apply splitAsync_referencesRooted|].
    destruct (_ || _); [by apply splitTypeChange_referencesRooted|].
    by intros [= <-].
  - destruct (last (stack st)) as [[top ?]|]; [|by intros [= <-]].
    destruct (decide _); by intros [= <-].
Qed.

Lemma discover_referencesRooted (g : AssetGraph) (entries : list (Asset * Dependency))
    (d : Discovery) :
  discover g entries = Ok d → referencesRooted d.
Proof.
  unfold discover. intros H. bind_inv H.
  eapply (foldM_invariant referencesRooted); [| |exact H].
  - intros s ev s' _. apply splitVisitor_referencesRooted.
  - eapply (foldM_invariant referencesRooted); [| |exact E].
    + intros s e s' _. apply createEntryBundle_referencesRooted.
    + by intros asset references reference ?%elem_of_nil.
Qed.

(** A pair that [assetReference] has for an asset in the plan names a
    bundle that the first step made for this asset.  When the bundle is still
    in [bundleGraph], the asset is the first of its assets, and its type,
    environment and bundle behavior are those of the asset. *)
Theorem asset_references_name_bundles_of_the_asset (g : AssetGraph)
    (config : ResolvedBundlerConfig) (plan : IdealGraph) (asset : Asset)
    (references : list (Dependency * nat)) (dependency : Dependency) (bundleId : nat)
    (b : Bundle) :
  createIdealGraph g config = Ok plan →
  (asset, references) ∈ ideal_assetReference plan →
  (dependency, bundleId) ∈ references →
  getNode (ideal_bundleGraph plan) bundleId = Some b →
  head (bundle_assets b) = Some asset ∧
  bundle_type b = asset_type asset ∧
  bundle_env b = asset_env asset ∧
  bundle_bundleBehavior b = asset_bundleBehavior asset ∧
  bundle_sourceBundles b = [].
Proof.
  intros Hplan Hin Href Hb.
  pose proof (createIdealGraph_bundlesFrom _ _ _ Hplan) as (p & Hp & [_ Hfrom]).
  assert (ideal_assetReference plan = assetReference (placed_discovery p)) as Heq.
  { unfold createIdealGraph in Hplan. rewrite Hp in Hplan. simpl in Hplan.
    bind_inv Hplan. destruct x as [bg rar]. by injection Hplan as <-. }
  rewrite Heq in Hin.
  apply placement_stages in Hp as (_ & Hd & _).
  apply discover_referencesRooted in Hd.
  destruct (Hd _ _ _ Hin Href) as (b0 & Hb0 & Ha & _ & Ht & He & Hbeh & Hsrc & _).
  simpl in Hb0. destruct (Hfrom bundleId b) as (b1 & Hb1 & Hkind & [more Hmore] & Hsrcs).
  { by eapply getNode_lt. }
  { done. }
  assert (b1 = b0) as -> by congruence. injection Hkind as _ He' Ht' _ Hbeh'.
  split; [by rewrite Hmore, Ha|]. split; [congruence|]. split; [congruence|].
  split; [congruence|by apply Hsrcs].
Qed.

Lemma asset_references_name_bundles_of_the_asset_witness :
  ∃ plan references b,
    createIdealGraph stylesheetImportedTwice http2 = Ok plan ∧
    (mkAsset "S" "css" None 7, references) ∈ ideal_assetReference plan ∧
    (mkDependency "d1" sync false None, 2) ∈ references ∧
    (mkDependency "d2" sync false None, 1) ∈ references ∧
    getNode (ideal_bundleGraph plan) 2 = Some b ∧
    head (bundle_assets b) = Some (mkAsset "S" "css" None 7) ∧
    bundle_type b = asset_type (mkAsset "S" "css" None 7) ∧
    bundle_env b = asset_env (mkAsset "S" "css" None 7) ∧
    bundle_bundleBehavior b = asset_bundleBehavior (mkAsset "S" "css" None 7) ∧
    bundle_sourceBundles b = [].
Proof.
  do 3 eexists. split; [vm_compute; reflexivity|].
  split; [vm_compute; left|].
  split; [vm_compute; right; left|].
  split; [vm_compute; left|].
  split; [vm_compute; reflexivity|].
  lazymatch goal with
  | |- head (bundle_assets ?b) = _ ∧ _ =>
      let planned := eval vm_compute in (createIdealGraph stylesheetImportedTwice http2) in
      lazymatch planned with
      | Ok ?plan =>
          apply (asset_references_name_bundles_of_the_asset stylesheetImportedTwice http2
                   plan (mkAsset "S" "css" None 7)
                   [(mkDependency "d2" sync false None, 1);
                    (mkDependency "d1" sync false None, 2)]
                   (mkDependency "d1" sync false None) 2 b)
      end
  end.
  - vm_compute; reflexivity.
  - vm_compute; left.
  - vm_compute; right; left.
  - vm_compute; reflexivity.
Defined.

(** ** The calls of [createAssetReference] *)

Lemma unreferenced_callHost (st : Decoration) (c : HostCall) :
  isReferenceCall c = false → unreferenced st → unreferenced (callHost st c).2.
Proof. intros Hc Hst. apply Forall_app. split; [done|by constructor]. Qed.

Lemma foldl_unreferenced {A} (f : Decoration → A → Decoration) (l : list A)
    (st : Decoration) :
  (∀ s x, unreferenced s → unreferenced (f s x)) →
  unreferenced st → unreferenced (foldl f st l).
Proof.
  intros Hf. revert st. induction l as [|x l IH]; intros st Hst; simpl; [done|].
  by apply IH, Hf.
Qed.

Lemma decorateBundle_unreferenced (idealGraph : IdealGraph) (st st' : Decoration)
    (entry : nat * Bundle) :
  unreferenced st → decorateBundle idealGraph st entry = Ok st' → unreferenced st'.
Proof.
  destruct entry as [i b]. intros Hst. unfold decorateBundle. intros H. bind_inv H.
  destruct x as [h st1]. injection H as <-.
  assert (unreferenced st1) as Hst1.
  { destruct (decide (i ∈ ideal_bundleGroupBundleIds idealGraph)) as [Hgroup|Hgroup].
    - bind_inv E. rename x into dependencies.
      assert (∀ acc : option nat * Decoration,
                unreferenced acc.2 →
                unreferenced (foldl (λ acc dependency,
                     let '(bundleGroup, st) :=
                       callHost acc.2 (CreateBundleGroup dependency (bundle_target b)) in
                     (Some bundleGroup, st)) acc dependencies).2) as Hgroups.
      { clear. induction dependencies as [|dep deps IH]; intros acc Hacc; simpl; [done|].
        apply IH. simpl. by apply unreferenced_callHost. }
      specialize (Hgroups (None, st) Hst).
      destruct (foldl _ _ _) as [bundleGroup st2]. simpl in Hgroups.
      bind_inv E. injection E as <- <-.
      unfold unreferenced. simpl. by repeat (apply Forall_app; split; [|by constructor]).
    - destruct (bool_decide _); injection E as <- <-; by apply unreferenced_callHost. }
  unfold unreferenced.
  pose proof (addAssetsToBundle_spec
                {| hostCalls := hostCalls st1;
                   idealBundleToLegacyBundle := jsmap_set (idealBundleToLegacyBundle st1) i h;
                   entryBundleToBundleGroup := entryBundleToBundleGroup st1 |}
                (bundle_assets b) h) as (Hcalls & _).
  rewrite Hcalls. apply Forall_app. split; [done|]. by apply Forall_fmap, Forall_true.
Qed.

Section asset_reference_calls.
Variable getIncomingDependencies : string → list Dependency.
Variable hasDependency : nat → Dependency → bool.

Lemma internalizeDependencies_unreferenced (st st' : Decoration) (entry : nat * Bundle) :
  unreferenced st →
  internalizeDependencies getIncomingDependencies hasDependency st entry = Ok st' →
  unreferenced st'.
Proof.
  intros Hst. unfold internalizeDependencies. intros H. bind_inv H. injection H as <-.
  apply foldl_unreferenced; [|done]. intros s internalized Hs.
  apply foldl_unreferenced; [|done]. intros s' incomingDep Hs'.
  destruct (_ && _); [by apply unreferenced_callHost|done].
Qed.

Lemma addSiblingsToGroup_unreferenced (idealGraph : IdealGraph) (st st' : Decoration)
    (entry : nat * nat) :
  unreferenced st → addSiblingsToGroup idealGraph st entry = Ok st' → unreferenced st'.
Proof.
  intros Hst. unfold addSiblingsToGroup. destruct entry as [bundleId bundleGroup].
  intros H. bind_inv H. bind_inv H.
  eapply (foldM_invariant unreferenced); [| |exact H]; [|done].
  intros s id s' _ Hs Hid. bind_inv Hid. bind_inv Hid. injection Hid as <-.
  by apply unreferenced_callHost.
Qed.

(** The inner loop over the pairs of one asset. *)
Lemma createAssetReferences_spec (st st' : Decoration)
    (entry : Asset * list (Dependency * nat)) :
  createAssetReferences st entry = Ok st' →
  idealBundleToLegacyBundle st' = idealBundleToLegacyBundle st ∧
  ∃ calls, hostCalls st' = hostCalls st ++ calls ∧
           Forall2 (referenceCallOf (idealBundleToLegacyBundle st)) calls
                   ((λ reference, (entry.1, reference)) <$> entry.2).
Proof.
  unfold createAssetReferences. destruct entry as [asset references]. cbn [fst snd].
  revert st. induction references as [|reference references IH]; intros st H; simpl in H.
  - injection H as <-. split; [done|]. exists []. by rewrite app_nil_r.
  - bind_inv H. bind_inv E. injection E as <-. rename x0 into h.
    apply IH in H as (Hmap & calls & Hcalls & Hall). cbn [callHost snd] in *.
    split; [done|]. exists (CreateAssetReference reference.1 asset h :: calls).
    split; [by rewrite Hcalls; simpl; rewrite <- app_assoc|]. constructor; [|done].
    exists h. split; [|done]. cbn [snd fst].
    by destruct (jsmap_get (idealBundleToLegacyBundle st) reference.2); simplify_eq/=.
Qed.

Lemma foldM_createAssetReferences_spec (st st' : Decoration)
    (assetReference : list (Asset * list (Dependency * nat))) :
  foldM createAssetReferences assetReference st = Ok st' →
  ∃ calls, hostCalls st' = hostCalls st ++ calls ∧
           Forall2 (referenceCallOf (idealBundleToLegacyBundle st)) calls
                   (referencePairs assetReference).
Proof.
  revert st. induction assetReference as [|entry l IH]; intros st H; simpl in H.
  - injection H as <-. exists []. by rewrite app_nil_r.
  - bind_inv H. apply createAssetReferences_spec in E as (Hmap & calls1 & Hcalls1 & Hall1).
    apply IH in H as (calls2 & Hcalls2 & Hall2). rewrite Hmap in Hall2.
    exists (calls1 ++ calls2). split; [by rewrite Hcalls2, Hcalls1, <- app_assoc|].
    unfold referencePairs. cbn [mbind list_bind]. by apply Forall2_app.
Qed.

(** When [decorateLegacyGraph] returns, the calls of [createAssetReference]
    are its last calls: one for each pair of [assetReference], in the order
    of the map and of its lists, with the dependency and the asset of the pair
    and the legacy bundle that was made for its bundle. *)
Theorem asset_references_are_created_last (idealGraph : IdealGraph)
    (calls : list HostCall) :
  decorateLegacyGraph getIncomingDependencies hasDependency idealGraph = Ok calls →
  ∃ (legacy : list (nat * nat)) (before references : list HostCall),
    calls = before ++ references ∧
    Forall (λ c, isReferenceCall c = false) before ∧
    (∀ i b, getNode (ideal_bundleGraph idealGraph) i = Some b →
       ∃ h, jsmap_get legacy i = Some h ∧
            before !! h = Some (CreateBundle (legacyBundleOpts idealGraph i b))) ∧
    Forall2 (referenceCallOf legacy) references
            (referencePairs (ideal_assetReference idealGraph)).
Proof.
  unfold decorateLegacyGraph. intros H. bind_inv H. bind_inv H. bind_inv H. bind_inv H.
  injection H as <-. rename x into st1, x0 into st2, x1 into st3, x2 into st4.
  assert (unreferenced st3) as Hnone.
  { eapply (foldM_invariant unreferenced); [| |exact E1].
    { intros s e s' _ Hs. by apply addSiblingsToGroup_unreferenced. }
    eapply (foldM_invariant unreferenced); [| |exact E0].
    { intros s e s' _ Hs. by apply internalizeDependencies_unreferenced. }
    eapply (foldM_invariant unreferenced); [| |exact E].
    { intros s e s' _ Hs. by apply decorateBundle_unreferenced. }
    constructor. }
  assert (decoratedLater st1 st3) as [Hlegacy (more & Hcalls & _)].
  { eapply decoratedLater_trans.
    - eapply foldM_decoratedLater; [|exact E0]. intros ? ? ?.
      apply internalizeDependencies_later.
    - eapply foldM_decoratedLater; [|exact E1]. intros ? ? ?.
      apply addSiblingsToGroup_later. }
  apply decorateBundles_decorated in E as (_ & _ & Hmade & _).
  apply foldM_createAssetReferences_spec in E2 as (references & Hrefs & Hall).
  exists (idealBundleToLegacyBundle st3), (hostCalls st3), references.
  split; [done|]. split; [done|]. split; [|done].
  intros i b Hb%elem_of_nodeEntries. destruct (Hmade _ _ Hb) as (h & Hget & Hcall).
  exists h. rewrite Hlegacy, Hcalls. split; [done|]. by apply lookup_app_l_Some.
Qed.
End asset_reference_calls.

Lemma asset_references_are_created_last_witness :
  ∃ idealGraph calls,
    createIdealGraph stylesheetImportedTwice http2 = Ok idealGraph ∧
    decorateLegacyGraph (λ _, []) (λ _ _, false) idealGraph = Ok calls ∧
    drop 11 calls
    = [CreateAssetReference (mkDependency "d2" sync false None)
         (mkAsset "S" "css" None 7) 5;
       CreateAssetReference (mkDependency "d1" sync false None)
         (mkAsset "S" "css" None 7) 7] ∧
    ∃ (legacy : list (nat * nat)) (before references : list HostCall),
      calls = before ++ references ∧
      Forall (λ c, isReferenceCall c = false) before ∧
      (∀ i b, getNode (ideal_bundleGraph idealGraph) i = Some b →
         ∃ h, jsmap_get legacy i = Some h ∧
              before !! h = Some (CreateBundle (legacyBundleOpts idealGraph i b))) ∧
      Forall2 (referenceCallOf legacy) references
              (referencePairs (ideal_assetReference idealGraph)).
Proof.
  do 2 eexists. split; [vm_compute; reflexivity|]. split; [vm_compute; reflexivity|].
  split; [vm_compute; reflexivity|].
  apply (asset_references_are_created_last (λ _, []) (λ _ _, false)).
  vm_compute; reflexivity.
Defined.
